(* ===== verification/_CoqProject ===== *)
-Q . S2P
Prelude.v
Decimal.v
TileKey.v
TileKeyFacts.v
TileLevels.v
TileText.v
TileTree.v
SubTiles.v
LruCache.v
LruFacts.v
LruSpec.v
InMemoryCache.v
InMemoryFacts.v
InMemorySpec.v
Http.v
DiskCache.v
DefaultCache.v
DiskFacts.v
CacheExamples.v
SizeLimit.v
Hrn.v
Url.v
PriorityQueue.v
QueueDecorator.v
QueueFacts.v
NetworkClient.v
NetworkFacts.v
OlpClient.v
OlpClientFacts.v
MultiRequest.v
MultiRequestFacts.v
PrefetchTiles.v
ReadModel.v
ReadCache.v
ReadRepositories.v
ReadFacts.v
ReadSpec.v
ReadPrefetch.v
ReadOffline.v
PrefetchOffline.v
ReadExamples.v
CatalogClient.v
CatalogClientFacts.v
ThreadPool.v
ThreadPoolFacts.v
ThreadSafeQueue.v
StreamQueue.v
StreamQueueFacts.v
TaskLists.v
AutoFlush.v
AutoFlushFacts.v
LayerClients.v
VersionedClient.v
VolatileClient.v
IndexClient.v
StreamPublish.v
LayerClientsFacts.v
LayerPublish.v
LayerExamples.v
StreamPublishFacts.v
Crypto.v
Fips180.v
CryptoFacts.v
Base64.v
SignInResults.v
AuthenticationClient.v
AuthenticationFacts.v
OAuth.v
TokenEndpoint.v
TokenFacts.v
AuthenticationExamples.v
HttpTypes.v
CurlHandle.v
NetworkCurl.v
CurlReceptionFacts.v
NetworkCurlFacts.v
NetworkCurlRequests.v
NetworkCurlExamples.v
Logging.v
Process.v
