(* ===== verification/Prelude.v ===== *)
(** * HERE OLP Edge SDK: a verification library

    The HERE OLP Edge SDK is a C++ library with which devices read and write the
    catalogs of the HERE Open Location Platform: a core (caches, HTTP, tiles), a read
    client, a write client and an authentication client.  This library translates the
    parts of it that decide something into Rocq functions and step relations and proves
    what makes them correct.  File names below are under [olp-cpp-sdk-core], or under
    [olp-cpp-sdk-dataservice-read] and [-write] where it says so.

    ** How the parts of the program interact

    A call of the read client ([CatalogClientImpl]) registers itself with the pending
    requests, asks a repository, and the repositories answer from the cache
    ([DefaultCache]: [InMemoryCache] over [LruCache], then [DiskCache] over LevelDB)
    or from web services.  Equal requests are shared ([MultiRequestContext]).  A web
    call goes through [OlpClient] (retries, cancellation) and [Network] to a protocol,
    between which a decorator may queue requests by priority.  A prefetch selects quad
    trees of tiles ([TileKey]), asks for their partitions and puts their data into the
    cache.  The writer publishes data to layers, through batches or at once; it queues
    data of stream layers in the same cache and flushes it later, by hand or by timers.
    Work is scheduled on a thread pool.  The tokens that authorise the requests come from
    [AuthenticationClient], whose own requests are signed, through [AutoRefreshingToken].

    ** Files

    - [Prelude] (this file): machine integers with their wrap-around, and lemmas on
      bits, lists and options all parts share.  [Decimal]: printing and parsing of
      decimal numbers as the C++ library does it; [text] is a list of characters.
    - Tiles ([src/geo/tiling]): [TileKey] (keys, Morton codes, text forms), with
      [TileKeyFacts] (round trip of the 64-bit form), [TileText] (text forms),
      [TileTree] (parents, children, sub keys and relative keys), [TileLevels]
      (level sets) and [SubTiles] (enumeration of sub tiles, subdivision schemes).
    - The caches: [LruCache] ([utils/LruCache.h], a map whose buckets are linked by
      iterators) with [LruFacts] (the linked chain) and [LruSpec] (refinement of an
      abstract list of items, safety); [InMemoryCache] with [InMemoryFacts] and
      [InMemorySpec]; [DiskCache] and [DefaultCache] with [DiskFacts], applied to a database in memory in [CacheExamples];
      [SizeLimit] ([cache/DiskCacheSizeLimit.h]).
    - Text and codes: [Http] (status and error codes, [NetworkUtils.cpp]), [Hrn]
      ([client/HRN.cpp], [Tokenizer.h]), [Url] ([utils/Url.cpp]).
    - The network: [PriorityQueue] ([NetworkRequestPriorityQueue]), [QueueDecorator]
      with [QueueFacts] ([NetworkRequestPriorityQueueDecorator.cpp], a transition
      system of the caller, the worker and the protocol), [NetworkClient] with
      [NetworkFacts] ([network/Network.cpp]), [OlpClient] with [OlpClientFacts]
      ([client/OlpClient.cpp], [CancellationContext.inl]).
    - The default network ([src/http]): [HttpTypes] (requests, settings, responses),
      [CurlHandle] (one request of [curl/NetworkCurl.cpp]: its handle and options, the
      callbacks for header and body, status and retry) with [CurlReceptionFacts];
      [NetworkCurl] (the whole network: the calls, the worker, libcurl and the lifetime of
      the object) with [NetworkCurlFacts] (the invariant),
      [NetworkCurlRequests] (what clients may rely on) and [NetworkCurlExamples].
    - The read client: [MultiRequest] with [MultiRequestFacts]
      ([MultiRequestContext.h]); [ReadModel] (requests and their keys, the cache as a
      class with its laws, a state and exception monad), [ReadCache] (the four cache
      repositories), [ReadRepositories] ([ApiClientLookup], [ApiRepository],
      [CatalogRepository], [PartitionsRepository], [DataRepository]), [PrefetchTiles]
      and [ReadPrefetch] ([PrefetchTilesRepository], [PrefetchTilesProvider]);
      their theorems are in [ReadFacts] (rules of the monad and of each function),
      [ReadSpec] (sequences of requests), [ReadOffline] and [PrefetchOffline]
      (what can be read without the network) and [ReadExamples] (a concrete catalog).  [CatalogClient] with
      [CatalogClientFacts]: [PendingRequests.cpp] and [CatalogClientImpl.cpp] as
      calls that are interleaved turn by turn.
    - Threads: [ThreadPool] with [ThreadPoolFacts] ([thread/SyncQueue.inl],
      [ThreadPoolTaskScheduler.cpp]).
    - The writer: [ThreadSafeQueue] (its queues and flush times), [StreamQueue] with
      [StreamQueueFacts] ([StreamLayerClientImpl.cpp]: the queue kept in a cache),
      [AutoFlush] with [AutoFlushFacts] ([AutoFlushController.cpp]: its timers, flush
      threads and cancellation), [TaskLists] ([CancellationTokenList.cpp],
      [BackgroundTaskCollection.cpp]), [LayerClients] (what the layer clients share:
      lookups, tasks, web calls), [VersionedClient], [VolatileClient], [IndexClient]
      (the functions of these clients) and [StreamPublish] (publishing to stream
      layers); their theorems are in [LayerClientsFacts] (tasks), [LayerPublish]
      (initialisation and order of publishing), [StreamPublishFacts], and on a concrete
      catalog in [LayerExamples].
    - Authentication ([olp-cpp-sdk-authentication]): [Crypto] ([Crypto.cpp]) with
      [CryptoFacts], proved against the standards in [Fips180]; [Base64]
      ([utils/Base64.cpp]); [SignInResults] ([BaseResult.cpp], [SignInResultImpl.cpp] and
      their like); [AuthenticationClient] (signatures, bodies, the
      shared network and the caches of results) with [AuthenticationFacts] and, for the
      signatures, [OAuth]; [TokenEndpoint] ([TokenEndpoint.cpp],
      [AutoRefreshingToken.cpp]) with [TokenFacts]; concrete runs in
      [AuthenticationExamples].
    - The process: [Logging] ([src/logging]: levels of tags, files of filters, the text of
      messages, appenders) and [Process] ([context/Context.cpp], [utils/Credentials.cpp],
      [network/Settings.cpp], [utils/Dir.cpp]).

    ** How state and operations are modelled

    Each component has its fields as a Record and one definition per operation.
    Integers keep their width through [wrap] and [swrap]; an exception, a failed
    assertion, an invalid iterator or an exhausted fuel is the result [None].  Code that
    is not here is a parameter: LevelDB and the file system (class [Platform] with the
    documented laws [DatabaseLaws], and [FileEnv]), the JSON library (class [Json]), the
    iterators of Boost (class [BoostBase64]), libcurl (the labels of the steps of
    [NetworkCurl], with what it documents of them), the key-value cache of the
    repositories (classes [KeyValueCache], [SoundCache], [LosslessCache] of [ReadModel]) and
    of the stream queue ([RefusingCache]: it may refuse to store), the web API
    (records [Backend] and [WebBackend], any answers), the protocol and the network handler (chosen by
    the step or by a function).  Threads are transition systems: an action is one
    critical section, and theorems hold for every sequence of actions.  A C++ callback
    is the result of the function, a log in the state, or an event.

    ** What the theorems show

    - Refinement: the LRU cache is indistinguishable from a list of items, the
      stream queue from a first-in first-out list as long as the cache refuses nothing
      (what a refusal does to it is stated too), and the authentication client from one
      that remembers its last results in a list.
    - Equivalence with standards: the digests of FIPS 180-4 and 198-1, the signatures of
      RFC 5849 and for which keys they differ.
    - The token current when a call goes on without a request stays valid for the time its
      fetcher asked for, unless it has just been received; a blocking call returns what was
      received last; blocking refreshes exclude each other, every call ends; a sign-in
      result is valid, and has the status 200, exactly if the document brings a token.
    - Nothing is lost, nothing is answered twice: [OlpClient] calls, shared requests,
      the priority decorator, the network singleton, the calls of the catalog client,
      the tasks of the thread pool, the flushes of the automatic flush; the thread pool
      also starts every task under a fair schedule and ends when it is closed, and a
      stream client answers every request unless a lookup lists no URL.
    - The curl network calls the callback of a request at most once and strands no request;
      it sends one at most once more than its retries, does with every line of the
      header what its name says, and delivers a body in full whatever its parts are.
    - The writer publishes no metadata before its data, reports a large request as
      published only after all its steps, and releases its tasks; cancelled timers end
      and no timer spins.
    - Bytes put into a cache with a disk part are read back while they are alive, whatever
      is done with other keys and whatever the memory cache evicts.
    - The read client answers and caches only what the network or the cache said, under the
      key and for the version that was asked for; its cached values keep their types; offline requests stay offline; what a prefetch
      fetched can be read offline; a prefetch selects exactly the related tiles.
    - A file of filters decides what is logged and by which appenders; a logged address does
      not show the first values of its credentials; the callbacks of the context alternate.
    - Round trips: 64-bit, quad-key and HERE-tile forms of keys, HRNs, percent
      encoding.  Bounds: flush delays, size accounting, expiry times.
    - Defects: theorems that state what the code does where that is not what it says
      it does, such as callers lost by a cancellation, a destructor that does not end,
      an update in the background that updates nothing, an initialisation that stays stuck,
      a cancellation that hits the next request of a handle.

    ** Fuel

    [prefetch_fuel] is 65 and suffices for every selection of tiles with a lower level of
    at least 1 ([PrefetchTiles]); with level 0 the code does not end and no fuel
    suffices.  Loops over a map or a list ([LruCache], [InMemoryCache], [SubTiles],
    [Url]) have its length or one more as fuel; loops over the bits of a key
    ([TileKey]) the width of a key; decimal printing has 20 digits, the most of a
    64-bit number; [Fips180.cube_root_from] starts at bit 40, above the cube roots of the
    first primes shifted by 96 bits; [OlpClient.retry_fuel] is the number of attempts allowed plus one.
    [Logging.load] has the length of the file plus one, [Logging.printf] that of the format;
    the theorems show that none of them runs out, except that a format of a time without
    text needs more than any fuel.  [MultiRequest.destroy] and
    [StreamQueue.Flush] take their fuel as an argument: the loop of the destructor need
    not end, and that of the flush ends within the length of the queue if the cache
    refuses nothing, and never if it refuses everything.

    ** Not modelled

    The older protocol around curl ([src/network/curl]) and those around WinHTTP, Android and
    iOS (glue around those libraries); pipes, sockets and waits of the curl network;
    generated web-API classes, JSON parsers and serializers; trigonometric geometry and
    projections (floating point of libm); what [strftime] writes, conversions of [printf]
    other than those of text and numbers with a width, the debugger output of Windows;
    the removal of directories; setters, getters and forwarding facades. *)

From stdpp Require Import base numbers list gmap strings option.
From Stdlib Require Import ZArith Lia Bool Ascii.

Declare Scope olp_scope.
Delimit Scope olp_scope with olp.

(** ** Machine integers

    A value of a w-bit unsigned C++ type is a [Z] in [0 .. 2^w); arithmetic
    that may leave the range is followed by [wrap w].  A signed value is a [Z]
    in [-2^(w-1) .. 2^(w-1)); conversions to a signed type go through
    [swrap w] (two's complement). *)
Local Open Scope Z_scope.

Definition wrap (w z : Z) : Z := z mod 2 ^ w.
Definition swrap (w z : Z) : Z :=
  let u := wrap w z in if u <? 2 ^ (w - 1) then u else u - 2 ^ w.

Notation "'u8' z" := (wrap 8 z) (at level 10, z at level 9) : olp_scope.
Notation "'u16' z" := (wrap 16 z) (at level 10, z at level 9) : olp_scope.
Notation "'u32' z" := (wrap 32 z) (at level 10, z at level 9) : olp_scope.
Notation "'u64' z" := (wrap 64 z) (at level 10, z at level 9) : olp_scope.
Notation "'s32' z" := (swrap 32 z) (at level 10, z at level 9) : olp_scope.
Notation "x '<<32' n" := (wrap 32 (Z.shiftl x n)) (at level 35) : olp_scope.
Notation "x '<<64' n" := (wrap 64 (Z.shiftl x n)) (at level 35) : olp_scope.
Notation "x '>>' n" := (Z.shiftr x n) (at level 35) : olp_scope.
Infix "&&&" := Z.land (at level 40, left associativity) : olp_scope.
Infix "|||" := Z.lor (at level 50, left associativity) : olp_scope.

(** [in_range w z]: [z] is a value of the unsigned w-bit type. *)
Definition in_range (w z : Z) : Prop := 0 <= z < 2 ^ w.
Definition size_max : Z := 2 ^ 64 - 1.
Definition time_max : Z := 2 ^ 63 - 1.

#[global] Instance in_range_dec w z : Decision (in_range w z).
Proof. unfold in_range. apply _. Defined.

Create HintDb olp discriminated.
Create Rewrite HintDb olp_simpl.
Create Rewrite HintDb olp_bits.

Lemma wrap_range w z : 0 <= w -> in_range w (wrap w z).
Proof. intros. apply Z.mod_pos_bound, Z.pow_pos_nonneg; lia. Qed.

Lemma wrap_small w z : in_range w z -> wrap w z = z.
Proof. intros. by apply Z.mod_small. Qed.

Lemma wrap_wrap w z : wrap w (wrap w z) = wrap w z.
Proof. unfold wrap. apply Zmod_mod. Qed.

Lemma wrap_add_l w a b : wrap w (wrap w a + b) = wrap w (a + b).
Proof. apply Zplus_mod_idemp_l. Qed.

Lemma wrap_add_r w a b : wrap w (a + wrap w b) = wrap w (a + b).
Proof. apply Zplus_mod_idemp_r. Qed.

Lemma wrap_sub_l w a b : wrap w (wrap w a - b) = wrap w (a - b).
Proof. apply Zminus_mod_idemp_l. Qed.

Lemma wrap_sub_r w a b : wrap w (a - wrap w b) = wrap w (a - b).
Proof. apply Zminus_mod_idemp_r. Qed.

Lemma swrap_small w z : 0 < w -> - 2 ^ (w - 1) <= z < 2 ^ (w - 1) -> swrap w z = z.
Proof.
  intros Hw Hz. unfold swrap, wrap.
  assert (2 ^ w = 2 * 2 ^ (w - 1)) as E
    by (rewrite <- Z.pow_succ_r by lia; f_equal; lia).
  destruct (Z.lt_ge_cases z 0).
  - replace (z mod 2 ^ w) with (z + 2 ^ w)
      by (apply (Z.mod_unique_pos _ _ (-1)); lia).
    destruct (Z.ltb_spec (z + 2 ^ w) (2 ^ (w - 1))); lia.
  - rewrite Z.mod_small by lia.
    destruct (Z.ltb_spec z (2 ^ (w - 1))); lia.
Qed.

(** A signed conversion of a wrapped value only depends on its residue. *)
Lemma swrap_wrap w z : swrap w (wrap w z) = swrap w z.
Proof. unfold swrap. by rewrite wrap_wrap. Qed.

#[export] Hint Rewrite wrap_wrap wrap_add_l wrap_add_r wrap_sub_l wrap_sub_r
  swrap_wrap : olp_simpl.
#[export] Hint Resolve wrap_range : olp.

(** ** Bits *)

Lemma testbit_wrap w z i :
  0 <= w -> 0 <= i -> Z.testbit (wrap w z) i = (i <? w) && Z.testbit z i.
Proof.
  intros Hw Hi. unfold wrap. destruct (Z.ltb_spec i w).
  - by rewrite Z.mod_pow2_bits_low.
  - by rewrite Z.mod_pow2_bits_high by lia.
Qed.

(** Bits at or above the width of a bounded number are zero. *)
Lemma testbit_high n z i : 0 <= z < 2 ^ n -> n <= i -> Z.testbit z i = false.
Proof.
  intros Hz Hi. destruct (Z.lt_ge_cases n 0).
  - rewrite Z.pow_neg_r in Hz by lia. lia.
  - rewrite <- (Z.mod_small z (2 ^ n)) by done. by rewrite Z.mod_pow2_bits_high by lia.
Qed.

Lemma shiftl_range n m z : 0 <= n -> 0 <= m -> 0 <= z < 2 ^ n -> 0 <= Z.shiftl z m < 2 ^ (n + m).
Proof.
  intros. rewrite Z.shiftl_mul_pow2, Z.pow_add_r by lia.
  assert (0 < 2 ^ m) by (apply Z.pow_pos_nonneg; lia). nia.
Qed.

Lemma shiftr_range n m z : 0 <= m -> 0 <= z < 2 ^ (n + m) -> 0 <= n -> 0 <= Z.shiftr z m < 2 ^ n.
Proof.
  intros Hm Hz Hn. rewrite Z.shiftr_div_pow2 by lia. rewrite Z.pow_add_r in Hz by lia.
  assert (0 < 2 ^ m) by (apply Z.pow_pos_nonneg; lia).
  split; [apply Z.div_pos; lia | apply Z.div_lt_upper_bound; lia].
Qed.

Lemma pow2_le a b : 0 <= a <= b -> 2 ^ a <= 2 ^ b.
Proof. intros. apply Z.pow_le_mono_r; lia. Qed.

Lemma pow2_pos a : 0 <= a -> 0 < 2 ^ a.
Proof. intros. apply Z.pow_pos_nonneg; lia. Qed.

#[export] Hint Resolve pow2_pos pow2_le shiftl_range shiftr_range : olp.

(** [u32 (1 << n)] for a shift inside the width. *)
Lemma shl_one w n : 0 <= n < w -> wrap w (Z.shiftl 1 n) = 2 ^ n.
Proof.
  intros. rewrite Z.shiftl_1_l. apply wrap_small. split; [lia|].
  apply Z.pow_lt_mono_r; lia.
Qed.

(** A left shift that stays inside the width loses nothing. *)
Lemma shl_small w n m z :
  0 <= n -> 0 <= m -> n + m <= w -> 0 <= z < 2 ^ n -> wrap w (Z.shiftl z m) = Z.shiftl z m.
Proof.
  intros. apply wrap_small. pose proof (shiftl_range n m z).
  pose proof (pow2_le (n + m) w). unfold in_range. lia.
Qed.

Lemma in_range_mono a b z : 0 <= a <= b -> in_range a z -> in_range b z.
Proof. unfold in_range. intros. pose proof (pow2_le a b). lia. Qed.

(** C's test [if (z & m)]. *)
Definition flag (z m : Z) : bool := negb (Z.land z m =? 0).

Lemma flag_pow2 z n : 0 <= n -> flag z (2 ^ n) = Z.testbit z n.
Proof.
  intros Hn. unfold flag. destruct (Z.testbit z n) eqn:E.
  - apply negb_true_iff, Z.eqb_neq. intros H.
    apply (f_equal (fun x => Z.testbit x n)) in H.
    rewrite Z.land_spec, Z.pow2_bits_true, E, Z.testbit_0_l in H by lia. done.
  - apply negb_false_iff, Z.eqb_eq. apply Z.bits_inj'. intros i Hi.
    rewrite Z.land_spec, Z.testbit_0_l. destruct (Z.eq_dec i n) as [->|].
    + by rewrite E.
    + rewrite Z.pow2_bits_false by lia. by rewrite andb_false_r.
Qed.

(** A number whose bits vanish from [w] on is in range. *)
Lemma in_range_bits w z :
  0 <= w -> (forall i, w <= i -> Z.testbit z i = false) -> in_range w z.
Proof.
  intros Hw Hz. replace z with (wrap w z); [by apply wrap_range|].
  apply Z.bits_inj'. intros i Hi. rewrite testbit_wrap by done.
  destruct (Z.ltb_spec i w); [done|]. by rewrite Hz.
Qed.

Lemma lor_range w a b : 0 <= w -> in_range w a -> in_range w b -> in_range w (Z.lor a b).
Proof.
  intros Hw Ha Hb. apply in_range_bits; [done|]. intros i Hi.
  by rewrite Z.lor_spec, (testbit_high w a), (testbit_high w b).
Qed.

Lemma land_range w a b : 0 <= w -> in_range w b -> in_range w (Z.land a b).
Proof.
  intros Hw Hb. apply in_range_bits; [done|]. intros i Hi.
  by rewrite Z.land_spec, (testbit_high w b), andb_false_r.
Qed.

#[export] Hint Resolve lor_range land_range : olp.

(** A set bit bounds a number from below. *)
Lemma testbit_le z i : 0 <= z -> Z.testbit z i = true -> 2 ^ i <= z.
Proof.
  intros Hz Hb. apply Z.nlt_ge. intros ?. rewrite (testbit_high i) in Hb by lia. done.
Qed.

(** A left shift peels off its lowest bit. *)
Lemma shiftl_peel x l :
  0 <= l ->
  Z.shiftl x l = Z.lor (if Z.testbit x 0 then 2 ^ l else 0) (Z.shiftl (Z.shiftr x 1) (l + 1)).
Proof.
  intros Hl. apply Z.bits_inj'. intros i Hi.
  rewrite Z.lor_spec, !Z.shiftl_spec by lia.
  replace (Z.testbit (if Z.testbit x 0 then 2 ^ l else 0) i)
    with ((i =? l) && Z.testbit x 0).
  2:{ destruct (Z.testbit x 0); rewrite ?andb_true_r, ?andb_false_r.
      - by rewrite Z.pow2_bits_eqb, Z.eqb_sym.
      - by rewrite Z.testbit_0_l. }
  destruct (Z.lt_trichotomy i l) as [H|[->|H]].
  - rewrite (Z.testbit_neg_r _ (i - l)), (Z.testbit_neg_r _ (i - (l + 1))) by lia.
    by replace (i =? l) with false by lia.
  - rewrite Z.eqb_refl, Z.sub_diag. rewrite (Z.testbit_neg_r _ (l - (l + 1))) by lia.
    by rewrite orb_false_r.
  - replace (i =? l) with false by lia. rewrite Z.shiftr_spec by lia. simpl. f_equal; lia.
Qed.

(** Bits put below a shifted number are added to it. *)
Lemma lor_shiftl_add x b n :
  0 <= n -> 0 <= b < 2 ^ n -> Z.lor (Z.shiftl x n) b = x * 2 ^ n + b.
Proof.
  intros Hn Hb.
  assert (Z.land (Z.shiftl x n) b = 0) as Hd.
  { apply Z.bits_inj'. intros i Hi. rewrite Z.land_spec, Z.shiftl_spec, Z.testbit_0_l by done.
    destruct (Z.lt_ge_cases i n); [by rewrite Z.testbit_neg_r by lia|].
    by rewrite (testbit_high n b i), andb_false_r. }
  rewrite <- Z.lxor_lor, <- Z.add_nocarry_lxor by done. by rewrite Z.shiftl_mul_pow2.
Qed.

(** ** Lists *)

(** A sublist of the same length is the list. *)
Lemma sublist_same_length {A} (l k : list A) : l `sublist_of` k -> length l = length k -> l = k.
Proof.
  induction 1 as [|x l k H IH|x l k H IH]; simpl; intros E; [done|by rewrite IH by lia|].
  apply sublist_length in H. lia.
Qed.

(** A filter that nothing fails keeps the list. *)
Lemma list_filter_all {A} (P : A -> Prop) `{forall x, Decision (P x)} (l : list A) :
  Forall P l -> filter P l = l.
Proof.
  induction 1 as [|x l Hx _ IH]; [done|]. by rewrite filter_cons_True, IH.
Qed.
