(* ===== verification/Decimal.v ===== *)
(** * Decimal text of integers

    The conversions of the C++ standard library that the SDK uses on decimal
    text: [operator<<(std::dec)] and [std::to_string] (printing), [strtoull]
    and [std::stol] (parsing).  Text is a list of characters. *)

From stdpp Require Import base numbers list strings.
From Stdlib Require Import ZArith Lia Bool Ascii String.
From S2P Require Import Prelude.

Local Open Scope Z_scope.
Local Open Scope olp_scope.

Abbreviation text := (list ascii).

(** A string literal as text. *)
Definition str (s : String.string) : text := String.list_ascii_of_string s.

Definition char_code (c : ascii) : Z := Z.of_N (N_of_ascii c).
Definition char_of (z : Z) : ascii := ascii_of_N (Z.to_N z).

(** [isspace] and [isdigit] in the C locale. *)
Definition is_space (c : ascii) : bool :=
  let n := char_code c in (n =? 32) || ((9 <=? n) && (n <=? 13)).
Definition is_digit (c : ascii) : bool :=
  let n := char_code c in (48 <=? n) && (n <=? 57).

(** [c_str()]: a C string ends at its first NUL. *)
Fixpoint c_str (s : text) : text :=
  match s with c :: t => if char_code c =? 0 then [] else c :: c_str t | [] => [] end.

(** [std::tolower] in the C locale *)
Definition tolower (c : ascii) : ascii :=
  if (65 <=? char_code c) && (char_code c <=? 90) then char_of (char_code c + 32) else c.

(** ** Printing *)

Definition digit_char (d : Z) : ascii := char_of (48 + d).

Fixpoint dec_digits (fuel : nat) (n : Z) : text :=
  match fuel with
  | O => []
  | S f => if n <? 10 then [digit_char n]
           else dec_digits f (n / 10) ++ [digit_char (n mod 10)]
  end.

(** A 64-bit number has at most 20 decimal digits. *)
Definition print_u64 (n : Z) : text := dec_digits 20 n.
Definition print_s64 (n : Z) : text :=
  if n <? 0 then char_of 45 :: print_u64 (- n) else print_u64 n.

(** ** Parsing *)

(** The value of the leading digits, and whether there was one. *)
Fixpoint read_digits (acc : Z) (seen : bool) (s : text) : Z * bool :=
  match s with
  | c :: t => if is_digit c then read_digits (10 * acc + (char_code c - 48)) true t
              else (acc, seen)
  | [] => (acc, seen)
  end.

Fixpoint skip_space (s : text) : text :=
  match s with
  | c :: t => if is_space c then skip_space t else s
  | [] => []
  end.

(** An optional sign: (is it a minus, the rest). *)
Definition read_sign (s : text) : bool * text :=
  match s with
  | c :: t => if char_code c =? 45 then (true, t)
              else if char_code c =? 43 then (false, t) else (false, s)
  | [] => (false, [])
  end.

Definition read_number (s : text) : bool * (Z * bool) :=
  let '(neg, rest) := read_sign (skip_space s) in (neg, read_digits 0 false rest).

(** [strtoull(s, &ptr, 10)]: 0 without digits, [ULLONG_MAX] on overflow, and
    a minus sign negates modulo 2^64. *)
Definition strtoull (s : text) : Z :=
  let '(neg, (n, _)) := read_number s in
  if n >? size_max then size_max else if neg then u64 (- n) else n.

(** [std::stol(s)]: [None] is the exception it throws without digits or when
    the value does not fit a [long]. *)
Definition stol (s : text) : option Z :=
  let '(neg, (n, seen)) := read_number s in
  let v := if neg then - n else n in
  if negb seen then None
  else if (v <? - 2 ^ 63) || (v >? time_max) then None else Some v.

(** ** Round trips *)

Lemma char_code_of z : 0 <= z < 256 -> char_code (char_of z) = z.
Proof.
  intros. unfold char_code, char_of. rewrite N_ascii_embedding by lia. lia.
Qed.

Lemma char_of_code c : char_of (char_code c) = c.
Proof. unfold char_code, char_of. rewrite N2Z.id. apply ascii_N_embedding. Qed.

Lemma char_code_range c : 0 <= char_code c < 256.
Proof. unfold char_code. pose proof (N_ascii_bounded c). lia. Qed.

Lemma digit_char_code d : 0 <= d < 10 -> char_code (digit_char d) = 48 + d.
Proof. intros. apply char_code_of. lia. Qed.

Lemma digit_char_is_digit d : 0 <= d < 10 -> is_digit (digit_char d) = true.
Proof.
  intros. unfold is_digit. rewrite digit_char_code by done.
  apply andb_true_iff; split; apply Z.leb_le; lia.
Qed.

Lemma read_digits_print fuel n seen t :
  0 <= n < 10 ^ Z.of_nat fuel ->
  (0 < fuel)%nat ->
  read_digits 0 seen (dec_digits fuel n ++ t) = read_digits n true t.
Proof.
  revert n seen t. induction fuel as [|f IH]; intros n seen t Hn Hf; [lia|].
  simpl dec_digits. destruct (Z.ltb_spec n 10).
  - simpl. rewrite digit_char_is_digit, digit_char_code by lia. f_equal; lia.
  - rewrite <- app_assoc.
    assert (0 <= n / 10 < 10 ^ Z.of_nat f) as Hdiv.
    { rewrite Nat2Z.inj_succ, Z.pow_succ_r in Hn by lia.
      split; [apply Z.div_pos; lia | apply Z.div_lt_upper_bound; lia]. }
    assert (0 < f)%nat.
    { destruct f; [|lia]. change (10 ^ Z.of_nat 0) with 1 in Hdiv.
      assert (1 <= n / 10) by (apply Z.div_le_lower_bound; lia). lia. }
    rewrite IH by done. simpl.
    pose proof (Z.mod_pos_bound n 10 ltac:(lia)).
    rewrite digit_char_is_digit, digit_char_code by lia.
    f_equal. pose proof (Z.div_mod n 10 ltac:(lia)). lia.
Qed.

Lemma dec_digits_head fuel n : (0 < fuel)%nat -> 0 <= n ->
  exists c t, dec_digits fuel n = c :: t /\ (0 <= n < 10 ^ Z.of_nat fuel -> is_digit c = true).
Proof.
  revert n. induction fuel as [|f IH]; intros n Hf Hn; [lia|].
  simpl. destruct (Z.ltb_spec n 10).
  - exists (digit_char n), []. split; [done|]. intros. apply digit_char_is_digit; lia.
  - destruct f as [|f].
    + simpl. eexists _, _. split; [done|]. intros.
      apply digit_char_is_digit, Z.mod_pos_bound; lia.
    + destruct (IH (n / 10)) as (c & t & -> & Hc); [lia | apply Z.div_pos; lia |].
      exists c, (t ++ [digit_char (n mod 10)]). split; [done|]. intros Hb. apply Hc.
      split; [apply Z.div_pos; lia | apply Z.div_lt_upper_bound; [lia|]].
      rewrite Nat2Z.inj_succ, Z.pow_succ_r in Hb by lia. lia.
Qed.

Lemma digit_not_space_sign c :
  is_digit c = true -> is_space c = false /\ char_code c <> 45 /\ char_code c <> 43.
Proof.
  unfold is_digit, is_space. rewrite andb_true_iff, !Z.leb_le. intros [].
  split; [|lia]. apply orb_false_iff. rewrite Z.eqb_neq, andb_false_iff, !Z.leb_gt. lia.
Qed.

Lemma read_sign_digit c t :
  is_digit c = true -> read_sign (skip_space (c :: t)) = (false, c :: t).
Proof.
  intros Hc. destruct (digit_not_space_sign c Hc) as (Hs & H1 & H2). simpl.
  rewrite Hs. simpl. by rewrite (proj2 (Z.eqb_neq _ _) H1), (proj2 (Z.eqb_neq _ _) H2).
Qed.

Lemma u64_digits n : in_range 64 n -> 0 <= n < 10 ^ Z.of_nat 20.
Proof. intros [H0 H1]. split; [done|]. etrans; [exact H1 | done]. Qed.

Lemma read_digits_print_u64 n : in_range 64 n -> read_digits 0 false (print_u64 n) = (n, true).
Proof.
  intros Hn%u64_digits. rewrite <- (app_nil_r (print_u64 n)).
  unfold print_u64. by rewrite read_digits_print by (done || lia).
Qed.

Lemma read_number_print_u64 n : in_range 64 n -> read_number (print_u64 n) = (false, (n, true)).
Proof.
  intros Hn. rewrite <- read_digits_print_u64 by done. unfold read_number, print_u64.
  destruct (dec_digits_head 20 n) as (c & t & E & Hc); [lia | apply Hn |].
  by rewrite E, read_sign_digit by (apply Hc, u64_digits, Hn).
Qed.

Lemma read_number_minus s :
  read_number (char_of 45 :: s) = (true, read_digits 0 false s).
Proof. reflexivity. Qed.

(** Reading back a printed 64-bit number yields the number. *)
Lemma strtoull_print n : in_range 64 n -> strtoull (print_u64 n) = n.
Proof.
  intros Hn. unfold strtoull. rewrite read_number_print_u64 by done.
  unfold in_range, size_max in *. destruct (Z.gtb_spec n (2 ^ 64 - 1)); lia.
Qed.

Lemma stol_print n : - 2 ^ 63 < n <= time_max -> stol (print_s64 n) = Some n.
Proof.
  intros Hn. unfold stol, print_s64.
  assert ((n <? - 2 ^ 63) || (n >? time_max) = false) as Hr.
  { apply orb_false_iff. rewrite Z.ltb_ge, Z.gtb_ltb, Z.ltb_ge. lia. }
  unfold time_max in *. destruct (Z.ltb_spec n 0).
  - rewrite read_number_minus, read_digits_print_u64 by (unfold in_range; lia).
    by rewrite Z.opp_involutive, Hr.
  - rewrite read_number_print_u64 by (unfold in_range; lia). by rewrite Hr.
Qed.

(** ** C strings *)

Lemma c_str_length s : (List.length (c_str s) <= List.length s)%nat.
Proof. induction s as [|c s IH]; simpl; [lia|]. destruct (_ =? 0); simpl; lia. Qed.

Lemma c_str_whole s : Forall (fun c => char_code c <> 0) s -> c_str s = s.
Proof.
  induction 1 as [|c s Hc _ IH]; [done|]. simpl. destruct (Z.eqb_spec (char_code c) 0); [done|].
  by rewrite IH.
Qed.

(** Printed numbers are C strings. *)
Lemma c_str_print_u64 n : 0 <= n -> c_str (print_u64 n) = print_u64 n.
Proof.
  intros Hn. apply c_str_whole. unfold print_u64. generalize 20%nat as fuel. intros fuel.
  revert n Hn. induction fuel as [|fuel IH]; intros n Hn; simpl; [done|].
  destruct (Z.ltb_spec n 10).
  - apply Forall_singleton. rewrite digit_char_code by lia. lia.
  - apply Forall_app. split; [apply IH, Z.div_pos; lia|]. apply Forall_singleton.
    pose proof (Z.mod_pos_bound n 10 ltac:(lia)). rewrite digit_char_code by lia. lia.
Qed.
