(* ===== verification/TileKey.v ===== *)
(** * Tile keys (olp/core/geo/tiling/TileKey.h, TileKey.cpp)

    A tile of a quad tree is a (row, column, level) triple.  The file models
    the class [TileKey], its 64-bit Morton encoding, its quad-key and HERE-tile
    strings, its navigation operations and [QuadKey64Helper].

    C++ leaves a shift by at least the width of the type undefined; the model's
    shift yields 0 there, and the theorems only cover shifts inside the width. *)

From stdpp Require Import base numbers list strings.
From Stdlib Require Import ZArith Lia Bool Ascii.
From S2P Require Import Prelude Decimal.

Local Open Scope Z_scope.
Local Open Scope olp_scope.

(** ** Data *)

Definition LevelCount : Z := 32.

Record TileKey := MkTileKey { row_ : Z; column_ : Z; level_ : Z }.

#[global] Instance TileKey_eq_dec : EqDecision TileKey.
Proof. solve_decision. Defined.

(** [TileKey::TileKey()]: the invalid key. *)
Definition default_key : TileKey := MkTileKey 0 0 LevelCount.

(** Every field is a [std::uint32_t]. *)
Definition wf_key (k : TileKey) : Prop :=
  in_range 32 (row_ k) /\ in_range 32 (column_ k) /\ in_range 32 (level_ k).

Definition IsValid (k : TileKey) : bool :=
  (level_ k <? LevelCount) && (row_ k <? 1 <<32 level_ k) &&
  (column_ k <? 1 <<32 level_ k).

Definition key_eqb (a b : TileKey) : bool :=
  (level_ a =? level_ b) && (row_ a =? row_ b) && (column_ a =? column_ b).

Definition key_ltb (a b : TileKey) : bool :=
  if negb (level_ a =? level_ b) then level_ a <? level_ b
  else if negb (row_ a =? row_ b) then row_ a <? row_ b
  else column_ a <? column_ b.

Definition FromRowColumnLevel (row column level : Z) : TileKey :=
  MkTileKey row column level.

Definition RowCount (k : TileKey) : Z := 1 <<32 level_ k.
Definition ColumnCount (k : TileKey) : Z := 1 <<32 level_ k.

(** ** The 64-bit Morton encoding *)

Definition MortonTable256 : list Z :=
  [
     0x0000; 0x0001; 0x0004; 0x0005; 0x0010; 0x0011; 0x0014; 0x0015;
     0x0040; 0x0041; 0x0044; 0x0045; 0x0050; 0x0051; 0x0054; 0x0055;
     0x0100; 0x0101; 0x0104; 0x0105; 0x0110; 0x0111; 0x0114; 0x0115;
     0x0140; 0x0141; 0x0144; 0x0145; 0x0150; 0x0151; 0x0154; 0x0155;
     0x0400; 0x0401; 0x0404; 0x0405; 0x0410; 0x0411; 0x0414; 0x0415;
     0x0440; 0x0441; 0x0444; 0x0445; 0x0450; 0x0451; 0x0454; 0x0455;
     0x0500; 0x0501; 0x0504; 0x0505; 0x0510; 0x0511; 0x0514; 0x0515;
     0x0540; 0x0541; 0x0544; 0x0545; 0x0550; 0x0551; 0x0554; 0x0555;
     0x1000; 0x1001; 0x1004; 0x1005; 0x1010; 0x1011; 0x1014; 0x1015;
     0x1040; 0x1041; 0x1044; 0x1045; 0x1050; 0x1051; 0x1054; 0x1055;
     0x1100; 0x1101; 0x1104; 0x1105; 0x1110; 0x1111; 0x1114; 0x1115;
     0x1140; 0x1141; 0x1144; 0x1145; 0x1150; 0x1151; 0x1154; 0x1155;
     0x1400; 0x1401; 0x1404; 0x1405; 0x1410; 0x1411; 0x1414; 0x1415;
     0x1440; 0x1441; 0x1444; 0x1445; 0x1450; 0x1451; 0x1454; 0x1455;
     0x1500; 0x1501; 0x1504; 0x1505; 0x1510; 0x1511; 0x1514; 0x1515;
     0x1540; 0x1541; 0x1544; 0x1545; 0x1550; 0x1551; 0x1554; 0x1555;
     0x4000; 0x4001; 0x4004; 0x4005; 0x4010; 0x4011; 0x4014; 0x4015;
     0x4040; 0x4041; 0x4044; 0x4045; 0x4050; 0x4051; 0x4054; 0x4055;
     0x4100; 0x4101; 0x4104; 0x4105; 0x4110; 0x4111; 0x4114; 0x4115;
     0x4140; 0x4141; 0x4144; 0x4145; 0x4150; 0x4151; 0x4154; 0x4155;
     0x4400; 0x4401; 0x4404; 0x4405; 0x4410; 0x4411; 0x4414; 0x4415;
     0x4440; 0x4441; 0x4444; 0x4445; 0x4450; 0x4451; 0x4454; 0x4455;
     0x4500; 0x4501; 0x4504; 0x4505; 0x4510; 0x4511; 0x4514; 0x4515;
     0x4540; 0x4541; 0x4544; 0x4545; 0x4550; 0x4551; 0x4554; 0x4555;
     0x5000; 0x5001; 0x5004; 0x5005; 0x5010; 0x5011; 0x5014; 0x5015;
     0x5040; 0x5041; 0x5044; 0x5045; 0x5050; 0x5051; 0x5054; 0x5055;
     0x5100; 0x5101; 0x5104; 0x5105; 0x5110; 0x5111; 0x5114; 0x5115;
     0x5140; 0x5141; 0x5144; 0x5145; 0x5150; 0x5151; 0x5154; 0x5155;
     0x5400; 0x5401; 0x5404; 0x5405; 0x5410; 0x5411; 0x5414; 0x5415;
     0x5440; 0x5441; 0x5444; 0x5445; 0x5450; 0x5451; 0x5454; 0x5455;
     0x5500; 0x5501; 0x5504; 0x5505; 0x5510; 0x5511; 0x5514; 0x5515;
     0x5540; 0x5541; 0x5544; 0x5545; 0x5550; 0x5551; 0x5554; 0x5555].

(** [MortonTable256[b]] for a byte [b]. *)
Definition morton_byte (b : Z) : Z := nth (Z.to_nat b) MortonTable256 0.

Definition ToQuadKey64 (k : TileKey) : Z :=
  (1 <<64 (u32 (2 * level_ k))) |||
  (morton_byte ((row_ k >> 24) &&& 255) <<64 49) |||
  (morton_byte ((row_ k >> 16) &&& 255) <<64 33) |||
  (morton_byte ((row_ k >> 8) &&& 255) <<64 17) |||
  (morton_byte (row_ k &&& 255) <<64 1) |||
  (morton_byte ((column_ k >> 24) &&& 255) <<64 48) |||
  (morton_byte ((column_ k >> 16) &&& 255) <<64 32) |||
  (morton_byte ((column_ k >> 8) &&& 255) <<64 16) |||
  morton_byte (column_ k &&& 255).

(** One iteration of the loop of [FromQuadKey64]. *)
Definition quad_step (quad_key : Z) (result : TileKey) : TileKey :=
  let mask := u32 (s32 (Z.shiftl 1 (level_ result))) in
  MkTileKey
    (if flag quad_key 2 then Z.lor (row_ result) mask else row_ result)
    (if flag quad_key 1 then Z.lor (column_ result) mask else column_ result)
    (u32 (level_ result + 1)).

(** The [while (quad_key > 1)] loop; [fuel] bounds its iterations. *)
Fixpoint quad_loop (fuel : nat) (quad_key : Z) (result : TileKey) : option TileKey :=
  if quad_key >? 1 then
    match fuel with
    | O => None
    | S n => quad_loop n (Z.shiftr quad_key 2) (quad_step quad_key result)
    end
  else Some result.

(** A 64-bit key loses two bits per iteration, so 32 iterations empty it. *)
Definition FromQuadKey64 (quad_key : Z) : TileKey :=
  default default_key (quad_loop 32 quad_key (FromRowColumnLevel 0 0 0)).

(** ** Text forms *)

(** The quad-key string: base-4 digits of the Morton key, written from the
    last position to the first; the root tile is ["-"]. *)
Definition quad_digit (morton_key : Z) (i : nat) : ascii :=
  char_of (u8 (morton_key / (1 <<64 (u32 (Z.shiftl (Z.of_nat i) 1))) mod 4 + 48)).

Definition dash : text := [char_of 45].

Definition ToQuadKey (k : TileKey) : text :=
  if negb (IsValid k) then []
  else if level_ k =? 0 then dash
  else
    let level := Z.to_nat (level_ k) in
    let morton_key := ToQuadKey64 k in
    foldl (fun (key : text) i => <[(level - i - 1)%nat := quad_digit morton_key i]> key)
      (replicate level (char_of 0)) (seq 0 level).

(** One iteration of the loop of [FromQuadKey]; [char] is signed. *)
Definition quad_char_step (quad_key : text) (result : TileKey) (i : nat) : TileKey :=
  let mask := u32 (s32 (Z.shiftl 1 (Z.of_nat i))) in
  let c := nth (Z.to_nat (level_ result - Z.of_nat i - 1)) quad_key (char_of 0) in
  let d := swrap 8 (char_code c) - 48 in
  MkTileKey
    (if flag d 2 then row_ result ||| mask else row_ result)
    (if flag d 1 then column_ result ||| mask else column_ result)
    (level_ result).

Definition FromQuadKey (quad_key : text) : TileKey :=
  if bool_decide (quad_key = []) then default_key
  else if bool_decide (quad_key = dash) then FromRowColumnLevel 0 0 0
  else foldl (quad_char_step quad_key)
         (FromRowColumnLevel 0 0 (u32 (Z.of_nat (length quad_key))))
         (seq 0 (length quad_key)).

Definition ToHereTile (k : TileKey) : text := print_u64 (ToQuadKey64 k).

Definition FromHereTile (key : text) : TileKey :=
  if bool_decide (key = []) then default_key else FromQuadKey64 (strtoull key).

(** ** Navigation in the tree *)

Definition Parent (k : TileKey) : TileKey :=
  if level_ k >? 0 then
    FromRowColumnLevel (row_ k >> 1) (column_ k >> 1) (u32 (level_ k - 1))
  else default_key.

(** The sum [level_ + delta] is unsigned and converted to [int]. *)
Definition ChangedLevelBy (k : TileKey) (delta : Z) : TileKey :=
  if delta =? 0 then k
  else
    let level := s32 (u32 (level_ k + delta)) in
    let level := if level <? 0 then 0 else level in
    if delta >=? 0 then
      MkTileKey (row_ k <<32 delta) (column_ k <<32 delta) level
    else
      MkTileKey (row_ k >> (- delta)) (column_ k >> (- delta)) level.

Definition ChangedLevelTo (k : TileKey) (level : Z) : TileKey :=
  ChangedLevelBy k (s32 (u32 (s32 level - level_ k))).

Definition IsChildOf (k tile_key : TileKey) : bool :=
  if level_ k <=? level_ tile_key then false
  else key_eqb (ChangedLevelTo k (level_ tile_key)) tile_key.

Definition IsParentOf (k tile_key : TileKey) : bool := IsChildOf tile_key k.

Definition HasNextRow (k : TileKey) : bool := row_ k <? u32 ((1 <<32 level_ k) - 1).
Definition NextRow (k : TileKey) : TileKey :=
  FromRowColumnLevel (u32 (row_ k + 1)) (column_ k) (level_ k).
Definition HasNextColumn (k : TileKey) : bool := column_ k <? u32 ((1 <<32 level_ k) - 1).
Definition NextColumn (k : TileKey) : TileKey :=
  FromRowColumnLevel (row_ k) (u32 (column_ k + 1)) (level_ k).
Definition HasPreviousRow (k : TileKey) : bool := row_ k >? 0.
Definition PreviousRow (k : TileKey) : TileKey :=
  FromRowColumnLevel (u32 (row_ k - 1)) (column_ k) (level_ k).
Definition HasPreviousColumn (k : TileKey) : bool := column_ k >? 0.
Definition PreviousColumn (k : TileKey) : TileKey :=
  FromRowColumnLevel (row_ k) (u32 (column_ k - 1)) (level_ k).

(** [TileKey::GetChild(std::uint8_t)]. *)
Definition GetChild (k : TileKey) (index : Z) : TileKey :=
  let result := ChangedLevelBy k 1 in
  MkTileKey (row_ result ||| (index >> 1)) (column_ result ||| (index &&& 1)) (level_ result).

Inductive TileKeyQuadrant := SW | SE | NW | NE | Invalid.

#[global] Instance TileKeyQuadrant_eq_dec : EqDecision TileKeyQuadrant.
Proof. solve_decision. Defined.

Definition quadrant_code (q : TileKeyQuadrant) : Z :=
  match q with SW => 0 | SE => 1 | NW => 2 | NE => 3 | Invalid => 4 end.

(** [static_cast<TileKeyQuadrant>]; [RelationshipToParent] only casts 0 to 3. *)
Definition quadrant_cast (z : Z) : TileKeyQuadrant :=
  if z =? 0 then SW else if z =? 1 then SE else if z =? 2 then NW
  else if z =? 3 then NE else Invalid.

Definition GetChildQuadrant (k : TileKey) (direction : TileKeyQuadrant) : TileKey :=
  GetChild k (quadrant_code direction).

Definition RelationshipToParent (k : TileKey) : TileKeyQuadrant :=
  if level_ k =? 0 then Invalid
  else
    let swTile := GetChild (Parent k) 0 in
    quadrant_cast (u8 (u32 ((row_ k - row_ swTile) * 2 + column_ k - column_ swTile))).

(** ** Sub keys ([QuadKey64Helper]) *)

Definition QuadParent (key : Z) : Z := key >> 2.
Definition QuadChild (key : Z) : Z := key <<64 2.

Definition QuadGetSubkey (key delta : Z) : Z :=
  let msb := 1 <<64 (delta * 2) in
  let mask := u64 (msb - 1) in
  (key &&& mask) ||| msb.

(** The loop [while (sub_key.key >= (mask << 2))]: the shifted key and the
    final mask, or [None] when [fuel] iterations do not leave the loop. *)
Fixpoint quad_added_loop (fuel : nat) (sub_key key mask : Z) : option (Z * Z) :=
  if sub_key >=? mask <<64 2 then
    match fuel with
    | O => None
    | S n => quad_added_loop n sub_key (key <<64 2) (mask <<64 2)
    end
  else Some (key, mask).

Definition QuadAddedSubkey (key sub_key : Z) : option Z :=
  match quad_added_loop 31 sub_key key 1 with
  | Some (result, mask) => Some (result ||| (sub_key &&& u64 (mask - 1)))
  | None => None
  end.

Definition RowsAtLevel (level : Z) : Z := 1 <<32 level.
Definition ChildrenAtLevel (level : Z) : Z := 1 <<32 (level <<32 1).

Definition GetSubkey64 (k : TileKey) (delta : Z) : Z := QuadGetSubkey (ToQuadKey64 k) delta.

Definition AddedSubkey64 (k : TileKey) (sub_quad_key : Z) : option TileKey :=
  FromQuadKey64 <$> QuadAddedSubkey (ToQuadKey64 k) sub_quad_key.

(** The sum of two keys' rows and columns at the first one's level. *)
Definition added_to (child sub_quad : TileKey) : TileKey :=
  FromRowColumnLevel (u32 (row_ child + row_ sub_quad))
    (u32 (column_ child + column_ sub_quad)) (level_ child).

Definition AddedSubkey (k : TileKey) (sub_quad_key : text) : TileKey :=
  let subQuad := FromQuadKey (if bool_decide (sub_quad_key = []) then dash else sub_quad_key) in
  added_to (ChangedLevelBy k (s32 (level_ subQuad))) subQuad.

Definition AddedSubHereTile (k : TileKey) (sub_here_tile : text) : TileKey :=
  let subQuad := FromHereTile sub_here_tile in
  added_to (ChangedLevelBy k (s32 (level_ subQuad))) subQuad.

#[global] Arguments ToQuadKey64 : simpl never.
#[global] Arguments FromQuadKey64 : simpl never.
#[global] Arguments ChangedLevelBy : simpl never.
#[global] Arguments ChangedLevelTo : simpl never.
