(* ===== verification/TileKeyFacts.v ===== *)
(** * Properties of tile keys

    The Morton encoding is characterised bit by bit; from that come the round
    trips of the 64-bit, quad-key and HERE-tile forms, and the laws of the
    navigation operations. *)

From stdpp Require Import base numbers list strings.
From Stdlib Require Import ZArith Lia Bool Ascii.
From S2P Require Import Prelude Decimal TileKey.

Local Open Scope Z_scope.
Local Open Scope olp_scope.

(** ** Validity as ranges *)

Definition Valid (k : TileKey) : Prop :=
  0 <= level_ k < 32 /\ in_range (level_ k) (row_ k) /\ in_range (level_ k) (column_ k).

Lemma IsValid_Valid k : wf_key k -> IsValid k = true <-> Valid k.
Proof.
  intros (Hr & Hc & Hl). unfold IsValid, Valid, LevelCount.
  rewrite !andb_true_iff, !Z.ltb_lt. unfold in_range in *. split.
  - intros [[H1 H2] H3]. rewrite shl_one in * by lia. lia.
  - intros (H1 & H2 & H3). rewrite shl_one by lia. lia.
Qed.

Lemma Valid_wf k : Valid k -> wf_key k.
Proof.
  intros (Hl & Hr & Hc). unfold wf_key.
  split_and!; [eapply in_range_mono; [|done]; lia.. | unfold in_range; lia].
Qed.

Lemma Valid_IsValid k : Valid k -> IsValid k = true.
Proof. intros H. by apply IsValid_Valid; [apply Valid_wf|]. Qed.

#[export] Hint Resolve Valid_wf Valid_IsValid : olp.

(** ** The Morton table *)

Definition upto (n : nat) : list Z := Z.of_nat <$> seq 0 n.

Lemma elem_of_upto n z : 0 <= z < Z.of_nat n -> z ∈ upto n.
Proof.
  intros. apply list_elem_of_fmap. exists (Z.to_nat z). rewrite elem_of_seq. lia.
Qed.

Lemma forallb_upto f n : forallb f (upto n) = true ->
  forall z, 0 <= z < Z.of_nat n -> f z = true.
Proof.
  intros H z Hz. rewrite forallb_forall in H. apply H, list_elem_of_In, elem_of_upto, Hz.
Qed.

Lemma morton_byte_range b : 0 <= b < 256 -> in_range 15 (morton_byte b).
Proof.
  intros Hb.
  assert (forallb (fun b => (0 <=? morton_byte b) && (morton_byte b <? 2 ^ 15)) (upto 256)
          = true) as Hall by (vm_compute; reflexivity).
  pose proof (forallb_upto _ 256 Hall b Hb) as H.
  apply andb_true_iff in H. rewrite Z.leb_le, Z.ltb_lt in H. exact H.
Qed.

(** Entry [b] of the table spreads the bits of [b] to the even positions. *)
Lemma morton_byte_bits b j : 0 <= b < 256 -> 0 <= j ->
  Z.testbit (morton_byte b) j = Z.even j && Z.testbit b (j / 2).
Proof.
  intros Hb Hj. destruct (Z.lt_ge_cases j 16).
  - apply eqb_true_iff.
    assert (forallb (fun b => forallb (fun j =>
        Bool.eqb (Z.testbit (morton_byte b) j) (Z.even j && Z.testbit b (j / 2))) (upto 16))
        (upto 256) = true) as Hall by (vm_compute; reflexivity).
    refine (forallb_upto _ 16 (forallb_upto _ 256 Hall b _) j _); lia.
  - rewrite (testbit_high 15) by (apply morton_byte_range || lia; lia).
    rewrite (testbit_high 8), andb_false_r; [done | change (2 ^ 8) with 256; lia |].
    apply Z.div_le_lower_bound; lia.
Qed.

(** One term of the encoding: byte [m] of [x], spread and moved to its place
    ([o] is 1 for rows and 0 for columns). *)
Lemma morton_chunk_bits m o s t x j :
  s = 8 * m -> t = 16 * m + o -> 0 <= m < 4 -> 0 <= o < 2 -> 0 <= j ->
  Z.testbit (morton_byte ((x >> s) &&& 255) <<64 t) j =
  (t <=? j) && (j <? t + 16) && Z.even (j - o) && Z.testbit x ((j - o) / 2).
Proof.
  intros -> -> Hm Ho Hj.
  assert (0 <= (x >> (8 * m)) &&& 255 < 256) as Hb.
  { pose proof (land_range 8 (x >> (8 * m)) 255) as H. unfold in_range in H.
    change (2 ^ 8) with 256 in H. lia. }
  pose proof (morton_byte_range _ Hb) as Hr.
  rewrite (shl_small 64 15) by (apply Hr || lia). rewrite Z.shiftl_spec by done.
  destruct (Z.leb_spec (16 * m + o) j); [|by rewrite Z.testbit_neg_r by lia].
  rewrite morton_byte_bits by lia.
  replace (Z.even (j - (16 * m + o))) with (Z.even (j - o))
    by (replace (j - o) with (j - (16 * m + o) + 2 * (8 * m)) by lia;
        by rewrite Z.even_add_mul_2).
  simpl. rewrite Z.land_spec, Z.shiftr_spec by (apply Z.div_pos; lia).
  change 255 with (Z.ones 8). rewrite Z.testbit_ones_nonneg by (try apply Z.div_pos; lia).
  replace ((j - (16 * m + o)) / 2 + 8 * m) with ((j - o) / 2)
    by (replace (j - o) with (j - (16 * m + o) + (8 * m) * 2) by lia;
        rewrite Z.div_add by lia; lia).
  replace ((j - (16 * m + o)) / 2 <? 8) with (j <? 16 * m + o + 16).
  - destruct (j <? _), (Z.even _), (Z.testbit _ _); done.
  - apply eq_true_iff_eq. rewrite !Z.ltb_lt. split; intros.
    + apply Z.div_lt_upper_bound; lia.
    + apply Z.nle_gt. intros ?. assert (8 <= (j - (16 * m + o)) / 2); [|lia].
      apply Z.div_le_lower_bound; lia.
Qed.

(** The term of the lowest byte is written without a right shift. *)
Lemma morton_low_bits o x j :
  0 <= o < 2 -> 0 <= j ->
  Z.testbit (morton_byte (x &&& 255) <<64 o) j =
  (o <=? j) && (j <? o + 16) && Z.even (j - o) && Z.testbit x ((j - o) / 2).
Proof.
  intros. rewrite <- (morton_chunk_bits 0 o 0 o) by lia. by rewrite Z.shiftr_0_r.
Qed.

Lemma morton_low_unshifted x : morton_byte (x &&& 255) <<64 0 = morton_byte (x &&& 255).
Proof.
  rewrite Z.shiftl_0_r. apply wrap_small. eapply (in_range_mono 15); [lia|].
  apply morton_byte_range. apply (land_range 8); [lia|]. by unfold in_range.
Qed.

(** Bit 2i of the key is bit i of the column, bit 2i+1 is bit i of the row,
    and bit 2*level is the marker. *)
Lemma ToQuadKey64_bits k j :
  wf_key k -> 0 <= level_ k < 32 -> 0 <= j ->
  Z.testbit (ToQuadKey64 k) j =
  (j =? 2 * level_ k) || Z.testbit (if Z.even j then column_ k else row_ k) (j / 2).
Proof.
  intros (Hr & Hc & _) Hl Hj. unfold ToQuadKey64.
  rewrite (wrap_small 32) by (unfold in_range; lia).
  rewrite shl_one, <- (morton_low_unshifted (column_ k)) by lia.
  rewrite !Z.lor_spec, Z.pow2_bits_eqb by lia. rewrite (Z.eqb_sym _ j).
  rewrite (morton_chunk_bits 3 1 24 49), (morton_chunk_bits 2 1 16 33),
    (morton_chunk_bits 1 1 8 17), (morton_chunk_bits 3 0 24 48),
    (morton_chunk_bits 2 0 16 32), (morton_chunk_bits 1 0 8 16),
    !morton_low_bits by lia.
  rewrite Z.sub_0_r.
  replace (Z.even (j - 1)) with (negb (Z.even j)) by (rewrite Z.even_sub; by destruct (Z.even j)).
  assert (forall x, in_range 32 x -> Z.testbit x (j / 2) = true -> j < 64) as Hhi.
  { intros x Hx Hb. apply Z.nle_gt. intros ?.
    rewrite (testbit_high 32) in Hb; [done | exact Hx | apply Z.div_le_lower_bound; lia]. }
  rewrite <- !orb_assoc. f_equal.
  destruct (Z.even j) eqn:E; simpl.
  - destruct (Z.testbit (column_ k) (j / 2)) eqn:B; [specialize (Hhi _ Hc B)|]; lia.
  - assert (j <> 0) by (intros ->; discriminate).
    replace ((j - 1) / 2) with (j / 2).
    2:{ rewrite <- Z.negb_odd in E. apply negb_false_iff, Zodd_bool_iff, Zodd_ex in E.
        destruct E as [m ->]. replace (2 * m + 1 - 1) with (m * 2) by lia.
        rewrite Z.div_mul by lia. symmetry. apply Z.div_unique with 1; lia. }
    destruct (Z.testbit (row_ k) (j / 2)) eqn:B; [specialize (Hhi _ Hr B)|]; lia.
Qed.

Lemma ToQuadKey64_range k : wf_key k -> 0 <= level_ k < 32 -> in_range 64 (ToQuadKey64 k).
Proof.
  intros Hwf Hl. apply in_range_bits; [lia|]. intros i Hi.
  rewrite ToQuadKey64_bits by (done || lia). replace (i =? _) with false by lia.
  destruct Hwf as (Hr & Hc & _).
  apply (testbit_high 32); [by destruct (Z.even i) | apply Z.div_le_lower_bound; lia].
Qed.

(** ** Going up *)

(** The tile [d] levels above [k]. *)
Definition ancestor (k : TileKey) (d : Z) : TileKey :=
  MkTileKey (row_ k >> d) (column_ k >> d) (level_ k - d).

Lemma ancestor_Valid k d : Valid k -> 0 <= d <= level_ k -> Valid (ancestor k d).
Proof.
  intros (Hl & Hr & Hc) Hd. unfold Valid, in_range in *; simpl. split; [lia|].
  split; apply shiftr_range; try lia.
  all: by replace (level_ k - d + d) with (level_ k) by lia.
Qed.

(** Dropping 2d bits of the key gives the key of the ancestor d levels up. *)
Lemma ToQuadKey64_ancestor k d :
  Valid k -> 0 <= d <= level_ k -> ToQuadKey64 k >> (2 * d) = ToQuadKey64 (ancestor k d).
Proof.
  intros H Hd. pose proof (ancestor_Valid k d H Hd) as HP.
  apply Z.bits_inj'. intros i Hi. rewrite Z.shiftr_spec by done.
  rewrite !ToQuadKey64_bits; [| by apply Valid_wf | apply HP | done | by apply Valid_wf
    | apply H | lia].
  cbn [ancestor level_ row_ column_].
  replace (Z.even (i + 2 * d)) with (Z.even i) by (by rewrite Z.even_add_mul_2).
  replace ((i + 2 * d) / 2) with (i / 2 + d)
    by (rewrite (Z.mul_comm 2 d), Z.div_add by lia; done).
  replace (i + 2 * d =? 2 * level_ k) with (i =? 2 * (level_ k - d)) by lia. f_equal.
  destruct (Z.even i); rewrite Z.shiftr_spec by (apply Z.div_pos; lia); done.
Qed.

Lemma Parent_ancestor k : Valid k -> 0 < level_ k -> Parent k = ancestor k 1.
Proof.
  intros (Hl & _) H0. unfold Parent, FromRowColumnLevel, ancestor.
  replace (level_ k >? 0) with true by lia. rewrite wrap_small; [done|].
  unfold in_range; lia.
Qed.

Lemma Parent_Valid k : Valid k -> 0 < level_ k -> Valid (Parent k).
Proof. intros. rewrite Parent_ancestor by done. apply ancestor_Valid; [done|lia]. Qed.

Lemma ToQuadKey64_parent k :
  Valid k -> 0 < level_ k -> ToQuadKey64 k >> 2 = ToQuadKey64 (Parent k).
Proof.
  intros. rewrite Parent_ancestor, <- ToQuadKey64_ancestor by (done || lia). done.
Qed.

Lemma ToQuadKey64_low k :
  Valid k -> 0 < level_ k ->
  Z.testbit (ToQuadKey64 k) 0 = Z.testbit (column_ k) 0 /\
  Z.testbit (ToQuadKey64 k) 1 = Z.testbit (row_ k) 0.
Proof.
  intros H H0. rewrite !ToQuadKey64_bits by (apply Valid_wf, H || apply H || lia).
  replace (0 =? _) with false by lia. replace (1 =? _) with false by lia. done.
Qed.

Lemma in_range_0 z : in_range 0 z -> z = 0.
Proof. unfold in_range. change (2 ^ 0) with 1. lia. Qed.

Lemma Valid_level0 k : Valid k -> level_ k = 0 -> k = FromRowColumnLevel 0 0 0.
Proof.
  intros (_ & Hr & Hc) E. rewrite E in *. destruct k; simpl in *; subst.
  apply in_range_0 in Hr, Hc. by subst.
Qed.

(** The key of a tile at level l lies in [4^l .. 2*4^l). *)
Lemma ToQuadKey64_bounds k :
  Valid k -> 2 ^ (2 * level_ k) <= ToQuadKey64 k < 2 ^ (2 * level_ k + 1).
Proof.
  intros H. pose proof (Valid_wf k H) as Hwf. pose proof H as (Hl & Hr & Hc).
  pose proof (ToQuadKey64_range k Hwf Hl) as [H0 _].
  split.
  - apply testbit_le; [done|]. rewrite ToQuadKey64_bits by (done || lia).
    by rewrite Z.eqb_refl.
  - apply in_range_bits; [lia|]. intros i Hi. rewrite ToQuadKey64_bits by (done || lia).
    replace (i =? _) with false by lia. simpl.
    apply (testbit_high (level_ k)); [by destruct (Z.even i)|].
    apply Z.div_le_lower_bound; lia.
Qed.

(** ** The 64-bit round trip *)

Lemma int_mask l : 0 <= l < 32 -> u32 (s32 (Z.shiftl 1 l)) = 2 ^ l.
Proof.
  intros. rewrite <- (shl_one 32 l) by done. unfold swrap.
  destruct (_ <? _); [apply wrap_wrap|].
  unfold wrap. rewrite <- Zminus_mod_idemp_r, Z_mod_same_full, Z.sub_0_r. apply Zmod_mod.
Qed.

(** The loop started on a valid key adds the key's bits above the
    accumulated ones. *)
Lemma quad_loop_spec fuel k acc :
  Valid k -> 0 <= level_ acc -> level_ acc + level_ k < 32 -> (Z.to_nat (level_ k) <= fuel)%nat ->
  quad_loop fuel (ToQuadKey64 k) acc =
  Some (MkTileKey (row_ acc ||| Z.shiftl (row_ k) (level_ acc))
                  (column_ acc ||| Z.shiftl (column_ k) (level_ acc))
                  (level_ acc + level_ k)).
Proof.
  revert k acc. induction fuel as [|f IH]; intros k acc H Ha Hs Hf.
  - assert (level_ k = 0) as E by (destruct H; lia). rewrite (Valid_level0 k H E).
    simpl. rewrite !Z.shiftl_0_l, !Z.lor_0_r, Z.add_0_r. by destruct acc.
  - destruct (Z.eq_dec (level_ k) 0) as [E|E].
    + rewrite (Valid_level0 k H E). simpl.
      rewrite !Z.shiftl_0_l, !Z.lor_0_r, Z.add_0_r. by destruct acc.
    + assert (0 < level_ k) as Hp by (destruct H; lia).
      pose proof (ToQuadKey64_bounds k H) as [Hb _].
      pose proof (pow2_le 1 (2 * level_ k)) as Hb2.
      cbn [quad_loop]. replace (_ >? 1) with true by (change (2 ^ 1) with 2 in *; lia).
      rewrite ToQuadKey64_parent by done. rewrite IH.
      * destruct (ToQuadKey64_low k H Hp) as [Hc Hr]. rewrite Parent_ancestor by done.
        unfold quad_step. cbn [ancestor row_ column_ level_].
        rewrite (int_mask (level_ acc)) by lia. rewrite (wrap_small 32) by (unfold in_range; lia).
        rewrite (flag_pow2 _ 1 ltac:(lia) : flag _ 2 = _),
          (flag_pow2 _ 0 ltac:(lia) : flag _ 1 = _), Hc, Hr.
        f_equal. f_equal; [| | lia].
        -- rewrite (shiftl_peel (row_ k)) by lia.
           destruct (Z.testbit (row_ k) 0); by rewrite ?Z.lor_assoc, ?Z.lor_0_r.
        -- rewrite (shiftl_peel (column_ k)) by lia.
           destruct (Z.testbit (column_ k) 0); by rewrite ?Z.lor_assoc, ?Z.lor_0_r.
      * by apply Parent_Valid.
      * simpl. rewrite wrap_small by (unfold in_range; lia). lia.
      * simpl. rewrite Parent_ancestor by done. simpl.
        rewrite wrap_small by (unfold in_range; lia). lia.
      * rewrite Parent_ancestor by done. simpl. lia.
Qed.

Lemma from_to_quadkey64 k : Valid k -> FromQuadKey64 (ToQuadKey64 k) = k.
Proof.
  intros H. unfold FromQuadKey64. rewrite quad_loop_spec; [| done | simpl; lia | |].
  - simpl. rewrite !Z.shiftl_0_r. by destruct k.
  - simpl. destruct H; lia.
  - destruct H; lia.
Qed.

(** Two keys of the same level with the same 64-bit form are equal. *)
Lemma ToQuadKey64_inj k1 k2 :
  Valid k1 -> Valid k2 -> ToQuadKey64 k1 = ToQuadKey64 k2 -> k1 = k2.
Proof. intros H1 H2 E. by rewrite <- (from_to_quadkey64 k1), E, from_to_quadkey64. Qed.

(** The child of [k] in row [r] and column [c] of its two by two grid. *)
Definition child (k : TileKey) (r c : Z) : TileKey :=
  MkTileKey (2 * row_ k + r) (2 * column_ k + c) (level_ k + 1).

Lemma child_Valid k r c :
  Valid k -> level_ k < 31 -> 0 <= r < 2 -> 0 <= c < 2 -> Valid (child k r c).
Proof.
  intros (Hl & Hr & Hc) ? ? ?. unfold Valid, in_range in *; simpl.
  rewrite Z.pow_add_r by lia. lia.
Qed.

Lemma child_parent k r c : 0 <= r < 2 -> 0 <= c < 2 -> ancestor (child k r c) 1 = k.
Proof.
  intros. unfold ancestor, child; simpl. destruct k as [kr kc kl]; simpl.
  rewrite !Z.shiftr_div_pow2 by lia. change (2 ^ 1) with 2. f_equal; [..|lia].
  - symmetry. apply (Z.div_unique _ _ _ r); lia.
  - symmetry. apply (Z.div_unique _ _ _ c); lia.
Qed.

(** A number is four times its upper part plus its two lowest bits. *)
Lemma quad_split q : q = 4 * (q >> 2) + 2 * Z.b2z (Z.testbit q 1) + Z.b2z (Z.testbit q 0).
Proof.
  rewrite Z.shiftr_div_pow2, Z.bit0_mod, Z.testbit_spec' by lia.
  change (2 ^ 2) with 4. change (2 ^ 1) with 2.
  pose proof (Z.div_mod q 2 ltac:(lia)). pose proof (Z.div_mod (q / 2) 2 ltac:(lia)) as H2.
  rewrite Z.div_div in H2 by lia. change (2 * 2) with 4 in H2. lia.
Qed.

Lemma ToQuadKey64_child k r c :
  Valid k -> level_ k < 31 -> 0 <= r < 2 -> 0 <= c < 2 ->
  ToQuadKey64 (child k r c) = 4 * ToQuadKey64 k + 2 * r + c.
Proof.
  intros H Hl Hr Hc. pose proof (child_Valid k r c H Hl Hr Hc) as HV.
  assert (0 < level_ (child k r c)) as Hp by (destruct H; simpl; lia).
  rewrite (quad_split (ToQuadKey64 (child k r c))).
  destruct (ToQuadKey64_low _ HV Hp) as [-> ->].
  rewrite ToQuadKey64_parent, Parent_ancestor, child_parent by done.
  rewrite !Z.bit0_mod. unfold child; simpl.
  replace (2 * row_ k + r) with (r + row_ k * 2) by lia.
  replace (2 * column_ k + c) with (c + column_ k * 2) by lia.
  rewrite !Z.mod_add, !Z.mod_small by lia. lia.
Qed.

(** Every number in [4^l .. 2*4^l) is the key of a valid tile of level l. *)
Lemma ToQuadKey64_surj (n : nat) q :
  (n < 32)%nat -> 2 ^ (2 * Z.of_nat n) <= q < 2 ^ (2 * Z.of_nat n + 1) ->
  exists k, Valid k /\ level_ k = Z.of_nat n /\ ToQuadKey64 k = q.
Proof.
  revert q. induction n as [|n IH]; intros q Hn Hq.
  - exists (FromRowColumnLevel 0 0 0). change (2 ^ (2 * Z.of_nat 0)) with 1 in Hq.
    change (2 ^ (2 * Z.of_nat 0 + 1)) with 2 in Hq. assert (q = 1) as -> by lia.
    split_and!; [|done..]. unfold Valid, in_range; simpl. lia.
  - replace (2 * Z.of_nat (S n)) with (2 * Z.of_nat n + 2) in Hq by lia.
    replace (2 * Z.of_nat n + 2 + 1) with (2 * Z.of_nat n + 1 + 2) in Hq by lia.
    rewrite !(Z.pow_add_r 2 _ 2) in Hq by lia. change (2 ^ 2) with 4 in Hq.
    pose proof (quad_split q) as E.
    assert (forall b, 0 <= Z.b2z b < 2) as Hb by (intros []; simpl; lia).
    pose proof (Hb (Z.testbit q 0)). pose proof (Hb (Z.testbit q 1)).
    destruct (IH (q >> 2)) as (k & HV & Hl & Hk); [lia.. |].
    exists (child k (Z.b2z (Z.testbit q 1)) (Z.b2z (Z.testbit q 0))).
    split_and!; [apply child_Valid; try done; lia | simpl; lia |].
    rewrite ToQuadKey64_child by (done || lia). lia.
Qed.

(** C3.  The 64-bit Morton form is a bijection between the valid tile keys of
    level l and the numbers in [4^l .. 2*4^l): decoding inverts encoding, and
    every such number decodes to a valid key of that level that encodes back
    to it. *)
Theorem quadkey64_roundtrip l :
  0 <= l < 32 ->
  (forall k, Valid k -> level_ k = l ->
     2 ^ (2 * l) <= ToQuadKey64 k < 2 ^ (2 * l + 1) /\ FromQuadKey64 (ToQuadKey64 k) = k) /\
  (forall q, 2 ^ (2 * l) <= q < 2 ^ (2 * l + 1) ->
     Valid (FromQuadKey64 q) /\ level_ (FromQuadKey64 q) = l /\
     ToQuadKey64 (FromQuadKey64 q) = q).
Proof.
  intros Hl. split.
  - intros k H <-. split; [by apply ToQuadKey64_bounds | by apply from_to_quadkey64].
  - intros q Hq. destruct (ToQuadKey64_surj (Z.to_nat l) q) as (k & HV & HL & <-).
    + lia.
    + by rewrite Z2Nat.id by lia.
    + rewrite from_to_quadkey64 by done. split_and!; [done | lia | done].
Qed.

Lemma quadkey64_roundtrip_witness :
  Valid (FromQuadKey64 29) /\ level_ (FromQuadKey64 29) = 2 /\ ToQuadKey64 (FromQuadKey64 29) = 29.
Proof. apply (quadkey64_roundtrip 2); [lia | vm_compute; split; congruence]. Defined.
