(* ===== verification/TileLevels.v ===== *)
(** * Sets of tile levels

    [GetMinTileKeyLevel], [GetMaxTileKeyLevel] and [GetNearestAvailableTileKeyLevel]
    of [olp-cpp-sdk-core/src/geo/tiling/TileKey.cpp].  A [TileKeyLevels] (a bitset
    of 32 levels) is the number with those bits. *)

From Stdlib Require Import ZArith Lia Bool.
From stdpp Require Import base numbers list.
From S2P Require Import Prelude TileKey.
Local Open Scope Z_scope.
Local Open Scope olp_scope.

Definition lookup_table : list Z :=
  [0; 1; 28; 2; 29; 14; 24; 3; 30; 22; 20; 15; 25; 17; 4; 8;
   31; 27; 13; 23; 21; 19; 16; 7; 26; 12; 18; 6; 11; 5; 10; 9].

(** An index outside the table would be undefined. *)
Definition GetMinTileKeyLevel (levels : Z) : option Z :=
  if levels =? 0 then None
  else
    let levelBits := levels in
    lookup_table !! Z.to_nat (u32 (u64 ((levelBits &&& u64 (- levelBits)) * 0x077CB531)) >> 27).

(** [std::log2], truncated *)
Definition GetMaxTileKeyLevel (levels : Z) : option Z :=
  if levels =? 0 then None else Some (Z.log2 levels).

(** The loop from the distance [dist] on, [n] more distances to go. *)
Fixpoint nearest_loop (n : nat) (dist level levels : Z) : Z :=
  match n with
  | O => level
  | S n =>
    if (level + dist <? LevelCount) && Z.testbit levels (level + dist) then level + dist
    else if (level >=? dist) && Z.testbit levels (level - dist) then level - dist
    else nearest_loop n (dist + 1) level levels
  end.

Definition GetNearestAvailableTileKeyLevel (levels referenceLevel : Z) : option Z :=
  minLevel ← GetMinTileKeyLevel levels;
  maxLevel ← GetMaxTileKeyLevel levels;
  let level := Z.max (Z.min referenceLevel maxLevel) minLevel in
  let maxDist := Z.max (Z.abs (level - minLevel)) (Z.abs (level - maxLevel)) in
  Some (nearest_loop (Z.to_nat (maxDist + 1)) 0 level levels).

(** ** The lowest level *)

(** The lowest set bit of a positive number. *)
Lemma lowest_bit z : 0 < z -> exists i, 0 <= i /\ Z.testbit z i = true /\ forall j, 0 <= j < i -> Z.testbit z j = false.
Proof.
  intros Hz. assert (Z.testbit z (Z.log2 z) = true) as Htop by (by apply Z.bit_log2).
  assert (forall n : nat, Z.testbit z (Z.of_nat n) = true ->
    exists i, 0 <= i /\ Z.testbit z i = true /\ forall j, 0 <= j < i -> Z.testbit z j = false) as Hmin.
  { induction n as [n IH] using lt_wf_ind. intros Hn.
    destruct (existsb (fun j => Z.testbit z (Z.of_nat j)) (seq 0 n)) eqn:E.
    - apply existsb_exists in E as (j & Hj%in_seq & Hb). apply (IH j); [lia|done].
    - exists (Z.of_nat n). split; [lia|]. split; [done|]. intros j Hj.
      destruct (Z.testbit z j) eqn:Ej; [|done]. enough (false = true) by done. rewrite <- E.
      apply existsb_exists. exists (Z.to_nat j). rewrite in_seq, Z2Nat.id by lia. split; [lia|done]. }
  apply (Hmin (Z.to_nat (Z.log2 z))). rewrite Z2Nat.id by apply Z.log2_nonneg. done.
Qed.

(** [z & -z] keeps the lowest set bit only. *)
Lemma land_neg z i :
  0 < z < 2 ^ 32 -> 0 <= i -> Z.testbit z i = true -> (forall j, 0 <= j < i -> Z.testbit z j = false) ->
  Z.land z (wrap 64 (- z)) = 2 ^ i.
Proof.
  intros Hz Hi Hb Hlow. assert (Z.opp z = Z.lnot (z - 1)) as Hneg by (unfold Z.lnot; lia).
  assert (i < 32) as Hi32 by (destruct (Z.lt_ge_cases i 32); [done|]; rewrite (testbit_high 32) in Hb by lia; done).
  (* z = h * 2^(i+1) + 2^i *)
  assert (z = Z.shiftl (Z.shiftr z (i + 1)) (i + 1) + 2 ^ i) as Hsplit.
  { rewrite Z.shiftl_mul_pow2, Z.shiftr_div_pow2 by lia.
    assert (z mod 2 ^ (i + 1) = 2 ^ i) as Hm.
    { apply Z.bits_inj'. intros j Hj. destruct (Z.lt_ge_cases j (i + 1)).
      - rewrite Z.mod_pow2_bits_low, Z.pow2_bits_eqb by lia. destruct (Z.eqb_spec i j) as [->|]; [done|].
        apply Hlow. lia.
      - rewrite Z.mod_pow2_bits_high, Z.pow2_bits_eqb by lia. by destruct (Z.eqb_spec i j); [lia|]. }
    pose proof (Z.div_mod z (2 ^ (i + 1)) ltac:(pose proof (pow2_pos (i + 1)); lia)). lia. }
  assert (z - 1 = Z.lor (Z.shiftl (Z.shiftr z (i + 1)) (i + 1)) (2 ^ i - 1)) as Hpred.
  { rewrite lor_shiftl_add; [rewrite Z.shiftl_mul_pow2 in Hsplit by lia; lia|lia|].
    pose proof (pow2_pos i Hi). rewrite Z.pow_add_r by lia. lia. }
  apply Z.bits_inj'. intros j Hj. rewrite Z.land_spec, testbit_wrap, Hneg, Z.lnot_spec, Hpred by lia.
  rewrite Z.lor_spec, Z.pow2_bits_eqb by lia.
  replace (2 ^ i - 1) with (Z.ones i) by (rewrite Z.ones_equiv; lia).
  destruct (Z.lt_trichotomy j i) as [Hlt|[->|Hgt]].
  - rewrite Hlow by lia. by destruct (Z.eqb_spec i j); [lia|].
  - rewrite Hb, Z.eqb_refl, Z.shiftl_spec, (Z.testbit_neg_r _ (i - (i + 1))) by lia.
    rewrite Z.ones_spec_high by lia. destruct (Z.ltb_spec i 64); [done|lia].
  - rewrite Z.shiftl_spec, Z.shiftr_spec by lia. replace (j - (i + 1) + (i + 1)) with j by lia.
    destruct (Z.eqb_spec i j); [lia|]. rewrite Z.ones_spec_high by lia.
    destruct (Z.testbit z j); simpl; [|by rewrite ?andb_false_r]. by rewrite andb_false_r.
Qed.

(** The hash of each power of two finds its exponent. *)
Lemma debruijn i :
  0 <= i < 32 -> lookup_table !! Z.to_nat (u32 (u64 (2 ^ i * 0x077CB531)) >> 27) = Some i.
Proof.
  intros Hi. assert (forallb (fun n => bool_decide
    (lookup_table !! Z.to_nat (u32 (u64 (2 ^ Z.of_nat n * 0x077CB531)) >> 27) = Some (Z.of_nat n))) (seq 0 32) = true) as Hall.
  { vm_compute. reflexivity. }
  rewrite forallb_forall in Hall. specialize (Hall (Z.to_nat i)).
  rewrite Z2Nat.id in Hall by lia. apply (bool_decide_eq_true_1 _), Hall, in_seq. lia.
Qed.

Lemma min_level levels :
  0 < levels < 2 ^ 32 ->
  exists m, GetMinTileKeyLevel levels = Some m /\ 0 <= m < 32 /\ Z.testbit levels m = true /\
    forall j, 0 <= j < m -> Z.testbit levels j = false.
Proof.
  intros Hl. destruct (lowest_bit levels) as (i & Hi & Hb & Hlow); [lia|]. exists i.
  assert (i < 32) by (destruct (Z.lt_ge_cases i 32); [done|]; rewrite (testbit_high 32) in Hb by lia; done).
  unfold GetMinTileKeyLevel. destruct (Z.eqb_spec levels 0); [lia|].
  rewrite (land_neg levels i) by done. rewrite debruijn by lia. done.
Qed.

Lemma max_level levels :
  0 < levels < 2 ^ 32 ->
  exists m, GetMaxTileKeyLevel levels = Some m /\ 0 <= m < 32 /\ Z.testbit levels m = true /\
    forall j, m < j -> Z.testbit levels j = false.
Proof.
  intros Hl. exists (Z.log2 levels). unfold GetMaxTileKeyLevel. destruct (Z.eqb_spec levels 0); [lia|].
  split_and!; [done|apply Z.log2_nonneg|apply Z.log2_lt_pow2; lia|apply Z.bit_log2; lia|].
  intros j Hj. by apply Z.bits_above_log2; [lia|].
Qed.

(** ** The nearest level *)

(** The loop, when no level nearer than [dist] is in the set and one within
    [dist + n - 1] is. *)
Lemma nearest_loop_spec levels level n dist :
  0 <= dist -> 0 <= level < 32 -> 0 <= levels < 2 ^ 32 ->
  (forall j, 0 <= j -> Z.testbit levels j = true -> dist <= Z.abs (j - level)) ->
  (exists j, 0 <= j /\ Z.testbit levels j = true /\ Z.abs (j - level) < dist + Z.of_nat n) ->
  let r := nearest_loop n dist level levels in
  0 <= r < 32 /\ Z.testbit levels r = true /\
  forall j, 0 <= j -> Z.testbit levels j = true ->
    Z.abs (r - level) <= Z.abs (j - level) /\ (Z.abs (r - level) = Z.abs (j - level) -> j <= r).
Proof.
  revert dist. induction n as [|n IH]; intros dist Hd Hl Hr Hno (j0 & Hj0 & Hb0 & Hlt); [specialize (Hno j0 Hj0 Hb0); lia|].
  assert (forall j, Z.testbit levels j = true -> j < 32) as H32.
  { intros j Hb. destruct (Z.lt_ge_cases j 32); [done|]. rewrite (testbit_high 32) in Hb by lia. done. }
  cbn [nearest_loop]. unfold LevelCount.
  destruct (Z.testbit levels (level + dist)) eqn:Eup.
  - specialize (H32 _ Eup) as ?. destruct (Z.ltb_spec (level + dist) 32); [|lia]. simpl.
    split; [lia|]. split; [done|]. intros j Hj Hb. specialize (Hno j Hj Hb). lia.
  - rewrite andb_false_r. destruct (Z.testbit levels (level - dist)) eqn:Edown.
    + assert (dist <= level) as Hle.
      { destruct (Z.le_gt_cases dist level); [done|]. rewrite Z.testbit_neg_r in Edown by lia. done. }
      destruct (Z.geb_spec level dist); [|lia]. simpl. split; [lia|]. split; [done|].
      intros j Hj Hb. specialize (Hno j Hj Hb). split; [lia|]. intros E.
      assert (j = level - dist \/ j = level + dist) as [->| ->] by lia; [lia|congruence].
    + rewrite andb_false_r. apply IH; [lia|done|done| |].
      * intros j Hj Hb. specialize (Hno j Hj Hb).
        destruct (Z.eq_dec (Z.abs (j - level)) dist) as [E|]; [|lia].
        assert (j = level - dist \/ j = level + dist) as [->| ->] by lia; congruence.
      * exists j0. split; [done|]. split; [done|]. lia.
Qed.

(** For a set of levels that is not empty, the lowest level (found with a
    multiplication and a table) and the highest one are the least and the greatest
    of the set, and the nearest available level is the level of the set closest to
    the reference level, the higher one of two equally close; for the empty set
    there is none. *)
Theorem tile_level_queries levels reference :
  in_range 32 levels -> in_range 32 reference ->
  (levels = 0 -> GetMinTileKeyLevel levels = None /\ GetMaxTileKeyLevel levels = None /\
                 GetNearestAvailableTileKeyLevel levels reference = None) /\
  (levels <> 0 -> exists low high near,
     GetMinTileKeyLevel levels = Some low /\ GetMaxTileKeyLevel levels = Some high /\
     GetNearestAvailableTileKeyLevel levels reference = Some near /\
     Z.testbit levels low = true /\ Z.testbit levels high = true /\ Z.testbit levels near = true /\
     0 <= low <= near /\ near <= high < 32 /\
     forall j, 0 <= j -> Z.testbit levels j = true -> low <= j <= high /\
       Z.abs (near - reference) <= Z.abs (j - reference) /\
       (Z.abs (near - reference) = Z.abs (j - reference) -> j <= near)).
Proof.
  intros Hl Href. unfold in_range in *. split; [by intros ->|]. intros Hne.
  destruct (min_level levels) as (low & Elow & Hlow & Hblow & Hbelow); [lia|].
  destruct (max_level levels) as (high & Ehigh & Hhigh & Hbhigh & Habove); [lia|].
  assert (forall j, 0 <= j -> Z.testbit levels j = true -> low <= j <= high) as Hbounds.
  { intros j Hj Hb. split.
    - destruct (Z.le_gt_cases low j); [done|]. rewrite Hbelow in Hb by lia. done.
    - destruct (Z.le_gt_cases j high); [done|]. rewrite Habove in Hb by lia. done. }
  assert (low <= high) as Hlh by (apply Hbounds; [lia|done]).
  unfold GetNearestAvailableTileKeyLevel. rewrite Elow, Ehigh. cbn [mbind option_bind].
  set (level := Z.max (Z.min reference high) low).
  set (n := Z.to_nat (Z.max (Z.abs (level - low)) (Z.abs (level - high)) + 1)).
  destruct (nearest_loop_spec levels level n 0) as (Hr & Hb & Hnear); [lia|lia|lia|lia| |].
  { exists low. split; [lia|]. split; [done|]. lia. }
  set (near := nearest_loop n 0 level levels) in *. exists low, high, near.
  destruct (Hbounds near ltac:(lia) Hb) as [Hnl Hnh]. split_and!; try done; try lia.
  intros j Hj Hbj. destruct (Hbounds j Hj Hbj). destruct (Hnear j Hj Hbj). split_and!; try done; lia.
Qed.

Lemma tile_level_queries_witness :
  let levels := 2 ^ 3 + 2 ^ 9 + 2 ^ 15 in
  (levels = 0 -> GetMinTileKeyLevel levels = None /\ GetMaxTileKeyLevel levels = None /\
                 GetNearestAvailableTileKeyLevel levels 12 = None) /\
  (levels <> 0 -> exists low high near,
     GetMinTileKeyLevel levels = Some low /\ GetMaxTileKeyLevel levels = Some high /\
     GetNearestAvailableTileKeyLevel levels 12 = Some near /\
     Z.testbit levels low = true /\ Z.testbit levels high = true /\ Z.testbit levels near = true /\
     0 <= low <= near /\ near <= high < 32 /\
     forall j, 0 <= j -> Z.testbit levels j = true -> low <= j <= high /\
       Z.abs (near - 12) <= Z.abs (j - 12) /\ (Z.abs (near - 12) = Z.abs (j - 12) -> j <= near)).
Proof. apply (tile_level_queries (2 ^ 3 + 2 ^ 9 + 2 ^ 15) 12); unfold in_range; lia. Defined.

Example nearest_tie : GetNearestAvailableTileKeyLevel (2 ^ 3 + 2 ^ 9 + 2 ^ 15) 12 = Some 15.
Proof. vm_compute. reflexivity. Qed.
