(* ===== verification/TileText.v ===== *)
(** * Text forms of tile keys

    Round trips of the quad-key string and the HERE-tile string, and the
    documented structure of quad-key strings. *)

From stdpp Require Import base numbers list strings.
From Stdlib Require Import ZArith Lia Bool Ascii.
From S2P Require Import Prelude Decimal TileKey TileKeyFacts.

Local Open Scope Z_scope.
Local Open Scope olp_scope.

(** ** HERE tiles *)

Lemma print_u64_nonempty n : in_range 64 n -> print_u64 n <> [].
Proof.
  intros [H0 _]. destruct (dec_digits_head 20 n) as (c & t & E & _); [lia | done |].
  unfold print_u64. by rewrite E.
Qed.

Lemma from_to_here_tile k : Valid k -> FromHereTile (ToHereTile k) = k.
Proof.
  intros H. pose proof (ToQuadKey64_range k (Valid_wf k H) (proj1 H)) as Hr.
  unfold FromHereTile, ToHereTile.
  rewrite bool_decide_false by (by apply print_u64_nonempty).
  by rewrite strtoull_print, from_to_quadkey64.
Qed.

(** ** Quad-key strings *)

(** Writing the characters from the last position to the first. *)
Lemma backward_fill {A} (f : nat -> A) (l : list A) n m p :
  length l = n -> (m <= n)%nat -> (p < n)%nat ->
  foldl (fun key i => <[(n - i - 1)%nat := f i]> key) l (seq 0 m) !! p =
  if decide (n - 1 - p < m)%nat then Some (f (n - 1 - p)%nat) else l !! p.
Proof.
  intros Hl. revert p. induction m as [|m IH]; intros p Hm Hp; [done|].
  rewrite seq_S, foldl_snoc. simpl.
  destruct (decide (n - m - 1 = p)%nat) as [<-|Hne].
  - rewrite list_lookup_insert_eq.
    + rewrite decide_True by lia. do 2 f_equal. lia.
    + enough (forall m', (m' <= n)%nat -> length (foldl
        (fun key i => <[(n - i - 1)%nat := f i]> key) l (seq 0 m')) = n) as -> by lia.
      clear -Hl. induction m' as [|m' IH]; intros; [done|].
      rewrite seq_S, foldl_snoc, length_insert. apply IH; lia.
  - rewrite list_lookup_insert_ne, IH by lia. repeat case_decide; done || lia.
Qed.

Lemma backward_fill_length {A} (f : nat -> A) (g : nat -> nat) (l : list A) (s : list nat) :
  length (foldl (fun key i => <[g i := f i]> key) l s) = length l.
Proof. revert l. induction s as [|i s IH]; intros l; simpl; [done|]. by rewrite IH, length_insert. Qed.

Definition quad_text (q : Z) (n : nat) : text :=
  (fun p => quad_digit q (n - 1 - p)) <$> seq 0 n.

Lemma ToQuadKey_text k :
  Valid k -> 0 < level_ k -> ToQuadKey k = quad_text (ToQuadKey64 k) (Z.to_nat (level_ k)).
Proof.
  intros H H0. unfold ToQuadKey. rewrite Valid_IsValid by done. simpl.
  replace (level_ k =? 0) with false by lia.
  apply list_eq. intros p. unfold quad_text. rewrite list_lookup_fmap.
  destruct (decide (p < Z.to_nat (level_ k))%nat) as [Hp|Hp].
  - rewrite backward_fill by (rewrite ?length_replicate; lia).
    rewrite decide_True by lia. rewrite lookup_seq_lt by lia. done.
  - rewrite !lookup_ge_None_2; [done | rewrite length_seq; lia |].
    rewrite backward_fill_length, length_replicate. lia.
Qed.

(** The value of a digit and the character it is written as. *)
Definition digit_value (q : Z) (i : nat) : Z := (q / 2 ^ (2 * Z.of_nat i)) mod 4.

Lemma digit_value_range q i : 0 <= digit_value q i < 4.
Proof. apply Z.mod_pos_bound. lia. Qed.

Lemma quad_digit_value q i :
  (i < 32)%nat -> quad_digit q i = char_of (48 + digit_value q i).
Proof.
  intros Hi. pose proof (digit_value_range q i). unfold quad_digit.
  rewrite (Z.shiftl_mul_pow2 _ 1) by lia. change (2 ^ 1) with 2.
  rewrite (wrap_small 32) by (unfold in_range; lia). rewrite shl_one by lia.
  rewrite (Z.mul_comm _ 2). fold (digit_value q i). rewrite wrap_small by (unfold in_range; lia).
  f_equal. lia.
Qed.

Lemma quad_digit_code q i :
  (i < 32)%nat -> swrap 8 (char_code (quad_digit q i)) - 48 = digit_value q i.
Proof.
  intros Hi. pose proof (digit_value_range q i).
  rewrite quad_digit_value, char_code_of, swrap_small by (try change (2 ^ (8 - 1)) with 128; lia).
  lia.
Qed.

Lemma digit_value_bits q i b :
  0 <= b < 2 -> Z.testbit (digit_value q i) b = Z.testbit q (2 * Z.of_nat i + b).
Proof.
  intros Hb. unfold digit_value. change 4 with (2 ^ 2).
  rewrite Z.mod_pow2_bits_low, Z.div_pow2_bits by lia. f_equal. lia.
Qed.

(** Digit i of a valid tile's key holds bit i of its column and its row. *)
Lemma digit_value_tile k i b :
  Valid k -> Z.of_nat i < level_ k -> 0 <= b < 2 ->
  Z.testbit (digit_value (ToQuadKey64 k) i) b =
  Z.testbit (if Z.even b then column_ k else row_ k) (Z.of_nat i).
Proof.
  intros H Hi Hb. rewrite digit_value_bits, ToQuadKey64_bits by (apply Valid_wf, H || apply H || lia).
  replace (_ =? 2 * level_ k) with false by lia. simpl.
  replace (Z.even (2 * Z.of_nat i + b)) with (Z.even b) by (by rewrite Z.add_comm, Z.even_add_mul_2).
  f_equal. rewrite (Z.mul_comm 2), Z.add_comm, Z.div_add, Z.div_small by lia. lia.
Qed.

(** Two digits with the same two bits are equal. *)
Lemma digit_value_ext q q' i i' :
  (forall b, 0 <= b < 2 -> Z.testbit (digit_value q i) b = Z.testbit (digit_value q' i') b) ->
  digit_value q i = digit_value q' i'.
Proof.
  intros Hb. apply Z.bits_inj'. intros j Hj. destruct (Z.lt_ge_cases j 2); [by apply Hb|].
  by rewrite !(testbit_high 2) by (apply digit_value_range || done).
Qed.

(** The digit loop sets bit i of the row and the column from digit i. *)
Lemma quad_char_fold key acc m j :
  (Z.of_nat m <= level_ acc)%Z -> level_ acc < 32 -> 0 <= j ->
  let d i := swrap 8 (char_code (nth (Z.to_nat (level_ acc - i - 1)) key (char_of 0))) - 48 in
  let result := foldl (quad_char_step key) acc (seq 0 m) in
  level_ result = level_ acc /\
  Z.testbit (row_ result) j =
    Z.testbit (row_ acc) j || ((j <? Z.of_nat m) && Z.testbit (d j) 1) /\
  Z.testbit (column_ result) j =
    Z.testbit (column_ acc) j || ((j <? Z.of_nat m) && Z.testbit (d j) 0).
Proof.
  intros Hm Hl Hj d. induction m as [|m IH].
  - change (Z.of_nat 0) with 0. replace (j <? 0) with false by lia.
    simpl. by rewrite !orb_false_r.
  - destruct IH as (HL & HR & HC); [lia|]. cbn zeta. rewrite seq_S, foldl_snoc.
    set (r := foldl (quad_char_step key) acc (seq 0 m)) in *.
    unfold quad_char_step. cbn [level_ row_ column_ Nat.add]. rewrite HL.
    rewrite int_mask by lia. fold (d (Z.of_nat m)).
    rewrite (flag_pow2 _ 1 ltac:(lia) : flag _ 2 = _), (flag_pow2 _ 0 ltac:(lia) : flag _ 1 = _).
    assert (forall (a : Z) (b : bool), Z.testbit (if b then a ||| 2 ^ Z.of_nat m else a) j =
       Z.testbit a j || ((j =? Z.of_nat m) && b)) as Hset.
    { intros a []; rewrite ?andb_false_r, ?orb_false_r, ?andb_true_r; [|done].
      by rewrite Z.lor_spec, Z.pow2_bits_eqb, (Z.eqb_sym j) by lia. }
    rewrite !Hset, HR, HC. split; [done|].
    rewrite Nat2Z.inj_succ, <- Z.add_1_r. clear HR HC.
    destruct (Z.eq_dec j (Z.of_nat m)) as [->|].
    + rewrite Z.eqb_refl. replace (Z.of_nat m <? Z.of_nat m) with false by lia.
      replace (Z.of_nat m <? Z.of_nat m + 1) with true by lia.
      simpl. by rewrite !orb_false_r.
    + replace (j =? Z.of_nat m) with false by lia.
      replace (j <? Z.of_nat m + 1) with (j <? Z.of_nat m) by lia.
      simpl. by rewrite !orb_false_r.
Qed.

Lemma quad_text_nth q n i :
  (i < n)%nat -> nth (n - 1 - i) (quad_text q n) (char_of 0) = quad_digit q i.
Proof.
  intros Hi. apply nth_lookup_Some. unfold quad_text.
  rewrite list_lookup_fmap, lookup_seq_lt by lia. simpl. do 2 f_equal. lia.
Qed.

Lemma quad_text_length q n : length (quad_text q n) = n.
Proof. unfold quad_text. by rewrite length_fmap, length_seq. Qed.

(** A quad-key string of a non-root tile is neither empty nor the root's. *)
Lemma quad_text_not_special q n :
  (0 < n <= 32)%nat -> quad_text q n <> [] /\ quad_text q n <> dash.
Proof.
  intros Hn. split; intros E.
  - apply (f_equal length) in E. rewrite quad_text_length in E. simpl in E. lia.
  - pose proof (f_equal length E) as El. rewrite quad_text_length in El. simpl in El. subst n.
    pose proof (quad_text_nth q 1 0) as Hd. rewrite E in Hd. simpl in Hd.
    specialize (Hd ltac:(lia)). apply (f_equal char_code) in Hd.
    pose proof (digit_value_range q 0).
    rewrite quad_digit_value, !char_code_of in Hd by lia. lia.
Qed.

Lemma FromQuadKey_quad_text q n :
  (0 < n <= 32)%nat ->
  FromQuadKey (quad_text q n) =
  foldl (quad_char_step (quad_text q n)) (FromRowColumnLevel 0 0 (Z.of_nat n)) (seq 0 n).
Proof.
  intros Hn. destruct (quad_text_not_special q n Hn). unfold FromQuadKey.
  rewrite !bool_decide_false by done. rewrite quad_text_length, wrap_small; [done|].
  unfold in_range. lia.
Qed.

Lemma from_to_quadkey k : Valid k -> FromQuadKey (ToQuadKey k) = k.
Proof.
  intros H. destruct (Z.eq_dec (level_ k) 0) as [E|E].
  { by rewrite (Valid_level0 k H E). }
  pose proof H as (Hl & Hr & Hc). rewrite ToQuadKey_text by (done || lia).
  set (n := Z.to_nat (level_ k)). set (q := ToQuadKey64 k).
  rewrite FromQuadKey_quad_text by lia.
  pose proof (fun j => quad_char_fold (quad_text q n)
    (FromRowColumnLevel 0 0 (Z.of_nat n)) n j) as HF.
  cbn [FromRowColumnLevel level_ row_ column_] in HF.
  set (r := foldl _ _ _) in *.
  assert (forall j b, 0 <= j < level_ k -> 0 <= b < 2 ->
    Z.testbit (swrap 8 (char_code (nth (Z.to_nat (Z.of_nat n - j - 1)) (quad_text q n)
      (char_of 0))) - 48) b = Z.testbit (if Z.even b then column_ k else row_ k) j) as Hd.
  { intros j b Hj Hb.
    replace (Z.to_nat (Z.of_nat n - j - 1)) with (n - 1 - Z.to_nat j)%nat by lia.
    rewrite quad_text_nth, quad_digit_code by lia. unfold q.
    rewrite digit_value_tile by (done || lia). by rewrite Z2Nat.id by lia. }
  assert (forall j, 0 <= j -> Z.testbit (row_ r) j = Z.testbit (row_ k) j /\
                               Z.testbit (column_ r) j = Z.testbit (column_ k) j) as Hbits.
  { intros j Hj. destruct (HF j) as (_ & HR & HC); [lia..|].
    rewrite HR, HC, !Z.testbit_0_l, !orb_false_l.
    destruct (Z.ltb_spec j (Z.of_nat n)).
    - by rewrite !Hd by lia.
    - by rewrite (testbit_high _ _ j Hr), (testbit_high _ _ j Hc) by lia. }
  destruct (HF 0) as (HL & _ & _); [lia..|].
  destruct r as [rr rc rl], k as [kr kc kl]; simpl in *. f_equal.
  - apply Z.bits_inj'. intros j Hj. by apply Hbits.
  - apply Z.bits_inj'. intros j Hj. by apply Hbits.
  - lia.
Qed.

(** A valid tile key survives both of its text forms: the base-4 quad-key
    string and the decimal HERE-tile string. *)
Theorem text_roundtrip k :
  Valid k -> FromQuadKey (ToQuadKey k) = k /\ FromHereTile (ToHereTile k) = k.
Proof. intros H. split; [by apply from_to_quadkey | by apply from_to_here_tile]. Qed.

Lemma text_roundtrip_witness :
  let k := FromRowColumnLevel 1100000 5555 21 in
  FromQuadKey (ToQuadKey k) = k /\ FromHereTile (ToHereTile k) = k.
Proof.
  intros k. apply (text_roundtrip k). unfold Valid, in_range, k.
  vm_compute. repeat split; congruence.
Defined.
