(* ===== verification/TileTree.v ===== *)
(** * The tile tree

    Laws of the navigation operations of [TileKey], of [QuadKey64Helper]'s sub
    keys, and of the relative keys of TileKeyUtils.cpp. *)

From stdpp Require Import base numbers list strings.
From Stdlib Require Import ZArith Lia Bool Ascii.
From S2P Require Import Prelude Decimal TileKey TileKeyFacts TileText.

Local Open Scope Z_scope.
Local Open Scope olp_scope.

(** ** Relative keys (TileKeyUtils.cpp) *)

Definition GetRelativeSubTileKey (key : TileKey) (parent_level : Z) : TileKey :=
  let originKey := ChangedLevelTo (ChangedLevelTo key parent_level) (level_ key) in
  FromRowColumnLevel (u32 (row_ key - row_ originKey)) (u32 (column_ key - column_ originKey))
    (u32 (level_ key - parent_level)).

Definition GetAbsoluteSubTileKey (parent sub_tile : TileKey) : TileKey :=
  let absSubTileKey := ChangedLevelBy parent (s32 (level_ sub_tile)) in
  FromRowColumnLevel (u32 (row_ absSubTileKey + row_ sub_tile))
    (u32 (column_ absSubTileKey + column_ sub_tile)) (level_ absSubTileKey).

(** ** Changing the level *)

(** The first tile [d] levels below [k]. *)
Definition descendant (k : TileKey) (d : Z) : TileKey :=
  MkTileKey (Z.shiftl (row_ k) d) (Z.shiftl (column_ k) d) (level_ k + d).

Lemma descendant_Valid k d : Valid k -> 0 <= d -> level_ k + d < 32 -> Valid (descendant k d).
Proof.
  intros (Hl & Hr & Hc) Hd Hs. unfold Valid, in_range in *; simpl.
  split; [lia|]. split; apply shiftl_range; lia.
Qed.

Lemma s32_small z : - 2 ^ 31 <= z < 2 ^ 31 -> s32 z = z.
Proof. intros. apply swrap_small; lia. Qed.

Lemma ChangedLevelBy_down k d :
  Valid k -> 0 <= d <= level_ k -> ChangedLevelBy k (- d) = ancestor k d.
Proof.
  intros (Hl & _) Hd. unfold ChangedLevelBy, ancestor.
  destruct (Z.eqb_spec (- d) 0) as [E|E].
  - replace d with 0 by lia. rewrite !Z.shiftr_0_r, Z.sub_0_r. by destruct k.
  - rewrite swrap_wrap, s32_small by lia. replace (_ <? 0) with false by lia.
    replace (- d >=? 0) with false by lia. rewrite Z.opp_involutive. f_equal; lia.
Qed.

Lemma ChangedLevelBy_up k d :
  Valid k -> 0 <= d -> level_ k + d < 32 -> ChangedLevelBy k d = descendant k d.
Proof.
  intros (Hl & Hr & Hc) Hd Hs. unfold ChangedLevelBy, descendant.
  destruct (Z.eqb_spec d 0) as [->|E].
  - rewrite !Z.shiftl_0_r, Z.add_0_r. by destruct k.
  - rewrite swrap_wrap, s32_small by lia. replace (_ <? 0) with false by lia.
    replace (d >=? 0) with true by lia.
    by rewrite !(shl_small 32 (level_ k)) by (apply Hr || apply Hc || lia).
Qed.

Lemma ChangedLevelTo_by k l :
  Valid k -> 0 <= l < 32 -> ChangedLevelTo k l = ChangedLevelBy k (l - level_ k).
Proof.
  intros (Hl & _) Hd. unfold ChangedLevelTo.
  by rewrite swrap_wrap, !s32_small by (rewrite ?s32_small; lia).
Qed.

Lemma ChangedLevelTo_down k l :
  Valid k -> 0 <= l <= level_ k -> ChangedLevelTo k l = ancestor k (level_ k - l).
Proof.
  intros H Hl. rewrite ChangedLevelTo_by by (done || destruct H; lia).
  replace (l - level_ k) with (- (level_ k - l)) by lia. apply ChangedLevelBy_down; [done|lia].
Qed.

Lemma ChangedLevelTo_up k l :
  Valid k -> level_ k <= l < 32 -> ChangedLevelTo k l = descendant k (l - level_ k).
Proof.
  intros H Hl. rewrite ChangedLevelTo_by by (done || destruct H; lia).
  apply ChangedLevelBy_up; [done | lia..].
Qed.

Lemma ancestor_descendant k d : 0 <= d -> ancestor (descendant k d) d = k.
Proof.
  intros. unfold ancestor, descendant; simpl. destruct k; simpl.
  rewrite !Z.shiftr_shiftl_l, Z.sub_diag, !Z.shiftl_0_r by lia. f_equal; lia.
Qed.

(** ** Ancestry *)

Lemma key_eqb_eq a b : key_eqb a b = true <-> a = b.
Proof.
  unfold key_eqb. rewrite !andb_true_iff, !Z.eqb_eq. destruct a, b; simpl.
  split; [intros [[] ?]; congruence | by intros [= -> -> ->]].
Qed.

Lemma IsChildOf_ancestor k a :
  Valid k -> Valid a ->
  IsChildOf k a = true <-> level_ a < level_ k /\ ancestor k (level_ k - level_ a) = a.
Proof.
  intros Hk Ha. unfold IsChildOf. destruct (Z.leb_spec (level_ k) (level_ a)).
  - split; [done | lia].
  - rewrite key_eqb_eq, ChangedLevelTo_down by (done || destruct Ha; lia). tauto.
Qed.

(** A tile is a child (at any depth) of another exactly when it lies
    deeper and its 64-bit key, with two bits per extra level removed, is the
    other's key. *)
Theorem child_of_iff_key_prefix k a :
  Valid k -> Valid a ->
  IsChildOf k a = true <->
  level_ a < level_ k /\ ToQuadKey64 k >> (2 * (level_ k - level_ a)) = ToQuadKey64 a.
Proof.
  intros Hk Ha. rewrite IsChildOf_ancestor by done.
  assert (level_ a < level_ k ->
    ToQuadKey64 k >> (2 * (level_ k - level_ a)) =
    ToQuadKey64 (ancestor k (level_ k - level_ a))) as E.
  { intros. apply ToQuadKey64_ancestor; [done|]. destruct Ha; lia. }
  split; intros [Hl HA]; (split; [done|]).
  - rewrite E by done. by rewrite HA.
  - apply ToQuadKey64_inj; [| done | by rewrite <- E].
    apply ancestor_Valid; [done|]. destruct Ha; lia.
Qed.

Lemma child_of_iff_key_prefix_witness :
  let k := FromRowColumnLevel 5 6 3 in let a := FromRowColumnLevel 1 1 1 in
  IsChildOf k a = true <->
  level_ a < level_ k /\ ToQuadKey64 k >> (2 * (level_ k - level_ a)) = ToQuadKey64 a.
Proof.
  intros k a. apply (child_of_iff_key_prefix k a);
    unfold Valid, in_range; vm_compute; repeat split; congruence.
Defined.

Lemma IsChildOf_irrefl k : IsChildOf k k = false.
Proof. unfold IsChildOf. by rewrite Z.leb_refl. Qed.

Lemma ancestor_ancestor k d e : 0 <= d -> 0 <= e -> ancestor (ancestor k d) e = ancestor k (d + e).
Proof.
  intros. unfold ancestor; simpl. rewrite !Z.shiftr_shiftr by lia. f_equal; lia.
Qed.

Lemma IsChildOf_trans a b c :
  Valid a -> Valid b -> Valid c ->
  IsChildOf a b = true -> IsChildOf b c = true -> IsChildOf a c = true.
Proof.
  intros Ha Hb Hc. rewrite !IsChildOf_ancestor by done. intros [H1 E1] [H2 E2].
  split; [lia|].
  replace (level_ a - level_ c) with ((level_ a - level_ b) + (level_ b - level_ c)) by lia.
  by rewrite <- ancestor_ancestor, E1 by lia.
Qed.

(** ** The four children *)

Lemma GetChild_child k i :
  Valid k -> level_ k < 31 -> 0 <= i < 4 -> GetChild k i = child k (i / 2) (i mod 2).
Proof.
  intros H Hl Hi. unfold GetChild, child.
  rewrite ChangedLevelBy_up by (done || lia). cbn [descendant row_ column_ level_].
  rewrite Z.shiftr_div_pow2 by lia.
  change (i &&& 1) with (i &&& Z.ones 1). rewrite Z.land_ones by lia.
  change (2 ^ 1) with 2.
  assert (0 <= i / 2 < 2) by (split; [apply Z.div_pos; lia | apply Z.div_lt_upper_bound; lia]).
  pose proof (Z.mod_pos_bound i 2 ltac:(lia)).
  rewrite !lor_shiftl_add by (change (2 ^ 1) with 2; lia). change (2 ^ 1) with 2. f_equal; lia.
Qed.

Lemma RelationshipToParent_low k :
  Valid k -> 0 < level_ k ->
  RelationshipToParent k = quadrant_cast (2 * (row_ k mod 2) + column_ k mod 2).
Proof.
  intros H H0. unfold RelationshipToParent. replace (level_ k =? 0) with false by lia.
  rewrite GetChild_child; [| by apply Parent_Valid | rewrite Parent_ancestor by done;
    simpl; destruct H; lia | lia].
  rewrite Parent_ancestor by done. cbn [child ancestor row_ column_].
  rewrite !Z.shiftr_div_pow2 by lia. change (2 ^ 1) with 2.
  change (0 / 2) with 0. change (0 mod 2) with 0.
  pose proof (Z.div_mod (row_ k) 2 ltac:(lia)). pose proof (Z.div_mod (column_ k) 2 ltac:(lia)).
  pose proof (Z.mod_pos_bound (row_ k) 2 ltac:(lia)).
  pose proof (Z.mod_pos_bound (column_ k) 2 ltac:(lia)).
  replace ((row_ k - (2 * (row_ k / 2) + 0)) * 2 + column_ k - (2 * (column_ k / 2) + 0))
    with (2 * (row_ k mod 2) + column_ k mod 2) by lia.
  by rewrite (wrap_small 32), (wrap_small 8) by (unfold in_range; lia).
Qed.

Lemma quadrant_code_range q : q <> Invalid -> 0 <= quadrant_code q < 4.
Proof. destruct q; simpl; done || lia. Qed.

Lemma quadrant_cast_code q : quadrant_cast (quadrant_code q) = q.
Proof. by destruct q. Qed.

Lemma quadrant_cast_valid z : 0 <= z < 4 -> quadrant_cast z <> Invalid /\ quadrant_code (quadrant_cast z) = z.
Proof.
  intros. assert (z = 0 \/ z = 1 \/ z = 2 \/ z = 3) as [-> | [-> | [-> | ->]]] by lia; done.
Qed.

Lemma low_bits_child z : 0 <= z < 4 -> 2 * (z / 2) + z mod 2 = z.
Proof. intros. pose proof (Z.div_mod z 2 ltac:(lia)). lia. Qed.

(** The four children of a tile above the last level are valid tiles one
    level down whose parent is the tile and whose relationship to it is the
    quadrant they were asked for; conversely every valid tile below the root
    is the child of its parent in the quadrant of its relationship. *)
Theorem children_partition k :
  Valid k ->
  (forall q, level_ k < 31 -> q <> Invalid ->
     Valid (GetChildQuadrant k q) /\ Parent (GetChildQuadrant k q) = k /\
     RelationshipToParent (GetChildQuadrant k q) = q /\
     IsParentOf k (GetChildQuadrant k q) = true) /\
  (0 < level_ k ->
     RelationshipToParent k <> Invalid /\
     GetChildQuadrant (Parent k) (RelationshipToParent k) = k).
Proof.
  intros H. split.
  - intros q Hl Hq. pose proof (quadrant_code_range q Hq) as Hc.
    unfold GetChildQuadrant. rewrite GetChild_child by done.
    set (i := quadrant_code q) in *.
    assert (0 <= i / 2 < 2) as Hi
      by (split; [apply Z.div_pos; lia | apply Z.div_lt_upper_bound; lia]).
    pose proof (Z.mod_pos_bound i 2 ltac:(lia)) as Hm.
    pose proof (child_Valid k _ _ H Hl Hi Hm) as HV.
    assert (0 < level_ (child k (i / 2) (i mod 2))) as H0 by (destruct H; simpl; lia).
    split_and!; [done | by rewrite Parent_ancestor, child_parent | |].
    + rewrite RelationshipToParent_low by done. cbn [child row_ column_].
      assert (forall x b, 0 <= b < 2 -> (2 * x + b) mod 2 = b) as Hmod
        by (intros x b ?; symmetry; apply (Z.mod_unique _ _ x); lia).
      rewrite !Hmod, low_bits_child by done. apply quadrant_cast_code.
    + unfold IsParentOf. apply IsChildOf_ancestor; [done..|]. split; [simpl; lia|].
      cbn [child level_]. replace (level_ k + 1 - level_ k) with 1 by lia.
      by apply child_parent.
  - intros H0. rewrite RelationshipToParent_low by done.
    pose proof (Z.mod_pos_bound (row_ k) 2 ltac:(lia)).
    pose proof (Z.mod_pos_bound (column_ k) 2 ltac:(lia)).
    destruct (quadrant_cast_valid (2 * (row_ k mod 2) + column_ k mod 2)) as [Hv Hc]; [lia|].
    split; [done|]. unfold GetChildQuadrant. rewrite Hc, GetChild_child; cycle 1.
    + by apply Parent_Valid.
    + rewrite Parent_ancestor by done. simpl. destruct H; lia.
    + lia.
    + rewrite Parent_ancestor by done. unfold child, ancestor; simpl.
      rewrite !Z.shiftr_div_pow2 by lia. change (2 ^ 1) with 2.
      pose proof (Z.div_mod (row_ k) 2 ltac:(lia)).
      pose proof (Z.div_mod (column_ k) 2 ltac:(lia)).
      replace ((2 * (row_ k mod 2) + column_ k mod 2) / 2) with (row_ k mod 2)
        by (apply (Z.div_unique _ _ _ (column_ k mod 2)); lia).
      replace ((2 * (row_ k mod 2) + column_ k mod 2) mod 2) with (column_ k mod 2)
        by (apply (Z.mod_unique _ _ (row_ k mod 2)); lia).
      destruct k as [r c l]; simpl in *. f_equal; lia.
Qed.

Lemma children_partition_witness :
  let k := FromRowColumnLevel 5 6 3 in
  (forall q, level_ k < 31 -> q <> Invalid ->
     Valid (GetChildQuadrant k q) /\ Parent (GetChildQuadrant k q) = k /\
     RelationshipToParent (GetChildQuadrant k q) = q /\
     IsParentOf k (GetChildQuadrant k q) = true) /\
  (0 < level_ k ->
     RelationshipToParent k <> Invalid /\
     GetChildQuadrant (Parent k) (RelationshipToParent k) = k).
Proof.
  intros k. apply (children_partition k).
  unfold Valid, in_range; vm_compute; repeat split; congruence.
Defined.

(** ** Sub keys *)

(** The loop of [AddedSubkey] stops at the highest even bit of the sub key. *)
Lemma quad_added_loop_spec fuel sub key (i n : nat) :
  (i <= n <= 30)%nat -> (n - i <= fuel)%nat ->
  2 ^ (2 * Z.of_nat n) <= sub < 2 ^ (2 * Z.of_nat n + 2) ->
  quad_added_loop fuel sub (u64 key) (2 ^ (2 * Z.of_nat i)) =
  Some (u64 (key * 2 ^ (2 * (Z.of_nat n - Z.of_nat i))), 2 ^ (2 * Z.of_nat n)).
Proof.
  revert key i. induction fuel as [|f IH]; intros key i Hi Hf Hs.
  all: assert (2 ^ (2 * Z.of_nat i) <<64 2 = 2 ^ (2 * (Z.of_nat i + 1))) as Hm
    by (rewrite Z.shiftl_mul_pow2, <- Z.pow_add_r by lia;
        replace (2 * Z.of_nat i + 2) with (2 * (Z.of_nat i + 1)) by lia;
        apply wrap_small; split; [lia | apply Z.pow_lt_mono_r; lia]).
  all: cbn [quad_added_loop]; rewrite Hm.
  all: destruct (decide (i = n)) as [->|Hne].
  1, 3: replace (2 * (Z.of_nat n + 1)) with (2 * Z.of_nat n + 2) by lia;
    replace (sub >=? 2 ^ (2 * Z.of_nat n + 2)) with false by lia;
    rewrite Z.sub_diag, Z.mul_0_r, Z.pow_0_r, Z.mul_1_r; done.
  - lia.
  - pose proof (pow2_le (2 * (Z.of_nat i + 1)) (2 * Z.of_nat n)).
    replace (sub >=? 2 ^ (2 * (Z.of_nat i + 1))) with true by lia.
    replace (u64 key <<64 2) with (u64 (key * 4)).
    2:{ rewrite Z.shiftl_mul_pow2 by lia. change (2 ^ 2) with 4.
        unfold wrap. by rewrite Zmult_mod_idemp_l. }
    replace (2 * (Z.of_nat i + 1)) with (2 * Z.of_nat (S i)) by lia.
    rewrite IH by lia. do 3 f_equal.
    rewrite <- Z.mul_assoc. f_equal. change 4 with (2 ^ 2).
    rewrite <- Z.pow_add_r by lia. f_equal. lia.
Qed.

(** The values the mask can take: even powers of two below 2^64, and 0. *)
Definition mask_value (mask : Z) : Prop :=
  mask = 0 \/ exists i, 0 <= i <= 31 /\ mask = 2 ^ (2 * i).

Lemma mask_value_shift mask : mask_value mask -> mask_value (mask <<64 2).
Proof.
  intros [->|(i & Hi & ->)]; [by left|].
  rewrite Z.shiftl_mul_pow2, <- Z.pow_add_r by lia.
  destruct (Z.eq_dec i 31) as [->|]; [by left|]. right. exists (i + 1). split; [lia|].
  rewrite wrap_small; [f_equal; lia|]. split; [lia|]. apply Z.pow_lt_mono_r; lia.
Qed.

Lemma mask_value_le mask : mask_value mask -> mask <= 2 ^ 62.
Proof. intros [->|(i & Hi & ->)]; [lia|]. apply pow2_le. lia. Qed.

(** With a sub key of 2^62 or more the mask overflows to 0 and the test
    [sub_key.key >= (mask << 2)] stays true for ever. *)
Lemma quad_added_loop_diverges fuel sub key mask :
  2 ^ 62 <= sub -> mask_value mask -> quad_added_loop fuel sub key mask = None.
Proof.
  intros Hs. revert key mask.
  induction fuel as [|f IH]; intros key mask Hm%mask_value_shift; cbn [quad_added_loop].
  all: pose proof (mask_value_le _ Hm); replace (sub >=? mask <<64 2) with true by lia.
  - done.
  - by apply IH.
Qed.

Lemma mask_below_pow2 q n :
  0 <= n < 64 -> q &&& u64 (2 ^ n - 1) = q mod 2 ^ n.
Proof.
  intros Hn. rewrite wrap_small.
  - rewrite Z.sub_1_r, <- Z.ones_equiv. apply Z.land_ones; lia.
  - pose proof (pow2_pos n). pose proof (pow2_le n 64). unfold in_range. lia.
Qed.

Lemma GetSubkey64_eq k d :
  0 <= d < 32 -> GetSubkey64 k d = 2 ^ (2 * d) + ToQuadKey64 k mod 2 ^ (2 * d).
Proof.
  intros Hd. unfold GetSubkey64, QuadGetSubkey.
  rewrite shl_one, (Z.mul_comm d), mask_below_pow2, Z.lor_comm by lia.
  rewrite <- (Z.shiftl_1_l (2 * d)) at 1.
  rewrite lor_shiftl_add; [lia | lia|]. apply Z.mod_pos_bound, pow2_pos. lia.
Qed.

(** [AddedSubkey64] is the reverse of [GetSubkey64]: for a tile and a
    number of levels up to 30, adding the tile's sub key to its ancestor gives
    the tile back.  At 31 levels, and for every sub key from 2^62 on, the loop
    of [QuadKey64Helper::AddedSubkey] never ends, although 31 is within the
    documented range. *)
Theorem subkey_roundtrip k d :
  Valid k -> 0 <= d <= level_ k ->
  (d <= 30 -> AddedSubkey64 (ChangedLevelBy k (- d)) (GetSubkey64 k d) = Some k) /\
  (d = 31 -> forall fuel key, quad_added_loop fuel (GetSubkey64 k d) key 1 = None).
Proof.
  intros H Hd. pose proof H as (Hl & _).
  pose proof (Z.mod_pos_bound (ToQuadKey64 k) (2 ^ (2 * d)) ltac:(apply pow2_pos; lia)) as Hm.
  rewrite GetSubkey64_eq by lia. split.
  - intros H30. rewrite ChangedLevelBy_down by done. unfold AddedSubkey64, QuadAddedSubkey.
    rewrite <- ToQuadKey64_ancestor by done. set (q := ToQuadKey64 k) in *.
    assert (in_range 64 (q >> (2 * d))) as HA.
    { unfold q. rewrite ToQuadKey64_ancestor by done.
      pose proof (ancestor_Valid k d H Hd) as HV. apply ToQuadKey64_range; [by apply Valid_wf|].
      apply HV. }
    rewrite <- (wrap_small 64 (q >> (2 * d))) at 1 by done.
    change 1 with (2 ^ (2 * Z.of_nat 0)) at 1.
    rewrite (quad_added_loop_spec _ _ _ 0 (Z.to_nat d)); [| lia | lia |].
    2:{ rewrite Z2Nat.id, Z.pow_add_r by lia. change (2 ^ 2) with 4. lia. }
    rewrite Z2Nat.id, Z.sub_0_r, mask_below_pow2 by lia. simpl. f_equal.
    pose proof (Z.div_mod q (2 ^ (2 * d)) ltac:(pose proof (pow2_pos (2 * d)); lia)) as HD.
    rewrite <- Z.shiftr_div_pow2 in HD by lia.
    pose proof (ToQuadKey64_range k (Valid_wf k H) Hl) as Hq. fold q in Hq.
    rewrite wrap_small by (unfold in_range in *; lia).
    rewrite <- Z.shiftl_mul_pow2 by lia.
    replace ((2 ^ (2 * d) + q mod 2 ^ (2 * d)) mod 2 ^ (2 * d)) with (q mod 2 ^ (2 * d)).
    2:{ rewrite <- Zplus_mod_idemp_l, Z_mod_same_full, Z.add_0_l. symmetry. apply Zmod_mod. }
    rewrite lor_shiftl_add by lia.
    replace (_ * _ + _) with q by lia. by apply from_to_quadkey64.
  - intros -> fuel key. apply quad_added_loop_diverges; [change (2 * 31) with 62 in *; lia|].
    right. exists 0. lia.
Qed.

Lemma subkey_roundtrip_witness :
  let k := FromRowColumnLevel 5 6 3 in
  (2 <= 30 -> AddedSubkey64 (ChangedLevelBy k (- 2)) (GetSubkey64 k 2) = Some k) /\
  (2 = 31 -> forall fuel key, quad_added_loop fuel (GetSubkey64 k 2) key 1 = None).
Proof.
  intros k. apply (subkey_roundtrip k 2);
    unfold Valid, in_range; vm_compute; repeat split; congruence.
Defined.

(** ** Order *)

Lemma key_ltb_lex a b :
  key_ltb a b = true <->
  level_ a < level_ b \/
  (level_ a = level_ b /\ (row_ a < row_ b \/ (row_ a = row_ b /\ column_ a < column_ b))).
Proof.
  unfold key_ltb. destruct (Z.eqb_spec (level_ a) (level_ b)); simpl;
    [destruct (Z.eqb_spec (row_ a) (row_ b)); simpl|]; rewrite Z.ltb_lt; lia.
Qed.

(** [operator<] is a strict total order on tile keys: irreflexive,
    transitive, and any two keys that [operator==] tells apart are ordered. *)
Theorem key_order_total a b c :
  key_ltb a a = false /\
  (key_ltb a b = true -> key_ltb b c = true -> key_ltb a c = true) /\
  (key_ltb a b = true \/ key_eqb a b = true \/ key_ltb b a = true) /\
  (key_eqb a b = true -> key_ltb a b = false).
Proof.
  rewrite <- !not_true_iff_false, key_eqb_eq, !key_ltb_lex.
  split_and!; [lia | lia | | intros ->; lia].
  destruct a as [ra ca la], b as [rb cb lb]; simpl.
  assert (MkTileKey ra ca la = MkTileKey rb cb lb <-> ra = rb /\ ca = cb /\ la = lb) as ->
    by (split; [by intros [= -> -> ->] | by intros (-> & -> & ->)]).
  lia.
Qed.

(** ** Composition of a tile and a relative key *)

(** The tile at position [s] inside tile [k]. *)
Definition compose (k s : TileKey) : TileKey :=
  MkTileKey (row_ k * 2 ^ level_ s + row_ s) (column_ k * 2 ^ level_ s + column_ s)
    (level_ k + level_ s).

Lemma compose_field n m x y :
  0 <= n -> 0 <= m -> in_range n x -> in_range m y -> in_range (n + m) (x * 2 ^ m + y).
Proof.
  unfold in_range. intros. rewrite Z.pow_add_r by lia. pose proof (pow2_pos m). nia.
Qed.

Section compose.
  Context (k s : TileKey) (Hk : Valid k) (Hs : Valid s) (Hks : level_ k + level_ s < 32).

Lemma compose_Valid : Valid (compose k s).
  Proof.
    destruct Hk as (Hl & Hr & Hc), Hs as (Hl' & Hr' & Hc').
    unfold Valid; simpl. split; [lia|]. split; apply compose_field; done || lia.
  Qed.

Lemma added_to_compose : added_to (ChangedLevelBy k (s32 (level_ s))) s = compose k s.
  Proof.
    pose proof compose_Valid as HV. pose proof Hs as (Hl & _).
    rewrite s32_small, ChangedLevelBy_up by (done || lia).
    unfold added_to, FromRowColumnLevel, descendant, compose; simpl.
    rewrite !Z.shiftl_mul_pow2 by lia.
    destruct (Valid_wf _ HV) as (Hr & Hc & _). simpl in *. by rewrite !wrap_small.
  Qed.

Lemma ancestor_compose : ancestor (compose k s) (level_ s) = k.
  Proof.
    destruct Hk as (Hl & Hr & Hc), Hs as (Hl' & Hr' & Hc'). unfold in_range in *.
    unfold ancestor, compose; simpl. destruct k as [kr kc kl]; simpl in *.
    rewrite !Z.shiftr_div_pow2, !Z.div_add_l, !(Z.div_small _ (2 ^ _)) by lia. f_equal; lia.
  Qed.

Lemma compose_digit i :
    Z.of_nat i < level_ k + level_ s ->
    digit_value (ToQuadKey64 (compose k s)) i =
    if decide (i < Z.to_nat (level_ s))%nat then digit_value (ToQuadKey64 s) i
    else digit_value (ToQuadKey64 k) (i - Z.to_nat (level_ s)).
  Proof.
    intros Hi. pose proof compose_Valid as HV. destruct Hs as (Hl' & Hr' & Hc').
    assert (forall x y, in_range (level_ s) y ->
      Z.testbit (x * 2 ^ level_ s + y) (Z.of_nat i) =
      if decide (i < Z.to_nat (level_ s))%nat then Z.testbit y (Z.of_nat i)
      else Z.testbit x (Z.of_nat (i - Z.to_nat (level_ s)))) as Hbit.
    { intros x y Hy. rewrite <- lor_shiftl_add by (apply Hy || lia).
      rewrite Z.lor_spec, Z.shiftl_spec by lia. case_decide.
      - by rewrite (Z.testbit_neg_r x) by lia.
      - rewrite (testbit_high _ y _ Hy), orb_false_r by lia. f_equal. lia. }
    case_decide as HD; apply digit_value_ext; intros b Hb;
      rewrite !digit_value_tile by (done || simpl; lia);
      destruct (Z.even b); cbn [compose row_ column_]; rewrite Hbit by done.
    all: done || (by rewrite decide_True by done) || by rewrite decide_False by done.
  Qed.

Lemma compose_quadkey :
    0 < level_ k -> 0 < level_ s -> ToQuadKey (compose k s) = ToQuadKey k ++ ToQuadKey s.
  Proof.
    intros H0 H0'. rewrite !ToQuadKey_text by (apply compose_Valid || done || simpl; lia).
    set (n := Z.to_nat (level_ k)). set (m := Z.to_nat (level_ s)).
    replace (Z.to_nat (level_ (compose k s))) with (n + m)%nat by (simpl; lia).
    unfold quad_text. rewrite seq_app, fmap_app. simpl. f_equal.
    - apply list_fmap_ext. intros j p [-> Hp]%lookup_seq.
      destruct Hk as (Hl & _), Hs as (Hl' & _).
      rewrite !quad_digit_value, compose_digit by lia. rewrite decide_False by lia.
      do 3 f_equal. lia.
    - replace (seq n m) with (seq (n + 0) m) by (by rewrite Nat.add_0_r).
      rewrite <- fmap_add_seq, <- list_fmap_compose.
      apply list_fmap_ext. intros j p [-> Hp]%lookup_seq. simpl.
      destruct Hk as (Hl & _), Hs as (Hl' & _).
      replace (n + m - 1 - (n + j))%nat with (m - 1 - j)%nat by lia.
      rewrite !quad_digit_value, compose_digit by lia. by rewrite decide_True by lia.
  Qed.
End compose.

(** Appending a relative key to a tile is one operation whatever form the
    relative key has: [GetAbsoluteSubTileKey], [AddedSubkey] with the quad-key
    string and [AddedSubHereTile] with the HERE-tile string agree; the result
    is a valid tile below the first one, [GetRelativeSubTileKey] recovers the
    relative key, and quad-key strings are concatenated. *)
Theorem sub_tile_composition k s :
  Valid k -> Valid s -> level_ k + level_ s < 32 ->
  let r := GetAbsoluteSubTileKey k s in
  Valid r /\ AddedSubkey k (ToQuadKey s) = r /\ AddedSubHereTile k (ToHereTile s) = r /\
  ChangedLevelTo r (level_ k) = k /\ GetRelativeSubTileKey r (level_ k) = s /\
  (0 < level_ k -> 0 < level_ s -> ToQuadKey r = ToQuadKey k ++ ToQuadKey s).
Proof.
  intros Hk Hs Hks r. pose proof (added_to_compose k s Hk Hs Hks) as Hadd.
  unfold r, GetAbsoluteSubTileKey in *. fold (added_to (ChangedLevelBy k (s32 (level_ s))) s).
  rewrite Hadd. clear r.
  pose proof (compose_Valid k s Hk Hs Hks) as HV.
  assert (ChangedLevelTo (compose k s) (level_ k) = k) as Hup.
  { rewrite ChangedLevelTo_down by (done || destruct Hk, Hs; simpl; lia).
    simpl. replace (level_ k + level_ s - level_ k) with (level_ s) by lia.
    by apply ancestor_compose. }
  split_and!; [done | | | done | |].
  - unfold AddedSubkey. rewrite bool_decide_false.
    + by rewrite from_to_quadkey.
    + destruct (Z.eq_dec (level_ s) 0) as [E|E]; [by rewrite (Valid_level0 s Hs E)|].
      rewrite ToQuadKey_text by (done || destruct Hs; lia).
      apply quad_text_not_special. destruct Hs; lia.
  - unfold AddedSubHereTile. by rewrite from_to_here_tile.
  - unfold GetRelativeSubTileKey. rewrite Hup.
    rewrite ChangedLevelTo_up by (done || destruct Hk, Hs; simpl; lia).
    unfold FromRowColumnLevel, descendant, compose. cbn [row_ column_ level_].
    replace (level_ k + level_ s - level_ k) with (level_ s) by lia.
    rewrite !Z.shiftl_mul_pow2 by (destruct Hs; lia).
    rewrite !Z.add_simpl_l. destruct (Valid_wf s Hs) as (Hr & Hc & Hl).
    rewrite !wrap_small by done. by destruct s.
  - by apply compose_quadkey.
Qed.

Lemma sub_tile_composition_witness :
  let k := FromRowColumnLevel 5 6 3 in let s := FromRowColumnLevel 1 2 2 in
  let r := GetAbsoluteSubTileKey k s in
  Valid r /\ AddedSubkey k (ToQuadKey s) = r /\ AddedSubHereTile k (ToHereTile s) = r /\
  ChangedLevelTo r (level_ k) = k /\ GetRelativeSubTileKey r (level_ k) = s /\
  (0 < level_ k -> 0 < level_ s -> ToQuadKey r = ToQuadKey k ++ ToQuadKey s).
Proof.
  intros k s. apply (sub_tile_composition k s);
    unfold Valid, in_range; vm_compute; repeat split; congruence.
Defined.
