(* ===== verification/SubTiles.v ===== *)
(** * Sub-tile enumeration

    The iterator of SubTiles.h, the subdivision schemes
    (QuadTreeSubdivisionScheme.cpp, HalfQuadTreeSubdivisionScheme.cpp) behind
    the interface of ISubdivisionScheme.h, and TileTreeTraverse.cpp. *)

From stdpp Require Import base numbers list strings.
From Stdlib Require Import ZArith Lia Bool Ascii.
From S2P Require Import Prelude Decimal TileKey TileKeyFacts TileText TileTree.

Local Open Scope Z_scope.
Local Open Scope olp_scope.

(** ** SubTiles *)

Record SubTiles := MkSubTilesRecord {
  tile_key_ : TileKey; sub_level_ : Z; count_ : Z; mask_ : Z; shift_ : Z }.

Definition MkSubTiles (tileKey : TileKey) (level mask : Z) : SubTiles :=
  MkSubTilesRecord tileKey level (u32 (s32 (Z.shiftl 1 (level <<32 1)))) mask
    (if level >? 2 then u32 (level - 2) <<32 1 else 0).

(** [Skip]: the loop advances [index] over the positions the mask hides; the
    index grows towards [count_], so [count_] iterations suffice. *)
Fixpoint skip_loop (fuel : nat) (st : SubTiles) (index : Z) : Z :=
  if (index <? count_ st) && negb (flag (mask_ st) (s32 (Z.shiftl 1 (index >> shift_ st)))) then
    match fuel with
    | O => index
    | S n => skip_loop n st (u32 (index + 1))
    end
  else index.

Definition Skip (st : SubTiles) (index : Z) : Z :=
  if mask_ st =? u16 (-1) then index else skip_loop (Z.to_nat (count_ st)) st index.

(** [Iterator::operator*]. *)
Definition deref (st : SubTiles) (index : Z) : TileKey :=
  FromRowColumnLevel
    ((row_ (tile_key_ st) <<32 sub_level_ st) ||| (index >> sub_level_ st))
    ((column_ (tile_key_ st) <<32 sub_level_ st) ||| (index &&& ((1 <<32 sub_level_ st) - 1)))
    (u32 (level_ (tile_key_ st) + sub_level_ st)).

Definition begin_index (st : SubTiles) : Z := Skip st 0.
Definition end_index (st : SubTiles) : Z := Skip st (count_ st).
Definition next_index (st : SubTiles) (index : Z) : Z := Skip st (u32 (index + 1)).

(** The tiles a range-based [for] visits. *)
Fixpoint visit (fuel : nat) (st : SubTiles) (index : Z) : list TileKey :=
  if index =? end_index st then []
  else match fuel with
       | O => []
       | S n => deref st index :: visit n st (next_index st index)
       end.

Definition tiles (st : SubTiles) : list TileKey :=
  visit (Z.to_nat (count_ st)) st (begin_index st).

(** ** Subdivision schemes *)

Record Size2u := MkSize2u { width : Z; height : Z }.

(** [ISubdivisionScheme], with the laws its users rely on: a tile splits into
    two columns and one or two rows, and the number of tiles of a level is
    that of the level above times the subdivision. *)
Class SubdivisionScheme := {
  GetSubdivisionAt : Z -> Size2u;
  GetLevelSize : Z -> Size2u;
  subdivision_shape level :
    0 <= level < 31 ->
    width (GetSubdivisionAt level) = 2 /\ 1 <= height (GetSubdivisionAt level) <= 2;
  level_size_step level :
    0 <= level < 31 ->
    width (GetLevelSize (level + 1)) = width (GetLevelSize level) * width (GetSubdivisionAt level) /\
    height (GetLevelSize (level + 1)) = height (GetLevelSize level) * height (GetSubdivisionAt level)
}.

Definition quad_GetSubdivisionAt (level : Z) : Size2u := MkSize2u 2 2.
Definition quad_GetLevelSize (level : Z) : Size2u := MkSize2u (1 <<32 level) (1 <<32 level).

Definition half_GetSubdivisionAt (level : Z) : Size2u :=
  MkSize2u 2 (if level =? 0 then 1 else 2).
Definition half_GetLevelSize (level : Z) : Size2u :=
  MkSize2u (1 <<32 level) (if level =? 0 then 1 else 1 <<32 (u32 (level - 1))).

#[export] Program Instance QuadTreeSubdivisionScheme : SubdivisionScheme := {|
  GetSubdivisionAt := quad_GetSubdivisionAt; GetLevelSize := quad_GetLevelSize |}.
Next Obligation. simpl. lia. Qed.
Next Obligation.
  intros level Hl. unfold quad_GetLevelSize, quad_GetSubdivisionAt; simpl.
  rewrite !shl_one, Z.pow_add_r by lia. lia.
Qed.

#[export] Program Instance HalfQuadTreeSubdivisionScheme : SubdivisionScheme := {|
  GetSubdivisionAt := half_GetSubdivisionAt; GetLevelSize := half_GetLevelSize |}.
Next Obligation. intros level Hl. simpl. destruct (level =? 0); lia. Qed.
Next Obligation.
  intros level Hl. unfold half_GetLevelSize, half_GetSubdivisionAt; simpl.
  rewrite !shl_one, Z.pow_add_r by lia. replace (level + 1 =? 0) with false by lia.
  rewrite (wrap_small 32 (level + 1 - 1)), shl_one by (unfold in_range; lia).
  split; [lia|]. replace (level + 1 - 1) with level by lia.
  destruct (Z.eqb_spec level 0) as [->|]; [done|].
  rewrite (wrap_small 32 (level - 1)), shl_one by (unfold in_range; lia).
  replace (2 ^ level) with (2 ^ (level - 1 + 1)) by (f_equal; lia).
  rewrite Z.pow_add_r by lia. lia.
Qed.

(** [TileTreeTraverse::SubNodes]. *)
Definition SubNodes (scheme : SubdivisionScheme) (node : TileKey) : SubTiles :=
  let subdivision := GetSubdivisionAt (level_ node) in
  let subTileCount := u32 (width subdivision * height subdivision) in
  let subTileMask := u16 (Z.lnot (s32 (Z.shiftl (-1) subTileCount))) in
  MkSubTiles node 1 subTileMask.

(** ** The enumeration as a filtered list *)

(** The positions the mask shows. *)
Definition visible (st : SubTiles) (index : Z) : bool :=
  (mask_ st =? u16 (-1)) || flag (mask_ st) (s32 (Z.shiftl 1 (index >> shift_ st))).

Lemma skip_loop_fuel f1 f2 st i :
  0 <= i <= count_ st -> in_range 32 (count_ st) ->
  count_ st - i <= Z.of_nat f1 -> count_ st - i <= Z.of_nat f2 ->
  skip_loop f1 st i = skip_loop f2 st i.
Proof.
  intros Hi Hc. revert f2 i Hi. induction f1 as [|f1 IH]; intros f2 i Hi H1 H2.
  - assert (i = count_ st) as -> by lia.
    destruct f2; simpl; by rewrite Z.ltb_irrefl.
  - simpl. destruct ((i <? count_ st) && _) eqn:E.
    + destruct f2 as [|f2]; [lia|]. simpl. rewrite E.
      rewrite wrap_small by (unfold in_range in *; lia). apply IH; lia.
    + destruct f2; simpl; by rewrite E.
Qed.

Section enumeration.
  Context (st : SubTiles) (Hc : in_range 32 (count_ st)).

Lemma Skip_visible i : visible st i = true -> Skip st i = i.
  Proof.
    unfold visible, Skip. destruct (mask_ st =? u16 (-1)); [done|]. simpl. intros Hv.
    destruct (Z.to_nat (count_ st)); simpl; by rewrite Hv, andb_false_r.
  Qed.

Lemma Skip_hidden i : 0 <= i < count_ st -> visible st i = false -> Skip st i = Skip st (i + 1).
  Proof.
    unfold visible, Skip. destruct (mask_ st =? u16 (-1)); [done|]. simpl. intros Hi Hv.
    destruct (Z.to_nat (count_ st)) as [|f] eqn:Ef; [lia|]. cbn [skip_loop].
    rewrite Hv. replace (i <? count_ st) with true by lia. simpl negb. simpl andb. cbn iota.
    rewrite wrap_small by (unfold in_range in *; lia).
    change (skip_loop f st (i + 1) = skip_loop (S f) st (i + 1)).
    apply skip_loop_fuel; done || lia.
  Qed.

Lemma Skip_end : Skip st (count_ st) = count_ st.
  Proof.
    unfold Skip. destruct (mask_ st =? u16 (-1)); [done|].
    destruct (Z.to_nat (count_ st)); simpl; by rewrite Z.ltb_irrefl.
  Qed.

Lemma visit_filter n fuel i :
    0 <= i <= count_ st -> Z.to_nat (count_ st - i) = n -> (n <= fuel)%nat ->
    visit fuel st (Skip st i) =
    deref st <$> filter (fun i => visible st i = true) (seqZ i (count_ st - i)).
  Proof.
    revert fuel i. induction n as [|n IH]; intros fuel i Hi Hn Hf.
    - assert (i = count_ st) as -> by lia. rewrite Z.sub_diag. simpl.
      destruct fuel; simpl; unfold end_index; by rewrite Z.eqb_refl.
    - rewrite seqZ_cons by lia. rewrite filter_cons.
      replace (Z.pred (count_ st - i)) with (count_ st - (i + 1)) by lia.
      replace (Z.succ i) with (i + 1) by lia.
      destruct (visible st i) eqn:Hv.
      + rewrite decide_True by done. rewrite Skip_visible by done.
        destruct fuel as [|fuel]; [lia|]. simpl. unfold end_index. rewrite Skip_end.
        replace (i =? count_ st) with false by lia. f_equal.
        unfold next_index. rewrite wrap_small by (unfold in_range in *; lia). apply IH; lia.
      + rewrite decide_False by done. rewrite Skip_hidden by (done || lia).
        apply IH; lia.
  Qed.

Lemma tiles_filter :
    tiles st = deref st <$> filter (fun i => visible st i = true) (seqZ 0 (count_ st)).
  Proof.
    unfold tiles, begin_index. unfold in_range in Hc.
    rewrite (visit_filter (Z.to_nat (count_ st))) by lia. by rewrite Z.sub_0_r.
  Qed.
End enumeration.

(** The relative key of position [index] in a block of 2^l by 2^l tiles. *)
Definition position (l index : Z) : TileKey := MkTileKey (index / 2 ^ l) (index mod 2 ^ l) l.

Lemma position_Valid l i : 0 <= l < 32 -> 0 <= i < 4 ^ l -> Valid (position l i).
Proof.
  intros Hl Hi. unfold Valid, in_range; simpl. pose proof (pow2_pos l).
  replace (4 ^ l) with (2 ^ l * 2 ^ l) in Hi
    by (change 4 with (2 * 2); by rewrite Z.pow_mul_l).
  split_and!; try lia; [apply Z.div_pos; lia | apply Z.div_lt_upper_bound; lia | ..];
    apply Z.mod_pos_bound; lia.
Qed.

Section block.
  Context (k : TileKey) (L mask : Z) (Hk : Valid k) (HL : 0 <= L <= 15)
    (HkL : level_ k + L < 32) (Hmask : in_range 16 mask).
Let st : SubTiles := MkSubTiles k L mask.

Lemma count_eq : count_ st = 4 ^ L.
  Proof.
    unfold st, MkSubTiles; cbn [count_].
    rewrite (Z.shiftl_mul_pow2 L) by lia. change (2 ^ 1) with 2.
    rewrite (wrap_small 32 (L * 2)) by (unfold in_range; lia).
    rewrite Z.shiftl_1_l, Z.mul_comm, Z.pow_mul_r by lia. change (2 ^ 2) with 4.
    assert (0 < 4 ^ L < 2 ^ 31).
    { split; [apply Z.pow_pos_nonneg; lia|].
      change 4 with (2 ^ 2). rewrite <- Z.pow_mul_r by lia. apply Z.pow_lt_mono_r; lia. }
    rewrite s32_small, wrap_small by (unfold in_range; lia). done.
  Qed.

Lemma count_range : in_range 32 (count_ st).
  Proof.
    rewrite count_eq. change 4 with (2 ^ 2). rewrite <- Z.pow_mul_r by lia.
    split; [apply Z.pow_nonneg; lia | apply Z.pow_lt_mono_r; lia].
  Qed.

  (** Above two levels one mask bit covers 4^(L-2) consecutive positions. *)
Lemma shift_eq : shift_ st = if L >? 2 then 2 * (L - 2) else 0.
  Proof.
    unfold st, MkSubTiles; cbn [shift_]. destruct (Z.gtb_spec L 2); [|done].
    rewrite Z.shiftl_mul_pow2 by lia. change (2 ^ 1) with 2.
    rewrite !wrap_small by (rewrite ?wrap_small; unfold in_range; lia). lia.
  Qed.

Lemma shift_bound i : 0 <= i < 4 ^ L -> 0 <= i >> shift_ st < 16.
  Proof.
    intros Hi. rewrite shift_eq. change 16 with (2 ^ 4).
    destruct (Z.gtb_spec L 2).
    - apply shiftr_range; [lia | | lia].
      replace (4 + 2 * (L - 2)) with (2 * L) by lia. by rewrite Z.pow_mul_r by lia.
    - rewrite Z.shiftr_0_r. split; [lia|].
      eapply Z.lt_le_trans; [apply Hi|]. change (2 ^ 4) with (4 ^ 2).
      apply Z.pow_le_mono_r; lia.
  Qed.

Lemma visible_eq i :
    0 <= i < 4 ^ L ->
    visible st i = true <-> mask = 65535 \/ Z.testbit mask (i >> shift_ st) = true.
  Proof.
    intros Hi. pose proof (shift_bound i Hi) as Hb. unfold visible.
    rewrite Z.shiftl_1_l, s32_small.
    2:{ pose proof (pow2_pos (i >> shift_ st)).
        pose proof (Z.pow_lt_mono_r 2 (i >> shift_ st) 31). lia. }
    rewrite flag_pow2, orb_true_iff, Z.eqb_eq by lia. done.
  Qed.

Lemma deref_eq i : 0 <= i < 4 ^ L -> deref st i = compose k (position L i).
  Proof.
    intros Hi. pose proof Hk as (Hl & Hr & Hc).
    pose proof (position_Valid L i ltac:(lia) Hi) as (_ & Hpr & Hpc). simpl in Hpr, Hpc.
    unfold deref, FromRowColumnLevel, compose, st, MkSubTiles;
      cbn [tile_key_ sub_level_ position row_ column_ level_].
    rewrite !(shl_small 32 (level_ k)) by (apply Hr || apply Hc || lia).
    rewrite shl_one, Z.sub_1_r, <- Z.ones_equiv, Z.land_ones, Z.shiftr_div_pow2 by lia.
    rewrite !lor_shiftl_add by (apply Hpr || apply Hpc || lia).
    rewrite wrap_small by (unfold in_range; lia). done.
  Qed.
End block.

Lemma compose_inj k p q : level_ p = level_ q -> compose k p = compose k q -> p = q.
Proof.
  destruct p, q; unfold compose; simpl. intros <- [= H1 H2]. f_equal; lia.
Qed.

Lemma position_inj l i j : 0 <= l -> position l i = position l j -> i = j.
Proof.
  intros Hl [= H1 H2]. pose proof (pow2_pos l).
  rewrite (Z.div_mod i (2 ^ l)), (Z.div_mod j (2 ^ l)) by lia. congruence.
Qed.

(** The position of a tile in the block of [2^l] by [2^l] tiles below [k]. *)
Definition block_index (k t : TileKey) (l : Z) : Z :=
  (row_ t - row_ k * 2 ^ l) * 2 ^ l + (column_ t - column_ k * 2 ^ l).

Lemma block_index_compose k l i :
  0 <= l -> block_index k (compose k (position l i)) l = i.
Proof.
  intros. unfold block_index, compose; simpl. pose proof (pow2_pos l).
  pose proof (Z.div_mod i (2 ^ l)). lia.
Qed.

(** Every tile [l] levels below [k] is composed of [k] and its position. *)
Lemma below_is_composed k t l :
  Valid t -> 0 <= l -> level_ t = level_ k + l -> ancestor t l = k ->
  0 <= block_index k t l < 4 ^ l /\ compose k (position l (block_index k t l)) = t.
Proof.
  intros (Hlt & Hr & Hc) Hl HL Ha. pose proof (pow2_pos l). unfold in_range in *.
  unfold ancestor in Ha. rewrite !Z.shiftr_div_pow2 in Ha by lia.
  destruct k as [kr kc kl], t as [tr tc tl]; simpl in *. injection Ha as H1 H2 H3.
  pose proof (Z.div_mod tr (2 ^ l)). pose proof (Z.div_mod tc (2 ^ l)).
  pose proof (Z.mod_pos_bound tr (2 ^ l)). pose proof (Z.mod_pos_bound tc (2 ^ l)).
  replace (4 ^ l) with (2 ^ l * 2 ^ l) by (change 4 with (2 * 2); by rewrite Z.pow_mul_l).
  unfold block_index, compose, position; simpl.
  replace (tr - kr * 2 ^ l) with (tr mod 2 ^ l) by lia.
  replace (tc - kc * 2 ^ l) with (tc mod 2 ^ l) by lia.
  split; [nia|]. rewrite Z.div_add_l, (Z.div_small (tc mod _)) by lia.
  rewrite <- (Z.mod_unique (tr mod 2 ^ l * 2 ^ l + tc mod 2 ^ l) (2 ^ l)
                (tr mod 2 ^ l) (tc mod 2 ^ l)) by lia.
  f_equal; lia.
Qed.

(** Iterating over [SubTiles(k, L, mask)] visits, without repetition, the
    tiles L levels below k whose position the mask shows (all of them for the
    mask of all ones): L is at most 15, and for more than two levels each mask
    bit stands for 4^(L-2) consecutive positions. *)
Theorem sub_tiles_enumeration k L mask :
  Valid k -> 0 <= L <= 15 -> level_ k + L < 32 -> in_range 16 mask ->
  NoDup (tiles (MkSubTiles k L mask)) /\
  (forall t, t ∈ tiles (MkSubTiles k L mask) <->
     Valid t /\ level_ t = level_ k + L /\ ancestor t L = k /\
     (mask = 65535 \/
      Z.testbit mask (block_index k t L >> (if L >? 2 then 2 * (L - 2) else 0)) = true)).
Proof.
  intros Hk HL HkL Hm. set (st := MkSubTiles k L mask).
  rewrite (tiles_filter st (count_range k L mask HL)).
  assert (count_ st = 4 ^ L) as Hcount by (by apply count_eq).
  assert (forall i, i ∈ seqZ 0 (count_ st) -> 0 <= i < 4 ^ L) as Hseq
    by (intros i Hi%elem_of_seqZ; lia).
  split.
  - apply NoDup_fmap_2_strong; [|apply NoDup_filter, NoDup_seqZ].
    intros i j [_ Hi%Hseq]%list_elem_of_filter [_ Hj%Hseq]%list_elem_of_filter.
    unfold st. rewrite !deref_eq by done. intros E%compose_inj; [|done].
    apply position_inj in E; lia.
  - intros t. rewrite list_elem_of_fmap. split.
    + intros (i & -> & [Hv Hi]%list_elem_of_filter). pose proof (Hseq i Hi) as Hr.
      unfold st in *. rewrite deref_eq by done.
      pose proof (position_Valid L i ltac:(lia) Hr) as HV.
      split_and!; [by apply compose_Valid | done | by apply ancestor_compose |].
      rewrite block_index_compose by lia.
      apply visible_eq in Hv; [|done..]. by rewrite shift_eq in Hv.
    + intros (HV & Hl & Ha & Hv). destruct (below_is_composed k t L) as [Hb Hc]; [done | lia | done.. |].
      exists (block_index k t L). unfold st. rewrite deref_eq by done. split; [done|].
      apply list_elem_of_filter. split.
      * apply visible_eq; [done..|]. by rewrite shift_eq.
      * apply elem_of_seqZ. rewrite count_eq; lia.
Qed.

Lemma sub_tiles_enumeration_witness :
  let k := FromRowColumnLevel 3 5 4 in
  NoDup (tiles (MkSubTiles k 3 5)) /\
  (forall t, t ∈ tiles (MkSubTiles k 3 5) <->
     Valid t /\ level_ t = level_ k + 3 /\ ancestor t 3 = k /\
     (5 = 65535 \/ Z.testbit 5 (block_index k t 3 >> (if 3 >? 2 then 2 * (3 - 2) else 0)) = true)).
Proof.
  intros k. apply (sub_tiles_enumeration k 3 5);
    unfold Valid, in_range; vm_compute; repeat split; congruence.
Defined.

(** For every subdivision scheme that keeps the interface's laws, the sub
    nodes of a tile above the last level are its children in the order SW, SE,
    NW, NE, the upper row only where the scheme splits the tile in two rows. *)
Theorem sub_nodes_children (scheme : SubdivisionScheme) k :
  Valid k -> level_ k < 31 ->
  tiles (SubNodes scheme k) =
  GetChildQuadrant k <$>
    (if height (GetSubdivisionAt (level_ k)) =? 1 then [SW; SE] else [SW; SE; NW; NE]).
Proof.
  intros Hk Hl. destruct (subdivision_shape (level_ k)) as [Hw Hh]; [destruct Hk; lia|].
  assert (forall mask i, in_range 16 mask -> 0 <= i < 4 ->
    deref (MkSubTiles k 1 mask) i = GetChild k i) as Hderef.
  { intros mask i Hm Hi. rewrite deref_eq, GetChild_child by (done || lia).
    unfold compose, child, position; cbn [row_ column_ level_]. change (2 ^ 1) with 2. f_equal; lia. }
  unfold SubNodes. rewrite Hw.
  assert (height (GetSubdivisionAt (level_ k)) = 1 \/ height (GetSubdivisionAt (level_ k)) = 2)
    as [-> | ->] by lia.
  all: rewrite tiles_filter by (by apply count_range).
  all: match goal with |- context [MkSubTiles ?kk 1 ?m] =>
    let v := eval vm_compute in m in change m with v end.
  all: match goal with |- context [filter ?P ?l] =>
    let v := eval vm_compute in (filter P l) in change (filter P l) with v end.
  all: cbn [fmap list_fmap]; rewrite !Hderef by (unfold in_range; lia); done.
Qed.

Lemma sub_nodes_children_witness :
  let k := FromRowColumnLevel 0 0 0 in
  tiles (SubNodes HalfQuadTreeSubdivisionScheme k) =
  GetChildQuadrant k <$>
    (if height (GetSubdivisionAt (level_ k)) =? 1 then [SW; SE] else [SW; SE; NW; NE]).
Proof.
  intros k. apply (sub_nodes_children HalfQuadTreeSubdivisionScheme k);
    unfold Valid, in_range; vm_compute; repeat split; congruence.
Defined.
