(* ===== verification/LruCache.v ===== *)
(** * The LRU cache

    [olp-cpp-sdk-core/include/olp/core/utils/LruCache.h]: a [std::map] whose
    buckets are linked, most recently used first, by iterators stored in them.
    An iterator is the key of its node, [None] for [map_.end()]; dereferencing
    an iterator that is [end()] or whose node has been erased, a failed
    [assert] and an exhausted fuel are all the result [None] of an operation.
    The state captured by the eviction callback is passed along as [CB]. *)

From S2P Require Import Prelude.
From stdpp Require Import base gmap list option numbers.
From Stdlib Require Import ZArith Lia.
Local Open Scope Z_scope.
Local Open Scope olp_scope.

(** [LruCache::Bucket]. *)
Record Bucket (K V : Type) := MkBucket {
  next_ : option K; previous_ : option K; value_ : V }.
Arguments MkBucket {K V} _ _ _.
Arguments next_ {K V} _.
Arguments previous_ {K V} _.
Arguments value_ {K V} _.

Record LruCache (K V CB : Type) `{Countable K} := MkLruCache {
  eviction_callback_ : option (K -> V -> CB -> CB);
  cache_cost_func_ : V -> Z;
  map_ : gmap K (Bucket K V);
  first_ : option K;
  last_ : option K;
  max_size_ : Z;
  size_ : Z }.
Arguments MkLruCache {K V CB _ _} _ _ _ _ _ _ _.
Arguments eviction_callback_ {K V CB _ _} _.
Arguments cache_cost_func_ {K V CB _ _} _ _.
Arguments map_ {K V CB _ _} _.
Arguments first_ {K V CB _ _} _.
Arguments last_ {K V CB _ _} _.
Arguments max_size_ {K V CB _ _} _.
Arguments size_ {K V CB _ _} _.

(** [CacheCost<T>::operator()]. *)
Definition CacheCost {V : Type} (value : V) : Z := 1.

Section lru_cache.
Context {K V CB : Type} `{Countable K}.
Implicit Types (c : LruCache K V CB) (k : K) (v : V) (w : CB) (it : option K).

(** [LruCache(maxSize, cacheCostFunc)]. *)
Definition NewLruCache (maxSize : Z) (cacheCostFunc : V -> Z) : LruCache K V CB :=
  MkLruCache None cacheCostFunc ∅ None None maxSize 0.

(** ** Field updates *)

Definition with_map (m : gmap K (Bucket K V)) c : LruCache K V CB :=
  MkLruCache (eviction_callback_ c) (cache_cost_func_ c) m (first_ c) (last_ c)
    (max_size_ c) (size_ c).
Definition with_first it c : LruCache K V CB :=
  MkLruCache (eviction_callback_ c) (cache_cost_func_ c) (map_ c) it (last_ c)
    (max_size_ c) (size_ c).
Definition with_last it c : LruCache K V CB :=
  MkLruCache (eviction_callback_ c) (cache_cost_func_ c) (map_ c) (first_ c) it
    (max_size_ c) (size_ c).
Definition with_size (n : Z) c : LruCache K V CB :=
  MkLruCache (eviction_callback_ c) (cache_cost_func_ c) (map_ c) (first_ c) (last_ c)
    (max_size_ c) n.

(** [*it] *)
Definition deref (it : option K) c : option (Bucket K V) := k ← it; map_ c !! k.

(** [it->second.setNext(n)] *)
Definition setNext it (n : option K) c : option (LruCache K V CB) :=
  k ← it; b ← map_ c !! k;
  Some (with_map (<[k := MkBucket n (previous_ b) (value_ b)]> (map_ c)) c).

(** [it->second.setPrevious(p)] *)
Definition setPrevious it (p : option K) c : option (LruCache K V CB) :=
  k ← it; b ← map_ c !! k;
  Some (with_map (<[k := MkBucket (next_ b) p (value_ b)]> (map_ c)) c).

(** ** Private operations *)

Definition Promote it c : option (LruCache K V CB) :=
  if decide (it = first_ c) then Some c
  else
    (* re-link previous and next buckets together *)
    b ← deref it c;
    c1 ← setNext (previous_ b) (next_ b) c;
    b1 ← deref it c1;
    c2 ← (if decide (next_ b1 = None) then Some (with_last (previous_ b1) c1)
          else setPrevious (next_ b1) (previous_ b1) c1);
    (* re-link our bucket *)
    c3 ← setPrevious it None c2;
    c4 ← setNext it (first_ c3) c3;
    (* update current head to ourselves *)
    c5 ← setPrevious (first_ c4) it c4;
    Some (with_first it c5).

(** The private [Erase(it, doEvictionCallback)]. *)
Definition EraseAt it (doEvictionCallback : bool) c w : option (LruCache K V CB * CB) :=
  k ← it;
  b ← deref it c;
  let cost := cache_cost_func_ c (value_ b) in
  c1 ← (if decide (next_ b = None) then Some (with_last (previous_ b) c)
        else setPrevious (next_ b) (previous_ b) c);
  b1 ← deref it c1;
  c2 ← (if decide (previous_ b1 = None) then Some (with_first (next_ b1) c1)
        else setNext (previous_ b1) (next_ b1) c1);
  b2 ← deref it c2;
  let w' := match eviction_callback_ c2 with
            | Some callback => if doEvictionCallback then callback k (value_ b2) w else w
            | None => w
            end in
  let c3 := with_map (delete k (map_ c2)) c2 in
  Some (with_size (u64 (size_ c3 - cost)) c3, w').

Definition PopLast c w : option (LruCache K V CB * CB) :=
  (* assert if the cache is empty, and that our item's 'next' is the end *)
  b ← deref (last_ c) c;
  if decide (next_ b = None) then EraseAt (last_ c) true c w else None.

(** [while (size_ > max_size_) PopLast();] *)
Fixpoint evict_loop (fuel : nat) c w : option (LruCache K V CB * CB) :=
  if size_ c >? max_size_ c then
    match fuel with
    | O => None
    | S n => '(c', w') ← PopLast c w; evict_loop n c' w'
    end
  else Some (c, w).

(** Every iteration erases a node, so the number of nodes bounds them. *)
Definition evict c w : option (LruCache K V CB * CB) := evict_loop (size (map_ c)) c w.

Definition AddInternal it (cost : Z) (oldCost : option Z) c w : option (LruCache K V CB * CB) :=
  c' ← match oldCost with
       | None =>
         (* new bucket added *)
         c1 ← (if decide (size (map_ c) = 1%nat) then
                 (* we're the first and only one. *)
                 if decide (last_ c = None /\ first_ c = None)
                 then Some (with_last it (with_first it c)) else None
               else
                 (* relink first bucket *)
                 c2 ← setNext it (first_ c) c;
                 c3 ← setPrevious (first_ c2) it c2;
                 Some (with_first it c3));
         Some (with_size (u64 (size_ c1 + cost)) c1)
       | Some old =>
         (* key already in map - only promote *)
         Promote it (with_size (u64 (size_ c + u64 (cost - old))) c)
       end;
  evict c' w.

(** ** Public operations

    An operation that returns an iterator gives its node's key. *)

Definition Insert k v c w : option (LruCache K V CB * CB * (option K * bool)) :=
  let bucket := MkBucket None None v in
  (* item too large, do not insert *)
  let valueCost := cache_cost_func_ c v in
  if valueCost >? max_size_ c then Some (c, w, (None, false))
  else
    match map_ c !! k with
    | None =>
      '(c', w') ← AddInternal (Some k) valueCost None (with_map (<[k := bucket]> (map_ c)) c) w;
      Some (c', w', (Some k, true))
    | Some _ =>
      c' ← Promote (Some k) c;
      Some (c', w, (Some k, false))
    end.

Definition InsertOrAssign k v c w : option (LruCache K V CB * CB * (option K * bool)) :=
  match map_ c !! k with
  | Some b =>
    (* element already exists, update it *)
    let oldCost := cache_cost_func_ c (value_ b) in
    let newCost := cache_cost_func_ c v in
    '(c', w') ← AddInternal (Some k) newCost (Some oldCost)
        (with_map (<[k := MkBucket (next_ b) (previous_ b) v]> (map_ c)) c) w;
    Some (c', w', (Some k, false))
  | None =>
    (* element doesn't exist, insert it *)
    let newCost := cache_cost_func_ c v in
    if newCost >? max_size_ c then Some (c, w, (None, false))
    else
      '(c', w') ← AddInternal (Some k) newCost None
          (with_map (<[k := MkBucket None None v]> (map_ c)) c) w;
      Some (c', w', (Some k, true))
  end.

(** [Erase(const Key&)]. *)
Definition Erase k c w : option (LruCache K V CB * CB * bool) :=
  match map_ c !! k with
  | None => Some (c, w, false)
  | Some _ => '(c', w') ← EraseAt (Some k) false c w; Some (c', w', true)
  end.

(** [const_iterator::operator++] *)
Definition increment it c : option (option K) := b ← deref it c; Some (next_ b).

(** [Erase(const_iterator&)]: the iterator after the erased node. *)
Definition EraseIt it c w : option (LruCache K V CB * CB * option K) :=
  next ← increment it c;
  k ← it;
  '(c', w', _) ← Erase k c w;
  Some (c', w', next).

Definition Size c : Z := size_ c.
Definition GetMaxSize c : Z := max_size_ c.

Definition Resize (maxSize : Z) c w : option (LruCache K V CB * CB) :=
  evict (MkLruCache (eviction_callback_ c) (cache_cost_func_ c) (map_ c) (first_ c) (last_ c)
           maxSize (size_ c)) w.

Definition Find k c : option (LruCache K V CB * option K) :=
  match map_ c !! k with
  | Some _ => c' ← Promote (Some k) c; Some (c', Some k)
  | None => Some (c, None)
  end.

Definition FindNoPromote k c : option K := if decide (is_Some (map_ c !! k)) then Some k else None.

(** [Find(key, nullValue)]. *)
Definition FindValue k (nullValue : V) c : option (LruCache K V CB * V) :=
  '(c', it) ← Find k c;
  if decide (it = None) then Some (c', nullValue)
  else b ← deref it c'; Some (c', value_ b).

Definition begin_it c : option K := first_ c.
Definition rbegin_it c : option K := last_ c.
Definition end_it c : option K := None.

Definition Clear c : LruCache K V CB :=
  with_size 0 (with_last None (with_first None (with_map ∅ c))).

Definition SetEvictionCallback (func : option (K -> V -> CB -> CB)) c : LruCache K V CB :=
  MkLruCache func (cache_cost_func_ c) (map_ c) (first_ c) (last_ c) (max_size_ c) (size_ c).

(** The move constructor.  An empty source's [first_] is the end iterator of
    the source's map: comparing it with, or dereferencing it in, the new map is
    outside the contract of [std::map]. *)
Definition MoveConstruct (other : LruCache K V CB) : option (LruCache K V CB) :=
  f ← first_ other;
  l ← last_ other;
  Some (MkLruCache (eviction_callback_ other) (cache_cost_func_ other) (map_ other)
          (if decide (is_Some (map_ other !! f)) then Some f else None)
          (if decide (is_Some (map_ other !! l)) then Some l else None)
          (max_size_ other) (size_ other)).

(** The items a [for] from [begin()] to [end()] visits. *)
Fixpoint iterate (fuel : nat) it c : option (list (K * V)) :=
  match it with
  | None => Some []
  | Some k =>
    match fuel with
    | O => None
    | S n => b ← deref it c; rest ← iterate n (next_ b) c; Some ((k, value_ b) :: rest)
    end
  end.

Definition contents c : option (list (K * V)) := iterate (size (map_ c)) (begin_it c) c.
End lru_cache.

Arguments setNext : simpl never.
Arguments setPrevious : simpl never.
Arguments deref : simpl never.
Arguments Promote : simpl never.
Arguments EraseAt : simpl never.
Arguments PopLast : simpl never.
Arguments evict : simpl never.
Arguments AddInternal : simpl never.
Arguments Insert : simpl never.
Arguments InsertOrAssign : simpl never.
Arguments Erase : simpl never.
Arguments Find : simpl never.
Arguments iterate : simpl nomatch.
