(* ===== verification/LruFacts.v ===== *)
(** * The linked list inside the LRU cache

    The representation predicate [repr]: a cache whose buckets form a doubly
    linked chain over a list of items, most recently used first, and the effect
    of the private operations on it. *)

From Stdlib Require Import ZArith Lia.
From stdpp Require Import base gmap option numbers list.
From S2P Require Import Prelude LruCache.
Local Open Scope Z_scope.
Local Open Scope olp_scope.

Section segments.
Context {K V : Type} `{Countable K}.
Implicit Types (l : list (K * V)) (p n : option K) (m : gmap K (Bucket K V)).

(** The key of the first (last) item, or the given iterator if there is none. *)
Definition head_key (d : option K) l : option K :=
  match l with [] => d | x :: _ => Some x.1 end.
Definition last_key (d : option K) l : option K :=
  match last l with Some x => Some x.1 | None => d end.

(** The buckets of a run of linked items between the iterators [p] and [n]. *)
Fixpoint seg p l n : gmap K (Bucket K V) :=
  match l with
  | [] => ∅
  | (k, v) :: l' => <[k := MkBucket (head_key n l') p v]> (seg (Some k) l' n)
  end.

Lemma head_key_app d l1 l2 : head_key d (l1 ++ l2) = head_key (head_key d l2) l1.
Proof. by destruct l1. Qed.

Lemma last_key_app d l1 l2 : last_key d (l1 ++ l2) = last_key (last_key d l1) l2.
Proof. unfold last_key. rewrite last_app. by destruct (last l2). Qed.

Lemma last_key_cons d x l : last_key d (x :: l) = last_key (Some x.1) l.
Proof. unfold last_key. rewrite last_cons. by destruct (last l). Qed.

Lemma seg_lookup_None p l n k : k ∉ l.*1 -> seg p l n !! k = None.
Proof.
  revert p. induction l as [|[k' v] l IH]; simpl; intros p Hk; [done|].
  apply not_elem_of_cons in Hk as [??]. rewrite lookup_insert_ne by done. by apply IH.
Qed.

Lemma seg_lookup_Some p l n k : k ∈ l.*1 -> is_Some (seg p l n !! k).
Proof.
  revert p. induction l as [|[k' v] l IH]; simpl; intros p Hk; [by apply elem_of_nil in Hk|].
  destruct (decide (k = k')) as [->|]; [rewrite lookup_insert_eq; eauto|].
  rewrite lookup_insert_ne by done. apply IH. by apply elem_of_cons in Hk as [?|?].
Qed.

Lemma seg_app p l1 l2 n :
  seg p (l1 ++ l2) n = seg p l1 (head_key n l2) ∪ seg (last_key p l1) l2 n.
Proof.
  revert p. induction l1 as [|[k v] l1 IH]; intros p; simpl; [by rewrite (left_id_L ∅ (∪))|].
  by rewrite head_key_app, IH, insert_union_l, last_key_cons.
Qed.

Lemma seg_disjoint p1 l1 n1 p2 l2 n2 :
  NoDup (l1 ++ l2).*1 -> seg p1 l1 n1 ##ₘ seg p2 l2 n2.
Proof.
  rewrite fmap_app, NoDup_app. intros (_ & Hd & _). apply map_disjoint_spec.
  intros k b1 b2 H1 H2. destruct (decide (k ∈ l1.*1)) as [Hk|Hk].
  - specialize (Hd _ Hk). by rewrite seg_lookup_None in H2.
  - by rewrite seg_lookup_None in H1.
Qed.

Lemma seg_size p l n : NoDup l.*1 -> size (seg p l n) = length l.
Proof.
  revert p. induction l as [|[k v] l IH]; intros p; simpl; [intros; apply map_size_empty|].
  intros [Hk Hnd]%NoDup_cons. rewrite map_size_insert_None by (by apply seg_lookup_None).
  by rewrite IH.
Qed.

(** The bucket of the item in the middle. *)
Lemma seg_lookup_mid p l1 k v l2 n :
  NoDup (l1 ++ (k, v) :: l2).*1 ->
  seg p (l1 ++ (k, v) :: l2) n !! k = Some (MkBucket (head_key n l2) (last_key p l1) v).
Proof.
  rewrite fmap_app, NoDup_app. intros (_ & Hd & _). rewrite seg_app.
  rewrite lookup_union_r.
  - simpl. by rewrite lookup_insert_eq.
  - apply seg_lookup_None. intros Hk. apply (Hd _ Hk). simpl. left.
Qed.

Lemma seg_delete_mid p l1 k v l2 n m1 m2 :
  NoDup (l1 ++ (k, v) :: l2).*1 ->
  m1 = seg p l1 (head_key n l2) -> m2 = seg (last_key p l1) l2 n ->
  forall b, delete k (m1 ∪ <[k := b]> m2) = seg p (l1 ++ l2) n.
Proof.
  rewrite fmap_app, NoDup_app. intros (_ & Hd & [Hk _]%NoDup_cons) -> -> b.
  rewrite seg_app, delete_union, delete_insert_eq.
  rewrite !delete_id; [done | |]; apply seg_lookup_None; [done|].
  intros Hin. apply (Hd _ Hin). left.
Qed.

(** Changing the outer link of the first or the last bucket of a run. *)
Lemma seg_set_last p l k v n n' :
  NoDup (l ++ [(k, v)]).*1 ->
  <[k := MkBucket n' (last_key p l) v]> (seg p (l ++ [(k, v)]) n) = seg p (l ++ [(k, v)]) n'.
Proof.
  intros Hnd. rewrite !seg_app, fmap_app in *. apply NoDup_app in Hnd as (_ & Hd & _).
  rewrite insert_union_r; [simpl; by rewrite insert_insert_eq|].
  apply seg_lookup_None. intros Hk. apply (Hd _ Hk). simpl. left.
Qed.

Lemma seg_set_first p p' k v l n :
  <[k := MkBucket (head_key n l) p' v]> (seg p ((k, v) :: l) n) = seg p' ((k, v) :: l) n.
Proof. simpl. by rewrite insert_insert_eq. Qed.
End segments.

(** ** The representation predicate *)

Section repr.
Context {K V CB : Type} `{Countable K}.
Implicit Types (c : LruCache K V CB) (l : list (K * V)) (k : K) (v : V) (w : CB).

Definition total (cost : V -> Z) l : Z := foldr (fun x acc => cost x.2 + acc) 0 l.

(** The links of [c] are those of the list [l]. *)
Record linked c l : Prop := {
  linked_nodup : NoDup l.*1;
  linked_map : map_ c = seg None l None;
  linked_first : first_ c = head_key None l;
  linked_last : last_ c = last_key None l }.

(** [c] represents the list [l] of items, most recently used first. *)
Record repr c l : Prop := {
  repr_linked : linked c l;
  repr_size : size_ c = u64 (total (cache_cost_func_ c) l);
  repr_max : in_range 64 (max_size_ c) }.

Lemma total_app cost l1 l2 : total cost (l1 ++ l2) = total cost l1 + total cost l2.
Proof. induction l1 as [|x l1 IH]; simpl; lia. Qed.

Lemma linked_lookup c l k :
  linked c l -> map_ c !! k = None <-> k ∉ l.*1.
Proof.
  intros Hl. rewrite (linked_map _ _ Hl). split; [|apply seg_lookup_None].
  intros E Hin. apply (seg_lookup_Some None l None) in Hin as [b Hb]. congruence.
Qed.

Lemma linked_deref c l1 k v l2 :
  linked c (l1 ++ (k, v) :: l2) ->
  deref (Some k) c = Some (MkBucket (head_key None l2) (last_key None l1) v).
Proof.
  intros Hl. unfold deref; simpl. rewrite (linked_map _ _ Hl).
  apply seg_lookup_mid, Hl.
Qed.
End repr.

(** ** Relinking

    A map whose item [k] stands between the runs [l1] and [l2]. *)

Section relink.
Context {K V CB : Type} `{Countable K}.
Implicit Types (c : LruCache K V CB) (l : list (K * V)) (k : K) (v : V) (w : CB).
Implicit Types (b : Bucket K V) (L R : gmap K (Bucket K V)).

Lemma seg_around k v l1 l2 p n :
  k ∉ l1.*1 ->
  seg p (l1 ++ (k, v) :: l2) n =
  <[k := MkBucket (head_key n l2) (last_key p l1) v]> (seg p l1 (Some k) ∪ seg (Some k) l2 n).
Proof.
  intros Hk. rewrite seg_app. simpl. by rewrite insert_union_r by (by apply seg_lookup_None).
Qed.

Lemma set_next_left c k b l1 n n' R :
  map_ c = <[k := b]> (seg None l1 n ∪ R) -> k ∉ l1.*1 -> NoDup l1.*1 -> l1 <> [] ->
  setNext (last_key None l1) n' c = Some (with_map (<[k := b]> (seg None l1 n' ∪ R)) c).
Proof.
  intros Hm Hk Hnd Hne. destruct l1 as [|[k' v'] l1 _] using rev_ind; [done|].
  rewrite last_key_app. unfold last_key at 1, setNext; simpl.
  assert (k <> k') as Hne'
    by (intros ->; apply Hk; rewrite fmap_app; apply elem_of_app; right; left).
  rewrite Hm, lookup_insert_ne by done.
  erewrite lookup_union_Some_l by (apply seg_lookup_mid, Hnd). simpl.
  rewrite insert_insert_ne, insert_union_l by done. by rewrite seg_set_last.
Qed.

Lemma set_prev_right c k b l2 p p' L :
  map_ c = <[k := b]> (L ∪ seg p l2 None) -> k ∉ l2.*1 ->
  (forall x, x ∈ l2.*1 -> L !! x = None) -> l2 <> [] ->
  setPrevious (head_key None l2) p' c = Some (with_map (<[k := b]> (L ∪ seg p' l2 None)) c).
Proof.
  intros Hm Hk HL Hne. destruct l2 as [|[k' v'] l2]; [done|].
  unfold setPrevious; simpl. assert (k <> k') as Hne' by (intros ->; apply Hk; left).
  rewrite Hm, lookup_insert_ne by done.
  rewrite lookup_union_r by (apply HL; left). simpl. rewrite lookup_insert_eq. simpl.
  rewrite insert_insert_ne by done. rewrite insert_union_r by (apply HL; left).
  by rewrite insert_insert_eq.
Qed.

(** Writing the bucket in the middle. *)
Lemma set_mid c k b M n :
  map_ c = <[k := b]> M ->
  setNext (Some k) n c = Some (with_map (<[k := MkBucket n (previous_ b) (value_ b)]> M) c) /\
  setPrevious (Some k) n c = Some (with_map (<[k := MkBucket (next_ b) n (value_ b)]> M) c).
Proof.
  intros Hm. unfold setNext, setPrevious; simpl. rewrite Hm, lookup_insert_eq. simpl.
  by rewrite !insert_insert_eq.
Qed.

(** Linking a detached bucket in front of a list. *)
Definition link_front k c : option (LruCache K V CB) :=
  c4 ← setNext (Some k) (first_ c) c;
  c5 ← setPrevious (first_ c4) (Some k) c4;
  Some (with_first (Some k) c5).

Lemma link_front_eq c k v n l :
  map_ c = <[k := MkBucket n None v]> (seg None l None) -> k ∉ l.*1 ->
  first_ c = head_key None l -> l <> [] ->
  link_front k c = Some (with_first (Some k) (with_map (seg None ((k, v) :: l) None) c)).
Proof.
  intros Hm Hk Hf Hne. unfold link_front.
  rewrite (proj1 (set_mid c k _ _ _ Hm)). simpl. rewrite Hf.
  rewrite (set_prev_right _ k (MkBucket (head_key None l) None v) l None (Some k) ∅).
  - simpl. by rewrite (left_id_L ∅ (∪)).
  - simpl. by rewrite (left_id_L ∅ (∪)).
  - done.
  - intros. apply lookup_empty.
  - done.
Qed.
End relink.

(** ** The private operations on a linked cache *)

Section linked_ops.
Context {K V CB : Type} `{Countable K}.
Implicit Types (c : LruCache K V CB) (l : list (K * V)) (k : K) (v : V) (w : CB).

(** The cache [c] with its links set to those of [l]. *)
Definition set_links l c : LruCache K V CB :=
  with_first (head_key None l) (with_last (last_key None l) (with_map (seg None l None) c)).

Lemma linked_set_links c l : NoDup l.*1 -> linked (set_links l c) l.
Proof. by split. Qed.

Lemma set_links_linked c l : linked c l -> c = set_links l c.
Proof.
  intros [_ Hm Hf Hl]. destruct c; unfold set_links, with_first, with_last, with_map; simpl in *.
  congruence.
Qed.

Lemma nodup_mid l1 k v l2 :
  NoDup (l1 ++ (k, v) :: l2).*1 ->
  (k ∉ l1.*1) /\ (k ∉ l2.*1) /\ NoDup (l1 ++ l2).*1.
Proof.
  rewrite !fmap_app; simpl. intros Hnd. apply NoDup_app in Hnd as (H1 & Hd & H2).
  apply NoDup_cons in H2 as [Hk H2]. split_and!; [|done|].
  - intros Hin. apply (Hd _ Hin). left.
  - apply NoDup_app. split_and!; [done| |done]. intros x Hx Hin. apply (Hd _ Hx). by right.
Qed.

Lemma nodup_disjoint l1 l2 p n : NoDup (l1 ++ l2).*1 ->
  forall x, x ∈ l2.*1 -> (seg p l1 n : gmap K (Bucket K V)) !! x = None.
Proof.
  rewrite fmap_app, NoDup_app. intros (_ & Hd & _) x Hx. apply seg_lookup_None.
  intros Hin. by apply (Hd x).
Qed.

Lemma last_key_ne l d : l <> [] -> last_key d l <> None.
Proof.
  destruct l as [|x l _] using rev_ind; [done|]. intros _. rewrite last_key_app.
  unfold last_key. by simpl.
Qed.

Lemma head_key_ne l d : l <> [] -> head_key d l <> None.
Proof. by destruct l. Qed.

(** Promoting an item moves it to the front. *)
Lemma Promote_eq c l1 k v l2 :
  linked c (l1 ++ (k, v) :: l2) ->
  Promote (Some k) c = Some (set_links ((k, v) :: l1 ++ l2) c).
Proof.
  intros Hc. pose proof (nodup_mid _ _ _ _ (linked_nodup _ _ Hc)) as (Hk1 & Hk2 & Hnd).
  pose proof (linked_first _ _ Hc) as Hf. unfold Promote.
  destruct (decide (l1 = [])) as [->|Hne].
  { rewrite Hf. simpl in *. rewrite decide_True by done. f_equal. by apply set_links_linked. }
  assert (Some k <> first_ c) as Hkf.
  { rewrite Hf. destruct l1 as [|x l1]; simpl; [done|]. intros [= ->]. apply Hk1. left. }
  rewrite decide_False by done. rewrite (linked_deref _ _ _ _ _ Hc). simpl.
  pose proof (linked_map _ _ Hc) as Hm. rewrite seg_around in Hm by done. simpl in Hm.
  assert (NoDup l1.*1) as Hnd1 by (rewrite fmap_app in Hnd; by apply NoDup_app in Hnd as [??]).
  rewrite (set_next_left _ _ _ _ _ (head_key None l2) _ Hm Hk1 Hnd1 Hne). simpl.
  unfold deref at 1; simpl. rewrite lookup_insert_eq. simpl.
  set (c2 := with_last (last_key None (l1 ++ l2))
     (with_map (<[k := MkBucket (head_key None l2) (last_key None l1) v]>
       (seg None (l1 ++ l2) None)) c)).
  match goal with |- (c2 ← ?e; _) = _ => assert (e = Some c2) as -> end.
  { unfold c2. rewrite seg_app, last_key_app. destruct l2 as [|x l2].
    - simpl. by rewrite (right_id_L ∅ (∪)).
    - rewrite decide_False by by destruct x.
      rewrite (set_prev_right _ k (MkBucket (head_key None (x :: l2)) (last_key None l1) v)
        (x :: l2) (Some k) (last_key None l1)
        (seg None l1 (head_key None (x :: l2)))); [| done | done | | done].
      + unfold with_map, with_last; simpl. rewrite (linked_last _ _ Hc).
        rewrite last_key_app, !last_key_cons. done.
      + by apply nodup_disjoint. }
  cbn [mbind option_bind].
  rewrite (proj2 (set_mid c2 k _ _ None eq_refl)). simpl.
  set (c3 := with_map _ c2).
  change (link_front k c3 = Some (set_links ((k, v) :: l1 ++ l2) c)).
  rewrite (link_front_eq c3 k v (head_key None l2) (l1 ++ l2)).
  - unfold c3, c2, set_links, with_map, with_first, with_last; simpl.
    rewrite last_key_cons. f_equal. f_equal. destruct l1; [done|]. cbn [app]. by rewrite !last_key_cons.
  - done.
  - rewrite fmap_app. intros [?|?]%elem_of_app; [by apply Hk1 | by apply Hk2].
  - unfold c3, c2; simpl. rewrite Hf. by destruct l1.
  - by destruct l1.
Qed.

(** What the eviction callback makes of its captured state. *)
Definition notify c k v w : CB :=
  match eviction_callback_ c with Some f => f k v w | None => w end.

(** Erasing an item unlinks it and deducts its cost. *)
Lemma EraseAt_eq c l1 k v l2 (doEvictionCallback : bool) w :
  linked c (l1 ++ (k, v) :: l2) ->
  EraseAt (Some k) doEvictionCallback c w =
  Some (with_size (u64 (size_ c - cache_cost_func_ c v)) (set_links (l1 ++ l2) c),
        if doEvictionCallback then notify c k v w else w).
Proof.
  intros Hc. pose proof (nodup_mid _ _ _ _ (linked_nodup _ _ Hc)) as (Hk1 & Hk2 & Hnd).
  unfold EraseAt. rewrite (linked_deref _ _ _ _ _ Hc). simpl.
  pose proof (linked_map _ _ Hc) as Hm. rewrite seg_around in Hm by done. simpl in Hm.
  assert (NoDup l1.*1) as Hnd1 by (rewrite fmap_app in Hnd; by apply NoDup_app in Hnd as [??]).
  set (b := MkBucket (head_key None l2) (last_key None l1) v) in *.
  set (c1 := with_last (last_key None (l1 ++ l2))
    (with_map (<[k := b]> (seg None l1 (Some k) ∪ seg (last_key None l1) l2 None)) c)).
  match goal with |- (c1 ← ?e; _) = _ => assert (e = Some c1) as -> end.
  { unfold c1. rewrite last_key_app. destruct l2 as [|x l2].
    - rewrite decide_True by done. f_equal. unfold with_last, with_map; simpl.
      simpl in Hm. by rewrite <- Hm.
    - rewrite decide_False by by destruct x.
      rewrite (set_prev_right _ k b (x :: l2) (Some k) (last_key None l1)
        (seg None l1 (Some k))); [| done | done | | done].
      + unfold with_map, with_last; simpl. rewrite (linked_last _ _ Hc).
        by rewrite last_key_app, !last_key_cons.
      + by apply nodup_disjoint. }
  cbn [mbind option_bind].
  assert (deref (Some k) c1 = Some b) as -> by (unfold deref, c1; simpl; by rewrite lookup_insert_eq).
  simpl.
  set (c2 := with_first (head_key None (l1 ++ l2)) (with_last (last_key None (l1 ++ l2))
    (with_map (<[k := b]> (seg None (l1 ++ l2) None)) c))).
  match goal with |- (c2 ← ?e; _) = _ => assert (e = Some c2) as -> end.
  { unfold c2. rewrite seg_app, head_key_app. destruct (decide (l1 = [])) as [->|Hne].
    - simpl. unfold c1, with_map, with_first, with_last; simpl. done.
    - rewrite decide_False by by apply last_key_ne.
      rewrite (set_next_left _ k b l1 (Some k) (head_key None l2)
        (seg (last_key None l1) l2 None)); [|done..].
      unfold c1, with_map, with_first, with_last; simpl. rewrite (linked_first _ _ Hc).
      by destruct l1. }
  cbn [mbind option_bind].
  assert (deref (Some k) c2 = Some b) as -> by (unfold deref, c2; simpl; by rewrite lookup_insert_eq).
  simpl. do 2 f_equal.
  - unfold c2, set_links, with_size, with_map, with_first, with_last; simpl.
    rewrite delete_insert_id; [done|]. apply seg_lookup_None.
    rewrite fmap_app. intros [?|?]%elem_of_app; [by apply Hk1 | by apply Hk2].
  - unfold notify. by destruct (eviction_callback_ c), doEvictionCallback.
Qed.

Lemma PopLast_eq c l k v w :
  linked c (l ++ [(k, v)]) ->
  PopLast c w =
  Some (with_size (u64 (size_ c - cache_cost_func_ c v)) (set_links l c), notify c k v w).
Proof.
  intros Hc. unfold PopLast.
  assert (last_ c = Some k) as -> by (by rewrite (linked_last _ _ Hc), last_key_app).
  rewrite (linked_deref _ l k v [] Hc). simpl.
  rewrite (EraseAt_eq c l k v [] true w Hc). by rewrite app_nil_r.
Qed.
End linked_ops.

(** ** Eviction *)

Section eviction.
Context {K V CB : Type} `{Countable K}.
Implicit Types (c : LruCache K V CB) (l : list (K * V)) (k : K) (v : V) (w : CB).

(** The longest prefix of the items whose cost fits in a budget. *)
Fixpoint keep (cost : V -> Z) (budget : Z) l : list (K * V) :=
  match l with
  | [] => []
  | x :: l' => if cost x.2 <=? budget then x :: keep cost (budget - cost x.2) l' else []
  end.

(** The cache [c] holding the items [l]. *)
Definition load l c : LruCache K V CB :=
  with_size (u64 (total (cache_cost_func_ c) l)) (set_links l c).

Lemma repr_load c l : NoDup l.*1 -> in_range 64 (max_size_ c) -> repr (load l c) l.
Proof. by split. Qed.

Lemma load_repr c l : repr c l -> c = load l c.
Proof.
  intros [Hl Hs _]. unfold load. rewrite <- Hs, <- (set_links_linked c l) by done.
  by destruct c.
Qed.

Lemma load_load l l' c : load l (load l' c) = load l c.
Proof. done. Qed.

(** The callback is told of the evicted items, least recently used first. *)
Definition notify_all c l w : CB := foldl (fun w x => notify c x.1 x.2 w) w (reverse l).

Lemma keep_all (cost : V -> Z) l budget :
  (forall v, 0 <= cost v) -> total cost l <= budget -> keep cost budget l = l.
Proof.
  intros Hc. revert budget. induction l as [|[k v] l IH]; simpl; intros budget Hb; [done|].
  assert (0 <= total cost l) by (clear -Hc; induction l as [|x l IH]; simpl; [lia|];
    specialize (Hc x.2); lia).
  pose proof (Hc v). destruct (Z.leb_spec (cost v) budget); [|lia]. by rewrite IH by lia.
Qed.

Lemma keep_drop_last (cost : V -> Z) l x budget :
  budget < total cost (l ++ [x]) -> keep cost budget (l ++ [x]) = keep cost budget l.
Proof.
  revert budget. induction l as [|y l IH]; simpl; intros budget Hb.
  - destruct (Z.leb_spec (cost x.2) budget); [lia|done].
  - destruct (Z.leb_spec (cost y.2) budget); [|done]. by rewrite IH by lia.
Qed.

Lemma keep_prefix (cost : V -> Z) budget l : exists l', l = keep cost budget l ++ l'.
Proof.
  revert budget. induction l as [|x l IH]; simpl; intros budget; [by exists []|].
  destruct (cost x.2 <=? budget); [|by eexists]. destruct (IH (budget - cost x.2)) as [l' E].
  exists l'. simpl. by rewrite <- E.
Qed.

Lemma keep_total (cost : V -> Z) budget l : 0 <= budget -> total cost (keep cost budget l) <= budget.
Proof.
  revert budget. induction l as [|x l IH]; simpl; intros budget Hb; [done|].
  destruct (Z.leb_spec (cost x.2) budget); simpl; [|done].
  specialize (IH (budget - cost x.2)). lia.
Qed.

Lemma total_nonneg (cost : V -> Z) l : (forall v, 0 <= cost v) -> 0 <= total cost l.
Proof. intros Hc. induction l as [|x l IH]; simpl; [lia|]. specialize (Hc x.2). lia. Qed.

Lemma evict_loop_eq c l w fuel :
  repr c l -> (length l <= fuel)%nat ->
  exists l1 l2,
    l = l1 ++ l2 /\
    evict_loop fuel c w = Some (load l1 c, notify_all c l2 w) /\
    u64 (total (cache_cost_func_ c) l1) <= max_size_ c /\
    ((forall v, 0 <= cache_cost_func_ c v) -> total (cache_cost_func_ c) l < 2 ^ 64 ->
     l1 = keep (cache_cost_func_ c) (max_size_ c) l).
Proof.
  revert c l w. induction fuel as [|n IH]; intros c l w Hr Hf; simpl;
    pose proof (repr_size _ _ Hr) as Hs; pose proof (repr_max _ _ Hr) as Hm;
    destruct (Z.gtb_spec (size_ c) (max_size_ c)) as [Hgt|Hle].
  1: { destruct l; [|simpl in Hf; lia]. rewrite Hs in Hgt. unfold in_range in Hm.
       change (u64 (total (cache_cost_func_ c) (@nil (K * V)))) with 0 in Hgt. lia. }
  1, 3: exists l, []; rewrite app_nil_r; split_and!;
    [done | by rewrite <- load_repr | by rewrite <- Hs
    | intros Hc Ht; symmetry; apply keep_all; [done|];
      rewrite Hs, wrap_small in Hle by (split; [by apply total_nonneg|done]); done].
  destruct l as [|[k v] l _] using rev_ind.
  { rewrite Hs in Hgt. change (u64 (total (cache_cost_func_ c) (@nil (K * V)))) with 0 in Hgt.
    unfold in_range in Hm. lia. }
  rewrite (PopLast_eq c l k v w) by apply Hr. simpl.
  set (c1 := with_size _ _).
  assert (NoDup l.*1) as Hnd.
  { pose proof (linked_nodup _ _ (repr_linked _ _ Hr)) as Hnd. rewrite fmap_app in Hnd.
    by apply NoDup_app in Hnd as [??]. }
  assert (c1 = load l c) as E1.
  { unfold c1, load. f_equal. rewrite Hs, total_app, wrap_sub_l. simpl. f_equal. lia. }
  rewrite E1. destruct (IH (load l c) l (notify c k v w)) as (l1 & l2 & -> & He & Hb & Hk).
  { by apply repr_load. }
  { rewrite length_app in Hf. simpl in Hf. lia. }
  exists l1, (l2 ++ [(k, v)]). split_and!.
  - by rewrite app_assoc.
  - rewrite He. unfold notify_all. by rewrite reverse_app.
  - done.
  - intros Hc Ht. change (cache_cost_func_ (load (l1 ++ l2) c)) with (cache_cost_func_ c) in Hk.
    rewrite keep_drop_last.
    + apply Hk; [done|]. rewrite total_app in Ht. simpl in Ht. pose proof (Hc v). lia.
    + rewrite Hs, wrap_small in Hgt by (split; [by apply total_nonneg|done]). lia.
Qed.

Lemma repr_map_size c l : repr c l -> size (map_ c) = length l.
Proof.
  intros Hr. rewrite (linked_map _ _ (repr_linked _ _ Hr)).
  apply seg_size, Hr.
Qed.

Lemma evict_eq c l w :
  repr c l ->
  exists l1 l2,
    l = l1 ++ l2 /\
    evict c w = Some (load l1 c, notify_all c l2 w) /\
    u64 (total (cache_cost_func_ c) l1) <= max_size_ c /\
    ((forall v, 0 <= cache_cost_func_ c v) -> total (cache_cost_func_ c) l < 2 ^ 64 ->
     l1 = keep (cache_cost_func_ c) (max_size_ c) l).
Proof.
  intros Hr. apply evict_loop_eq; [done|]. by rewrite (repr_map_size c l).
Qed.
End eviction.

(** ** The public operations *)

Section public_ops.
Context {K V CB : Type} `{Countable K}.
Implicit Types (c : LruCache K V CB) (l : list (K * V)) (k : K) (v : V) (w : CB).

(** The abstract cache is its list of items, most recently used first. *)
Fixpoint lookup_item k l : option V :=
  match l with
  | [] => None
  | x :: l' => if decide (x.1 = k) then Some x.2 else lookup_item k l'
  end.
Definition remove_item k l : list (K * V) := filter (fun x => x.1 <> k) l.

Lemma lookup_item_None k l : lookup_item k l = None <-> k ∉ l.*1.
Proof.
  induction l as [|[k' v] l IH]; simpl; [split; [intros _; apply not_elem_of_nil|done]|].
  rewrite not_elem_of_cons. destruct (decide (k' = k)) as [->|]; [split; [done|by intros [? _]]|].
  rewrite IH. split; [intros; split; [by intros ->|done] | by intros [_ ?]].
Qed.

(** An item present in the list splits it. *)
Lemma lookup_item_split k l v :
  NoDup l.*1 -> lookup_item k l = Some v ->
  exists l1 l2, l = l1 ++ (k, v) :: l2 /\ remove_item k l = l1 ++ l2.
Proof.
  unfold remove_item. induction l as [|[k' v'] l IH]; simpl; [done|].
  intros [Hk Hnd]%NoDup_cons. destruct (decide (k' = k)) as [->|Hne].
  - intros [= ->]. exists [], l. split; [done|]. rewrite filter_cons_False by (simpl; by intros []).
    apply list_filter_all. apply Forall_forall. intros [x y] Hin Hx. simpl in Hx; subst.
    apply Hk, list_elem_of_fmap. by exists (k, y).
  - intros Hv. destruct (IH Hnd Hv) as (l1 & l2 & -> & E). exists ((k', v') :: l1), l2.
    split; [done|]. rewrite filter_cons_True by done. by rewrite E.
Qed.

Lemma remove_item_absent k l : k ∉ l.*1 -> remove_item k l = l.
Proof.
  intros Hk. apply list_filter_all. apply Forall_forall. intros [x y] Hin Hx. simpl in Hx; subst.
  apply Hk, list_elem_of_fmap. by exists (k, y).
Qed.

Lemma remove_item_nodup k l : NoDup l.*1 -> NoDup (remove_item k l).*1 /\ (k ∉ (remove_item k l).*1).
Proof.
  intros Hnd. destruct (lookup_item k l) as [v|] eqn:E.
  - destruct (lookup_item_split k l v Hnd E) as (l1 & l2 & -> & ->).
    pose proof (nodup_mid _ _ _ _ Hnd) as (? & ? & ?). split; [done|].
    rewrite fmap_app. by intros [?|?]%elem_of_app.
  - apply lookup_item_None in E. by rewrite remove_item_absent.
Qed.

Lemma repr_lookup c l k : repr c l -> map_ c !! k = None <-> lookup_item k l = None.
Proof. intros Hr. rewrite (linked_lookup c l) by apply Hr. by rewrite lookup_item_None. Qed.

Lemma seg_assign p l1 k v v' l2 n :
  NoDup (l1 ++ (k, v) :: l2).*1 ->
  <[k := MkBucket (head_key n l2) (last_key p l1) v']> (seg p (l1 ++ (k, v) :: l2) n) =
  seg p (l1 ++ (k, v') :: l2) n.
Proof.
  intros Hnd. apply nodup_mid in Hnd as (Hk & _). rewrite !seg_around by done.
  by rewrite insert_insert_eq.
Qed.

Lemma linked_assign c l1 k v v' l2 :
  linked c (l1 ++ (k, v) :: l2) ->
  linked (with_map (<[k := MkBucket (head_key None l2) (last_key None l1) v']> (map_ c)) c)
    (l1 ++ (k, v') :: l2).
Proof.
  intros Hl. pose proof (linked_nodup _ _ Hl) as Hnd. split; simpl.
  - rewrite fmap_app in *. done.
  - rewrite (linked_map _ _ Hl). by apply seg_assign.
  - rewrite (linked_first _ _ Hl), !head_key_app. done.
  - rewrite (linked_last _ _ Hl), !last_key_app, !last_key_cons. done.
Qed.

(** Adding a new bucket puts it in front, then evicts. *)
Lemma AddInternal_new c l k v w :
  repr c l -> k ∉ l.*1 ->
  AddInternal (Some k) (cache_cost_func_ c v) None
    (with_map (<[k := MkBucket None None v]> (map_ c)) c) w =
  evict (load ((k, v) :: l) c) w.
Proof.
  intros Hr Hk. pose proof (repr_linked _ _ Hr) as Hl. unfold AddInternal.
  set (c0 := with_map _ c).
  assert (size (map_ c0) = S (length l)) as Hsz.
  { unfold c0; simpl. rewrite map_size_insert_None by (by apply (linked_lookup c l)).
    by rewrite (repr_map_size c l). }
  assert ((c' ← Some (set_links ((k, v) :: l) c);
           Some (with_size (u64 (size_ c' + cache_cost_func_ c v)) c')) =
          Some (load ((k, v) :: l) c)) as E.
  { simpl. unfold load. rewrite (repr_size _ _ Hr), wrap_add_l. simpl.
    do 3 f_equal. lia. }
  match goal with |- (c' ← (c1 ← ?e; @?f c1); evict c' w) = _ =>
    assert (e = Some (set_links ((k, v) :: l) c)) as -> end; [|by rewrite E].
  destruct l as [|x l].
  - rewrite decide_True by done.
    rewrite decide_True by (by unfold c0; simpl; rewrite (linked_first _ _ Hl), (linked_last _ _ Hl)).
    unfold c0; simpl. unfold set_links, with_map, with_first, with_last.
    simpl. by rewrite (linked_map _ _ Hl).
  - rewrite decide_False by (rewrite Hsz; simpl; lia).
    change (link_front k c0 = Some (set_links ((k, v) :: x :: l) c)).
    rewrite (link_front_eq c0 k v None (x :: l)).
    + unfold c0, set_links, with_map, with_first, with_last; simpl.
      rewrite (linked_last _ _ Hl), !last_key_cons. done.
    + unfold c0; simpl. by rewrite (linked_map _ _ Hl).
    + done.
    + apply (linked_first _ _ Hl).
    + done.
Qed.

(** Assigning to an existing bucket promotes it, then evicts. *)
Lemma AddInternal_old c l1 k v0 v l2 w :
  repr c (l1 ++ (k, v0) :: l2) ->
  AddInternal (Some k) (cache_cost_func_ c v) (Some (cache_cost_func_ c v0))
    (with_map (<[k := MkBucket (head_key None l2) (last_key None l1) v]> (map_ c)) c) w =
  evict (load ((k, v) :: l1 ++ l2) c) w.
Proof.
  intros Hr. pose proof (linked_assign _ _ _ _ v _ (repr_linked _ _ Hr)) as Hl.
  unfold AddInternal. set (c0 := with_map _ c) in *.
  set (c1 := with_size _ c0).
  assert (linked c1 (l1 ++ (k, v) :: l2)) as Hl1 by (destruct Hl; by split).
  rewrite (Promote_eq c1 l1 k v l2) by done. simpl. f_equal.
  unfold load, c1, c0, set_links, with_size, with_map, with_first, with_last; simpl. f_equal.
  rewrite (repr_size _ _ Hr), wrap_add_l, wrap_add_r, !total_app. simpl. f_equal. lia.
Qed.

Lemma load_self c l : repr c l -> load l c = c.
Proof. intros Hr. symmetry. by apply load_repr. Qed.

(** [Find] promotes what it finds. *)
Lemma Find_eq c l k :
  repr c l ->
  Find k c = match lookup_item k l with
             | Some v => Some (load ((k, v) :: remove_item k l) c, Some k)
             | None => Some (c, None)
             end.
Proof.
  intros Hr. pose proof (linked_nodup _ _ (repr_linked _ _ Hr)) as Hnd. unfold Find.
  destruct (lookup_item k l) as [v|] eqn:E.
  - destruct (map_ c !! k) eqn:Em; [|rewrite (repr_lookup c l) in Em by done; congruence].
    destruct (lookup_item_split k l v Hnd E) as (l1 & l2 & -> & ->).
    rewrite (Promote_eq c l1 k v l2) by apply Hr. simpl. do 2 f_equal.
    unfold load, set_links, with_size, with_first, with_last, with_map; simpl. f_equal.
    rewrite (repr_size _ _ Hr), !total_app. simpl. f_equal. lia.
  - rewrite (proj2 (repr_lookup c l k Hr)) by done. done.
Qed.

Lemma InsertOrAssign_eq c l k v w :
  repr c l ->
  InsertOrAssign k v c w =
  (if decide (is_Some (lookup_item k l)) then
     '(c', w') ← evict (load ((k, v) :: remove_item k l) c) w; Some (c', w', (Some k, false))
   else if cache_cost_func_ c v >? max_size_ c then Some (c, w, (None, false))
   else '(c', w') ← evict (load ((k, v) :: l) c) w; Some (c', w', (Some k, true))).
Proof.
  intros Hr. pose proof (linked_nodup _ _ (repr_linked _ _ Hr)) as Hnd. unfold InsertOrAssign.
  destruct (lookup_item k l) as [v0|] eqn:E.
  - rewrite decide_True by eauto.
    destruct (lookup_item_split k l v0 Hnd E) as (l1 & l2 & -> & ->).
    pose proof (linked_deref _ _ _ _ _ (repr_linked _ _ Hr)) as Hd. unfold deref in Hd; simpl in Hd.
    rewrite Hd. simpl. by rewrite (AddInternal_old c l1 k v0 v l2).
  - rewrite decide_False by (intros [? ?]; done). rewrite (proj2 (repr_lookup c l k Hr)) by done.
    destruct (_ >? _); [done|]. rewrite (AddInternal_new c l) by (by rewrite <- ?lookup_item_None). done.
Qed.

Lemma Insert_eq c l k v w :
  repr c l ->
  Insert k v c w =
  (if cache_cost_func_ c v >? max_size_ c then Some (c, w, (None, false))
   else match lookup_item k l with
        | Some v0 => Some (load ((k, v0) :: remove_item k l) c, w, (Some k, false))
        | None => '(c', w') ← evict (load ((k, v) :: l) c) w; Some (c', w', (Some k, true))
        end).
Proof.
  intros Hr. unfold Insert. destruct (_ >? _); [done|].
  pose proof (Find_eq c l k Hr) as Hf. unfold Find in Hf.
  destruct (lookup_item k l) as [v0|] eqn:E.
  - destruct (map_ c !! k) eqn:Em; [|rewrite (repr_lookup c l) in Em by done; congruence].
    destruct (Promote (Some k) c) as [c'|]; simpl in *; [|done]. by injection Hf as ->.
  - rewrite (proj2 (repr_lookup c l k Hr)) by done.
    rewrite (AddInternal_new c l) by (by rewrite <- ?lookup_item_None). done.
Qed.

Lemma Erase_eq c l k w :
  repr c l ->
  Erase k c w =
  Some (load (remove_item k l) c, w, bool_decide (is_Some (lookup_item k l))).
Proof.
  intros Hr. pose proof (linked_nodup _ _ (repr_linked _ _ Hr)) as Hnd. unfold Erase.
  destruct (lookup_item k l) as [v0|] eqn:E.
  - destruct (map_ c !! k) eqn:Em; [|rewrite (repr_lookup c l) in Em by done; congruence].
    destruct (lookup_item_split k l v0 Hnd E) as (l1 & l2 & -> & ->).
    rewrite (EraseAt_eq c l1 k v0 l2) by apply Hr. simpl. do 3 f_equal.
    unfold load. f_equal. rewrite (repr_size _ _ Hr), wrap_sub_l, !total_app. simpl. f_equal. lia.
  - rewrite (proj2 (repr_lookup c l k Hr)) by done.
    apply lookup_item_None in E. rewrite remove_item_absent by done. by rewrite load_self.
Qed.

Lemma iterate_eq c l1 l2 fuel :
  linked c (l1 ++ l2) -> (length l2 <= fuel)%nat -> iterate fuel (head_key None l2) c = Some l2.
Proof.
  revert l1 l2. induction fuel as [|n IH]; intros l1 [|[k v] l2] Hl Hf; simpl in *; try done; [lia|].
  rewrite (linked_deref _ _ _ _ _ Hl). simpl. rewrite (IH (l1 ++ [(k, v)]) l2); [done | | lia].
  by rewrite <- app_assoc.
Qed.

(** Iterating from [begin()] lists the items. *)
Lemma contents_eq c l : repr c l -> contents c = Some l.
Proof.
  intros Hr. unfold contents, begin_it. rewrite (linked_first c l) by apply Hr.
  apply (iterate_eq c []); [apply Hr|]. by rewrite (repr_map_size c l).
Qed.
End public_ops.
