(* ===== verification/LruSpec.v ===== *)
(** * What the LRU cache promises

    The abstract cache is a list of items, most recently used first, and a
    capacity.  Every sequence of operations on a [LruCache] is safe, and as
    long as costs do not overflow it is indistinguishable from the abstract
    cache: same results, same iteration order, same calls of the eviction
    callback. *)

From Stdlib Require Import ZArith Lia.
From stdpp Require Import base gmap option numbers list.
From S2P Require Import Prelude LruCache LruFacts.
Local Open Scope Z_scope.
Local Open Scope olp_scope.

Section spec.
Context {K V CB : Type} `{Countable K}.
Implicit Types (c : LruCache K V CB) (l : list (K * V)) (k : K) (v : V) (w : CB).

(** The public operations that change or look into the cache. *)
Inductive lru_op :=
| OpInsert (k : K) (v : V)
| OpInsertOrAssign (k : K) (v : V)
| OpErase (k : K)
| OpFind (k : K)
| OpResize (maxSize : Z)
| OpClear.

(** What an operation returns: an iterator (a key) and a flag. *)
Definition lru_result : Type := option K * bool.

Definition lru_step (op : lru_op) c w : option (LruCache K V CB * CB * lru_result) :=
  match op with
  | OpInsert k v => Insert k v c w
  | OpInsertOrAssign k v => InsertOrAssign k v c w
  | OpErase k => '(c', w', b) ← Erase k c w; Some (c', w', (None, b))
  | OpFind k => '(c', it) ← Find k c; Some (c', w, (it, false))
  | OpResize n => '(c', w') ← Resize n c w; Some (c', w', (None, false))
  | OpClear => Some (Clear c, w, (None, false))
  end.

Fixpoint lru_run (ops : list lru_op) c w : option (LruCache K V CB * CB * list lru_result) :=
  match ops with
  | [] => Some (c, w, [])
  | op :: ops' =>
    '(c1, w1, r) ← lru_step op c w;
    '(c2, w2, rs) ← lru_run ops' c1 w1;
    Some (c2, w2, r :: rs)
  end.

Definition op_ok (op : lru_op) : Prop :=
  match op with OpResize n => in_range 64 n | _ => True end.

(** ** The abstract cache *)

Record abstract_cache := MkAbstract { items : list (K * V); capacity : Z }.

Section abstract.
Context (cost : V -> Z) (callback : option (K -> V -> CB -> CB)).

(** Drop the least recently used items that do not fit, telling the callback. *)
Definition spec_evict (a : abstract_cache) w : abstract_cache * CB :=
  let kept := keep cost (capacity a) (items a) in
  (MkAbstract kept (capacity a),
   match callback with
   | Some f => foldl (fun w x => f x.1 x.2 w) w (reverse (drop (length kept) (items a)))
   | None => w
   end).

Definition spec_step (op : lru_op) (a : abstract_cache) w : abstract_cache * CB * lru_result :=
  match op with
  | OpInsert k v =>
    if cost v >? capacity a then (a, w, (None, false))
    else match lookup_item k (items a) with
         | Some v0 =>
           (MkAbstract ((k, v0) :: remove_item k (items a)) (capacity a), w, (Some k, false))
         | None => (spec_evict (MkAbstract ((k, v) :: items a) (capacity a)) w, (Some k, true))
         end
  | OpInsertOrAssign k v =>
    match lookup_item k (items a) with
    | Some _ =>
      (spec_evict (MkAbstract ((k, v) :: remove_item k (items a)) (capacity a)) w,
       (Some k, false))
    | None =>
      if cost v >? capacity a then (a, w, (None, false))
      else (spec_evict (MkAbstract ((k, v) :: items a) (capacity a)) w, (Some k, true))
    end
  | OpErase k =>
    (MkAbstract (remove_item k (items a)) (capacity a), w,
     (None, bool_decide (is_Some (lookup_item k (items a)))))
  | OpFind k =>
    match lookup_item k (items a) with
    | Some v => (MkAbstract ((k, v) :: remove_item k (items a)) (capacity a), w, (Some k, false))
    | None => (a, w, (None, false))
    end
  | OpResize n => (spec_evict (MkAbstract (items a) n) w, (None, false))
  | OpClear => (MkAbstract [] (capacity a), w, (None, false))
  end.

Fixpoint spec_run (ops : list lru_op) (a : abstract_cache) w
    : abstract_cache * CB * list lru_result :=
  match ops with
  | [] => (a, w, [])
  | op :: ops' =>
    let '(a1, w1, r) := spec_step op a w in
    let '(a2, w2, rs) := spec_run ops' a1 w1 in
    (a2, w2, r :: rs)
  end.
End abstract.

(** ** Safety *)

Lemma repr_new maxSize cost :
  in_range 64 maxSize -> repr (NewLruCache maxSize cost : LruCache K V CB) [].
Proof. intros Hm. split; [split; simpl; [constructor | done..] | done | done]. Qed.

Lemma repr_SetEvictionCallback f c l : repr c l -> repr (SetEvictionCallback f c) l.
Proof. intros [[? ? ? ?] ? ?]. by split; [split|..]. Qed.

Lemma NoDup_app_l {A} (l1 l2 : list A) : NoDup (l1 ++ l2) -> NoDup l1.
Proof. by intros [? _]%NoDup_app. Qed.

Lemma evict_repr c l w :
  NoDup l.*1 -> in_range 64 (max_size_ c) ->
  exists l1 l2 w', l = l1 ++ l2 /\ evict (load l c) w = Some (load l1 c, w') /\ repr (load l1 c) l1.
Proof.
  intros Hnd Hm. destruct (evict_eq (load l c) l w) as (l1 & l2 & -> & He & _).
  { by apply repr_load. }
  exists l1, l2. eexists. split; [done|]. split; [apply He|].
  apply repr_load; [|done]. rewrite fmap_app in Hnd. by eapply NoDup_app_l.
Qed.

Lemma nodup_cons_remove k v l : NoDup l.*1 -> NoDup ((k, v) :: remove_item k l).*1.
Proof. intros Hnd. simpl. apply NoDup_cons. apply (remove_item_nodup k) in Hnd as [??]. by split. Qed.

Lemma nodup_cons_new k v l : NoDup l.*1 -> lookup_item k l = None -> NoDup ((k, v) :: l).*1.
Proof. intros Hnd Hk%lookup_item_None. simpl. by apply NoDup_cons. Qed.

Lemma Clear_repr c l : repr c l -> repr (Clear c) [].
Proof. intros [_ _ Hm]. split; [split; simpl; [constructor | done..] | done | done]. Qed.

Lemma Resize_eq n c l w :
  repr c l ->
  Resize n c w = evict (load l (MkLruCache (eviction_callback_ c) (cache_cost_func_ c) (map_ c)
    (first_ c) (last_ c) n (size_ c))) w.
Proof.
  intros Hr. unfold Resize. f_equal. rewrite (load_repr c l) at 1 2 3 4 5 6 by done. done.
Qed.

Ltac evicted c l w :=
  let l1 := fresh "l1" in let l2 := fresh "l2" in let w' := fresh "w'" in
  let He := fresh "He" in let Hr' := fresh "Hr'" in
  destruct (evict_repr c l w) as (l1 & l2 & w' & ? & He & Hr');
  [auto using nodup_cons_remove, nodup_cons_new | done |];
  rewrite He; simpl; eauto 10.

(** What a step keeps, and the list its result represents. *)
Definition same_functions c c' : Prop :=
  cache_cost_func_ c' = cache_cost_func_ c /\ eviction_callback_ c' = eviction_callback_ c.

Lemma lru_step_safe op c l w :
  repr c l -> op_ok op ->
  exists c' w' r l', lru_step op c w = Some (c', w', r) /\ repr c' l' /\ same_functions c c'.
Proof.
  intros Hr Hop. pose proof (linked_nodup _ _ (repr_linked _ _ Hr)) as Hnd.
  pose proof (repr_max _ _ Hr) as Hm. assert (same_functions c c) by done.
  destruct op as [k v|k v|k|k|n|]; cbn [lru_step].
  - rewrite (Insert_eq c l) by done. destruct (_ >? _); [eauto 10|].
    destruct (lookup_item k l) eqn:E.
    + do 4 eexists. split; [done|]. split; [apply repr_load; [by apply nodup_cons_remove|done]|done].
    + evicted c ((k, v) :: l) w.
  - rewrite (InsertOrAssign_eq c l) by done. case_decide as E.
    + evicted c ((k, v) :: remove_item k l) w.
    + destruct (_ >? _); [eauto 10|]. apply eq_None_not_Some in E.
      evicted c ((k, v) :: l) w.
  - rewrite (Erase_eq c l) by done. simpl. do 4 eexists. split; [done|].
    split; [apply repr_load; [by apply remove_item_nodup|done]|by split].
  - rewrite (Find_eq c l) by done. destruct (lookup_item k l) eqn:E; simpl; [|eauto 10].
    do 4 eexists. split; [done|]. split; [apply repr_load; [by apply nodup_cons_remove|done]|by split].
  - rewrite (Resize_eq n c l) by done.
    evicted (MkLruCache (eviction_callback_ c) (cache_cost_func_ c) (map_ c)
      (first_ c) (last_ c) n (size_ c)) l w.
  - do 4 eexists. split; [done|]. split; [by eapply Clear_repr|by split].
Qed.

Lemma lru_run_safe ops c l w :
  repr c l -> Forall op_ok ops ->
  exists c' w' rs l', lru_run ops c w = Some (c', w', rs) /\ repr c' l' /\ same_functions c c'.
Proof.
  revert c l w. induction ops as [|op ops IH]; simpl; intros c l w Hr Hops; [by do 4 eexists|].
  apply Forall_cons in Hops as [Hop Hops].
  destruct (lru_step_safe op c l w Hr Hop) as (c1 & w1 & r & l1 & -> & Hr1 & Hs1 & Hs1'). simpl.
  destruct (IH c1 l1 w1 Hr1 Hops) as (c2 & w2 & rs & l2 & -> & Hr2 & Hs2 & Hs2'). simpl.
  do 4 eexists. split_and!; [done..|]. split; congruence.
Qed.

(** ** Simulation *)

(** Costs and capacities for which the sum of the costs cannot overflow. *)
Definition small_costs (cost : V -> Z) : Prop := forall v, 0 <= cost v < 2 ^ 63.
Definition op_small (op : lru_op) : Prop :=
  match op with OpResize n => 0 <= n < 2 ^ 63 | _ => True end.

(** The cache [c] implements the abstract cache [a]. *)
Record implements (a : abstract_cache) c : Prop := {
  impl_repr : repr c (items a);
  impl_capacity : max_size_ c = capacity a;
  impl_small : capacity a < 2 ^ 63;
  impl_fits : total (cache_cost_func_ c) (items a) <= capacity a }.

Lemma total_remove (cost : V -> Z) k l :
  small_costs cost -> NoDup l.*1 -> 0 <= total cost (remove_item k l) <= total cost l.
Proof.
  intros Hc Hnd. split; [apply total_nonneg; apply Hc|].
  destruct (lookup_item k l) as [v|] eqn:E.
  - destruct (lookup_item_split k l v Hnd E) as (l1 & l2 & -> & ->).
    rewrite !total_app. simpl. pose proof (Hc v). lia.
  - apply lookup_item_None in E. by rewrite remove_item_absent.
Qed.

Lemma total_touch (cost : V -> Z) k v l :
  NoDup l.*1 -> lookup_item k l = Some v -> total cost ((k, v) :: remove_item k l) = total cost l.
Proof.
  intros Hnd E. destruct (lookup_item_split k l v Hnd E) as (l1 & l2 & -> & ->).
  simpl. rewrite !total_app. simpl. lia.
Qed.

(** Eviction implements abstract eviction. *)
Lemma evict_sim c l w cap :
  NoDup l.*1 -> max_size_ c = cap -> 0 <= cap < 2 ^ 63 ->
  (forall v, 0 <= cache_cost_func_ c v) -> total (cache_cost_func_ c) l < 2 ^ 64 ->
  exists c' w',
    evict (load l c) w = Some (c', w') /\ same_functions c c' /\
    let '(a, w'') := spec_evict (cache_cost_func_ c) (eviction_callback_ c) (MkAbstract l cap) w in
    w'' = w' /\ implements a c'.
Proof.
  intros Hnd Hcap Hr Hc Ht.
  assert (in_range 64 (max_size_ c)) as Hm by (unfold in_range; lia).
  destruct (evict_eq (load l c) l w) as (l1 & l2 & E & He & _ & Hk); [by apply repr_load|].
  specialize (Hk Hc Ht). change (max_size_ (load l c)) with (max_size_ c) in Hk.
  change (cache_cost_func_ (load l c)) with (cache_cost_func_ c) in Hk.
  do 2 eexists. split; [apply He|]. split; [by split|]. simpl. rewrite <- Hcap, <- Hk. split.
  - rewrite E, drop_app_length. unfold notify_all, notify; simpl.
    destruct (eviction_callback_ c); [done|]. generalize (reverse l2).
    intros l3. by induction l3.
  - assert (NoDup l1.*1) as Hnd1
      by (rewrite E, fmap_app in Hnd; by apply NoDup_app in Hnd as [??]).
    split; simpl; [by apply repr_load | done | lia |].
    rewrite Hk. apply keep_total. lia.
Qed.

Ltac evict_simulates c l w cap :=
  let Ha := fresh "Ha" in
  destruct (evict_sim c l w cap) as (c' & w' & He & Hs & Ha);
  [auto using nodup_cons_remove, nodup_cons_new | done | lia | done | simpl; lia |];
  rewrite He; simpl in *; destruct Ha as [-> ?]; eauto 10.

Lemma lru_step_sim op c a w :
  implements a c -> small_costs (cache_cost_func_ c) -> op_small op ->
  exists c' w' r,
    lru_step op c w = Some (c', w', r) /\ same_functions c c' /\
    let '(a', w'', r') := spec_step (cache_cost_func_ c) (eviction_callback_ c) op a w in
    w'' = w' /\ r' = r /\ implements a' c'.
Proof.
  intros Himp Hc Hop. pose proof Himp as [Hr Hcap Hsm Hfit]. destruct a as [l cap]; simpl in *.
  pose proof (linked_nodup _ _ (repr_linked _ _ Hr)) as Hnd.
  pose proof (repr_max _ _ Hr) as Hm. unfold in_range in Hm.
  assert (forall v, 0 <= cache_cost_func_ c v) as Hc0 by (intros v; apply Hc).
  assert (same_functions c c) by done.
  destruct op as [k v|k v|k|k|n|]; cbn [lru_step spec_step items capacity].
  - rewrite (Insert_eq c l), Hcap by done. pose proof (Hc v).
    destruct (_ >? _); [eauto 10|]. destruct (lookup_item k l) as [v0|] eqn:E.
    + do 3 eexists. split; [done|]. split; [by split|]. split_and!; [done..|].
      split; simpl; [apply repr_load; [by apply nodup_cons_remove|done] | done | done |].
      rewrite <- (total_touch _ k v0 l) in Hfit by done. done.
    + evict_simulates c ((k, v) :: l) w cap.
  - rewrite (InsertOrAssign_eq c l), Hcap by done. pose proof (Hc v).
    pose proof (total_remove (cache_cost_func_ c) k l Hc Hnd).
    destruct (lookup_item k l) as [v0|] eqn:E.
    + rewrite decide_True by eauto. evict_simulates c ((k, v) :: remove_item k l) w cap.
    + rewrite decide_False by (by intros [? ?]). destruct (_ >? _); [eauto 10|].
      evict_simulates c ((k, v) :: l) w cap.
  - rewrite (Erase_eq c l) by done. simpl. do 3 eexists. split; [done|]. split; [by split|].
    split_and!; [done..|]. pose proof (total_remove (cache_cost_func_ c) k l Hc Hnd).
    split; simpl; [apply repr_load; [by apply remove_item_nodup|done] | done | done | lia].
  - rewrite (Find_eq c l) by done. destruct (lookup_item k l) as [v0|] eqn:E; simpl; [|eauto 10].
    do 3 eexists. split; [done|]. split; [by split|]. split_and!; [done..|].
    split; simpl; [apply repr_load; [by apply nodup_cons_remove|done] | done | done |].
    rewrite <- (total_touch _ k v0 l) in Hfit by done. done.
  - rewrite (Resize_eq n c l) by done. simpl in Hop.
    evict_simulates (MkLruCache (eviction_callback_ c) (cache_cost_func_ c) (map_ c)
      (first_ c) (last_ c) n (size_ c)) l w n.
  - do 3 eexists. split; [done|]. split; [by split|]. split_and!; [done..|].
    split; simpl; [by eapply Clear_repr | done | done | lia].
Qed.

Lemma lru_run_sim ops c a w :
  implements a c -> small_costs (cache_cost_func_ c) -> Forall op_small ops ->
  exists c' w' rs,
    lru_run ops c w = Some (c', w', rs) /\ same_functions c c' /\
    let '(a', w'', rs') := spec_run (cache_cost_func_ c) (eviction_callback_ c) ops a w in
    w'' = w' /\ rs' = rs /\ implements a' c'.
Proof.
  revert c a w. induction ops as [|op ops IH]; simpl; intros c a w Hi Hc Hops; [by do 3 eexists|].
  apply Forall_cons in Hops as [Hop Hops].
  destruct (lru_step_sim op c a w Hi Hc Hop) as (c1 & w1 & r & -> & [Hs1 Hs1'] & Ha). simpl.
  destruct (spec_step _ _ op a w) as [[a1 w1'] r']. destruct Ha as (-> & -> & Hi1).
  destruct (IH c1 a1 w1 Hi1) as (c2 & w2 & rs & -> & [Hs2 Hs2'] & Ha2); [by rewrite Hs1|done|].
  simpl. rewrite <- Hs1, <- Hs1'. destruct (spec_run _ _ ops a1 w1) as [[a2 w2'] rs'].
  destruct Ha2 as (-> & -> & Hi2). do 3 eexists. split; [done|].
  split; [split; congruence | done].
Qed.

(** ** Properties *)

(** C2.  Whatever the costs, the eviction callback and the capacity, no
    sequence of operations on a new cache dereferences an invalid iterator,
    fails an assertion or loops in [evict]; in the resulting cache the iteration
    from [begin()] to [end()] visits every stored key exactly once, the buckets
    are linked in both directions along it, and the recorded size is the sum of
    the costs modulo 2^64. *)
Theorem lru_operations_safe (cost : V -> Z) callback (maxSize : Z) (ops : list lru_op) w :
  in_range 64 maxSize -> Forall op_ok ops ->
  exists c w' rs l,
    lru_run ops (SetEvictionCallback callback (NewLruCache maxSize cost)) w = Some (c, w', rs) /\
    contents c = Some l /\ NoDup l.*1 /\
    (forall k, is_Some (map_ c !! k) <-> k ∈ l.*1) /\
    (forall l1 x l2, l = l1 ++ x :: l2 ->
       map_ c !! x.1 = Some (MkBucket (head_key None l2) (last_key None l1) x.2)) /\
    begin_it c = head_key None l /\ rbegin_it c = last_key None l /\
    Size c = u64 (total cost l).
Proof.
  intros Hm Hops.
  pose proof (repr_SetEvictionCallback callback _ _ (repr_new maxSize cost Hm)) as Hr.
  destruct (lru_run_safe ops _ [] w Hr Hops) as (c & w' & rs & l & -> & Hr' & Hs & _).
  pose proof (repr_linked _ _ Hr') as Hl.
  exists c, w', rs, l. split_and!; [done | by apply contents_eq | apply Hl | | | apply Hl | apply Hl |].
  - intros k. rewrite <- not_eq_None_Some, (linked_lookup c l k Hl).
    destruct (decide (k ∈ l.*1)); naive_solver.
  - intros l1 [k v] l2 ->. apply (linked_deref c l1 k v l2 Hl).
  - unfold Size. by rewrite (repr_size _ _ Hr'), Hs.
Qed.

(** C1.  With costs and capacities below 2^63 the cache refines the abstract
    list: every sequence of operations returns the same results, calls the
    eviction callback on the same items in the same order, and ends with the
    same items in the same order of use; the size is their total cost and never
    exceeds the capacity. *)
Theorem lru_refines_list (cost : V -> Z) callback (maxSize : Z) (ops : list lru_op) w :
  0 <= maxSize < 2 ^ 63 -> small_costs cost -> Forall op_small ops ->
  exists c w' rs,
    lru_run ops (SetEvictionCallback callback (NewLruCache maxSize cost)) w = Some (c, w', rs) /\
    let '(a, spec_w, spec_rs) := spec_run cost callback ops (MkAbstract [] maxSize) w in
    w' = spec_w /\ rs = spec_rs /\ contents c = Some (items a) /\
    GetMaxSize c = capacity a /\ Size c = total cost (items a) /\ Size c <= capacity a.
Proof.
  intros Hm Hc Hops.
  assert (in_range 64 maxSize) as Hm' by (unfold in_range; lia).
  pose proof (repr_SetEvictionCallback callback _ _ (repr_new maxSize cost Hm')) as Hr.
  destruct (lru_run_sim ops (SetEvictionCallback callback (NewLruCache maxSize cost))
    (MkAbstract [] maxSize) w) as (c & w' & rs & -> & [Hs _] & Ha); [|done..|].
  { split; [done | done | simpl; lia | simpl; lia]. }
  exists c, w', rs. split; [done|]. simpl in *.
  destruct (spec_run _ _ ops _ w) as [[a w''] rs'].
  destruct Ha as (-> & -> & [Hr' Hcap Hsm Hfit]). rewrite Hs in Hfit.
  assert (Size c = total cost (items a)) as Hsize.
  { unfold Size. rewrite (repr_size _ _ Hr'), Hs. apply wrap_small.
    split; [apply total_nonneg; apply Hc | lia]. }
  rewrite Hsize. split_and!; [done | done | by apply contents_eq | done..].
Qed.

(** Eviction removes exactly the least recently used items: what is left
    is the longest run of most recently used items that fits the capacity, and
    the callback receives the others, the least recently used one first. *)
Theorem eviction_is_lru c l w :
  repr c l -> (forall v, 0 <= cache_cost_func_ c v) -> total (cache_cost_func_ c) l < 2 ^ 64 ->
  exists kept evicted c' w',
    l = kept ++ evicted /\ evict c w = Some (c', w') /\ contents c' = Some kept /\
    total (cache_cost_func_ c) kept <= max_size_ c /\
    (forall x rest, evicted = x :: rest ->
       max_size_ c < total (cache_cost_func_ c) (kept ++ [x])) /\
    w' = match eviction_callback_ c with
         | Some f => foldl (fun w x => f x.1 x.2 w) w (reverse evicted)
         | None => w
         end.
Proof.
  intros Hr Hc Ht. pose proof (repr_max _ _ Hr) as Hm.
  destruct (evict_eq c l w Hr) as (l1 & l2 & E & He & _ & Hk). specialize (Hk Hc Ht).
  assert (NoDup l1.*1) as Hnd.
  { pose proof (linked_nodup _ _ (repr_linked _ _ Hr)) as Hnd. rewrite E, fmap_app in Hnd.
    by eapply NoDup_app_l. }
  exists l1, l2. do 2 eexists. split_and!; [done | apply He | | | |].
  - apply contents_eq. by apply repr_load.
  - rewrite Hk. apply keep_total. unfold in_range in Hm. lia.
  - intros x rest ->. clear -Hk Hc E. rewrite E in Hk. clear E.
    revert Hk. generalize (max_size_ c). induction l1 as [|y l1 IH]; simpl; intros m Hk.
    + destruct (Z.leb_spec (cache_cost_func_ c x.2) m); [done|lia].
    + destruct (Z.leb_spec (cache_cost_func_ c y.2) m); [|done].
      injection Hk as Hk. specialize (IH _ Hk). lia.
  - unfold notify_all, notify. destruct (eviction_callback_ c); [done|].
    generalize (reverse l2). intros l3. by induction l3.
Qed.

(** Assigning to a present key a value that costs more than the whole
    capacity empties the cache: every item is evicted, the assigned one
    included, although the returned iterator names its key. *)
Theorem oversized_assignment_empties c l k v w :
  repr c l -> is_Some (lookup_item k l) -> (forall v, 0 <= cache_cost_func_ c v) ->
  total (cache_cost_func_ c) l + cache_cost_func_ c v < 2 ^ 64 ->
  max_size_ c < cache_cost_func_ c v ->
  exists c' w',
    InsertOrAssign k v c w = Some (c', w', (Some k, false)) /\
    contents c' = Some [] /\ FindNoPromote k c' = None /\ deref (Some k) c' = None.
Proof.
  intros Hr [v0 Hk] Hc Ht Hbig.
  pose proof (linked_nodup _ _ (repr_linked _ _ Hr)) as Hnd.
  rewrite (InsertOrAssign_eq c l) by done. rewrite decide_True by eauto.
  set (l0 := (k, v) :: remove_item k l).
  destruct (evict_eq (load l0 c) l0 w) as (l1 & l2 & _ & He & _ & Hkeep).
  { apply repr_load; [by apply nodup_cons_remove|apply Hr]. }
  assert (l1 = []) as ->.
  { rewrite Hkeep; [| done |].
    - simpl. change (cache_cost_func_ (load l0 c)) with (cache_cost_func_ c).
      destruct (Z.leb_spec (cache_cost_func_ c v) (max_size_ c)); [lia|done].
    - change (cache_cost_func_ (load l0 c)) with (cache_cost_func_ c).
      rewrite <- (total_touch (cache_cost_func_ c) k v0 l Hnd Hk) in Ht.
      simpl in *. pose proof (Hc v0). lia. }
  rewrite He. simpl. do 2 eexists. split; [done|].
  split; [|split]; [apply contents_eq, repr_load; [constructor|apply Hr] | |]; by vm_compute.
Qed.

(** The move constructor keeps the items, their order, the size and the
    capacity of a cache that holds something; for an empty source it leaves the
    contract of [std::map] (it dereferences an end iterator). *)
Theorem move_construct_contents c l :
  repr c l ->
  (l <> [] -> exists c', MoveConstruct c = Some c' /\ repr c' l /\ contents c' = Some l /\
                Size c' = Size c /\ GetMaxSize c' = GetMaxSize c /\ same_functions c c') /\
  (l = [] -> MoveConstruct c = None).
Proof.
  intros Hr. pose proof (repr_linked _ _ Hr) as Hl. unfold MoveConstruct.
  split; [|intros ->; by rewrite (linked_first _ _ Hl)].
  intros Hne. assert (forall k, k ∈ l.*1 -> is_Some (map_ c !! k)) as Hin.
  { intros k Hk. apply not_eq_None_Some. rewrite (linked_lookup c l k Hl). naive_solver. }
  destruct (last l) as [x|] eqn:Elast; [|by apply last_None in Elast].
  destruct l as [|y l]; [done|]. rewrite (linked_first _ _ Hl), (linked_last _ _ Hl).
  unfold last_key. rewrite Elast. simpl.
  rewrite !decide_True.
  - exists c. split; [|split_and!; by try apply contents_eq]. f_equal.
    pose proof (linked_first _ _ Hl) as Ef. pose proof (linked_last _ _ Hl) as El.
    unfold last_key in El. rewrite Elast in El.
    simpl in Ef. rewrite <- El, <- Ef. by destruct c.
  - apply Hin, list_elem_of_fmap. exists x. split; [done|]. by apply last_Some_elem_of.
  - apply Hin. simpl. left.
Qed.
End spec.

(** ** The properties at concrete caches *)

(** The callback collects the evicted keys. *)
Definition collect (k v : Z) (w : list Z) : list Z := w ++ [k].

Definition sample_ops : list (lru_op (K := Z) (V := Z)) :=
  [OpInsert 1 2; OpInsertOrAssign 2 1; OpFind 1; OpInsert 3 2; OpErase 1; OpResize 1].

Lemma lru_operations_safe_witness :
  exists c w' rs l,
    lru_run sample_ops (SetEvictionCallback (Some collect) (NewLruCache 4 id)) [] =
      Some (c, w', rs) /\
    contents c = Some l /\ NoDup l.*1 /\
    (forall k, is_Some (map_ c !! k) <-> k ∈ l.*1) /\
    (forall l1 x l2, l = l1 ++ x :: l2 ->
       map_ c !! x.1 = Some (MkBucket (head_key None l2) (last_key None l1) x.2)) /\
    begin_it c = head_key None l /\ rbegin_it c = last_key None l /\
    Size c = u64 (total id l).
Proof.
  apply (lru_operations_safe (K := Z) (V := Z) (CB := list Z) id (Some collect) 4 sample_ops []).
  - unfold in_range. lia.
  - unfold sample_ops. repeat constructor; simpl; unfold in_range; lia.
Defined.

Lemma lru_refines_list_witness :
  exists c w' rs,
    lru_run sample_ops (SetEvictionCallback (Some collect) (NewLruCache 4 CacheCost)) [] =
      Some (c, w', rs) /\
    let '(a, spec_w, spec_rs) :=
      spec_run CacheCost (Some collect) sample_ops (MkAbstract [] 4) [] in
    w' = spec_w /\ rs = spec_rs /\ contents c = Some (items a) /\
    GetMaxSize c = capacity a /\ Size c = total CacheCost (items a) /\ Size c <= capacity a.
Proof.
  apply (lru_refines_list (K := Z) (V := Z) (CB := list Z) CacheCost (Some collect) 4 sample_ops []).
  - lia.
  - intros v. unfold CacheCost. lia.
  - unfold sample_ops. repeat constructor; simpl; lia.
Defined.

(** A cache of capacity 2 over three items of cost 1. *)
Definition sample_items : list (Z * Z) := [(1, 10); (2, 20); (3, 30)].
Definition sample_cache : LruCache Z Z (list Z) :=
  load sample_items (SetEvictionCallback (Some collect) (NewLruCache 2 CacheCost)).

Lemma sample_repr : repr sample_cache sample_items.
Proof.
  apply repr_load; [|unfold in_range; simpl; lia].
  apply (bool_decide_unpack _). by vm_compute.
Qed.

Lemma eviction_is_lru_witness :
  exists kept evicted c' w',
    sample_items = kept ++ evicted /\ evict sample_cache [] = Some (c', w') /\
    contents c' = Some kept /\ total CacheCost kept <= 2 /\
    (forall x rest, evicted = x :: rest -> 2 < total CacheCost (kept ++ [x])) /\
    w' = foldl (fun w x => collect x.1 x.2 w) [] (reverse evicted).
Proof.
  apply (eviction_is_lru sample_cache sample_items []).
  - apply sample_repr.
  - intros v. simpl. unfold CacheCost. lia.
  - by vm_compute.
Defined.

Definition small_cache : LruCache Z Z (list Z) :=
  load [(1, 1); (2, 1)] (SetEvictionCallback (Some collect) (NewLruCache 3 (fun v => Z.abs v))).

Lemma oversized_assignment_empties_witness :
  exists c' w',
    InsertOrAssign 2 7 small_cache [] = Some (c', w', (Some 2, false)) /\
    contents c' = Some [] /\ FindNoPromote 2 c' = None /\ deref (Some 2) c' = None.
Proof.
  apply (oversized_assignment_empties small_cache [(1, 1); (2, 1)] 2 7 []).
  - apply repr_load; [|unfold in_range; simpl; lia]. apply (bool_decide_unpack _). by vm_compute.
  - by eexists.
  - intros v. simpl. lia.
  - by vm_compute.
  - by vm_compute.
Defined.

Lemma move_construct_contents_witness :
  (sample_items <> [] -> exists c', MoveConstruct sample_cache = Some c' /\ repr c' sample_items /\
     contents c' = Some sample_items /\ Size c' = Size sample_cache /\
     GetMaxSize c' = GetMaxSize sample_cache /\ same_functions sample_cache c') /\
  (sample_items = [] -> MoveConstruct sample_cache = None).
Proof. apply (move_construct_contents sample_cache sample_items), sample_repr. Defined.
