(* ===== verification/InMemoryCache.v ===== *)
(** * The in-memory cache

    [olp-cpp-sdk-core/src/cache/InMemoryCache.cpp]: an LRU cache of item tuples
    and a map from expiry times to the items that expire then.  The LRU cache's
    eviction callback changes the second map, which is therefore the callback's
    state.  The time provider is read as one value [now] per operation, and
    every operation holds the mutex, so operations are atomic. *)

From Stdlib Require Import ZArith Lia Ascii.
From stdpp Require Import base gmap option numbers strings list sorting.
From S2P Require Import Prelude Decimal LruCache LruFacts LruSpec.
Local Open Scope Z_scope.
Local Open Scope olp_scope.

Section in_memory_cache.
(** [boost::any], with the empty value that a default construction gives. *)
Context {any : Type} (any_empty : any).

(** [std::tuple<std::string, time_t, boost::any, size_t>]. *)
Record ItemTuple := MkItem {
  item_key : text; item_expiry : Z; item_value : any; item_size : Z }.

(** [std::map<time_t, std::vector<ItemTuple>>]. *)
Abbreviation Expiries := (gmap Z (list ItemTuple)).

Record InMemoryCache := MkInMemoryCache {
  m_itemTuples : LruCache text ItemTuple Expiries;
  m_itemExpiries : Expiries }.

Definition EqualityCacheCost (tuple : ItemTuple) : Z := 1.
Definition PresetModelSizeCacheCost (tuple : ItemTuple) : Z :=
  let result := item_size tuple in
  if result =? 0 then 1 else result.

Definition HasExpiry (expirySeconds : Z) : bool := negb (expirySeconds =? time_max).

(** [m[k]] of a [std::map] adds an empty vector when the key is absent. *)
Definition subscript (t : Z) (m : Expiries) : Expiries :=
  match m !! t with Some _ => m | None => <[t := []]> m end.

(** [expVec.erase(itTup)] at the first tuple of that key. *)
Fixpoint erase_first (key : text) (expVec : list ItemTuple) : list ItemTuple :=
  match expVec with
  | [] => []
  | t :: rest => if decide (item_key t = key) then rest else t :: erase_first key rest
  end.

(** [expVec] is a copy of the vector in the map: erasing from it changes nothing. *)
Definition OnEviction (key : text) (value : ItemTuple) (ex : Expiries) : Expiries :=
  let expiry := item_expiry value in
  if HasExpiry expiry then
    let ex1 := subscript expiry ex in
    let expVec := erase_first key (default [] (ex1 !! expiry)) in
    if decide (length (default [] (ex1 !! expiry)) = 0%nat) then delete expiry ex1 else ex1
  else ex.

Definition NewInMemoryCache (maxSize : Z) (cacheCost : ItemTuple -> Z) : InMemoryCache :=
  MkInMemoryCache (SetEvictionCallback (Some OnEviction) (NewLruCache maxSize cacheCost)) ∅.

(** The loop of [PurgeExpired(time_t)]. *)
Fixpoint erase_items (items : list ItemTuple) (c : LruCache text ItemTuple Expiries) (ex : Expiries)
    : option (LruCache text ItemTuple Expiries * Expiries) :=
  match items with
  | [] => Some (c, ex)
  | t :: rest => '(c', ex', _) ← Erase (item_key t) c ex; erase_items rest c' ex'
  end.

Definition PurgeExpiredAt (expireTime : Z) (s : InMemoryCache) : option (InMemoryCache * bool) :=
  let ex := subscript expireTime (m_itemExpiries s) in
  '(c, ex1) ← erase_items (default [] (ex !! expireTime)) (m_itemTuples s) ex;
  Some (MkInMemoryCache c (delete expireTime ex1), true).

(** The keys of a [std::map], in its order. *)
Definition ordered_keys (m : Expiries) : list Z := merge_sort Z.le (elements (dom m)).

(** The keys before the first that is not less than [now]. *)
Fixpoint expired_keys (now : Z) (keys : list Z) : list Z :=
  match keys with
  | [] => []
  | t :: rest => if t <? now then t :: expired_keys now rest else []
  end.

Fixpoint purge_all (keys : list Z) (s : InMemoryCache) (ret : bool) : option (InMemoryCache * bool) :=
  match keys with
  | [] => Some (s, ret)
  | t :: rest => '(s', r) ← PurgeExpiredAt t s; purge_all rest s' (ret && r)
  end.

Definition PurgeExpired (now : Z) (s : InMemoryCache) : option (InMemoryCache * bool) :=
  purge_all (expired_keys now (ordered_keys (m_itemExpiries s))) s true.

(** [Put]; [None] also when [expireSeconds += now] overflows [time_t]. *)
Definition Put (key : text) (item : any) (expireSeconds sz now : Z) (s : InMemoryCache)
    : option (InMemoryCache * bool) :=
  '(s1, _) ← PurgeExpired now s;
  let expires := HasExpiry expireSeconds in
  if expires && (expireSeconds <=? 0) then Some (s1, false) (* can't expire in the past *)
  else if expires && (expireSeconds + now >? time_max) then None
  else
    let expireSeconds := if expires then expireSeconds + now else expireSeconds in
    let itemTuple := MkItem key expireSeconds item sz in
    '(c, ex, ret) ← InsertOrAssign key itemTuple (m_itemTuples s1) (m_itemExpiries s1);
    let ex' := if ret.2 && expires
               then <[expireSeconds := default [] (ex !! expireSeconds) ++ [itemTuple]]> ex
               else ex in
    Some (MkInMemoryCache c ex', ret.2).

Definition Get (key : text) (now : Z) (s : InMemoryCache) : option (InMemoryCache * any) :=
  '(c, it) ← Find key (m_itemTuples s);
  let s1 := MkInMemoryCache c (m_itemExpiries s) in
  if decide (it = None) then Some (s1, any_empty)
  else
    b ← deref it c;
    let expiryTime := item_expiry (value_ b) in
    if expiryTime <? now then '(s2, _) ← PurgeExpiredAt expiryTime s1; Some (s2, any_empty)
    else Some (s1, item_value (value_ b)).

Definition CacheSize (s : InMemoryCache) : Z := Size (m_itemTuples s).

Definition ClearCache (s : InMemoryCache) : InMemoryCache :=
  MkInMemoryCache (Clear (m_itemTuples s)) ∅.

Definition Remove (key : text) (s : InMemoryCache) : option InMemoryCache :=
  '(c, ex, _) ← Erase key (m_itemTuples s) (m_itemExpiries s);
  Some (MkInMemoryCache c ex).

(** [key.substr(0, prefix.length()) == prefix] *)
Definition has_prefix (keyPrefix key : text) : bool :=
  bool_decide (take (length keyPrefix) key = keyPrefix).

Fixpoint remove_loop (fuel : nat) (keyPrefix : text) (it : option text)
    (c : LruCache text ItemTuple Expiries) (ex : Expiries)
    : option (LruCache text ItemTuple Expiries * Expiries) :=
  match it with
  | None => Some (c, ex)
  | Some key =>
    match fuel with
    | O => None
    | S n =>
      if has_prefix keyPrefix key then
        '(c', ex', next) ← EraseIt it c ex; remove_loop n keyPrefix next c' ex'
      else next ← increment it c; remove_loop n keyPrefix next c ex
    end
  end.

(** Every iteration advances one item, so the number of items bounds them. *)
Definition RemoveKeysWithPrefix (keyPrefix : text) (s : InMemoryCache) : option InMemoryCache :=
  '(c, ex) ← remove_loop (size (map_ (m_itemTuples s))) keyPrefix (begin_it (m_itemTuples s))
               (m_itemTuples s) (m_itemExpiries s);
  Some (MkInMemoryCache c ex).
End in_memory_cache.
