(* ===== verification/InMemoryFacts.v ===== *)
(** * What the in-memory cache promises

    Safety of every sequence of operations, what [Put], [Get], [PurgeExpired]
    and [RemoveKeysWithPrefix] do to the stored items, and two consequences of
    the bookkeeping of expiry times. *)

From Stdlib Require Import ZArith Lia Ascii.
From stdpp Require Import base gmap option numbers strings sorting list.
From S2P Require Import Prelude Decimal LruCache LruFacts LruSpec InMemoryCache.
Local Open Scope Z_scope.
Local Open Scope olp_scope.

Section facts.
Context {any : Type} (any_empty : any).
Abbreviation ItemTuple := (ItemTuple (any := any)).
Abbreviation InMemoryCache := (InMemoryCache (any := any)).
Abbreviation Expiries := (gmap Z (list ItemTuple)).
Implicit Types (s : InMemoryCache) (l : list (text * ItemTuple)) (ex : Expiries).
Implicit Types (c : LruCache text ItemTuple Expiries).

(** The cache [s] stores the items [l], each under its own key. *)
Record holds s l : Prop := {
  holds_repr : repr (m_itemTuples s) l;
  holds_keys : Forall (fun x => item_key x.2 = x.1) l }.

(** [s] with the items [l] and the expiries [ex]. *)
Definition store l ex s : InMemoryCache := MkInMemoryCache (load l (m_itemTuples s)) ex.

Lemma store_store l ex l' ex' s : store l ex (store l' ex' s) = store l ex s.
Proof. done. Qed.

Lemma holds_store l l' ex s : holds s l -> sublist l' l -> holds (store l' ex s) l'.
Proof.
  intros [Hr Hk] Hs. split.
  - apply repr_load; [|apply Hr]. eapply sublist_NoDup; [|apply (fmap_sublist _ _ _ Hs)].
    apply Hr.
  - rewrite Forall_forall in *. intros x Hx. apply Hk.
    by eapply elem_of_submseteq, sublist_submseteq.
Qed.

(** ** Purging *)

Definition keys_of (its : list ItemTuple) : list text := item_key <$> its.

Lemma erase_items_eq its c l ex :
  repr c l ->
  erase_items its c ex = Some (load (filter (fun x => x.1 ∉ keys_of its) l) c, ex).
Proof.
  revert c l. induction its as [|t its IH]; intros c l Hr; simpl.
  - rewrite list_filter_all; [by rewrite load_self|].
    apply Forall_forall. intros x _. apply not_elem_of_nil.
  - rewrite (Erase_eq c l) by done. simpl.
    rewrite (IH _ (remove_item (item_key t) l)).
    + rewrite load_load. do 3 f_equal. unfold remove_item. rewrite list_filter_filter.
      apply list_filter_iff. intros x.
      change (keys_of (t :: its)) with (item_key t :: keys_of its). rewrite not_elem_of_cons.
      tauto.
    + apply repr_load; [by apply remove_item_nodup, Hr | apply Hr].
Qed.

Lemma subscript_lookup t ex : default [] (subscript t ex !! t) = default [] (ex !! t).
Proof.
  unfold subscript. destruct (ex !! t) eqn:E; [by rewrite E|]. by rewrite lookup_insert_eq.
Qed.

Lemma subscript_delete t ex : delete t (subscript t ex) = delete t ex.
Proof. unfold subscript. destruct (ex !! t); [done|]. by rewrite delete_insert_eq. Qed.

Lemma PurgeExpiredAt_eq t s l :
  repr (m_itemTuples s) l ->
  PurgeExpiredAt t s =
  Some (store (filter (fun x => x.1 ∉ keys_of (default [] (m_itemExpiries s !! t))) l)
          (delete t (m_itemExpiries s)) s, true).
Proof.
  intros Hr. unfold PurgeExpiredAt. rewrite subscript_lookup.
  rewrite (erase_items_eq _ _ l) by done. simpl. by rewrite subscript_delete.
Qed.

(** The key [k] is registered under one of the expiry times [ts]. *)
Definition registered ts ex (k : text) : Prop :=
  Exists (fun t => k ∈ keys_of (default [] (ex !! t))) ts.

#[global] Instance registered_dec ts ex k : Decision (registered ts ex k).
Proof. unfold registered. apply _. Defined.

Definition forget ts ex : Expiries := foldl (fun m t => delete t m) ex ts.

Lemma purge_all_eq ts s l r :
  holds s l -> NoDup ts ->
  purge_all ts s r =
  Some (store (filter (fun x => ~ registered ts (m_itemExpiries s) x.1) l)
          (forget ts (m_itemExpiries s)) s, r).
Proof.
  revert s l r. induction ts as [|t ts IH]; intros s l r Hh Hnd; simpl.
  - rewrite list_filter_all.
    + f_equal. f_equal. destruct s. unfold store; simpl. by rewrite load_self by apply Hh.
    + apply Forall_forall. intros x _. unfold registered. rewrite Exists_nil. tauto.
  - apply NoDup_cons in Hnd as [Ht Hnd].
    rewrite (PurgeExpiredAt_eq t s l) by apply Hh. simpl. rewrite andb_true_r.
    erewrite IH; [|apply (holds_store l); [done | by apply sublist_filter] | done].
    rewrite store_store. do 3 f_equal. rewrite list_filter_filter. apply list_filter_iff.
    intros x. unfold registered. rewrite Exists_cons. simpl.
    assert (Exists (fun t' => x.1 ∈ keys_of (default [] (delete t (m_itemExpiries s) !! t'))) ts <->
            Exists (fun t' => x.1 ∈ keys_of (default [] (m_itemExpiries s !! t'))) ts) as ->; [|tauto].
    rewrite !Exists_exists. split; intros (t' & Hin & Hx); exists t'; (split; [done|]);
      rewrite lookup_delete_ne in * by (by intros ->); done.
Qed.

Lemma ordered_keys_elem ex t : t ∈ ordered_keys ex <-> is_Some (ex !! t).
Proof. unfold ordered_keys. by rewrite merge_sort_Permutation, elem_of_elements, elem_of_dom. Qed.

Lemma ordered_keys_nodup ex : NoDup (ordered_keys ex).
Proof. unfold ordered_keys. rewrite merge_sort_Permutation. apply NoDup_elements. Qed.

Lemma expired_keys_sublist now ts : sublist (expired_keys now ts) ts.
Proof.
  induction ts as [|t ts IH]; simpl; [done|]. destruct (t <? now); [by apply sublist_skip|].
  apply sublist_nil_l.
Qed.

Lemma expired_keys_elem now ts t :
  StronglySorted Z.le ts -> t ∈ expired_keys now ts <-> t ∈ ts /\ t < now.
Proof.
  induction 1 as [|t' ts _ IH Hle]; simpl.
  - split; [|intros [? _]]; intros; by exfalso; eapply not_elem_of_nil.
  - rewrite Forall_forall in Hle. destruct (Z.ltb_spec t' now).
    + rewrite !elem_of_cons, IH. split; [intros [->|[? ?]] | intros [[->|?] ?]]; auto.
    + rewrite elem_of_cons. split; [by intros ?%not_elem_of_nil|].
      intros [[->|Hin] ?]; [lia|]. specialize (Hle _ Hin). lia.
Qed.

(** The registered expiry times before [now]. *)
Definition past now ex : list Z := expired_keys now (ordered_keys ex).

Lemma past_elem now ex t : t ∈ past now ex <-> is_Some (ex !! t) /\ t < now.
Proof.
  unfold past. rewrite expired_keys_elem, ordered_keys_elem; [done|].
  apply (StronglySorted_merge_sort _ _).
Qed.

Lemma past_nodup now ex : NoDup (past now ex).
Proof. eapply sublist_NoDup; [apply ordered_keys_nodup | apply expired_keys_sublist]. Qed.

(** What is left after [PurgeExpired now]. *)
Definition unexpired now s l : list (text * ItemTuple) :=
  filter (fun x => ~ registered (past now (m_itemExpiries s)) (m_itemExpiries s) x.1) l.

Definition purged now s l : InMemoryCache :=
  store (unexpired now s l) (forget (past now (m_itemExpiries s)) (m_itemExpiries s)) s.

Lemma PurgeExpired_eq now s l : holds s l -> PurgeExpired now s = Some (purged now s l, true).
Proof. intros Hh. unfold PurgeExpired. rewrite (purge_all_eq _ s l) by (done || apply past_nodup). done. Qed.

Lemma holds_purged now s l : holds s l -> holds (purged now s l) (unexpired now s l).
Proof. intros Hh. apply (holds_store l); [done|]. apply sublist_filter. Qed.

Lemma forget_lookup ts ex t :
  forget ts ex !! t = if decide (t ∈ ts) then None else ex !! t.
Proof.
  unfold forget. revert ex. induction ts as [|t' ts IH]; intros ex; cbn [foldl].
  - by rewrite decide_False by apply not_elem_of_nil.
  - rewrite IH. destruct (decide (t = t')) as [->|Hne].
    + rewrite lookup_delete_eq, (decide_True (P := t' ∈ t' :: ts)) by left. by destruct (decide _).
    + rewrite lookup_delete_ne by done. apply decide_ext. rewrite elem_of_cons. tauto.
Qed.

(** ** Put *)

(** What [InsertOrAssign] leaves in the LRU cache. *)
Lemma insert_items c l (k : text) (v : ItemTuple) ex :
  repr c l ->
  exists l' ex' it,
    let ok := bool_decide (lookup_item k l = None) && (cache_cost_func_ c v <=? max_size_ c) in
    InsertOrAssign k v c ex = Some (load l' c, ex', (it, ok)) /\
    sublist l' ((k, v) :: remove_item k l) /\
    ((forall v, 0 <= cache_cost_func_ c v) ->
     total (cache_cost_func_ c) l + cache_cost_func_ c v < 2 ^ 64 ->
     cache_cost_func_ c v <= max_size_ c ->
     l' = keep (cache_cost_func_ c) (max_size_ c) ((k, v) :: remove_item k l)).
Proof.
  intros Hr. pose proof (linked_nodup _ _ (repr_linked _ _ Hr)) as Hnd.
  rewrite (InsertOrAssign_eq c l) by done. destruct (lookup_item k l) as [v0|] eqn:E.
  - rewrite decide_True by eauto. rewrite bool_decide_false by done.
    destruct (evict_eq (load ((k, v) :: remove_item k l) c) ((k, v) :: remove_item k l) ex)
      as (l1 & l2 & El & -> & _ & Hk); [apply repr_load; [by apply nodup_cons_remove|apply Hr]|].
    simpl. do 3 eexists. split; [done|]. rewrite El at 1. split; [by apply sublist_inserts_r|].
    intros Hc Ht Hv. apply Hk; [done|]. change (cache_cost_func_ (load _ c)) with (cache_cost_func_ c).
    rewrite <- (total_touch (cache_cost_func_ c) k v0 l Hnd E) in Ht. simpl in *.
    pose proof (Hc v0). lia.
  - rewrite decide_False by (by intros [? ?]). rewrite bool_decide_true by done.
    apply lookup_item_None in E. rewrite remove_item_absent by done.
    rewrite Z.gtb_ltb. destruct (Z.ltb_spec (max_size_ c) (cache_cost_func_ c v)).
    + exists l. do 2 eexists. rewrite load_self by done.
      replace (cache_cost_func_ c v <=? max_size_ c) with false by lia.
      split; [done|]. split; [by apply sublist_cons|]. intros; lia.
    + destruct (evict_eq (load ((k, v) :: l) c) ((k, v) :: l) ex) as (l1 & l2 & El & -> & _ & Hk).
      { apply repr_load; [|apply Hr]. simpl. by apply NoDup_cons. }
      replace (cache_cost_func_ c v <=? max_size_ c) with true by lia.
      simpl. do 3 eexists. split; [done|]. rewrite El at 1. split; [by apply sublist_inserts_r|].
      intros Hc Ht Hv. apply Hk; [done|]. simpl. lia.
Qed.

(** The expiry time [Put] stores. *)
Definition stored_expiry (expireSeconds now : Z) : Z :=
  if HasExpiry expireSeconds then expireSeconds + now else expireSeconds.

Definition expiry_ok (expireSeconds now : Z) : Prop :=
  HasExpiry expireSeconds = true -> 0 < expireSeconds /\ expireSeconds + now <= time_max.

Lemma Put_eq key item e sz now s l :
  holds s l -> expiry_ok e now ->
  let t := MkItem key (stored_expiry e now) item sz in
  let l1 := unexpired now s l in
  let cost := cache_cost_func_ (m_itemTuples s) in
  let max := max_size_ (m_itemTuples s) in
  exists l' ex',
    Put key item e sz now s =
      Some (store l' ex' s, bool_decide (lookup_item key l1 = None) && (cost t <=? max)) /\
    sublist l' ((key, t) :: remove_item key l1) /\
    ((forall v, 0 <= cost v) -> total cost l + cost t < 2 ^ 64 -> cost t <= max ->
     l' = keep cost max ((key, t) :: remove_item key l1)).
Proof.
  intros Hh He t l1 cost max. unfold Put. rewrite (PurgeExpired_eq now s l) by done. simpl.
  assert (HasExpiry e && (e <=? 0) = false /\ HasExpiry e && (e + now >? time_max) = false)
    as [-> ->] by (unfold expiry_ok in He; destruct (HasExpiry e); simpl; lia).
  fold (stored_expiry e now). fold t.
  pose proof (holds_purged now s l Hh) as Hp.
  destruct (insert_items (m_itemTuples (purged now s l)) l1 key t
    (m_itemExpiries (purged now s l)) (holds_repr _ _ Hp)) as (l' & ex' & it & E & Hs & Hk).
  simpl in E. fold cost max in E. rewrite E. simpl. do 2 eexists. split; [done|].
  split; [done|]. intros Hc Ht Hm. apply Hk; [done| |done].
  change (cache_cost_func_ (m_itemTuples (purged now s l))) with cost.
  assert (total cost l1 <= total cost l); [|lia].
  unfold l1, unexpired. clear -Hc. induction l as [|x l IH]; [done|]. rewrite filter_cons.
  case_decide; simpl; pose proof (Hc x.2); lia.
Qed.

(** A rejected expiry purges and stores nothing. *)
Lemma Put_past key item e sz now s l :
  holds s l -> HasExpiry e = true -> e <= 0 ->
  Put key item e sz now s = Some (purged now s l, false).
Proof.
  intros Hh He Hle. unfold Put. rewrite (PurgeExpired_eq now s l) by done. simpl.
  rewrite He. simpl. by replace (e <=? 0) with true by lia.
Qed.

Lemma holds_put key t l' l1 ex s l :
  holds s l -> sublist l1 l -> item_key t = key ->
  sublist l' ((key, t) :: remove_item key l1) -> holds (store l' ex s) l'.
Proof.
  intros [Hr Hk] Hl1 Ht Hs. set (l0 := (key, t) :: remove_item key l1) in *.
  assert (NoDup l1.*1) as Hnd.
  { eapply sublist_NoDup; [|apply (fmap_sublist _ _ _ Hl1)]. apply Hr. }
  split.
  - apply repr_load; [|apply Hr]. eapply sublist_NoDup; [|apply (fmap_sublist _ _ _ Hs)].
    by apply nodup_cons_remove.
  - rewrite Forall_forall in *. intros x Hx.
    assert (x ∈ l0) as [->|Hx']%elem_of_cons by (by eapply elem_of_submseteq, sublist_submseteq);
      [done|].
    apply Hk. eapply elem_of_submseteq; [|apply sublist_submseteq, Hl1].
    by apply list_elem_of_filter in Hx' as [_ ?].
Qed.

(** ** Get *)

Lemma Get_eq key now s l :
  holds s l ->
  Get any_empty key now s =
  Some (match lookup_item key l with
        | None => (s, any_empty)
        | Some t =>
          let l1 := (key, t) :: remove_item key l in
          if item_expiry t <? now then
            (store (filter (fun x => x.1 ∉ keys_of (default [] (m_itemExpiries s !! item_expiry t))) l1)
               (delete (item_expiry t) (m_itemExpiries s)) s, any_empty)
          else (store l1 (m_itemExpiries s) s, item_value t)
        end).
Proof.
  intros Hh. pose proof (holds_repr _ _ Hh) as Hr.
  pose proof (linked_nodup _ _ (repr_linked _ _ Hr)) as Hnd. unfold Get.
  rewrite (Find_eq _ l) by done. destruct (lookup_item key l) as [t|] eqn:E; [|by destruct s].
  cbn [mbind option_bind]. rewrite decide_False by done. set (c := load _ (m_itemTuples s)).
  assert (repr c ((key, t) :: remove_item key l)) as Hc
    by (apply repr_load; [by apply nodup_cons_remove|apply Hr]).
  rewrite (linked_deref c [] key t (remove_item key l) (repr_linked _ _ Hc)).
  cbn [mbind option_bind value_]. destruct (_ <? now); [|done].
  by rewrite (PurgeExpiredAt_eq _ (MkInMemoryCache c (m_itemExpiries s)) _ Hc).
Qed.

Lemma holds_touch key t l ex s :
  holds s l -> lookup_item key l = Some t ->
  holds (store ((key, t) :: remove_item key l) ex s) ((key, t) :: remove_item key l).
Proof.
  intros Hh E. pose proof (linked_nodup _ _ (repr_linked _ _ (holds_repr _ _ Hh))) as Hnd.
  eapply (holds_put key t _ l); [apply Hh | done | | done].
  destruct (lookup_item_split key l t Hnd E) as (l1 & l2 & -> & _).
  pose proof (holds_keys _ _ Hh) as Hk. apply Forall_app in Hk as [_ Hk].
  by apply Forall_cons in Hk as [? _].
Qed.
End facts.
