(* ===== verification/InMemorySpec.v ===== *)
(** * Properties of the in-memory cache *)

From Stdlib Require Import ZArith Lia Ascii.
From stdpp Require Import base gmap option numbers strings sorting list.
From S2P Require Import Prelude Decimal LruCache LruFacts LruSpec InMemoryCache InMemoryFacts.
Local Open Scope Z_scope.
Local Open Scope olp_scope.

Section properties.
Context {any : Type} (any_empty : any).
Abbreviation ItemTuple := (ItemTuple (any := any)).
Abbreviation InMemoryCache := (InMemoryCache (any := any)).
Abbreviation Expiries := (gmap Z (list ItemTuple)).
Implicit Types (s : InMemoryCache) (l : list (text * ItemTuple)) (ex : Expiries).

(** ** Remove *)

Lemma Remove_eq key s l :
  holds s l -> Remove key s = Some (store (remove_item key l) (m_itemExpiries s) s).
Proof. intros Hh. unfold Remove. by rewrite (Erase_eq _ l) by apply Hh. Qed.

Lemma remove_loop_eq prefix fuel c l1 l2 ex :
  repr c (l1 ++ l2) -> (length l2 <= fuel)%nat ->
  remove_loop fuel prefix (head_key None l2) c ex =
  Some (load (l1 ++ filter (fun x => has_prefix prefix x.1 = false) l2) c, ex).
Proof.
  revert c l1 l2. induction fuel as [|n IH]; intros c l1 [|[k t] l2] Hr Hf; cbn [length] in Hf; try lia.
  1, 2: rewrite app_nil_r in Hr; cbn; by rewrite app_nil_r, load_self.
  cbn [head_key fst remove_loop].
  pose proof (linked_deref _ _ _ _ _ (repr_linked _ _ Hr)) as Hd.
  pose proof (nodup_mid _ _ _ _ (linked_nodup _ _ (repr_linked _ _ Hr))) as (Hk1 & Hk2 & Hnd).
  destruct (has_prefix prefix k) eqn:Ep.
  - unfold EraseIt, increment. rewrite Hd. cbn [mbind option_bind].
    rewrite (Erase_eq c _ k ex Hr). cbn [mbind option_bind next_].
    assert (remove_item k (l1 ++ (k, t) :: l2) = l1 ++ l2) as ->.
    { unfold remove_item. rewrite filter_app, filter_cons_False by (simpl; by intros []).
      fold (remove_item k l1) (remove_item k l2). by rewrite !remove_item_absent. }
    rewrite (IH _ l1 l2); [| by apply repr_load; [|apply Hr] | lia].
    rewrite filter_cons_False by (simpl; by rewrite Ep). done.
  - unfold increment. rewrite Hd. cbn [mbind option_bind next_].
    rewrite (IH c (l1 ++ [(k, t)]) l2); [| by rewrite <- app_assoc | lia].
    rewrite filter_cons_True by done. by rewrite <- app_assoc.
Qed.

Lemma RemoveKeysWithPrefix_eq prefix s l :
  holds s l ->
  RemoveKeysWithPrefix prefix s =
  Some (store (filter (fun x => has_prefix prefix x.1 = false) l) (m_itemExpiries s) s).
Proof.
  intros Hh. pose proof (holds_repr _ _ Hh) as Hr. unfold RemoveKeysWithPrefix, begin_it.
  rewrite (linked_first _ l) by apply Hr.
  rewrite (remove_loop_eq prefix _ (m_itemTuples s) [] l (m_itemExpiries s)); [done | done |].
  by rewrite (repr_map_size _ l).
Qed.

(** ** Sequences of operations *)

Inductive memory_op :=
| MPut (key : text) (item : any) (expireSeconds sz now : Z)
| MGet (key : text) (now : Z)
| MRemove (key : text)
| MRemovePrefix (keyPrefix : text)
| MClear.

Definition memory_step (op : memory_op) s : option InMemoryCache :=
  match op with
  | MPut key item e sz now => fst <$> Put key item e sz now s
  | MGet key now => fst <$> Get any_empty key now s
  | MRemove key => Remove key s
  | MRemovePrefix p => RemoveKeysWithPrefix p s
  | MClear => Some (ClearCache s)
  end.

Fixpoint memory_run (ops : list memory_op) s : option InMemoryCache :=
  match ops with
  | [] => Some s
  | op :: ops' => s' ← memory_step op s; memory_run ops' s'
  end.

(** The clock is not so late that an expiry time overflows [time_t]. *)
Definition memory_op_ok (op : memory_op) : Prop :=
  match op with
  | MPut _ _ e _ now => HasExpiry e = true -> e + now <= time_max
  | _ => True
  end.

Definition same_cost s s' : Prop :=
  cache_cost_func_ (m_itemTuples s') = cache_cost_func_ (m_itemTuples s).

Lemma memory_step_safe op s l :
  holds s l -> memory_op_ok op ->
  exists s' l', memory_step op s = Some s' /\ holds s' l' /\ same_cost s s'.
Proof.
  intros Hh Hop. destruct op as [key item e sz now|key now|key|p|]; cbn [memory_step].
  - destruct (decide (HasExpiry e = true /\ e <= 0)) as [[He Hle]|Hok].
    + rewrite (Put_past _ _ _ _ _ _ l) by done. do 2 eexists. split; [done|].
      split; [by apply holds_purged|done].
    + destruct (Put_eq key item e sz now s l Hh) as (l' & ex' & -> & Hs & _).
      { intros He. split; [apply Z.nle_gt; intros ?; by apply Hok | by apply Hop]. }
      do 2 eexists. split; [done|]. split; [|done].
      eapply (holds_put key (MkItem key (stored_expiry e now) item sz) l' (unexpired now s l) ex' s l Hh); [apply sublist_filter | done | apply Hs].
  - rewrite (Get_eq any_empty key now s l) by done. destruct (lookup_item key l) as [t|] eqn:E.
    + pose proof (holds_touch key t l (m_itemExpiries s) s Hh E) as Ht.
      destruct (_ <? now); do 2 eexists; (split; [done|]); (split; [|done]); [|done].
      apply (holds_store _ _ (delete (item_expiry t) (m_itemExpiries s)) _ Ht), sublist_filter.
    + do 2 eexists. split; [done|]. done.
  - rewrite (Remove_eq key s l) by done. do 2 eexists. split; [done|]. split; [|done].
    apply (holds_store l); [done|]. apply sublist_filter.
  - rewrite (RemoveKeysWithPrefix_eq p s l) by done. do 2 eexists. split; [done|]. split; [|done].
    apply (holds_store l); [done|]. apply sublist_filter.
  - do 2 eexists. split; [done|]. split; [|done].
    split; [eapply Clear_repr, Hh | constructor].
Qed.

Lemma memory_run_safe ops s l :
  holds s l -> Forall memory_op_ok ops ->
  exists s' l', memory_run ops s = Some s' /\ holds s' l' /\ same_cost s s'.
Proof.
  revert s l. induction ops as [|op ops IH]; simpl; intros s l Hh Hops; [by do 2 eexists|].
  apply Forall_cons in Hops as [Hop Hops].
  destruct (memory_step_safe op s l Hh Hop) as (s1 & l1 & -> & Hh1 & Hc1). simpl.
  destruct (IH s1 l1 Hh1 Hops) as (s2 & l2 & -> & Hh2 & Hc2). do 2 eexists.
  split_and!; [done..|]. unfold same_cost in *. congruence.
Qed.

Lemma holds_new maxSize cost :
  in_range 64 maxSize -> holds (NewInMemoryCache maxSize cost : InMemoryCache) [].
Proof.
  intros Hm. split; [|constructor]. simpl. by apply repr_SetEvictionCallback, repr_new.
Qed.

(** A new in-memory cache survives every sequence of [Put], [Get],
    [Remove], [RemoveKeysWithPrefix] and [Clear], provided expiry times do not
    overflow [time_t]: no operation uses an invalid iterator or fails to
    terminate; each stored item sits under its own key, once, and the size is
    the sum of the items' costs modulo 2^64. *)
Theorem in_memory_operations_safe maxSize cost (ops : list memory_op) :
  in_range 64 maxSize -> Forall memory_op_ok ops ->
  exists s l,
    memory_run ops (NewInMemoryCache maxSize cost) = Some s /\
    contents (m_itemTuples s) = Some l /\ NoDup l.*1 /\
    Forall (fun x => item_key x.2 = x.1) l /\
    CacheSize s = u64 (total cost l).
Proof.
  intros Hm Hops.
  destruct (memory_run_safe ops _ [] (holds_new maxSize cost Hm) Hops) as (s & l & -> & Hh & Hc).
  pose proof (holds_repr _ _ Hh) as Hr.
  exists s, l. split_and!; [done | by apply contents_eq | apply Hr | apply Hh |].
  unfold CacheSize, Size. by rewrite (repr_size _ _ Hr), Hc.
Qed.

(** C35.  [Get] returns the stored value of a key until its expiry time has
    passed and the empty value afterwards, and reading an item makes it the most
    recently used one. *)
Theorem get_returns_unexpired key now s l :
  holds s l ->
  exists s' v, Get any_empty key now s = Some (s', v) /\
    match lookup_item key l with
    | None => v = any_empty /\ s' = s
    | Some t =>
      if item_expiry t <? now then v = any_empty
      else v = item_value t /\
           contents (m_itemTuples s') = Some ((key, t) :: remove_item key l)
    end.
Proof.
  intros Hh. rewrite (Get_eq any_empty key now s l) by done.
  destruct (lookup_item key l) as [t|] eqn:E; [|by do 2 eexists].
  destruct (_ <? now); do 2 eexists; (split; [done|]); [done|]. split; [done|].
  apply contents_eq, holds_repr. by apply holds_touch.
Qed.

(** What [Put] stores can be read until it expires: for an item that fits
    the cache and does not expire in the past, every [Get] of its key up to the
    expiry time returns the new value.  [Put] itself returns true exactly when
    no unexpired item had that key: overwriting an item reports false. *)
Theorem put_then_get key item e sz now now' s l :
  let t := MkItem key (stored_expiry e now) item sz in
  let cost := cache_cost_func_ (m_itemTuples s) in
  holds s l -> expiry_ok e now -> (forall v, 0 <= cost v) ->
  total cost l + cost t < 2 ^ 64 -> cost t <= max_size_ (m_itemTuples s) ->
  now' <= stored_expiry e now ->
  exists s' ok s'',
    Put key item e sz now s = Some (s', ok) /\
    ok = bool_decide (lookup_item key (unexpired now s l) = None) /\
    Get any_empty key now' s' = Some (s'', item).
Proof.
  intros t cost Hh He Hc Ht Hfit Hnow.
  destruct (Put_eq key item e sz now s l Hh He) as (l' & ex' & -> & Hs & Hk).
  fold t cost in Hs, Hk. specialize (Hk Hc Ht Hfit).
  pose proof (holds_put key t l' (unexpired now s l) ex' s l Hh (sublist_filter _ _) eq_refl Hs) as Hh'.
  assert (lookup_item key l' = Some t) as El.
  { rewrite Hk. simpl. destruct (Z.leb_spec (cost t) (max_size_ (m_itemTuples s))); [|lia].
    simpl. by rewrite decide_True. }
  do 3 eexists. split; [done|]. fold t cost. split.
  - replace (cost t <=? max_size_ (m_itemTuples s)) with true by lia. by rewrite andb_true_r.
  - rewrite (Get_eq any_empty key now' _ l') by done. rewrite El. simpl.
    by replace (stored_expiry e now <? now') with false by lia.
Qed.

(** [RemoveKeysWithPrefix] removes exactly the items whose key starts with
    the prefix and keeps the others in their order; [Remove] does so for one
    key. *)
Theorem remove_keys_with_prefix prefix s l :
  holds s l ->
  (forall key, exists s', Remove key s = Some s' /\
     contents (m_itemTuples s') = Some (remove_item key l)) /\
  exists s', RemoveKeysWithPrefix prefix s = Some s' /\
    contents (m_itemTuples s') = Some (filter (fun x => has_prefix prefix x.1 = false) l) /\
    (forall rest, has_prefix prefix (prefix ++ rest) = true) /\
    (forall key, has_prefix prefix key = true -> exists rest, key = prefix ++ rest).
Proof.
  intros Hh. split.
  { intros key. rewrite (Remove_eq key s l) by done. eexists. split; [done|].
    apply contents_eq, holds_repr, (holds_store l); [done|]. apply sublist_filter. }
  rewrite (RemoveKeysWithPrefix_eq prefix s l) by done.
  eexists. split; [done|]. split_and!.
  - apply contents_eq, holds_repr, (holds_store l); [done|]. apply sublist_filter.
  - intros rest. unfold has_prefix. apply bool_decide_eq_true. by rewrite take_app_length.
  - intros key Hp. unfold has_prefix in Hp. apply bool_decide_eq_true in Hp.
    exists (drop (length prefix) key). rewrite <- Hp at 1. by rewrite take_drop.
Qed.

Definition key_a : text := [char_of 97].
Definition key_b : text := [char_of 98].

(** The expiry bookkeeping does not follow removals and overwrites.  After
    an item that expires at 10 is removed and its key stored again without
    expiry, the purge of a later [Put] drops the new item; and an item that
    gets its expiry by overwriting is never purged: it is unreadable after 10
    but still counts. *)
Theorem expiry_bookkeeping (v1 v2 v3 : any) :
  let new : InMemoryCache := NewInMemoryCache 100 PresetModelSizeCacheCost in
  (let run := memory_run [MPut key_a v1 10 1 0; MRemove key_a; MPut key_a v2 time_max 1 5;
                 MPut key_b v3 time_max 1 20] new in
   CacheSize <$> run = Some 1 /\ (s ← run; snd <$> Get any_empty key_a 20 s) = Some any_empty) /\
  (let run := memory_run [MPut key_a v1 time_max 1 0; MPut key_a v2 10 1 0;
                 MPut key_b v3 time_max 1 20] new in
   CacheSize <$> run = Some 2 /\ (s ← run; snd <$> Get any_empty key_a 20 s) = Some any_empty /\
   (s ← run; '(s', _) ← Get any_empty key_a 20 s; Some (CacheSize s')) = Some 2).
Proof. intros new. by split_and!; vm_compute. Qed.
End properties.

(** ** The properties at concrete caches *)

Definition sample_memory_ops : list (memory_op (any := Z)) :=
  [MPut key_a 1 10 1 0; MGet key_a 5; MPut key_b 2 time_max 3 6; MRemovePrefix key_a; MClear].

Lemma in_memory_operations_safe_witness :
  exists (s : InMemoryCache (any := Z)) l,
    memory_run (-1) sample_memory_ops (NewInMemoryCache 4 PresetModelSizeCacheCost) = Some s /\
    contents (m_itemTuples s) = Some l /\ NoDup l.*1 /\
    Forall (fun x => item_key x.2 = x.1) l /\
    CacheSize s = u64 (total PresetModelSizeCacheCost l).
Proof.
  apply (in_memory_operations_safe (-1) 4 PresetModelSizeCacheCost sample_memory_ops).
  - unfold in_range. lia.
  - repeat (apply Forall_cons_2; [first [exact I | intros _; unfold time_max; lia | by vm_compute]|]).
    apply Forall_nil_2.
Defined.

Definition sample_memory : InMemoryCache (any := Z) :=
  store [(key_a, MkItem key_a 10 1 1); (key_b, MkItem key_b time_max 2 1)] ∅
    (NewInMemoryCache 10 EqualityCacheCost).

Lemma sample_memory_holds :
  holds sample_memory [(key_a, MkItem key_a 10 1 1); (key_b, MkItem key_b time_max 2 1)].
Proof.
  split.
  - apply repr_load; [|unfold in_range; simpl; lia]. apply (bool_decide_unpack _). by vm_compute.
  - by repeat constructor.
Qed.

Lemma get_returns_unexpired_witness :
  exists s' v, Get (-1) key_b 20 sample_memory = Some (s', v) /\
    v = 2 /\
    contents (m_itemTuples s') =
      Some [(key_b, MkItem key_b time_max 2 1); (key_a, MkItem key_a 10 1 1)].
Proof.
  destruct (get_returns_unexpired (-1) key_b 20 sample_memory _ sample_memory_holds)
    as (s' & v & E & Hv).
  exists s', v. split; [exact E|]. vm_compute in Hv. exact Hv.
Defined.

Lemma put_then_get_witness :
  exists s' ok s'',
    Put key_a 7 5 1 3 sample_memory = Some (s', ok) /\
    ok = bool_decide (lookup_item key_a (unexpired 3 sample_memory
           [(key_a, MkItem key_a 10 1 1); (key_b, MkItem key_b time_max 2 1)]) = None) /\
    Get (-1) key_a 8 s' = Some (s'', 7).
Proof.
  apply (put_then_get (-1) key_a 7 5 1 3 8 sample_memory _ sample_memory_holds).
  - intros _. unfold time_max. lia.
  - intros v. simpl. unfold EqualityCacheCost. lia.
  - by vm_compute.
  - by vm_compute.
  - by vm_compute.
Defined.

Lemma remove_keys_with_prefix_witness :
  (forall key, exists s', Remove key sample_memory = Some s' /\
     contents (m_itemTuples s') =
     Some (remove_item key [(key_a, MkItem key_a 10 1 1); (key_b, MkItem key_b time_max 2 1)])) /\
  exists s', RemoveKeysWithPrefix key_a sample_memory = Some s' /\
    contents (m_itemTuples s') =
      Some (filter (fun x => has_prefix key_a x.1 = false)
        [(key_a, MkItem key_a 10 1 1); (key_b, MkItem key_b time_max 2 1)]) /\
    (forall rest, has_prefix key_a (key_a ++ rest) = true) /\
    (forall key, has_prefix key_a key = true -> exists rest, key = key_a ++ rest).
Proof. apply (remove_keys_with_prefix key_a sample_memory _ sample_memory_holds). Defined.
