(* ===== verification/Http.v ===== *)
(** * HTTP status codes and errors

    [HttpStatusCode.h], [ErrorCode.h], [ApiError.h], [ApiResponse.h] and the
    helpers of [src/http/NetworkUtils.cpp]. *)

From Stdlib Require Import ZArith Lia Bool Ascii.
From stdpp Require Import base numbers strings sets list.
From S2P Require Import Prelude Decimal.
Local Open Scope Z_scope.
Local Open Scope olp_scope.

(** ** Codes *)

Inductive HttpStatusCode :=
| Http_Continue
| Http_SwitchingProtocols
| Http_Processing
| Http_Ok
| Http_Created
| Http_Accepted
| Http_NonAuthoritativeInformation
| Http_NoContent
| Http_ResetContent
| Http_PartialContent
| Http_MultiStatus
| Http_AlreadyReported
| Http_ImUsed
| Http_MultipleChoices
| Http_MovedPermanently
| Http_Found
| Http_SeeOther
| Http_NotModified
| Http_UseProxy
| Http_SwitchProxy
| Http_TemporaryRedirect
| Http_PermanentRedirect
| Http_BadRequest
| Http_Unauthorized
| Http_PaymentRequired
| Http_Forbidden
| Http_NotFound
| Http_MethodNotAllowed
| Http_NotAcceptable
| Http_ProxyAuthenticationRequired
| Http_RequestTimeout
| Http_Conflict
| Http_Gone
| Http_LengthRequired
| Http_PreconditionFailed
| Http_RequestEntityTooLarge
| Http_RequestUriTooLong
| Http_UnsupportedMediaType
| Http_RequestedRangeNotSatisfiable
| Http_ExpectationFailed
| Http_ImATeapot
| Http_AuthenticationTimeout
| Http_MethodFailure
| Http_UnprocEntity
| Http_Locked
| Http_FailedDependency
| Http_UpgradeRequired
| Http_PreconditionRequired
| Http_TooManyRequests
| Http_RequestHeaderFieldsTooLarge
| Http_LoginTimeout
| Http_NoResponse
| Http_RetryWith
| Http_Blocked
| Http_Redirect
| Http_RequestHeaderTooLarge
| Http_Certificate
| Http_NoCertificate
| Http_HttpToHttpsPort
| Http_ClientClOsedToRequest
| Http_InternalServerError
| Http_NotImplemented
| Http_BadGateway
| Http_ServiceUnavailable
| Http_GatewayTimeout
| Http_VersionNotSupported
| Http_VariantAlsoNegotiates
| Http_InsufficientStorage
| Http_LoopDetected
| Http_BandwidthLimitExceeded
| Http_NotExtended
| Http_NetworkAuthenticationRequired
| Http_NetworkReadTimeout
| Http_NetworkConnectTimeout.

(** The values of the enumerators; two of them share 506. *)
Definition http_value (c : HttpStatusCode) : Z :=
  match c with
  | Http_Continue => 100
  | Http_SwitchingProtocols => 101
  | Http_Processing => 102
  | Http_Ok => 200
  | Http_Created => 201
  | Http_Accepted => 202
  | Http_NonAuthoritativeInformation => 203
  | Http_NoContent => 204
  | Http_ResetContent => 205
  | Http_PartialContent => 206
  | Http_MultiStatus => 207
  | Http_AlreadyReported => 208
  | Http_ImUsed => 226
  | Http_MultipleChoices => 300
  | Http_MovedPermanently => 301
  | Http_Found => 302
  | Http_SeeOther => 303
  | Http_NotModified => 304
  | Http_UseProxy => 305
  | Http_SwitchProxy => 306
  | Http_TemporaryRedirect => 307
  | Http_PermanentRedirect => 308
  | Http_BadRequest => 400
  | Http_Unauthorized => 401
  | Http_PaymentRequired => 402
  | Http_Forbidden => 403
  | Http_NotFound => 404
  | Http_MethodNotAllowed => 405
  | Http_NotAcceptable => 406
  | Http_ProxyAuthenticationRequired => 407
  | Http_RequestTimeout => 408
  | Http_Conflict => 409
  | Http_Gone => 410
  | Http_LengthRequired => 411
  | Http_PreconditionFailed => 412
  | Http_RequestEntityTooLarge => 413
  | Http_RequestUriTooLong => 414
  | Http_UnsupportedMediaType => 415
  | Http_RequestedRangeNotSatisfiable => 416
  | Http_ExpectationFailed => 417
  | Http_ImATeapot => 418
  | Http_AuthenticationTimeout => 419
  | Http_MethodFailure => 420
  | Http_UnprocEntity => 422
  | Http_Locked => 423
  | Http_FailedDependency => 424
  | Http_UpgradeRequired => 426
  | Http_PreconditionRequired => 427
  | Http_TooManyRequests => 429
  | Http_RequestHeaderFieldsTooLarge => 431
  | Http_LoginTimeout => 440
  | Http_NoResponse => 444
  | Http_RetryWith => 449
  | Http_Blocked => 450
  | Http_Redirect => 451
  | Http_RequestHeaderTooLarge => 494
  | Http_Certificate => 495
  | Http_NoCertificate => 496
  | Http_HttpToHttpsPort => 497
  | Http_ClientClOsedToRequest => 499
  | Http_InternalServerError => 500
  | Http_NotImplemented => 501
  | Http_BadGateway => 502
  | Http_ServiceUnavailable => 503
  | Http_GatewayTimeout => 504
  | Http_VersionNotSupported => 505
  | Http_VariantAlsoNegotiates => 506
  | Http_InsufficientStorage => 506
  | Http_LoopDetected => 508
  | Http_BandwidthLimitExceeded => 509
  | Http_NotExtended => 510
  | Http_NetworkAuthenticationRequired => 511
  | Http_NetworkReadTimeout => 598
  | Http_NetworkConnectTimeout => 599
  end.

Definition HttpErrorToString (error : Z) : text :=
  str (match error with
  | 100 => "Continue"
  | 101 => "Switching Protocols"
  | 200 => "OK"
  | 201 => "Created"
  | 202 => "Accepted"
  | 203 => "Non-Authoritative Information"
  | 204 => "No Content"
  | 205 => "Reset Content"
  | 206 => "Partial Content"
  | 300 => "Multiple Choices"
  | 301 => "Moved Permanently"
  | 302 => "Found"
  | 303 => "See Other"
  | 304 => "Not Modified"
  | 305 => "Use Proxy"
  | 307 => "Temporary Redirect"
  | 400 => "Bad Request"
  | 401 => "Unauthorized"
  | 402 => "Payment Required"
  | 403 => "Forbidden"
  | 404 => "Not Found"
  | 405 => "Method Not Allowed"
  | 406 => "Not Acceptable"
  | 407 => "Proxy Authentication Required"
  | 408 => "Request Timeout"
  | 409 => "Conflict"
  | 410 => "Gone"
  | 411 => "Length Required"
  | 412 => "Precondition Failed"
  | 413 => "Request Entity Too Large"
  | 414 => "Request-URI Too Long"
  | 415 => "Unsupported Media Type"
  | 416 => "Requested Range Not Satisfiable"
  | 417 => "Expectation Failed"
  | 500 => "Internal Server Error"
  | 501 => "Not Implementation"
  | 502 => "Bad gateway"
  | 503 => "Service Unavailable"
  | 504 => "Gateway Timeout"
  | 505 => "HTTP Version Not Supported"
  | _ => "Unknown Error"
  end)%string.

(** [Network::ErrorCode]: the negative results of a request. *)
Inductive NetworkErrorCode :=
| IOError | AuthorizationError | InvalidURLError | Offline | NetCancelled
| AuthenticationError | TimedOut | UnknownError.

Definition network_value (c : NetworkErrorCode) : Z :=
  match c with
  | IOError => -1 | AuthorizationError => -2 | InvalidURLError => -3 | Offline => -4
  | NetCancelled => -5 | AuthenticationError => -6 | TimedOut => -7 | UnknownError => -8
  end.

(** [client::ErrorCode] *)
Inductive ErrorCode :=
| Unknown | Cancelled | InvalidArgument | RequestTimeout | InternalFailure
| ServiceUnavailable | AccessDenied | BadRequest | PreconditionFailed | NotFound
| SlowDown | NetworkConnection.

#[global] Instance ErrorCode_eq_dec : EqDecision ErrorCode.
Proof. solve_decision. Defined.

(** The [case] labels of a [switch]. *)
Definition is_http (http_code : Z) (cs : list HttpStatusCode) : bool :=
  existsb (fun c => http_code =? http_value c) cs.
Definition is_network (http_code : Z) (cs : list NetworkErrorCode) : bool :=
  existsb (fun c => http_code =? network_value c) cs.

Definition IsRetryableHttpStatusCode (http_code : Z) : bool :=
  if http_code <? 0 then false
  else is_http http_code
    [Http_InternalServerError; Http_ServiceUnavailable; Http_TooManyRequests;
     Http_BandwidthLimitExceeded; Http_RequestTimeout; Http_AuthenticationTimeout;
     Http_LoginTimeout; Http_GatewayTimeout; Http_NetworkReadTimeout;
     Http_NetworkConnectTimeout].

Definition GetErrorForHttpStatusCode (http_code : Z) : ErrorCode :=
  if http_code <? 0 then
    if is_network http_code [Offline; IOError] then NetworkConnection
    else if is_network http_code [TimedOut] then RequestTimeout
    else if is_network http_code [NetCancelled] then Cancelled
    else if is_network http_code [AuthorizationError; AuthenticationError] then AccessDenied
    else if is_network http_code [InvalidURLError] then ServiceUnavailable
    else Unknown
  else
    if is_http http_code [Http_BadRequest] then BadRequest
    else if is_http http_code [Http_Unauthorized; Http_Forbidden] then AccessDenied
    else if is_http http_code [Http_NotFound] then NotFound
    else if is_http http_code [Http_PreconditionFailed] then PreconditionFailed
    else if is_http http_code [Http_TooManyRequests; Http_BandwidthLimitExceeded] then SlowDown
    else if is_http http_code [Http_InternalServerError] then InternalFailure
    else if is_http http_code [Http_ServiceUnavailable] then ServiceUnavailable
    else if is_http http_code
      [Http_RequestTimeout; Http_AuthenticationTimeout; Http_LoginTimeout;
       Http_GatewayTimeout; Http_NetworkReadTimeout; Http_NetworkConnectTimeout]
    then RequestTimeout
    else Unknown.

(** ** Errors and responses *)

Record ApiError := MkApiError {
  error_code_ : ErrorCode; http_status_code_ : Z; message_ : text; is_retryable_ : bool }.

Definition default_ApiError : ApiError :=
  MkApiError Unknown (network_value UnknownError) [] false.

(** [ApiError(error_code, message, is_retryable)] *)
Definition ApiError_of_code (error_code : ErrorCode) (message : text) (is_retryable : bool)
    : ApiError :=
  MkApiError error_code
    (if decide (error_code = Cancelled) then network_value NetCancelled
     else network_value UnknownError)
    message is_retryable.

(** [ApiError(http_status_code, message)] *)
Definition ApiError_of_http (http_status_code : Z) (message : text) : ApiError :=
  MkApiError (GetErrorForHttpStatusCode http_status_code) http_status_code message
    (IsRetryableHttpStatusCode http_status_code).

Record ApiResponse (Result Error : Type) := MkApiResponse {
  result_ : Result; error_ : Error; success_ : bool }.
Arguments MkApiResponse {Result Error} _ _ _.
Arguments result_ {Result Error} _.
Arguments error_ {Result Error} _.
Arguments success_ {Result Error} _.

(** The two value constructors; the other member is default constructed. *)
Definition ApiResponse_ok {Result Error} (error0 : Error) (result : Result) : ApiResponse Result Error :=
  MkApiResponse result error0 true.
Definition ApiResponse_error {Result Error} (result0 : Result) (error : Error) : ApiResponse Result Error :=
  MkApiResponse result0 error false.

(** ** Case-insensitive text *)

Definition SimpleToUpper (c : ascii) : ascii :=
  let n := char_code c in
  if (97 <=? n) && (n <=? 122) then char_of (n - 97 + 65) else c.

(** [s[i]]: the terminating NUL at [length], outside the string beyond it. *)
Definition char_at (s : text) (i : Z) : option ascii :=
  if i =? Z.of_nat (length s) then Some (char_of 0) else s !! Z.to_nat i.

(** The loop comparing [str2] with the characters of [str1] from [offset]. *)
Fixpoint equal_from (str1 str2 : text) (offset : Z) (i n : nat) : option bool :=
  match n with
  | O => Some true
  | S n' =>
    c1 ← char_at str1 (u64 (Z.of_nat i + offset));
    c2 ← char_at str2 (Z.of_nat i);
    if decide (SimpleToUpper c1 = SimpleToUpper c2)
    then equal_from str1 str2 offset (S i) n' else Some false
  end.

Definition CaseInsensitiveCompare (str1 str2 : text) (offset : Z) : option bool :=
  if u64 (Z.of_nat (length str1) - offset) =? Z.of_nat (length str2)
  then equal_from str1 str2 offset 0 (length str2) else Some false.

Definition CaseInsensitiveStartsWith (str1 str2 : text) (offset : Z) : option bool :=
  if u64 (Z.of_nat (length str1) - offset) <? Z.of_nat (length str2)
  then Some false else equal_from str1 str2 offset 0 (length str2).

Definition npos : Z := size_max.

Fixpoint find_loop (fuel : nat) (str1 str2 : text) (offset : Z) : option Z :=
  if offset <? u64 (Z.of_nat (length str1) - Z.of_nat (length str2)) then
    match fuel with
    | O => None
    | S n =>
      c1 ← char_at str1 offset;
      c2 ← char_at str2 0;
      found ← (if decide (SimpleToUpper c1 = SimpleToUpper c2)
               then CaseInsensitiveStartsWith str1 str2 offset else Some false);
      if (found : bool) then Some offset else find_loop n str1 str2 (u64 (offset + 1))
    end
  else Some npos.

(** Past the terminating NUL the access to [str1] is undefined, so
    [length str1 + 2] iterations are enough. *)
Definition CaseInsensitiveFind (str1 str2 : text) (offset : Z) : option Z :=
  find_loop (length str1 + 2) str1 str2 offset.

(** ** Properties *)

Definition transient_errors : list ErrorCode :=
  [InternalFailure; ServiceUnavailable; SlowDown; RequestTimeout].

(** Case analysis on the labels of the switches. *)
Ltac switch_cases code :=
  unfold GetErrorForHttpStatusCode, IsRetryableHttpStatusCode, is_http, is_network;
  cbn [existsb http_value network_value];
  repeat match goal with
  | |- context [code =? ?k] => destruct (Z.eqb_spec code k); [subst; reflexivity|]
  end; try reflexivity.

Lemma retryable_transient code :
  0 <= code ->
  IsRetryableHttpStatusCode code = bool_decide (GetErrorForHttpStatusCode code ∈ transient_errors).
Proof.
  intros Hc. assert ((code <? 0) = false) as Hn by lia.
  unfold GetErrorForHttpStatusCode, IsRetryableHttpStatusCode. rewrite Hn. clear Hc Hn.
  switch_cases code.
Qed.

Lemma cancelled_code code :
  bool_decide (GetErrorForHttpStatusCode code = Cancelled) = (code =? -5).
Proof.
  unfold GetErrorForHttpStatusCode. destruct (Z.ltb_spec code 0) as [Hc|Hc].
  - switch_cases code.
  - replace (code =? -5) with false by lia. clear Hc. switch_cases code.
Qed.

(** A status is retryable exactly when it is an HTTP status (not a network
    error) whose error code is an internal failure, an unavailable service, a
    slow-down or a timeout; cancellation is kept through the network code, and
    the two constructors of [ApiError] agree on it. *)
Theorem retryable_iff_transient_error code message :
  (is_retryable_ (ApiError_of_http code message) = true <->
   0 <= code /\ (error_code_ (ApiError_of_http code message) ∈ transient_errors)) /\
  (error_code_ (ApiError_of_http code message) = Cancelled <->
   code = http_status_code_ (ApiError_of_code Cancelled message false)).
Proof.
  unfold ApiError_of_http, ApiError_of_code; cbn [is_retryable_ error_code_ http_status_code_].
  rewrite decide_True by done. split.
  - destruct (Z.lt_ge_cases code 0).
    + unfold IsRetryableHttpStatusCode. replace (code <? 0) with true by lia.
      split; [done|lia].
    + rewrite retryable_transient by done. rewrite bool_decide_eq_true. tauto.
  - pose proof (cancelled_code code) as E. cbn [network_value].
    destruct (Z.eqb_spec code (-5)); [apply bool_decide_eq_true in E | apply bool_decide_eq_false in E];
      tauto.
Qed.

(** ** Case-insensitive search *)

Definition upper (s : text) : text := SimpleToUpper <$> s.

(** [str2] occurs in [str1] at [i], up to case. *)
Definition occurs_at (str1 str2 : text) (i : nat) : bool :=
  bool_decide (upper (take (length str2) (drop i str1)) = upper str2).

Lemma char_at_lookup s (i : nat) : (i < length s)%nat -> char_at s (Z.of_nat i) = s !! i.
Proof. intros. unfold char_at. replace (_ =? _) with false by lia. by rewrite Nat2Z.id. Qed.

Lemma equal_from_eq str1 str2 o i n :
  (o + i + n <= length str1)%nat -> (i + n = length str2)%nat ->
  Z.of_nat (length str1) < 2 ^ 64 ->
  equal_from str1 str2 (Z.of_nat o) i n =
  Some (bool_decide (upper (take n (drop (o + i) str1)) = upper (drop i str2))).
Proof.
  revert i. induction n as [|n IH]; intros i H1 H2 H64; cbn [equal_from].
  - rewrite take_0, (drop_ge str2) by lia. by rewrite bool_decide_true.
  - rewrite wrap_small by (unfold in_range; lia). rewrite <- Nat2Z.inj_add.
    rewrite !char_at_lookup by lia.
    destruct (lookup_lt_is_Some_2 str1 (i + o)) as [c1 E1]; [lia|].
    destruct (lookup_lt_is_Some_2 str2 i) as [c2 E2]; [lia|].
    rewrite E1, E2. cbn [mbind option_bind]. rewrite IH by lia.
    rewrite (drop_S str2 c2 i) by done. replace (o + i)%nat with (i + o)%nat by lia.
    rewrite (drop_S str1 c1 (i + o)) by done. replace (o + S i)%nat with (S (i + o)) by lia.
    unfold upper; cbn [take fmap list_fmap]. fold (upper (drop (S i) str2)).
    case_decide as Hc; f_equal.
    + apply bool_decide_ext. rewrite Hc. split; [by intros ->|by intros [= ->]].
    + symmetry. apply bool_decide_eq_false. intros [= ? _]. done.
Qed.

Lemma starts_with_eq str1 str2 o :
  (o + length str2 <= length str1)%nat -> Z.of_nat (length str1) < 2 ^ 64 ->
  CaseInsensitiveStartsWith str1 str2 (Z.of_nat o) = Some (occurs_at str1 str2 o).
Proof.
  intros Ho H64. unfold CaseInsensitiveStartsWith.
  rewrite wrap_small by (unfold in_range; lia). replace (_ <? _) with false by lia.
  rewrite equal_from_eq by lia. unfold occurs_at. by rewrite Nat.add_0_r, drop_0.
Qed.

Lemma starts_with_short str1 str2 (o : nat) :
  (o <= length str1)%nat -> (length str1 < o + length str2)%nat -> Z.of_nat (length str1) < 2 ^ 64 ->
  CaseInsensitiveStartsWith str1 str2 (Z.of_nat o) = Some false.
Proof.
  intros. unfold CaseInsensitiveStartsWith. rewrite wrap_small by (unfold in_range; lia).
  by replace (_ <? _) with true by lia.
Qed.

(** With a non-empty [str2], the first test of the loop is part of the match. *)
Lemma occurs_first str1 str2 c1 c2 (o : nat) :
  str1 !! o = Some c1 -> str2 !! 0%nat = Some c2 -> SimpleToUpper c1 <> SimpleToUpper c2 ->
  occurs_at str1 str2 o = false.
Proof.
  intros E1 E2 Hne. apply bool_decide_eq_false. destruct str2 as [|c str2]; [done|].
  injection E2 as ->. rewrite (drop_S str1 c1 o) by done. intros [= ? _]. done.
Qed.

Lemma find_loop_eq str1 str2 fuel (o : nat) :
  str2 <> [] -> (length str2 <= length str1)%nat -> Z.of_nat (length str1) < 2 ^ 64 ->
  (length str1 < o + fuel)%nat ->
  exists r, find_loop fuel str1 str2 (Z.of_nat o) = Some r /\
    ((r = npos /\ forall i, (o <= i < length str1 - length str2)%nat -> occurs_at str1 str2 i = false) \/
     (exists j, r = Z.of_nat j /\ (o <= j < length str1 - length str2)%nat /\
        occurs_at str1 str2 j = true /\
        forall i, (o <= i < j)%nat -> occurs_at str1 str2 i = false)).
Proof.
  intros Hne Hlen H64. revert o. induction fuel as [|n IH]; intros o Hf; cbn [find_loop];
    rewrite wrap_small by (unfold in_range; lia);
    destruct (Z.ltb_spec (Z.of_nat o) (Z.of_nat (length str1) - Z.of_nat (length str2)));
    try lia; try (eexists; split; [done|]; left; split; [done|]; intros; lia).
  rewrite char_at_lookup by lia.
  destruct (lookup_lt_is_Some_2 str1 o) as [c1 E1]; [lia|].
  destruct (lookup_lt_is_Some_2 str2 0) as [c2 E2]; [destruct str2; simpl in *; [done|lia]|].
  change 0 with (Z.of_nat 0). rewrite char_at_lookup by (destruct str2; simpl in *; [done|lia]).
  rewrite E1, E2. cbn [mbind option_bind].
  match goal with |- context [found ← ?e; _] => assert (e = Some (occurs_at str1 str2 o)) as -> end.
  { case_decide as Hc; [by apply starts_with_eq; lia|]. by erewrite occurs_first. }
  cbn [mbind option_bind]. destruct (occurs_at str1 str2 o) eqn:Eo.
  - eexists. split; [done|]. right. exists o. split_and!; [done | lia | lia | done |]. intros; lia.
  - rewrite wrap_small by (unfold in_range; lia). replace (Z.of_nat o + 1) with (Z.of_nat (S o)) by lia.
    destruct (IH (S o)) as (r & -> & Hr); [lia|]. exists r. split; [done|].
    destruct Hr as [[-> Hr] | (j & -> & Hj & Ho & Hr)]; [left|right].
    + split; [done|]. intros i Hi. destruct (decide (i = o)) as [->|]; [done|]. apply Hr. lia.
    + exists j. split_and!; [done | lia | lia | done |]. intros i Hi.
      destruct (decide (i = o)) as [->|]; [done|]. apply Hr. lia.
Qed.

(** When [str2] is longer than [str1] the bound of the loop wraps around and the
    loop reads beyond the end of [str1]. *)
Lemma find_loop_past str1 str2 fuel (o : nat) :
  (length str1 < length str2)%nat -> Z.of_nat (length str2) < 2 ^ 63 ->
  (o <= length str1 + 1)%nat -> find_loop fuel str1 str2 (Z.of_nat o) = None.
Proof.
  intros Hlen H64. revert o. induction fuel as [|n IH]; intros o Ho; cbn [find_loop];
    (assert (u64 (Z.of_nat (length str1) - Z.of_nat (length str2)) =
             2 ^ 64 + Z.of_nat (length str1) - Z.of_nat (length str2)) as ->
       by (symmetry; apply (Z.mod_unique _ _ (-1)); lia));
    replace (Z.of_nat o <? _) with true by lia; [done|].
  destruct (decide (o = length str1 + 1)%nat) as [->|].
  { assert (char_at str1 (Z.of_nat (length str1 + 1)) = None) as ->; [|done].
    unfold char_at. destruct (Z.eqb_spec (Z.of_nat (length str1 + 1)) (Z.of_nat (length str1))); [lia|].
    rewrite Nat2Z.id. apply lookup_ge_None_2. lia. }
  assert (exists c1, char_at str1 (Z.of_nat o) = Some c1) as [c1 ->].
  { unfold char_at. destruct (_ =? _) eqn:E; [by eexists|]. rewrite Nat2Z.id.
    apply lookup_lt_is_Some_2. lia. }
  assert (exists c2, char_at str2 0 = Some c2) as [c2 ->].
  { unfold char_at. destruct (_ =? _) eqn:E; [by eexists|]. apply lookup_lt_is_Some_2. simpl. lia. }
  cbn [mbind option_bind].
  match goal with |- context [found ← ?e; _] => assert (e = Some false) as -> end.
  { case_decide; [|done]. apply starts_with_short; lia. }
  cbn [mbind option_bind]. rewrite wrap_small by (unfold in_range; lia).
  replace (Z.of_nat o + 1) with (Z.of_nat (S o)) by lia. apply IH. lia.
Qed.

(** For a non-empty pattern no longer than the text, [CaseInsensitiveFind]
    terminates and returns the first position from the offset at which the
    pattern occurs up to case, or [npos] -- but it never looks at the last
    position, where the pattern is a suffix of the text; for a pattern longer
    than the text it reads outside the text. *)
Theorem case_insensitive_find str1 str2 (o : nat) :
  str2 <> [] -> Z.of_nat (length str1) < 2 ^ 63 -> Z.of_nat (length str2) < 2 ^ 63 ->
  (o <= length str1)%nat ->
  ((length str2 <= length str1)%nat ->
   exists r, CaseInsensitiveFind str1 str2 (Z.of_nat o) = Some r /\
    ((r = npos /\ forall i, (o <= i < length str1 - length str2)%nat -> occurs_at str1 str2 i = false) \/
     (exists j, r = Z.of_nat j /\ (o <= j < length str1 - length str2)%nat /\
        occurs_at str1 str2 j = true /\
        forall i, (o <= i < j)%nat -> occurs_at str1 str2 i = false))) /\
  ((length str1 < length str2)%nat -> CaseInsensitiveFind str1 str2 (Z.of_nat o) = None).
Proof.
  intros Hne H1 H2 Ho. unfold CaseInsensitiveFind. split; intros Hlen.
  - apply find_loop_eq; [done..| |]; lia.
  - apply find_loop_past; lia.
Qed.

Lemma case_insensitive_find_witness :
  let str1 := str "Content-Length" in let str2 := str "LENGTH" in
  ((length str2 <= length str1)%nat ->
   exists r, CaseInsensitiveFind str1 str2 (Z.of_nat 0) = Some r /\
    ((r = npos /\ forall i, (0 <= i < length str1 - length str2)%nat -> occurs_at str1 str2 i = false) \/
     (exists j, r = Z.of_nat j /\ (0 <= j < length str1 - length str2)%nat /\
        occurs_at str1 str2 j = true /\
        forall i, (0 <= i < j)%nat -> occurs_at str1 str2 i = false))) /\
  ((length str1 < length str2)%nat -> CaseInsensitiveFind str1 str2 (Z.of_nat 0) = None).
Proof. intros. apply (case_insensitive_find str1 str2 0); vm_compute; by (done || lia). Defined.
