(* ===== verification/DiskCache.v ===== *)
(** * The disk cache

    [olp-cpp-sdk-core/src/cache/DiskCache.cpp] and [DiskCacheSizeLimit]: a
    LevelDB database behind status checks, a size limit and a repair path.  The
    file system and LevelDB are third-party code: the interfaces [Platform]
    (their operations) and [DatabaseLaws] (what LevelDB documents). *)

From Stdlib Require Import ZArith Lia Bool Ascii.
From stdpp Require Import base gmap numbers strings sorting list.
From S2P Require Import Prelude Decimal Http.
Local Open Scope Z_scope.
Local Open Scope olp_scope.

(** [leveldb::Status] *)
Inductive Status :=
| StatusOK | StatusNotFound | StatusCorruption | StatusNotSupported
| StatusInvalidArgument | StatusIOError.

#[global] Instance Status_eq_dec : EqDecision Status.
Proof. solve_decision. Defined.

(** The order of LevelDB's default comparator: bytewise, a prefix first. *)
Fixpoint text_leb (a b : text) : bool :=
  match a, b with
  | [], _ => true
  | _ :: _, [] => false
  | x :: a', y :: b' =>
    if char_code x =? char_code y then text_leb a' b' else char_code x <? char_code y
  end.
Definition text_le (a b : text) : Prop := text_leb a b = true.

(** [leveldb::Options], as far as the code sets it. *)
Record Options := MkOptions {
  write_buffer_size : Z; option_max_file_size : option Z; create_if_missing : bool;
  with_environment : bool }.

Definition default_options : Options := MkOptions (4 * 1024 * 1024) None false false.

(** The operating system and LevelDB, acting on a world [W].  A database is
    named by its path; only an open one is read or written. *)
Class Platform (W : Type) := {
  dir_exists : text -> W -> bool;
  dir_create : text -> W -> W * bool;
  dir_remove : text -> W -> W * bool;
  env_create_dir : text -> W -> W;
  env_delete_dir : text -> W -> W;
  env_get_children : text -> W -> option (list text);
  db_open : Options -> text -> W -> W * Status;
  db_close : text -> W -> W;
  db_repair : text -> W -> W * Status;
  db_destroy : text -> W -> W * Status;
  db_put : text -> text -> text -> W -> W * Status;
  db_get : text -> text -> W -> Status * text;
  db_delete : text -> text -> W -> W * Status;
  db_write_deletes : text -> list text -> W -> W * Status;
  db_keys : text -> W -> list text;        (* what an iterator visits *)
  env_size : text -> W -> Z;               (* the size counted for that path *)
  status_text : Status -> text }.

(** What LevelDB documents of reads after writes and of iteration. *)
Class DatabaseLaws (W : Type) `{Platform W} := {
  put_get path k v w w' :
    db_put path k v w = (w', StatusOK) -> db_get path k w' = (StatusOK, v);
  put_other path k v w w' s k' :
    db_put path k v w = (w', s) -> k' <> k -> db_get path k' w' = db_get path k' w;
  delete_get path k w w' :
    db_delete path k w = (w', StatusOK) -> (db_get path k w').1 <> StatusOK;
  delete_other path k w w' s k' :
    db_delete path k w = (w', s) -> k' <> k -> db_get path k' w' = db_get path k' w;
  write_get path ks k w w' :
    db_write_deletes path ks w = (w', StatusOK) -> k ∈ ks -> (db_get path k w').1 <> StatusOK;
  write_other path ks k w w' s :
    db_write_deletes path ks w = (w', s) -> k ∉ ks -> db_get path k w' = db_get path k w;
  keys_sorted path w : StronglySorted text_le (db_keys path w);
  keys_complete path k w : k ∈ db_keys path w <-> (db_get path k w).1 = StatusOK }.

Section disk_cache.
Context {W : Type} `{Platform W}.
Implicit Types (w : W) (k v path : text).

Inductive OpenResult := OpenFail | OpenRepaired | OpenSuccess.

Record StorageSettings := MkStorageSettings {
  max_disk_storage : Z; max_chunk_size : Z; enforce_immediate_flush : bool; max_file_size : Z }.
Definition default_StorageSettings : StorageSettings :=
  MkStorageSettings 0 (1024 * 1024 * 32) true (2 * 1024 * 1024).

(** [OpenOptions] *)
Definition Default : Z := 0.
Definition ReadOnly : Z := 1.
Definition CheckCrc : Z := 2.

(** [database_] and [environment_] are owning pointers: whether they are set. *)
Record DiskCache := MkDiskCache {
  disk_cache_path_ : text;
  database_ : option text;
  environment_ : bool;
  max_size_ : Z;
  check_crc_ : bool;
  disk_error_ : ApiError }.

Definition NewDiskCache : DiskCache :=
  MkDiskCache [] None false size_max false default_ApiError.

(** [tokenizePath]: the pieces between runs of the delimiter, empty ones left out. *)
Fixpoint split_on (c : ascii) (s piece : text) : list text :=
  match s with
  | [] => [piece]
  | x :: s' => if decide (x = c) then piece :: split_on c s' [] else split_on c s' (piece ++ [x])
  end.
Definition tokenizePath (dirName : text) (delimiter : ascii) : list text :=
  filter (fun p => p <> []) (split_on delimiter dirName []).

Definition slash : ascii := char_of 47.
Definition backslash : ascii := char_of 92.

Definition createDir (dirName : text) w : W :=
  let dirNames := tokenizePath dirName slash in
  let dirNames := if (length dirNames <=? 1)%nat then tokenizePath dirName backslash else dirNames in
  (foldl (fun '(path, w) d => let path := path ++ d ++ [slash] in (path, env_create_dir path w))
     ([slash], w) dirNames).2.

Definition repairCache (versionedDataPath : text) w : W * bool :=
  let '(w1, status) := db_repair versionedDataPath w in
  if decide (status = StatusOK)
  then (env_delete_dir (versionedDataPath ++ str "/lost") w1, true)
  else
    (* repair failed, delete the entire cache *)
    let '(w2, status2) := db_destroy versionedDataPath w1 in
    if decide (status2 = StatusOK) then (w2, true) else (w2, false).

Definition removeOtherDB (dataPath versionedDataPathToKeep : text) w : W :=
  match env_get_children dataPath w with
  | None => w
  | Some pathContents =>
    foldl (fun w item =>
      if decide (item = str "..") then w
      else
        let fullPath := dataPath ++ [slash] ++ item in
        if decide (fullPath = versionedDataPathToKeep) then w else (db_destroy fullPath w).1)
      w pathContents
  end.

(** [setOpenError]: the later tests overwrite the earlier ones. *)
Definition open_error_code (status : Status) : ErrorCode :=
  let code := Unknown in
  let code := if decide (status = StatusNotFound) then NotFound else code in
  let code := if decide (status = StatusInvalidArgument) then InvalidArgument else code in
  let code := if decide (status = StatusCorruption) then InternalFailure
              else if decide (status = StatusIOError) then InternalFailure else code in
  if decide (status = StatusNotSupported) then BadRequest else code.

Definition setOpenError (status : Status) (c : DiskCache) : DiskCache :=
  MkDiskCache (disk_cache_path_ c) (database_ c) (environment_ c) (max_size_ c) (check_crc_ c)
    (ApiError_of_code (open_error_code status) (status_text status) false).

(** [database_.reset(db)] *)
Definition with_database (db : option text) (c : DiskCache) : DiskCache :=
  MkDiskCache (disk_cache_path_ c) db (environment_ c) (max_size_ c) (check_crc_ c) (disk_error_ c).

Definition close_database (c : DiskCache) w : W :=
  match database_ c with Some path => db_close path w | None => w end.

Definition Close (c : DiskCache) w : DiskCache * W :=
  (with_database None c, close_database c w).

Definition Clear (c : DiskCache) w : DiskCache * W * bool :=
  let '(c1, w1) := Close c w in
  if decide (disk_cache_path_ c1 = []) then (c1, w1, true)
  else let '(w2, ok) := dir_remove (disk_cache_path_ c1) w1 in (c1, w2, ok).

Definition Open (dataPath versionedDataPath : text) (settings : StorageSettings)
    (openOptions : Z) (c : DiskCache) w : DiskCache * W * OpenResult :=
  let c0 := MkDiskCache dataPath (database_ c) (environment_ c) (max_size_ c) (check_crc_ c)
              (disk_error_ c) in
  let '(w1, created) := if dir_exists dataPath w then (w, true) else dir_create dataPath w in
  if negb created then (c0, w1, OpenFail)
  else
    let isReadOnly := Z.land openOptions ReadOnly =? ReadOnly in
    let max_size := max_disk_storage settings in
    let limited := negb (max_size =? size_max) in
    let options := MkOptions (max_chunk_size settings)
      (if max_file_size settings =? 0 then None else Some (max_file_size settings))
      (negb isReadOnly) (negb isReadOnly && limited) in
    let w2 :=
      if isReadOnly then w1
      else
        let w' := createDir dataPath w1 in
        if decide (dataPath = versionedDataPath) then w'
        else removeOtherDB dataPath versionedDataPath w' in
    let environment := if isReadOnly then environment_ c else limited || environment_ c in
    let c1 := MkDiskCache dataPath (database_ c) environment max_size
                (flag openOptions CheckCrc) (disk_error_ c) in
    (* first attempt in opening the db *)
    let '(w3, status) := db_open options versionedDataPath w2 in
    (* if the database is r/w and corrupted, attempt to repair & reopen *)
    let '(w4, status1, repaired) :=
      if (bool_decide (status = StatusCorruption) || bool_decide (status = StatusIOError))
         && negb isReadOnly
      then
        let '(wr, ok) := repairCache versionedDataPath w3 in
        if ok : bool then
          let '(wo, status') := db_open options versionedDataPath wr in
          (wo, status', bool_decide (status' = StatusOK))
        else (wr, status, false)
      else (w3, status, false) in
    if repaired : bool then
      (with_database (Some versionedDataPath) c1, close_database c1 w4, OpenRepaired)
    else if decide (status1 = StatusOK) then
      (with_database (Some versionedDataPath) c1, close_database c1 w4, OpenSuccess)
    else (setOpenError status1 c1, w4, OpenFail).

Definition Put k v (c : DiskCache) w : W * bool :=
  match database_ c with
  | None => (w, false)
  | Some path =>
    if environment_ c && negb (max_size_ c =? size_max) && (env_size path w >=? max_size_ c)
    then (w, false)
    else
      let '(w', status) := db_put path k v w in
      (w', bool_decide (status = StatusOK))
  end.

Definition Get k (c : DiskCache) w : option text :=
  match database_ c with
  | None => None
  | Some path =>
    let '(status, res) := db_get path k w in
    if decide (status = StatusOK) then Some res else None
  end.

Definition Remove k (c : DiskCache) w : W * bool :=
  match database_ c with
  | None => (w, false)
  | Some path =>
    let '(w', status) := db_delete path k w in
    (w', bool_decide (status = StatusOK))
  end.

(** [Slice::starts_with] *)
Definition starts_with (k prefix : text) : bool := bool_decide (take (length prefix) k = prefix).

(** [Seek(prefix)]: the keys from the first one not before the target. *)
Fixpoint seek (target : text) (keys : list text) : list text :=
  match keys with
  | [] => []
  | k :: rest => if text_leb target k then keys else seek target rest
  end.

(** The keys the loop puts in the batch. *)
Fixpoint batch_keys (prefix : text) (keys : list text) : list text :=
  match keys with
  | [] => []
  | k :: rest => if starts_with k prefix then k :: batch_keys prefix rest else []
  end.

(** The [return false] of a failed write stands inside the argument of the log
    macro, whose expansion executes it before the message is logged. *)
Definition RemoveKeysWithPrefix (keyPrefix : text) (c : DiskCache) w : W * bool :=
  match database_ c with
  | None => (w, false)
  | Some path =>
    let batch :=
      if decide (keyPrefix = []) then db_keys path w
      else batch_keys keyPrefix (seek keyPrefix (db_keys path w)) in
    let '(w', status) := db_write_deletes path batch w in
    (w', bool_decide (status = StatusOK))
  end.
End disk_cache.
