(* ===== verification/DefaultCache.v ===== *)
(** * The default cache

    [olp-cpp-sdk-core/src/cache/DefaultCache.cpp]: an in-memory cache in front
    of a disk cache, either of which may be absent.  The state is the cache
    object and the platform's world; [None] is an exception ([std::stol] on
    text that is no number, [boost::any_cast] to the wrong type) or an overflow
    of [time_t].  [now] is the value of the default time provider. *)

From Stdlib Require Import ZArith Lia Bool Ascii.
From stdpp Require Import base gmap numbers strings sorting list.
From S2P Require Import Prelude Decimal Http.
From S2P Require LruCache InMemoryCache DiskCache.
Import DiskCache(Platform, DatabaseLaws).
Local Open Scope Z_scope.
Local Open Scope olp_scope.

Section default_cache.
Context {W : Type} `{Platform W}.
(** The values other than byte vectors that a [boost::any] holds. *)
Context {Other : Type}.

(** [boost::any]: empty, a shared pointer to a byte vector, or another type. *)
Inductive any := AnyEmpty | AnyBytes (data : text) | AnyOther (x : Other).

Definition any_is_empty (v : any) : bool := match v with AnyEmpty => true | _ => false end.

Record CacheSettings := MkCacheSettings {
  disk_path : option text;
  max_disk_storage : Z;
  max_chunk_size : Z;
  enforce_immediate_flush : bool;
  max_file_size : Z;
  max_memory_cache_size : Z;
  openOptions : Z }.

Definition default_CacheSettings : CacheSettings :=
  MkCacheSettings None (1024 * 1024 * 32) (1024 * 1024 * 32) true (1024 * 1024 * 2) (1024 * 1024)
    DiskCache.Default.

Inductive StorageOpenResult := Success | OpenDiskPathFailure.

#[global] Instance StorageOpenResult_eq_dec : EqDecision StorageOpenResult.
Proof. solve_decision. Defined.

Abbreviation Memory := (InMemoryCache.InMemoryCache (any := any)).

Record DefaultCache := MkDefaultCache {
  settings_ : CacheSettings;
  is_open_ : bool;
  memory_cache_ : option Memory;
  disk_cache_ : option DiskCache.DiskCache }.

Implicit Types (w : W) (c : DefaultCache) (key : text) (now : Z).

Definition NewDefaultCache (settings : CacheSettings) : DefaultCache :=
  MkDefaultCache settings false None None.

(** ** Expiry records on disk *)

Definition CreateExpiryKey key : text := key ++ str "::expiry".

(** A value of [time_t], or an overflow. *)
Definition time_value (z : Z) : option Z :=
  if (- 2 ^ 63 <=? z) && (z <=? time_max) then Some z else None.

Definition GetRemainingExpiryTime key now (d : DiskCache.DiskCache) w : option Z :=
  match DiskCache.Get (CreateExpiryKey key) d w with
  | Some expiry_value => expiry ← stol expiry_value; time_value (expiry - now)
  | None => Some time_max
  end.

Definition PurgeDiskItem key (d : DiskCache.DiskCache) w : W :=
  let w1 := (DiskCache.Remove key d w).1 in
  (DiskCache.Remove (CreateExpiryKey key) d w1).1.

Definition StoreExpiry key (expiry now : Z) (d : DiskCache.DiskCache) w : option (W * bool) :=
  t ← time_value (expiry + now);
  Some (DiskCache.Put (CreateExpiryKey key) (print_s64 t) d w).

(** ** Opening and closing *)

(** The destructor of the disk cache closes its database. *)
Definition reset_disk (d : option DiskCache.DiskCache) w : W :=
  match d with Some d => DiskCache.close_database d w | None => w end.

Definition SetupStorage c w : DefaultCache * W * StorageOpenResult :=
  let w1 := reset_disk (disk_cache_ c) w in
  let memory :=
    if max_memory_cache_size (settings_ c) >? 0
    then Some (InMemoryCache.NewInMemoryCache (max_memory_cache_size (settings_ c))
                 InMemoryCache.PresetModelSizeCacheCost)
    else None in
  match disk_path (settings_ c) with
  | None => (MkDefaultCache (settings_ c) (is_open_ c) memory None, w1, Success)
  | Some path =>
    let storage_settings := DiskCache.MkStorageSettings (max_disk_storage (settings_ c))
      (max_chunk_size (settings_ c)) (enforce_immediate_flush (settings_ c))
      (max_file_size (settings_ c)) in
    let '(d, w2, status) :=
      DiskCache.Open path path storage_settings DiskCache.Default DiskCache.NewDiskCache w1 in
    match status with
    | DiskCache.OpenFail =>
      let settings := MkCacheSettings None (max_disk_storage (settings_ c))
        (max_chunk_size (settings_ c)) (enforce_immediate_flush (settings_ c))
        (max_file_size (settings_ c)) (max_memory_cache_size (settings_ c))
        (openOptions (settings_ c)) in
      (MkDefaultCache settings (is_open_ c) memory None, reset_disk (Some d) w2, OpenDiskPathFailure)
    | _ => (MkDefaultCache (settings_ c) (is_open_ c) memory (Some d), w2, Success)
    end
  end.

Definition Open c w : DefaultCache * W * StorageOpenResult :=
  SetupStorage (MkDefaultCache (settings_ c) true (memory_cache_ c) (disk_cache_ c)) w.

Definition Close c w : DefaultCache * W :=
  if negb (is_open_ c) then (c, w)
  else (MkDefaultCache (settings_ c) false None None, reset_disk (disk_cache_ c) w).

Definition Clear c w : DefaultCache * W * bool :=
  if negb (is_open_ c) then (c, w, false)
  else
    let memory := InMemoryCache.ClearCache <$> memory_cache_ c in
    let '(disk, w1, ok) :=
      match disk_cache_ c with
      | Some d => let '(d', w', ok) := DiskCache.Clear d w in (Some d', w', ok)
      | None => (None, w, true)
      end in
    let c1 := MkDefaultCache (settings_ c) (is_open_ c) memory disk in
    if negb ok then (c1, w1, false)
    else
      let '(c2, w2, result) := SetupStorage c1 w1 in
      (c2, w2, bool_decide (result = Success)).

(** ** Items *)

Definition with_memory (m : option Memory) c : DefaultCache :=
  MkDefaultCache (settings_ c) (is_open_ c) m (disk_cache_ c).

(** [memory_cache_->Put(...)] when there is a memory cache. *)
Definition memory_put key (value : any) (expiry size now : Z) c : option (DefaultCache * bool) :=
  match memory_cache_ c with
  | None => Some (c, true)
  | Some m =>
    '(m', ok) ← InMemoryCache.Put key value expiry size now m;
    Some (with_memory (Some m') c, ok)
  end.

(** The disk part of both [Put]s. *)
Definition disk_put key (encoded : text) (expiry now : Z) c w : option (W * bool) :=
  match disk_cache_ c with
  | None => Some (w, true)
  | Some d =>
    '(w1, ok) ← (if expiry <? time_max then StoreExpiry key expiry now d w else Some (w, true));
    if negb ok then Some (w1, false) else Some (DiskCache.Put key encoded d w1)
  end.

Definition put_item key (value : any) (encoded : text) (expiry now : Z) c w
    : option (DefaultCache * W * bool) :=
  if negb (is_open_ c) then Some (c, w, false)
  else
    '(c1, ok) ← memory_put key value expiry (Z.of_nat (length encoded)) now c;
    if negb ok then Some (c1, w, false)
    else '(w1, ok1) ← disk_put key encoded expiry now c1 w; Some (c1, w1, ok1).

(** [Put(key, any, encoder, expiry)]; [encoder] gives the encoded item. *)
Definition Put key (value : any) (encoder : unit -> text) (expiry now : Z) c w :=
  put_item key value (encoder tt) expiry now c w.

(** [Put(key, shared_ptr<vector>, expiry)]. *)
Definition PutBytes key (value : text) (expiry now : Z) c w :=
  put_item key (AnyBytes value) value expiry now c w.

Definition memory_get key now c : option (DefaultCache * any) :=
  match memory_cache_ c with
  | None => Some (c, AnyEmpty)
  | Some m =>
    '(m', value) ← InMemoryCache.Get AnyEmpty key now m;
    Some (with_memory (Some m') c, value)
  end.

(** The disk part of both [Get]s; [decode] makes the value handed out. *)
Definition disk_get key (decode : text -> any) now c w : option (DefaultCache * W * any) :=
  match disk_cache_ c with
  | None => Some (c, w, AnyEmpty)
  | Some d =>
    expiry ← GetRemainingExpiryTime key now d w;
    if expiry <=? 0 then Some (c, PurgeDiskItem key d w, AnyEmpty)
    else
      match DiskCache.Get key d w with
      | None => Some (c, w, AnyEmpty)
      | Some value =>
        let decoded_item := decode value in
        '(c1, _) ← memory_put key decoded_item expiry (Z.of_nat (length value)) now c;
        Some (c1, w, decoded_item)
      end
  end.

Definition Get key (decoder : text -> any) now c w : option (DefaultCache * W * any) :=
  if negb (is_open_ c) then Some (c, w, AnyEmpty)
  else
    '(c1, value) ← memory_get key now c;
    if negb (any_is_empty value) then Some (c1, w, value) else disk_get key decoder now c1 w.

(** The byte [Get]: [any_cast] throws for a value of another type. *)
Definition GetBytes key now c w : option (DefaultCache * W * option text) :=
  '(c1, w1, value) ← Get key AnyBytes now c w;
  match value with
  | AnyEmpty => Some (c1, w1, None)
  | AnyBytes data => Some (c1, w1, Some data)
  | AnyOther _ => None
  end.

Definition Remove key c w : option (DefaultCache * W * bool) :=
  if negb (is_open_ c) then Some (c, w, false)
  else
    m ← (match memory_cache_ c with
         | None => Some None
         | Some m => m' ← InMemoryCache.Remove key m; Some (Some m')
         end);
    let c1 := with_memory m c in
    match disk_cache_ c with
    | None => Some (c1, w, true)
    | Some d => let '(w1, ok) := DiskCache.Remove key d w in Some (c1, w1, ok)
    end.

Definition RemoveKeysWithPrefix (keyPrefix : text) c w : option (DefaultCache * W * bool) :=
  if negb (is_open_ c) then Some (c, w, false)
  else
    m ← (match memory_cache_ c with
         | None => Some None
         | Some m => m' ← InMemoryCache.RemoveKeysWithPrefix keyPrefix m; Some (Some m')
         end);
    let c1 := with_memory m c in
    match disk_cache_ c with
    | None => Some (c1, w, true)
    | Some d => let '(w1, ok) := DiskCache.RemoveKeysWithPrefix keyPrefix d w in Some (c1, w1, ok)
    end.
End default_cache.
