(* ===== verification/DiskFacts.v ===== *)
(** * Properties of the disk cache and the default cache *)

From Stdlib Require Import ZArith Lia Bool Ascii.
From stdpp Require Import base gmap numbers strings sorting list.
From S2P Require Import Prelude Decimal Http.
From S2P Require Import LruCache LruFacts LruSpec.
From S2P Require Import InMemoryFacts.
From S2P Require InMemoryCache InMemorySpec DiskCache DefaultCache.
Local Open Scope Z_scope.
Local Open Scope olp_scope.

(** ** Keys in LevelDB's order *)

Section of_the_disk.
Import DiskCache.

Lemma char_code_inj x y : char_code x = char_code y -> x = y.
Proof. intros E. rewrite <- (char_of_code x), <- (char_of_code y). by rewrite E. Qed.

Lemma text_leb_app p s : text_leb p (p ++ s) = true.
Proof. induction p as [|x p IH]; simpl; [done|]. by rewrite Z.eqb_refl. Qed.

Lemma starts_with_app k p : starts_with k p = true <-> exists s, k = p ++ s.
Proof.
  unfold starts_with. rewrite bool_decide_eq_true. split.
  - intros E. exists (drop (length p) k). rewrite <- E at 1. by rewrite take_drop.
  - intros [s ->]. by rewrite take_app_length.
Qed.

(** Keys with a prefix are contiguous: one between the prefix and such a key is
    such a key. *)
Lemma prefix_between p k s :
  text_leb p k = true -> text_leb k (p ++ s) = true -> starts_with k p = true.
Proof.
  rewrite starts_with_app. revert k. induction p as [|x p IH]; intros [|y k]; simpl; try done.
  - by exists [].
  - by exists (y :: k).
  - rewrite (Z.eqb_sym (char_code y)). destruct (Z.eqb_spec (char_code x) (char_code y)) as [E|E].
    + intros H1 H2. destruct (IH _ H1 H2) as [s' ->]. exists s'. by rewrite (char_code_inj _ _ E).
    + intros ?%Z.ltb_lt ?%Z.ltb_lt. lia.
Qed.

Lemma batch_keys_elem p keys k :
  StronglySorted text_le keys -> Forall (text_le p) keys ->
  k ∈ batch_keys p keys <-> k ∈ keys /\ starts_with k p = true.
Proof.
  intros Hs. induction Hs as [|x keys Hs IH Hx]; intros Hp; simpl.
  - split; [by intros ?%not_elem_of_nil|by intros [?%not_elem_of_nil _]].
  - apply Forall_cons in Hp as [Hpx Hp]. destruct (starts_with x p) eqn:Ex.
    + rewrite !elem_of_cons, IH by done. split; [intros [->|[? ?]]; auto|].
      intros [[->|?] ?]; auto.
    + split; [by intros ?%not_elem_of_nil|]. intros [[->|Hin]%elem_of_cons Hk]; [congruence|].
      exfalso. rewrite Forall_forall in Hx. specialize (Hx _ Hin).
      apply starts_with_app in Hk as [s ->].
      rewrite (prefix_between p x s Hpx Hx) in Ex. done.
Qed.

Lemma text_le_trans : Transitive text_le.
Proof.
  intros a. unfold text_le. induction a as [|x a IH]; intros [|y b] [|z c]; simpl; try done.
  destruct (Z.eqb_spec (char_code x) (char_code y)) as [E1|E1];
    destruct (Z.eqb_spec (char_code y) (char_code z)) as [E2|E2].
  - rewrite E1, E2, Z.eqb_refl. apply IH.
  - rewrite E1. by destruct (Z.eqb_spec (char_code y) (char_code z)).
  - rewrite <- E2. by destruct (Z.eqb_spec (char_code x) (char_code y)).
  - rewrite !Z.ltb_lt. intros. destruct (Z.eqb_spec (char_code x) (char_code z)); [lia|].
    apply Z.ltb_lt. lia.
Qed.

Lemma seek_elem p keys k :
  StronglySorted text_le keys -> starts_with k p = true ->
  k ∈ seek p keys <-> k ∈ keys.
Proof.
  intros Hs Hk. induction Hs as [|x keys Hs IH Hx]; simpl; [done|].
  destruct (text_leb p x) eqn:E; [done|]. rewrite IH, elem_of_cons. split; [auto|].
  intros [->|?]; [|done]. apply starts_with_app in Hk as [s ->]. by rewrite text_leb_app in E.
Qed.

Lemma seek_sorted p keys :
  StronglySorted text_le keys ->
  StronglySorted text_le (seek p keys) /\ Forall (text_le p) (seek p keys).
Proof.
  intros Hs. induction Hs as [|x keys Hs IH Hx]; simpl; [by split; constructor|].
  destruct (text_leb p x) eqn:E; [|done]. split; [by constructor|].
  constructor; [done|]. eapply Forall_impl; [apply Hx|]. intros y Hy.
  by apply (text_le_trans _ x).
Qed.

Section disk.
Context {W : Type} `{DatabaseLaws W}.
Implicit Types (w : W) (c : DiskCache).

(** A [RemoveKeysWithPrefix] that LevelDB accepts removes exactly the keys
    with that prefix, although it stops at the first key without it; every
    other key keeps its value, and a refused write changes no key outside the
    prefix. *)
Theorem disk_remove_prefix prefix c w path :
  database_ c = Some path ->
  let '(w', ok) := RemoveKeysWithPrefix prefix c w in
  (ok = true -> forall k, starts_with k prefix = true -> Get k c w' = None) /\
  (forall k, starts_with k prefix = false -> Get k c w' = Get k c w).
Proof.
  intros Hdb. unfold RemoveKeysWithPrefix, Get. rewrite Hdb.
  set (batch := if decide (prefix = []) then _ else _).
  assert (forall k, k ∈ batch <-> k ∈ db_keys path w /\ starts_with k prefix = true) as Hbatch.
  { intros k. unfold batch. pose proof (keys_sorted path w) as Hs. case_decide as E.
    - subst. split; [|by intros [? _]]. intros; split; [done|]. by apply starts_with_app; exists k.
    - destruct (seek_sorted prefix _ Hs) as [Hs1 Hs2]. rewrite batch_keys_elem by done.
      split; intros [Hk Hp]; (split; [|done]); revert Hk; by apply seek_elem. }
  destruct (db_write_deletes path batch w) as [w' s] eqn:E. split.
  - intros ->%bool_decide_eq_true k Hk.
    assert ((db_get path k w').1 <> StatusOK) as Hg.
    { destruct (decide (k ∈ batch)) as [Hin|Hin]; [by eapply write_get|].
      rewrite (write_other _ _ _ _ _ _ E Hin). rewrite Hbatch, keys_complete in Hin. intros ?; by apply Hin. }
    destruct (db_get path k w') as [s' v]. by rewrite decide_False.
  - intros k Hk. rewrite (write_other _ _ _ _ _ _ E); [done|]. rewrite Hbatch. intros [_ ?]. congruence.
Qed.

(** *** Reads after writes *)

Lemma disk_put_get k v c w w' : Put k v c w = (w', true) -> Get k c w' = Some v.
Proof.
  unfold Put, Get. destruct (database_ c) as [path|]; [|done]. destruct (_ && _); [done|].
  destruct (db_put path k v w) as [w1 s] eqn:E. intros [= -> Hs].
  apply bool_decide_eq_true in Hs as ->. by rewrite (put_get _ _ _ _ _ E).
Qed.

Lemma disk_put_other k v c w w' ok k' : Put k v c w = (w', ok) -> k' <> k -> Get k' c w' = Get k' c w.
Proof.
  unfold Put, Get. destruct (database_ c) as [path|]; [|done].
  destruct (_ && _); [by intros [= -> _]|].
  destruct (db_put path k v w) as [w1 s] eqn:E. intros [= -> _] Hk.
  by rewrite (put_other _ _ _ _ _ _ _ E).
Qed.

Lemma disk_remove_get k c w w' : Remove k c w = (w', true) -> Get k c w' = None.
Proof.
  unfold Remove, Get. destruct (database_ c) as [path|]; [|done].
  destruct (db_delete path k w) as [w1 s] eqn:E. intros [= -> Hs].
  apply bool_decide_eq_true in Hs as ->. pose proof (delete_get _ _ _ _ E) as Hg.
  destruct (db_get path k w') as [s' v]. by rewrite decide_False.
Qed.

Lemma disk_remove_other k c w w' ok k' :
  Remove k c w = (w', ok) -> k' <> k -> Get k' c w' = Get k' c w.
Proof.
  unfold Remove, Get. destruct (database_ c) as [path|]; [|done].
  destruct (db_delete path k w) as [w1 s] eqn:E. intros [= -> _] Hk.
  by rewrite (delete_other _ _ _ _ _ _ E).
Qed.
End disk.
End of_the_disk.

(** ** Properties of the default cache *)

Import DiskCache(Platform, DatabaseLaws).
Import DefaultCache.

Section default.
Context {W : Type} `{DatabaseLaws W} {Other : Type}.
Abbreviation any := (any (Other := Other)).
Abbreviation DefaultCache := (DefaultCache (Other := Other)).
Implicit Types (w : W) (c : DefaultCache) (key : text).

(** The memory cache, if there is one, is well formed. *)

Definition memory_ok c : Prop :=
  match memory_cache_ c with Some m => exists l, holds m l | None => True end.

Lemma expiry_key_ne key : CreateExpiryKey key <> key.
Proof.
  unfold CreateExpiryKey. intros E. apply (f_equal length) in E. rewrite length_app in E.
  simpl in E. lia.
Qed.

(** *** What memory holds of a key

    Memory may lose an item at any time, but never holds another value of it. *)

Definition memory_only key v c : Prop :=
  match memory_cache_ c with
  | Some m => exists l, holds m l /\ forall t, (key, t) ∈ l -> InMemoryCache.item_value t = AnyBytes v
  | None => True
  end.

Lemma memory_only_ok key v c : memory_only key v c -> memory_ok c.
Proof. unfold memory_only, memory_ok. destruct (memory_cache_ c); [|done]. intros (l & ? & _). by exists l. Qed.

(** Only the memory part differs. *)
Definition same_but_memory c c' : Prop :=
  settings_ c' = settings_ c /\ is_open_ c' = is_open_ c /\ disk_cache_ c' = disk_cache_ c.

(** The items after a [Put]: the new one, if it is stored, and some of the others. *)
Lemma memory_put_items k (x : any) e sz now m l m' ok :
  holds m l -> InMemoryCache.Put k x e sz now m = Some (m', ok) ->
  exists l', holds m' l' /\ forall k' t, (k', t) ∈ l' ->
    (k' = k /\ InMemoryCache.item_value t = x) \/ (k', t) ∈ l /\ (ok = true -> k' <> k).
Proof.
  intros Hl E. destruct (decide (InMemoryCache.HasExpiry e = true /\ e <= 0)) as [[H1 H2]|Hn].
  { rewrite (Put_past _ _ _ _ _ _ l) in E by done. injection E as <- <-. exists (unexpired now m l).
    split; [by apply holds_purged|]. intros k' t Ht. right. split; [|done]. by apply list_elem_of_filter in Ht as [_ ?]. }
  assert (expiry_ok e now) as He.
  { intros H1. split; [apply Z.nle_gt; intros ?; by apply Hn|]. unfold InMemoryCache.Put in E.
    rewrite (PurgeExpired_eq now m l) in E by done. cbn [mbind option_bind] in E. rewrite H1 in E.
    destruct (e <=? 0) eqn:E1; [apply Z.leb_le in E1; exfalso; by apply Hn|].
    destruct (e + now >? time_max) eqn:E2; [done|]. rewrite Z.gtb_ltb in E2. by apply Z.ltb_ge in E2. }
  destruct (Put_eq k x e sz now m l Hl He) as (l' & ex' & E' & Hs & _). rewrite E' in E. injection E as <- _.
  exists l'. split.
  { exact (holds_put k (InMemoryCache.MkItem k (stored_expiry e now) x sz) l' (unexpired now m l) ex' m l Hl
      (sublist_filter _ _) eq_refl Hs). }
  intros k' t Ht. eapply elem_of_submseteq in Ht; [|by apply sublist_submseteq].
  apply elem_of_cons in Ht as [[= -> ->]|[Hk Ht]%list_elem_of_filter]; [by left|right].
  split; [by apply list_elem_of_filter in Ht as [_ ?]|done].
Qed.

(** A [Put] of the item itself, or of another one. *)
Lemma memory_put_only key v k (x : any) e sz now c c' ok :
  memory_only key v c -> k <> key \/ x = AnyBytes v ->
  memory_put k x e sz now c = Some (c', ok) -> memory_only key v c' /\ same_but_memory c c'.
Proof.
  unfold memory_put, memory_only, same_but_memory. destruct (memory_cache_ c) as [m|] eqn:Em.
  2:{ intros _ _ [= <- <-]. by rewrite Em. }
  intros (l & Hl & Hv) Hk. destruct (InMemoryCache.Put k x e sz now m) as [[m' ok']|] eqn:E; [|done].
  cbn [mbind option_bind]. intros [= <- <-]. split; [|done]. cbn [memory_cache_ with_memory].
  destruct (memory_put_items k x e sz now m l m' ok' Hl E) as (l' & Hl' & Hi). exists l'. split; [done|].
  intros t Ht. destruct (Hi key t Ht) as [[<- Hx]|[Hin _]]; [|by apply Hv]. destruct Hk as [?| ->]; congruence.
Qed.

(** A [Put] that succeeds: whatever memory held of the item is replaced. *)
Lemma memory_put_fresh key v e sz now c c' :
  memory_ok c -> memory_put key (AnyBytes v) e sz now c = Some (c', true) ->
  memory_only key v c' /\ same_but_memory c c'.
Proof.
  unfold memory_put, memory_only, memory_ok, same_but_memory. destruct (memory_cache_ c) as [m|] eqn:Em.
  2:{ intros _ [= <-]. by rewrite Em. }
  intros (l & Hl). destruct (InMemoryCache.Put key _ e sz now m) as [[m' ok']|] eqn:E; [|done].
  cbn [mbind option_bind]. intros [= <- ->]. split; [|done]. cbn [memory_cache_ with_memory].
  destruct (memory_put_items key _ e sz now m l m' true Hl E) as (l' & Hl' & Hi). exists l'. split; [done|].
  intros t Ht. destruct (Hi key t Ht) as [[_ Hx]|[_ Hne]]; [done|by destruct (Hne eq_refl)].
Qed.

(** [Get] finds the value of the item or nothing, and keeps what memory holds. *)
Lemma memory_get_only key v k now c :
  memory_only key v c ->
  exists c' r, memory_get k now c = Some (c', r) /\ (k = key -> r = AnyBytes v \/ r = AnyEmpty) /\
    memory_only key v c' /\ same_but_memory c c'.
Proof.
  unfold memory_get, memory_only, same_but_memory. destruct (memory_cache_ c) as [m|] eqn:Em.
  2:{ intros _. do 2 eexists. split; [done|]. rewrite Em. by split; [right|]. }
  intros (l & Hl & Hv). rewrite (Get_eq AnyEmpty k now m l Hl). cbn [mbind option_bind].
  destruct (lookup_item k l) as [t|] eqn:El.
  2:{ do 2 eexists. split; [done|]. cbn [memory_cache_ with_memory]. split; [by right|]. split; [by exists l|done]. }
  pose proof (holds_touch k t l (InMemoryCache.m_itemExpiries m) m Hl El) as Hh.
  assert (forall t', (key, t') ∈ (k, t) :: remove_item k l -> InMemoryCache.item_value t' = AnyBytes v) as Hv'.
  { intros t' [[= -> ->]|[_ Hin]%list_elem_of_filter]%elem_of_cons; [|by apply Hv]. apply Hv.
    destruct (lookup_item_split k l t (linked_nodup _ _ (repr_linked _ _ (holds_repr _ _ Hl))) El)
      as (l1 & l2 & -> & _). apply elem_of_app. right. left. }
  destruct (InMemoryCache.item_expiry t <? now);
    (do 2 eexists; split; [done|]; cbn [memory_cache_ with_memory]); (split; [|split; [eexists; split|done]]).
  - by right.
  - apply (holds_store ((k, t) :: remove_item k l) _ _ _ Hh), sublist_filter.
  - intros t' [_ Hin]%list_elem_of_filter. by apply Hv'.
  - intros ->. left. apply Hv'. left.
  - exact Hh.
  - exact Hv'.
Qed.

Lemma memory_put_total key v e sz now c :
  memory_ok c -> (InMemoryCache.HasExpiry e = true -> e + now <= time_max) ->
  exists c' ok, memory_put key v e sz now c = Some (c', ok).
Proof.
  intros Hm He. unfold memory_put, memory_ok in *. destruct (memory_cache_ c) as [m|]; [|eauto].
  destruct Hm as [l Hl]. destruct (decide (InMemoryCache.HasExpiry e = true /\ e <= 0)) as [[H1 H2]|Hn].
  - rewrite (Put_past _ _ _ _ _ _ l) by done. simpl. eauto.
  - destruct (Put_eq key v e sz now m l Hl) as (l' & ex' & -> & _); [|simpl; eauto].
    intros H1. split; [apply Z.nle_gt; intros ?; by apply Hn | by apply He].
Qed.

(** ** Reading back from disk *)

Lemma disk_put_spec key v e now c w w1 d :
  disk_cache_ c = Some d -> disk_put key v e now c w = Some (w1, true) ->
  DiskCache.Get key d w1 = Some v /\
  DiskCache.Get (CreateExpiryKey key) d w1 =
    (if e <? time_max then Some (print_s64 (e + now)) else DiskCache.Get (CreateExpiryKey key) d w) /\
  (e < time_max -> - 2 ^ 63 <= e + now <= time_max).
Proof.
  intros Hd. unfold disk_put, StoreExpiry, time_value. rewrite Hd.
  destruct (Z.ltb_spec e time_max) as [He|He].
  - destruct ((- 2 ^ 63 <=? e + now) && (e + now <=? time_max)) eqn:Ht; [|done].
    apply andb_true_iff in Ht as [Ht1%Z.leb_le Ht2%Z.leb_le]. cbn [mbind option_bind].
    destruct (DiskCache.Put (CreateExpiryKey key) _ d w) as [w2 ok] eqn:E1.
    cbn [mbind option_bind]. destruct ok; [|done]. intros [= E2].
    split; [by eapply disk_put_get|]. split; [|lia].
    rewrite (disk_put_other _ _ _ _ _ _ _ E2 (expiry_key_ne key)). by eapply disk_put_get.
  - cbn [mbind option_bind]. intros [= E2]. split; [by eapply disk_put_get|]. split; [|lia].
    by rewrite (disk_put_other _ _ _ _ _ _ _ E2 (expiry_key_ne key)).
Qed.

(** The remaining time that a stored expiry gives. *)
Lemma remaining_stored key now t d w :
  DiskCache.Get (CreateExpiryKey key) d w = Some (print_s64 t) ->
  - 2 ^ 63 < t <= time_max -> 0 <= now <= time_max -> - 2 ^ 63 <= t - now ->
  GetRemainingExpiryTime key now d w = Some (t - now).
Proof.
  intros E Ht Hn Hd. unfold GetRemainingExpiryTime. rewrite E, stol_print by done.
  cbn [mbind option_bind]. unfold time_value.
  by replace ((- 2 ^ 63 <=? t - now) && (t - now <=? time_max)) with true by lia.
Qed.

Lemma disk_get_found key v now expiry (c : DefaultCache) w d :
  disk_cache_ c = Some d -> memory_ok c ->
  GetRemainingExpiryTime key now d w = Some expiry -> 0 < expiry ->
  (expiry < time_max -> expiry + now <= time_max) ->
  DiskCache.Get key d w = Some v ->
  exists c', disk_get key AnyBytes now c w = Some (c', w, AnyBytes v).
Proof.
  intros Hd Hm Hr He Hov Hg. unfold disk_get. rewrite Hd, Hr, Hg. cbn [mbind option_bind].
  replace (expiry <=? 0) with false by lia.
  destruct (memory_put_total key (AnyBytes v) expiry (Z.of_nat (length v)) now c Hm)
    as (c' & ok & ->); [|by eexists].
  unfold InMemoryCache.HasExpiry. intros Hx%negb_true_iff%Z.eqb_neq. apply Hov.
  assert (expiry <= time_max); [|lia].
  unfold GetRemainingExpiryTime in Hr. destruct (DiskCache.Get (CreateExpiryKey key) d w).
  - destruct (stol _) as [x|]; [|done]. cbn [mbind option_bind] in Hr. unfold time_value in Hr.
    destruct (_ && _) eqn:Et; [|done]. injection Hr as <-.
    apply andb_true_iff in Et as [_ ?%Z.leb_le]. done.
  - by injection Hr as <-.
Qed.

(** ** Items that stay *)

(** The key of an item under which nothing of the item [key] is stored. *)
Definition apart key k : Prop := k <> key /\ k <> CreateExpiryKey key /\ CreateExpiryKey k <> key.

Lemma expiry_key_inj k key : CreateExpiryKey k = CreateExpiryKey key -> k = key.
Proof. unfold CreateExpiryKey. apply app_inv_tail. Qed.

(** What is done with the cache between storing an item and reading it.  [Put] and [Get] of
    bytes are those with [AnyBytes]. *)
Inductive cache_op :=
| DoPut (k : text) (value : any) (encoded : text) (expiry now : Z)
| DoGet (k : text) (decoder : text -> any) (now : Z)
| DoRemove (k : text)
| DoRemovePrefix (prefix : text).

Definition cache_step (op : cache_op) c w : option (DefaultCache * W) :=
  match op with
  | DoPut k value encoded expiry now => '(c', w', _) ← put_item k value encoded expiry now c w; Some (c', w')
  | DoGet k decoder now => '(c', w', _) ← Get k decoder now c w; Some (c', w')
  | DoRemove k => '(c', w', _) ← Remove k c w; Some (c', w')
  | DoRemovePrefix prefix => '(c', w', _) ← RemoveKeysWithPrefix prefix c w; Some (c', w')
  end.

Fixpoint cache_run (ops : list cache_op) c w : option (DefaultCache * W) :=
  match ops with
  | [] => Some (c, w)
  | op :: rest => '(c', w') ← cache_step op c w; cache_run rest c' w'
  end.

(** An item that expires at [until], if it does, is alive. *)
Definition alive_at (until : option Z) now : Prop :=
  0 <= now <= time_max /\ match until with Some t => now < t <= time_max | None => True end.

(** The operation stores, reads or removes other items, or reads the item while it is alive. *)
Definition harmless key (until : option Z) (op : cache_op) : Prop :=
  match op with
  | DoPut k _ _ _ _ | DoRemove k => apart key k
  | DoGet k decoder now => apart key k \/ (k = key /\ decoder = AnyBytes /\ alive_at until now)
  | DoRemovePrefix prefix =>
    DiskCache.starts_with key prefix = false /\ DiskCache.starts_with (CreateExpiryKey key) prefix = false
  end.

(** The item is on disk with its expiry record, and in memory or not. *)
Record kept key v (until : option Z) (d : DiskCache.DiskCache) c w : Prop := {
  kept_open : is_open_ c = true;
  kept_memory : memory_only key v c;
  kept_disk : disk_cache_ c = Some d;
  kept_value : DiskCache.Get key d w = Some v;
  kept_expiry : DiskCache.Get (CreateExpiryKey key) d w = print_s64 <$> until }.

(** A step that changes neither the item nor its expiry record on disk. *)
Lemma kept_elsewhere key v until d c w c' w' :
  kept key v until d c w -> memory_only key v c' -> same_but_memory c c' ->
  (forall k, k = key \/ k = CreateExpiryKey key -> DiskCache.Get k d w' = DiskCache.Get k d w) ->
  kept key v until d c' w'.
Proof.
  intros [Ho Hm Hd Hv Hx] Hm' (_ & Ho' & Hd') Hw. split; [congruence|done|congruence|..].
  - rewrite Hw; auto.
  - rewrite Hw; auto.
Qed.

(** A disk write of another item. *)
Lemma disk_put_elsewhere key k v e now c w w' ok d k' :
  apart key k -> k' = key \/ k' = CreateExpiryKey key -> disk_cache_ c = Some d ->
  disk_put k v e now c w = Some (w', ok) -> DiskCache.Get k' d w' = DiskCache.Get k' d w.
Proof.
  intros (H1 & H2 & H3) Hk Hd.
  assert (k' <> k /\ k' <> CreateExpiryKey k) as [Hk1 Hk2].
  { destruct Hk as [-> | ->]; split; try congruence. intros E. symmetry in E. by apply expiry_key_inj in E. }
  unfold disk_put, StoreExpiry. rewrite Hd. destruct (e <? time_max).
  - destruct (time_value (e + now)) as [t|]; [|done]. cbn [mbind option_bind].
    destruct (DiskCache.Put (CreateExpiryKey k) _ d w) as [w1 ok1] eqn:E1. cbn [mbind option_bind].
    destruct ok1; cbn [negb]; intros [= E2]; [|subst; by apply (disk_put_other _ _ _ _ _ _ _ E1)].
    rewrite (disk_put_other _ _ _ _ _ _ _ E2) by done. by apply (disk_put_other _ _ _ _ _ _ _ E1).
  - cbn [mbind option_bind]. intros [= E2]. by apply (disk_put_other _ _ _ _ _ _ _ E2).
Qed.

Lemma purge_elsewhere key k d w k' :
  apart key k -> k' = key \/ k' = CreateExpiryKey key ->
  DiskCache.Get k' d (PurgeDiskItem k d w) = DiskCache.Get k' d w.
Proof.
  intros (H1 & H2 & H3) Hk.
  assert (k' <> k /\ k' <> CreateExpiryKey k) as [Hk1 Hk2].
  { destruct Hk as [-> | ->]; split; try congruence. intros E. symmetry in E. by apply expiry_key_inj in E. }
  unfold PurgeDiskItem. destruct (DiskCache.Remove k d w) as [w1 ok1] eqn:E1. cbn [fst].
  destruct (DiskCache.Remove (CreateExpiryKey k) d w1) as [w2 ok2] eqn:E2. cbn [fst].
  rewrite (disk_remove_other _ _ _ _ _ _ E2) by done. by apply (disk_remove_other _ _ _ _ _ _ E1).
Qed.

(** The remaining time of an item that is alive. *)
Lemma kept_remaining key v until d c w now :
  kept key v until d c w -> alive_at until now ->
  exists x, GetRemainingExpiryTime key now d w = Some x /\ 0 < x /\ (x < time_max -> x + now <= time_max).
Proof.
  intros Hk [Hn Ha]. pose proof (kept_expiry _ _ _ _ _ _ Hk) as Hx. destruct until as [t|].
  - exists (t - now). split; [|lia]. unfold time_max in *. by eapply remaining_stored; [apply Hx|unfold time_max; lia..].
  - exists time_max. unfold GetRemainingExpiryTime. rewrite Hx. split; [done|]. unfold time_max in *. lia.
Qed.

(** The item is read while it is alive, wherever it is. *)
Lemma kept_read key v until d c w now :
  kept key v until d c w -> alive_at until now ->
  exists c', Get key AnyBytes now c w = Some (c', w, AnyBytes v) /\ kept key v until d c' w.
Proof.
  intros Hk Ha. pose proof Hk as [Ho Hm Hd Hv Hx]. unfold Get. rewrite Ho. cbn [negb].
  destruct (memory_get_only key v key now c Hm) as (c1 & r & -> & Hr & Hm1 & Hs1). cbn [mbind option_bind].
  assert (kept key v until d c1 w) as Hk1 by (by eapply kept_elsewhere).
  destruct (Hr eq_refl) as [-> | ->]; cbn [any_is_empty negb]; [by exists c1|].
  destruct (kept_remaining _ _ _ _ _ _ _ Hk1 Ha) as (x & Hrem & Hx0 & Hx1).
  pose proof (kept_disk _ _ _ _ _ _ Hk1) as Hd1.
  destruct (disk_get_found key v now x c1 w d Hd1 (memory_only_ok _ _ _ Hm1) Hrem Hx0 Hx1 Hv) as [c2 E].
  exists c2. split; [done|]. unfold disk_get in E. rewrite Hd1, Hrem, Hv in E. cbn [mbind option_bind] in E.
  replace (x <=? 0) with false in E by lia.
  destruct (memory_put key (AnyBytes v) x _ now c1) as [[c2' ok]|] eqn:Ep; [|done].
  cbn [mbind option_bind] in E. injection E as <-.
  destruct (memory_put_only key v key (AnyBytes v) x _ now c1 c2' ok Hm1 (or_intror eq_refl) Ep) as [Hm2 Hs2].
  by eapply kept_elsewhere.
Qed.

Lemma kept_put key v until d k (x : any) enc e now c w c' w' :
  kept key v until d c w -> apart key k -> cache_step (DoPut k x enc e now) c w = Some (c', w') ->
  kept key v until d c' w'.
Proof.
  intros Hk Ha. pose proof Hk as [Ho Hm Hd Hv Hx]. cbn [cache_step]. unfold put_item. rewrite Ho. cbn [negb].
  destruct (memory_put k x e _ now c) as [[c1 ok]|] eqn:Ep; [|done]. cbn [mbind option_bind].
  destruct (memory_put_only key v k x e _ now c c1 ok Hm (or_introl (proj1 Ha)) Ep) as [Hm1 Hs1].
  assert (kept key v until d c1 w) as Hk1 by (by eapply kept_elsewhere).
  destruct ok; cbn [negb]; [|by intros [= <- <-]].
  destruct (disk_put k enc e now c1 w) as [[w1 ok1]|] eqn:Ed; [|done]. cbn [mbind option_bind]. intros [= <- <-].
  eapply kept_elsewhere; [exact Hk1|done|done|]. intros k' Hk'.
  by apply (disk_put_elsewhere key k enc e now c1 w w1 ok1 d k'); [..|apply Hk1|].
Qed.

Lemma kept_get key v until d k (dec : text -> any) now c w c' w' :
  kept key v until d c w -> apart key k -> cache_step (DoGet k dec now) c w = Some (c', w') ->
  kept key v until d c' w'.
Proof.
  intros Hk Ha. pose proof Hk as [Ho Hm Hd Hv Hx]. cbn [cache_step]. unfold Get. rewrite Ho. cbn [negb].
  destruct (memory_get_only key v k now c Hm) as (c1 & r & -> & _ & Hm1 & Hs1). cbn [mbind option_bind].
  assert (kept key v until d c1 w) as Hk1 by (by eapply kept_elsewhere).
  destruct (any_is_empty r); cbn [negb mbind option_bind]; [|by intros [= <- <-]].
  unfold disk_get. rewrite (kept_disk _ _ _ _ _ _ Hk1).
  destruct (GetRemainingExpiryTime k now d w) as [x|]; [|done]. cbn [mbind option_bind].
  destruct (x <=? 0); cbn [mbind option_bind].
  { intros [= <- <-]. eapply kept_elsewhere; [exact Hk1|done|done|]. intros k' Hk'. by apply (purge_elsewhere key). }
  destruct (DiskCache.Get k d w) as [y|]; cbn [mbind option_bind]; [|by intros [= <- <-]].
  destruct (memory_put k (dec y) x _ now c1) as [[c2 ok]|] eqn:Ep; [|done]. cbn [mbind option_bind]. intros [= <- <-].
  destruct (memory_put_only key v k (dec y) x _ now c1 c2 ok Hm1 (or_introl (proj1 Ha)) Ep) as [Hm2 Hs2].
  by eapply kept_elsewhere.
Qed.

Lemma kept_remove key v until d k c w c' w' :
  kept key v until d c w -> apart key k -> cache_step (DoRemove k) c w = Some (c', w') ->
  kept key v until d c' w'.
Proof.
  intros Hk (H1 & H2 & H3). pose proof Hk as [Ho Hm Hd Hv Hx]. cbn [cache_step]. unfold Remove. rewrite Ho, Hd. cbn [negb].
  destruct (DiskCache.Remove k d w) as [w1 ok1] eqn:E1.
  assert (forall k', k' = key \/ k' = CreateExpiryKey key -> DiskCache.Get k' d w1 = DiskCache.Get k' d w) as Hw.
  { intros k' Hk'. apply (disk_remove_other _ _ _ _ _ _ E1). destruct Hk' as [-> | ->]; congruence. }
  unfold memory_only in Hm. destruct (memory_cache_ c) as [m|] eqn:Em; cbn [mbind option_bind].
  - destruct Hm as (l & Hl & Hlv). rewrite (InMemorySpec.Remove_eq k m l Hl). cbn [mbind option_bind].
    intros [= <- <-]. eapply kept_elsewhere; [exact Hk| |done|done]. exists (remove_item k l).
    split; [apply (holds_store l); [done|apply sublist_filter]|]. intros t [_ Hin]%list_elem_of_filter. by apply Hlv.
  - intros [= <- <-]. by eapply kept_elsewhere.
Qed.

Lemma kept_remove_prefix key v until d prefix c w c' w' :
  kept key v until d c w -> harmless key until (DoRemovePrefix prefix) ->
  cache_step (DoRemovePrefix prefix) c w = Some (c', w') -> kept key v until d c' w'.
Proof.
  intros Hk [H1 H2]. pose proof Hk as [Ho Hm Hd Hv Hx]. cbn [cache_step]. unfold RemoveKeysWithPrefix.
  rewrite Ho, Hd. cbn [negb]. assert (exists path, DiskCache.database_ d = Some path) as [path Hpath].
  { unfold DiskCache.Get in Hv. destruct (DiskCache.database_ d) as [path|]; [by exists path|done]. }
  pose proof (disk_remove_prefix prefix d w path Hpath) as Hw.
  destruct (DiskCache.RemoveKeysWithPrefix prefix d w) as [w1 ok1]. destruct Hw as [_ Hw].
  assert (forall k', k' = key \/ k' = CreateExpiryKey key -> DiskCache.Get k' d w1 = DiskCache.Get k' d w) as Hw'
    by (intros k' [-> | ->]; by apply Hw).
  unfold memory_only in Hm. destruct (memory_cache_ c) as [m|] eqn:Em; cbn [mbind option_bind].
  - destruct Hm as (l & Hl & Hlv). rewrite (InMemorySpec.RemoveKeysWithPrefix_eq prefix m l Hl). cbn [mbind option_bind].
    intros [= <- <-]. eapply kept_elsewhere; [exact Hk| |done|done]. eexists.
    split; [apply (holds_store l); [done|apply sublist_filter]|]. intros t [_ Hin]%list_elem_of_filter. by apply Hlv.
  - intros [= <- <-]. by eapply kept_elsewhere.
Qed.

Lemma kept_run key v until d ops c w c' w' :
  kept key v until d c w -> Forall (harmless key until) ops -> cache_run ops c w = Some (c', w') ->
  kept key v until d c' w'.
Proof.
  intros Hk Hops. revert c w Hk. induction Hops as [|op ops Hop _ IH]; intros c w Hk; cbn [cache_run].
  { by intros [= <- <-]. }
  destruct (cache_step op c w) as [[c1 w1]|] eqn:E; [|done]. cbn [mbind option_bind]. apply IH.
  destruct op as [k x enc e now|k dec now|k|prefix].
  - by eapply kept_put.
  - destruct Hop as [Ha|(-> & -> & Ha)]; [by eapply kept_get|].
    destruct (kept_read _ _ _ _ _ _ _ Hk Ha) as (c2 & E2 & Hk2). cbn [cache_step] in E. rewrite E2 in E.
    cbn [mbind option_bind] in E. by injection E as <- <-.
  - by eapply kept_remove.
  - by eapply kept_remove_prefix.
Qed.

(** A successful [Put] of bytes. *)
Lemma put_kept key v e now c w c1 w1 d :
  is_open_ c = true -> memory_ok c -> disk_cache_ c = Some d ->
  (e < time_max \/ e = time_max /\ DiskCache.Get (CreateExpiryKey key) d w = None) ->
  PutBytes key v e now c w = Some (c1, w1, true) ->
  kept key v (if e <? time_max then Some (e + now) else None) d c1 w1.
Proof.
  intros Hop Hm Hd He. unfold PutBytes, put_item. rewrite Hop. cbn [negb].
  destruct (memory_put key (AnyBytes v) e _ now c) as [[c0 ok]|] eqn:Em; [|done].
  cbn [mbind option_bind]. destruct ok; [|done]. cbn [negb].
  destruct (disk_put key v e now c0 w) as [[w0 ok1]|] eqn:Ed; [|done].
  cbn [mbind option_bind]. intros [= -> -> ->].
  destruct (memory_put_fresh key v e _ now c c1 Hm Em) as (Hm1 & _ & Ho1 & Hd1).
  destruct (disk_put_spec key v e now c1 w w1 d) as (Hg & Hx & _); [congruence|done|].
  split; [congruence|done|congruence|done|]. rewrite Hx.
  destruct (Z.ltb_spec e time_max); [done|]. destruct He as [?|[_ ?]]; [lia|done].
Qed.

(** C36.  Bytes that were stored in a cache with a disk part are read back as long as they
    are alive, whatever is stored, read and removed in the meantime under other keys: it
    does not matter whether the memory cache has evicted the item in between, or has got it
    back by a read.  If the bytes are stored without expiry there must be no expiry record
    of an earlier item with this key on the disk. *)
Theorem cached_bytes_survive key v e now ops now' c w c1 w1 c2 w2 d :
  let deadline := if e <? time_max then Some (e + now) else None in
  is_open_ c = true -> memory_ok c -> disk_cache_ c = Some d ->
  (e < time_max \/ e = time_max /\ DiskCache.Get (CreateExpiryKey key) d w = None) ->
  PutBytes key v e now c w = Some (c1, w1, true) ->
  Forall (harmless key deadline) ops -> cache_run ops c1 w1 = Some (c2, w2) ->
  alive_at deadline now' ->
  exists c3 w3, GetBytes key now' c2 w2 = Some (c3, w3, Some v).
Proof.
  intros deadline Hop Hm Hd He Hput Hops Hrun Ha.
  pose proof (put_kept key v e now c w c1 w1 d Hop Hm Hd He Hput) as Hk.
  destruct (kept_read key v deadline d c2 w2 now') as (c3 & E & _); [by eapply kept_run|done|].
  exists c3, w2. unfold GetBytes. by rewrite E.
Qed.

(** Once an item has expired on disk and memory has no unexpired value,
    [Get] returns nothing and removes the item and its expiry record. *)
Theorem expired_item_is_purged key t now c c0 w d :
  is_open_ c = true -> disk_cache_ c = Some d ->
  memory_get key now c = Some (c0, AnyEmpty) ->
  DiskCache.Get (CreateExpiryKey key) d w = Some (print_s64 t) -> 0 <= t <= now ->
  now <= time_max ->
  exists w', GetBytes key now c w = Some (c0, w', None) /\
    ((DiskCache.Remove key d w).2 = true ->
     (DiskCache.Remove (CreateExpiryKey key) d (DiskCache.Remove key d w).1).2 = true ->
     DiskCache.Get key d w' = None /\ DiskCache.Get (CreateExpiryKey key) d w' = None).
Proof.
  intros Hop Hd Hm Hx Ht Hn. unfold GetBytes, Get. rewrite Hop, Hm. cbn [negb mbind option_bind any_is_empty].
  assert (disk_cache_ c0 = Some d) as Hd0.
  { unfold memory_get in Hm. destruct (memory_cache_ c) as [m|]; [|congruence].
    destruct (InMemoryCache.Get _ _ _ m) as [[m' r]|]; [|done]. by injection Hm as <- _. }
  unfold disk_get. rewrite Hd0, (remaining_stored key now t d w Hx) by (unfold time_max in *; lia).
  cbn [mbind option_bind]. replace (t - now <=? 0) with true by lia.
  eexists. split; [done|]. unfold PurgeDiskItem.
  destruct (DiskCache.Remove key d w) as [w1 ok1] eqn:E1. cbn [fst snd].
  destruct (DiskCache.Remove (CreateExpiryKey key) d w1) as [w2 ok2] eqn:E2. cbn [fst snd].
  intros -> ->. split; [|by eapply disk_remove_get].
  rewrite (disk_remove_other _ _ _ _ _ _ E2) by (intros E; by apply (expiry_key_ne key)).
  by eapply disk_remove_get.
Qed.

(** [Remove] leaves the expiry record on disk: in a cache without memory,
    an item stored without expiry under a key that was removed is lost as soon
    as the removed item's expiry time is reached. *)
Theorem removed_expiry_outlives_item key v1 v2 e now0 now1 now2 c w c1 w1 c2 w2 c3 w3 d :
  is_open_ c = true -> memory_cache_ c = None -> disk_cache_ c = Some d ->
  0 < e < time_max -> 0 <= now0 -> e + now0 <= now2 <= time_max ->
  PutBytes key v1 e now0 c w = Some (c1, w1, true) ->
  Remove key c1 w1 = Some (c2, w2, true) ->
  PutBytes key v2 time_max now1 c2 w2 = Some (c3, w3, true) ->
  DiskCache.Get key d w3 = Some v2 /\
  exists w', GetBytes key now2 c3 w3 = Some (c3, w', None).
Proof.
  intros Hop Hmem Hd He Hn0 Hn2.
  unfold PutBytes, put_item, memory_put. rewrite Hop, Hmem. cbn [negb mbind option_bind].
  destruct (disk_put key v1 e now0 c w) as [[w1' ok1]|] eqn:E1; [|done].
  cbn [mbind option_bind]. intros [= <- -> ->].
  destruct (disk_put_spec key v1 e now0 c w w1 d Hd E1) as (_ & Hx1 & _).
  replace (e <? time_max) with true in Hx1 by lia.
  unfold Remove. rewrite Hop, Hmem. cbn [negb mbind option_bind with_memory disk_cache_].
  rewrite Hd. destruct (DiskCache.Remove key d w1) as [w2' ok2] eqn:E2. intros [= <- -> ->].
  cbn [is_open_ memory_cache_ with_memory]. rewrite Hop. cbn [negb mbind option_bind].
  set (c2 := with_memory None c). assert (disk_cache_ c2 = Some d) as Hd2 by done.
  destruct (disk_put key v2 time_max now1 c2 w2) as [[w3' ok3]|] eqn:E3; [|done].
  cbn [mbind option_bind]. intros [= <- -> ->].
  destruct (disk_put_spec key v2 time_max now1 c2 w2 w3 d Hd2 E3) as (Hg & Hx & _).
  rewrite Z.ltb_irrefl, (disk_remove_other _ _ _ _ _ _ E2 (expiry_key_ne key)), Hx1 in Hx.
  split; [done|]. unfold GetBytes, Get, memory_get.
  assert (is_open_ c2 = true /\ memory_cache_ c2 = None) as [-> ->] by done.
  cbn [negb mbind option_bind any_is_empty]. unfold disk_get.
  rewrite Hd2, (remaining_stored key now2 (e + now0) d w3 Hx) by (unfold time_max in *; lia). cbn [mbind option_bind].
  replace (e + now0 - now2 <=? 0) with true by lia. by eexists.
Qed.

(** Storing bytes under a key that memory holds unexpired reports failure
    and does not reach the disk, although memory then returns the new value: the
    disk part keeps the old one. *)
Theorem overwrite_skips_disk key v e now now' c w m l :
  let t := InMemoryCache.MkItem key (stored_expiry e now) (AnyBytes v) (Z.of_nat (length v)) in
  is_open_ c = true -> memory_cache_ c = Some m -> holds m l -> expiry_ok e now ->
  is_Some (lookup_item key (unexpired now m l)) ->
  (forall x, 0 <= cache_cost_func_ (InMemoryCache.m_itemTuples m) x) ->
  total (cache_cost_func_ (InMemoryCache.m_itemTuples m)) l +
    cache_cost_func_ (InMemoryCache.m_itemTuples m) t < 2 ^ 64 ->
  cache_cost_func_ (InMemoryCache.m_itemTuples m) t <= max_size_ (InMemoryCache.m_itemTuples m) ->
  now' <= stored_expiry e now ->
  exists c1 c2, PutBytes key v e now c w = Some (c1, w, false) /\
    GetBytes key now' c1 w = Some (c2, w, Some v).
Proof.
  intros t Hop Hm Hl He [t0 Hin] Hc Ht Hfit Hnow. unfold PutBytes, put_item, memory_put.
  rewrite Hop, Hm. cbn [negb].
  destruct (Put_eq key (AnyBytes v) e (Z.of_nat (length v)) now m l Hl He) as (l' & ex' & -> & Hs & Hk).
  fold t in Hs, Hk. specialize (Hk Hc Ht Hfit). rewrite Hin.
  rewrite bool_decide_false by done. cbn [mbind option_bind andb negb].
  pose proof (holds_put key t l' (unexpired now m l) ex' m l Hl (sublist_filter _ _) eq_refl Hs) as Hh.
  do 2 eexists. split; [done|]. unfold GetBytes, Get, memory_get.
  cbn [is_open_ with_memory memory_cache_]. rewrite Hop. cbn [negb].
  rewrite (Get_eq AnyEmpty key now' _ l') by done.
  assert (lookup_item key l' = Some t) as ->.
  { rewrite Hk. cbn [keep snd]. replace (cache_cost_func_ (InMemoryCache.m_itemTuples m) t <=?
      max_size_ (InMemoryCache.m_itemTuples m)) with true by lia. simpl. by rewrite decide_True. }
  simpl. replace (stored_expiry e now <? now') with false by lia. done.
Qed.
End default.
