(* ===== verification/CacheExamples.v ===== *)
(** * The disk and default caches on a concrete platform

    A database kept in memory satisfies the laws of LevelDB; the properties of
    the disk cache and of the default cache are applied to it. *)

From Stdlib Require Import ZArith Lia Bool Ascii.
From stdpp Require Import base gmap numbers strings sorting list.
From S2P Require Import Prelude Decimal Http.
From S2P Require Import LruCache LruFacts LruSpec.
From S2P Require Import InMemoryFacts DiskFacts.
From S2P Require InMemoryCache InMemorySpec DiskCache DefaultCache.
Import DiskCache(Platform, DatabaseLaws).
Local Open Scope Z_scope.
Local Open Scope olp_scope.

(** Every path is a database; all operations succeed. *)
Abbreviation World := (gmap text (gmap text text)).

Definition database (path : text) (w : World) : gmap text text := default ∅ (w !! path).

#[export] Instance text_le_dec a b : Decision (DiskCache.text_le a b).
Proof. unfold DiskCache.text_le. apply _. Defined.

#[export] Existing Instance text_le_trans.

#[export] Instance text_le_total : Total DiskCache.text_le.
Proof.
  intros a. unfold DiskCache.text_le. induction a as [|x a IH]; intros [|y b]; simpl; auto.
  rewrite (Z.eqb_sym (char_code y)). destruct (Z.eqb_spec (char_code x) (char_code y)); [apply IH|].
  rewrite !Z.ltb_lt. lia.
Qed.

#[export] Instance MemoryPlatform : Platform World := {|
  DiskCache.dir_exists _ _ := true;
  DiskCache.dir_create _ w := (w, true);
  DiskCache.dir_remove p w := (delete p w, true);
  DiskCache.env_create_dir _ w := w;
  DiskCache.env_delete_dir _ w := w;
  DiskCache.env_get_children _ _ := Some [];
  DiskCache.db_open _ p w := (<[p := database p w]> w, DiskCache.StatusOK);
  DiskCache.db_close _ w := w;
  DiskCache.db_repair _ w := (w, DiskCache.StatusOK);
  DiskCache.db_destroy p w := (delete p w, DiskCache.StatusOK);
  DiskCache.db_put p k v w := (<[p := <[k := v]> (database p w)]> w, DiskCache.StatusOK);
  DiskCache.db_get p k w :=
    match database p w !! k with
    | Some v => (DiskCache.StatusOK, v) | None => (DiskCache.StatusNotFound, [])
    end;
  DiskCache.db_delete p k w := (<[p := delete k (database p w)]> w, DiskCache.StatusOK);
  DiskCache.db_write_deletes p ks w :=
    (<[p := foldr delete (database p w) ks]> w, DiskCache.StatusOK);
  DiskCache.db_keys p w := merge_sort DiskCache.text_le (elements (dom (database p w)));
  DiskCache.env_size p w := Z.of_nat (size (database p w));
  DiskCache.status_text _ := [] |}.

Lemma database_insert p m w : database p (<[p := m]> w) = m.
Proof. unfold database. by rewrite lookup_insert_eq. Qed.

Lemma lookup_foldr_delete (ks : list text) (m : gmap text text) k :
  foldr delete m ks !! k = if decide (k ∈ ks) then None else m !! k.
Proof.
  induction ks as [|k' ks IH]; cbn [foldr].
  - by rewrite decide_False by apply not_elem_of_nil.
  - destruct (decide (k = k')) as [->|Hne].
    + rewrite lookup_delete_eq, decide_True; [done|by left].
    + rewrite lookup_delete_ne, IH by done. apply decide_ext. rewrite elem_of_cons. tauto.
Qed.

#[export] Instance MemoryPlatformLaws : DatabaseLaws World.
Proof.
  split; simpl.
  - intros p k v w w' [= <-]. by rewrite database_insert, lookup_insert_eq.
  - intros p k v w w' s k' [= <- <-] Hk. by rewrite database_insert, lookup_insert_ne.
  - intros p k w w' [= <-]. by rewrite database_insert, lookup_delete_eq.
  - intros p k w w' s k' [= <- <-] Hk. by rewrite database_insert, lookup_delete_ne.
  - intros p ks k w w' [= <-] Hk. by rewrite database_insert, lookup_foldr_delete, decide_True.
  - intros p ks k w w' s [= <- <-] Hk. by rewrite database_insert, lookup_foldr_delete, decide_False.
  - intros p w. apply (StronglySorted_merge_sort _).
  - intros p k w. rewrite merge_sort_Permutation, elem_of_elements, elem_of_dom.
    destruct (database p w !! k); simpl; [by split|]. split; [by intros []|done].
Qed.

(** ** Witnesses *)

Definition cache_path : text := str "/cache".
Definition sample_world : World :=
  {[ cache_path := {[ str "tile::1" := str "a"; str "tile::2" := str "b"; str "z" := str "c" ]} ]}.

Definition sample_disk : DiskCache.DiskCache :=
  (DiskCache.Open cache_path cache_path (DiskCache.MkStorageSettings 1000 1000 true 1000)
     DiskCache.Default DiskCache.NewDiskCache sample_world).1.1.

Lemma disk_remove_prefix_witness :
  let '(w', ok) := DiskCache.RemoveKeysWithPrefix (str "tile::") sample_disk sample_world in
  (ok = true -> forall k, DiskCache.starts_with k (str "tile::") = true ->
     DiskCache.Get k sample_disk w' = None) /\
  (forall k, DiskCache.starts_with k (str "tile::") = false ->
     DiskCache.Get k sample_disk w' = DiskCache.Get k sample_disk sample_world).
Proof.
  apply (disk_remove_prefix (str "tile::") sample_disk sample_world cache_path). reflexivity.
Defined.

Definition disk_settings (memory : Z) : DefaultCache.CacheSettings :=
  DefaultCache.MkCacheSettings (Some cache_path) 1000 1000 true 1000 memory DiskCache.Default.

(** An open cache with and without a memory part. *)
Definition open_cache (memory : Z) : DefaultCache.DefaultCache (Other := Z) :=
  (DefaultCache.Open (DefaultCache.NewDefaultCache (disk_settings memory)) sample_world).1.1.

Definition after_put (c : DefaultCache.DefaultCache (Other := Z)) (w : World)
    (key v : text) (e now : Z) :
    DefaultCache.DefaultCache (Other := Z) * World :=
  default (c, w) (fst <$> DefaultCache.PutBytes key v e now c w).

Lemma after_put_eq c w key v e now :
  snd <$> DefaultCache.PutBytes key v e now c w = Some true ->
  DefaultCache.PutBytes key v e now c w =
    Some ((after_put c w key v e now).1, (after_put c w key v e now).2, true).
Proof.
  unfold after_put. destruct (DefaultCache.PutBytes key v e now c w) as [[[c' w'] ok]|]; [|done].
  simpl. by intros [= ->].
Qed.

Definition stored_once : DefaultCache.DefaultCache (Other := Z) * World :=
  after_put (open_cache 100) sample_world (str "k") (str "v") 10 5.

(** Another item fills the memory cache, and a third one is read and removed. *)
Definition crowding : list (cache_op (Other := Z)) :=
  [DoPut (str "big") (DefaultCache.AnyOther 7) (repeat "x"%char 100) 20 6;
   DoGet (str "tile::1") (fun _ => DefaultCache.AnyOther 8) 7; DoRemove (str "tile::1");
   DoRemovePrefix (str "tile")].

Definition crowded : DefaultCache.DefaultCache (Other := Z) * World :=
  default stored_once (cache_run crowding stored_once.1 stored_once.2).

Lemma crowding_runs : cache_run crowding stored_once.1 stored_once.2 = Some (crowded.1, crowded.2).
Proof. vm_compute. reflexivity. Qed.

(** The memory cache has evicted the item. *)
Lemma crowded_evicted :
  snd <$> DefaultCache.memory_get (str "k") 14 stored_once.1 = Some (DefaultCache.AnyBytes (str "v")) /\
  snd <$> DefaultCache.memory_get (str "k") 14 crowded.1 = Some DefaultCache.AnyEmpty.
Proof. vm_compute. by split. Qed.

Lemma cached_bytes_survive_witness :
  snd <$> DefaultCache.memory_get (str "k") 14 crowded.1 = Some DefaultCache.AnyEmpty /\
  exists c2 w2, DefaultCache.GetBytes (str "k") 14 crowded.1 crowded.2 = Some (c2, w2, Some (str "v")).
Proof.
  split; [apply crowded_evicted|].
  apply (cached_bytes_survive (str "k") (str "v") 10 5 crowding 14 (open_cache 100) sample_world
    stored_once.1 stored_once.2 crowded.1 crowded.2 sample_disk).
  - reflexivity.
  - exists []. apply (InMemorySpec.holds_new 100). unfold in_range. lia.
  - reflexivity.
  - left. unfold time_max. lia.
  - apply after_put_eq. vm_compute. reflexivity.
  - repeat constructor; cbn; try (left; split_and!); try (intros E; by discriminate E); vm_compute; reflexivity.
  - exact crowding_runs.
  - vm_compute. split_and!; by intros.
Defined.

Definition expiring_world : World :=
  {[ cache_path := {[ str "k" := str "v"; str "k::expiry" := str "15" ]} ]}.

Lemma expired_item_is_purged_witness :
  exists w', DefaultCache.GetBytes (str "k") 20 (open_cache 0) expiring_world =
      Some (open_cache 0, w', None) /\
    ((DiskCache.Remove (str "k") sample_disk expiring_world).2 = true ->
     (DiskCache.Remove (DefaultCache.CreateExpiryKey (str "k")) sample_disk
        (DiskCache.Remove (str "k") sample_disk expiring_world).1).2 = true ->
     DiskCache.Get (str "k") sample_disk w' = None /\
     DiskCache.Get (DefaultCache.CreateExpiryKey (str "k")) sample_disk w' = None).
Proof.
  apply (expired_item_is_purged (str "k") 15 20 (open_cache 0) (open_cache 0) expiring_world
    sample_disk); try reflexivity; unfold time_max; lia.
Defined.

Definition stale1 : DefaultCache.DefaultCache (Other := Z) * World :=
  after_put (open_cache 0) sample_world (str "k") (str "v1") 10 0.
Definition stale2 : DefaultCache.DefaultCache (Other := Z) * World :=
  default stale1 (fst <$> DefaultCache.Remove (str "k") stale1.1 stale1.2).
Definition stale3 : DefaultCache.DefaultCache (Other := Z) * World :=
  after_put stale2.1 stale2.2 (str "k") (str "v2") time_max 5.

Lemma stale2_eq :
  snd <$> DefaultCache.Remove (str "k") stale1.1 stale1.2 = Some true ->
  DefaultCache.Remove (str "k") stale1.1 stale1.2 = Some (stale2.1, stale2.2, true).
Proof.
  unfold stale2. destruct (DefaultCache.Remove _ _ _) as [[[c' w'] ok]|]; [|done].
  simpl. by intros [= ->].
Qed.

Lemma removed_expiry_outlives_item_witness :
  DiskCache.Get (str "k") sample_disk stale3.2 = Some (str "v2") /\
  exists w', DefaultCache.GetBytes (str "k") 12 stale3.1 stale3.2 = Some (stale3.1, w', None).
Proof.
  apply (removed_expiry_outlives_item (str "k") (str "v1") (str "v2") 10 0 5 12 (open_cache 0)
    sample_world stale1.1 stale1.2 stale2.1 stale2.2 stale3.1 stale3.2 sample_disk).
  - reflexivity.
  - reflexivity.
  - reflexivity.
  - unfold time_max; lia.
  - lia.
  - unfold time_max; lia.
  - apply after_put_eq. vm_compute. reflexivity.
  - apply stale2_eq. vm_compute. reflexivity.
  - apply after_put_eq. vm_compute. reflexivity.
Defined.

Definition memory_item : InMemoryCache.ItemTuple (any := DefaultCache.any (Other := Z)) :=
  InMemoryCache.MkItem (str "k") 50 (DefaultCache.AnyBytes (str "old")) 3.

Definition memory_cache : InMemoryCache.InMemoryCache (any := DefaultCache.any (Other := Z)) :=
  store [(str "k", memory_item)] ∅
    (InMemoryCache.NewInMemoryCache 100 InMemoryCache.EqualityCacheCost).

Lemma memory_cache_holds : holds memory_cache [(str "k", memory_item)].
Proof.
  split; [apply repr_load; [apply (bool_decide_unpack _); by vm_compute|]|by repeat constructor].
  unfold in_range. simpl. lia.
Qed.

Definition memory_open_cache : DefaultCache.DefaultCache (Other := Z) :=
  DefaultCache.with_memory (Some memory_cache) (open_cache 100).

Lemma overwrite_skips_disk_witness :
  exists c1 c2,
    DefaultCache.PutBytes (str "k") (str "new") 10 5 memory_open_cache sample_world =
      Some (c1, sample_world, false) /\
    DefaultCache.GetBytes (str "k") 12 c1 sample_world = Some (c2, sample_world, Some (str "new")).
Proof.
  apply (overwrite_skips_disk (str "k") (str "new") 10 5 12 memory_open_cache sample_world
    memory_cache [(str "k", memory_item)]).
  - reflexivity.
  - reflexivity.
  - apply memory_cache_holds.
  - intros _. unfold time_max. lia.
  - exists memory_item. vm_compute. reflexivity.
  - intros x. simpl. unfold InMemoryCache.EqualityCacheCost. lia.
  - vm_compute. reflexivity.
  - vm_compute. discriminate.
  - vm_compute. discriminate.
Defined.
