(* ===== verification/SizeLimit.v ===== *)
(** * The size-limiting environment of the disk cache

    [olp-cpp-sdk-core/src/cache/DiskCacheSizeLimit.h]: a [leveldb::Env] that
    counts the bytes written to and deleted from the files of a database.  The
    environment it forwards to is third-party code, the interface [FileEnv]. *)

From Stdlib Require Import ZArith Lia Bool Ascii.
From stdpp Require Import base gmap fin_maps numbers strings list.
From S2P Require Import Prelude Decimal Http.
From S2P Require Import DiskCache.
Local Open Scope Z_scope.
Local Open Scope olp_scope.

(** The wrapped environment and what it documents of file sizes: creating a
    file truncates it, appending adds the length of the data. *)
Class FileEnv (F : Type) := {
  file_sizes : F -> gmap text Z;
  file_children : text -> F -> option (list text);
  file_create : text -> F -> F * Status;
  file_append : text -> text -> F -> F * Status;
  file_delete : text -> F -> F * Status;
  create_sizes f s s' : file_create f s = (s', StatusOK) -> file_sizes s' = <[f := 0]> (file_sizes s);
  append_sizes f d s s' n :
    file_append f d s = (s', StatusOK) -> file_sizes s !! f = Some n ->
    file_sizes s' = <[f := n + Z.of_nat (length d)]> (file_sizes s);
  delete_sizes f s s' : file_delete f s = (s', StatusOK) -> file_sizes s' = delete f (file_sizes s) }.

Section size_limit.
Context {F : Type} `{FileEnv F}.

Record DiskCacheSizeLimit := MkSizeLimit {
  m_basePath : text; m_totalSize : Z; m_enforceStrictDataSave : bool }.

(** [DisckCacheSizeLimitWritableFile]: the wrapped file, if any. *)
Record WritableFile := MkWritableFile { m_file : option text }.

Definition PathSeparator : text := [slash].

(** [GetFileSize] *)
Definition GetFileSize (f : text) (s : F) : option Z := file_sizes s !! f.

(** [m_totalSize += size] *)
Definition addSize (size : Z) (e : DiskCacheSizeLimit) : DiskCacheSizeLimit :=
  MkSizeLimit (m_basePath e) (u64 (m_totalSize e + size)) (m_enforceStrictDataSave e).

Definition NewSizeLimit (basePath : text) (enforceStrictDataSave : bool) (s : F) : DiskCacheSizeLimit :=
  let e := MkSizeLimit basePath 0 enforceStrictDataSave in
  match file_children basePath s with
  | None => e
  | Some children =>
    foldl (fun e child =>
      match GetFileSize (basePath ++ PathSeparator ++ child) s with
      | Some size => addSize size e
      | None => e
      end) e children
  end.

(** [isLogFile]: [compare] throws for a name shorter than the suffix. *)
Definition isLogFile (fname : text) : option bool :=
  if decide (length fname < 4)%nat then None
  else Some (bool_decide (drop (length fname - 4) fname = str ".log")).

Definition NewWritableFile (f : text) (e : DiskCacheSizeLimit) (s : F)
    : option (F * Status * WritableFile) :=
  log ← (if m_enforceStrictDataSave e then Some false else isLogFile f);
  if m_enforceStrictDataSave e || negb log then
    let '(s', status) := file_create f s in
    Some (s', status, MkWritableFile (if decide (status = StatusOK) then Some f else None))
  else Some (s, StatusOK, MkWritableFile None).

Definition Append (file : WritableFile) (data : text) (e : DiskCacheSizeLimit) (s : F)
    : DiskCacheSizeLimit * F * Status :=
  match m_file file with
  | None => (e, s, StatusOK)
  | Some f =>
    let e' := addSize (Z.of_nat (length data)) e in
    let '(s', status) := file_append f data s in (e', s', status)
  end.

Definition DeleteFile (f : text) (e : DiskCacheSizeLimit) (s : F) : DiskCacheSizeLimit * F * Status :=
  let e' := match GetFileSize f s with
            | Some size => MkSizeLimit (m_basePath e) (u64 (m_totalSize e - size))
                             (m_enforceStrictDataSave e)
            | None => e
            end in
  let '(s', status) := file_delete f s in (e', s', status).

(** ** Accounting *)

Definition sum_sizes (m : gmap text Z) : Z := map_fold (fun _ size acc => size + acc) 0 m.

(** The counted size is the total size of the files, modulo 2^64. *)
Definition accounted (e : DiskCacheSizeLimit) (s : F) : Prop :=
  m_totalSize e = u64 (sum_sizes (file_sizes s)).

Lemma sum_sizes_insert m f n : m !! f = None -> sum_sizes (<[f := n]> m) = n + sum_sizes m.
Proof.
  intros Hf. unfold sum_sizes. apply (map_fold_insert_L (fun _ size acc => size + acc)); [|done].
  intros; lia.
Qed.

Lemma sum_sizes_delete m f n : m !! f = Some n -> sum_sizes m = n + sum_sizes (delete f m).
Proof.
  intros Hf. rewrite <- (insert_delete_id m f n) at 1 by done.
  apply sum_sizes_insert, lookup_delete_eq.
Qed.

Lemma sum_sizes_update m f n n' :
  m !! f = Some n -> sum_sizes (<[f := n']> m) = sum_sizes m + n' - n.
Proof.
  intros Hf. rewrite (sum_sizes_delete m f n Hf).
  rewrite <- insert_delete_eq, sum_sizes_insert by apply lookup_delete_eq. lia.
Qed.

(** Appending to an existing file, deleting a file and creating a file
    that does not exist keep the counted size equal to the total size of the
    files; re-creating an existing file keeps counting its old content. *)
Theorem size_accounting e s s' f data :
  accounted e s ->
  (forall n, file_sizes s !! f = Some n -> file_append f data s = (s', StatusOK) ->
     accounted (Append (MkWritableFile (Some f)) data e s).1.1
               (Append (MkWritableFile (Some f)) data e s).1.2) /\
  (file_delete f s = (s', StatusOK) ->
     accounted (DeleteFile f e s).1.1 (DeleteFile f e s).1.2) /\
  (file_create f s = (s', StatusOK) -> file_sizes s !! f = None -> accounted e s') /\
  (forall n, file_create f s = (s', StatusOK) -> file_sizes s !! f = Some n ->
     m_totalSize e = u64 (sum_sizes (file_sizes s') + n)).
Proof.
  unfold accounted. intros Hacc. split_and!.
  - intros n Hn E. unfold Append; simpl. rewrite E. simpl.
    rewrite (append_sizes _ _ _ _ _ E Hn), (sum_sizes_update _ _ n) by done.
    rewrite Hacc, wrap_add_l. f_equal. lia.
  - intros E. unfold DeleteFile, GetFileSize. rewrite E. simpl. rewrite (delete_sizes _ _ _ E).
    destruct (file_sizes s !! f) as [n|] eqn:Hf; simpl.
    + rewrite Hacc, wrap_sub_l. rewrite (sum_sizes_delete _ f n Hf). f_equal. lia.
    + by rewrite delete_id.
  - intros E Hf. rewrite (create_sizes _ _ _ E), sum_sizes_insert by done. by rewrite Hacc.
  - intros n E Hf. rewrite (create_sizes _ _ _ E), (sum_sizes_update _ _ n) by done.
    rewrite Hacc. f_equal. lia.
Qed.
End size_limit.

(** ** An environment in memory *)

#[export] Program Instance MapEnv : FileEnv (gmap text Z) := {|
  file_sizes s := s;
  file_children _ s := Some (elements (dom s));
  file_create f s := (<[f := 0]> s, StatusOK);
  file_append f d s := (alter (fun n => n + Z.of_nat (length d)) f s, StatusOK);
  file_delete f s := (delete f s, StatusOK) |}.
Next Obligation. by intros f s s' [= <-]. Qed.
Next Obligation.
  intros f d s s' n [= <-] Hf. apply map_eq. intros k. destruct (decide (k = f)) as [->|].
  - rewrite lookup_alter_eq, lookup_insert_eq, Hf. done.
  - by rewrite lookup_alter_ne, lookup_insert_ne.
Qed.
Next Obligation. by intros f s s' [= <-]. Qed.

Definition sample_files : gmap text Z := {[ str "a" := 5; str "b" := 7 ]}.
Definition sample_env : DiskCacheSizeLimit := MkSizeLimit (str "/db") 12 true.

Definition deleted_files : gmap text Z := delete (str "a") sample_files.

Lemma size_accounting_witness :
  (forall n, file_sizes sample_files !! str "a" = Some n ->
     file_append (str "a") (str "xyz") sample_files = (deleted_files, StatusOK) ->
     accounted (Append (MkWritableFile (Some (str "a"))) (str "xyz") sample_env sample_files).1.1
               (Append (MkWritableFile (Some (str "a"))) (str "xyz") sample_env sample_files).1.2) /\
  (file_delete (str "a") sample_files = (deleted_files, StatusOK) ->
     accounted (DeleteFile (str "a") sample_env sample_files).1.1
               (DeleteFile (str "a") sample_env sample_files).1.2) /\
  (file_create (str "a") sample_files = (deleted_files, StatusOK) ->
     file_sizes sample_files !! str "a" = None -> accounted sample_env deleted_files) /\
  (forall n, file_create (str "a") sample_files = (deleted_files, StatusOK) ->
     file_sizes sample_files !! str "a" = Some n ->
     m_totalSize sample_env = u64 (sum_sizes (file_sizes deleted_files) + n)).
Proof.
  apply (size_accounting sample_env sample_files deleted_files (str "a") (str "xyz")).
  vm_compute. reflexivity.
Defined.
