(* ===== verification/Hrn.v ===== *)
(** * HERE resource names

    [olp-cpp-sdk-core/src/client/HRN.cpp] and its [Tokenizer.h]. *)

From Stdlib Require Import ZArith Lia Bool Ascii.
From stdpp Require Import base numbers strings list.
From S2P Require Import Prelude Decimal.
Local Open Scope Z_scope.
Local Open Scope olp_scope.

(** ** The tokenizer *)

(** [pos] is [None] for [std::string::npos]. *)
Record Tokenizer := MkTokenizer { tok_str : text; tok_pos : option nat; tok_sep : ascii }.

Definition NewTokenizer (input : text) (separator : ascii) : Tokenizer :=
  MkTokenizer input (Some 0%nat) separator.

Definition hasNext (t : Tokenizer) : bool :=
  bool_decide (tok_str t <> []) && bool_decide (is_Some (tok_pos t)).

(** [str.find_first_of(sep, pos)] *)
Definition find_first_of (s : text) (sep : ascii) (pos : nat) : option nat :=
  '(i, _) ← list_find (fun c => c = sep) (drop pos s); Some (pos + i)%nat.

Definition next (t : Tokenizer) : text * Tokenizer :=
  match tok_pos t with
  | None => ([], t)
  | Some begin =>
    match find_first_of (tok_str t) (tok_sep t) begin with
    | None =>
      (* handle last token in string *)
      (drop begin (tok_str t), MkTokenizer (tok_str t) None (tok_sep t))
    | Some separator_position =>
      (take (separator_position - begin) (drop begin (tok_str t)),
       MkTokenizer (tok_str t) (Some (separator_position + 1)%nat) (tok_sep t))
    end
  end.

(** The entire remaining string. *)
Definition tail (t : Tokenizer) : text * Tokenizer :=
  match tok_pos t with
  | None => ([], t)
  | Some begin => (drop begin (tok_str t), MkTokenizer (tok_str t) None (tok_sep t))
  end.

Definition nextUInt64 (t : Tokenizer) : Z * Tokenizer :=
  let '(next_str, t') := next t in (strtoull next_str, t').

(** ** Resource names *)

Inductive ServiceType := Unknown | Data | Schema | Pipeline.

#[global] Instance ServiceType_eq_dec : EqDecision ServiceType.
Proof. solve_decision. Defined.

Record HRN := MkHRN {
  partition : text; service : ServiceType; region : text; account : text;
  catalogId : text; layerId : text;
  groupId : text; schemaName : text; version : text;
  pipelineId : text }.

Definition default_HRN : HRN := MkHRN [] Unknown [] [] [] [] [] [] [] [].

Definition colon : ascii := char_of 58.

Definition ToString (h : HRN) : text :=
  let genericPart := [colon] ++ region h ++ [colon] ++ account h ++ [colon] in
  str "hrn:" ++ partition h ++ [colon] ++
  match service h with
  | Data => str "data" ++ genericPart ++ catalogId h ++
            (if decide (layerId h = []) then [] else [colon] ++ layerId h)
  | Schema => str "schema" ++ genericPart ++ groupId h ++ [colon] ++ schemaName h ++
              [colon] ++ version h
  | Pipeline => str "pipeline" ++ genericPart ++ pipelineId h
  | Unknown => genericPart
  end.

Definition ToCatalogHRNString (h : HRN) : text :=
  if decide (service h = Data) then
    str "hrn:" ++ partition h ++ str ":data:" ++ region h ++ [colon] ++ account h ++ [colon] ++
    catalogId h
  else [].

(** [if (tokenizer.hasNext()) field = tokenizer.next();] *)
Definition next_field (t : Tokenizer) (old : text) : text * Tokenizer :=
  if hasNext t then next t else (old, t).
Definition tail_field (t : Tokenizer) (old : text) : text * Tokenizer :=
  if hasNext t then tail t else (old, t).

(** The service; [None] where the assertion on an invalid one fails. *)
Definition next_service (t : Tokenizer) : option (ServiceType * Tokenizer) :=
  if hasNext t then
    let '(serviceStr, t') := next t in
    if decide (serviceStr = str "data") then Some (Data, t')
    else if decide (serviceStr = str "schema") then Some (Schema, t')
    else if decide (serviceStr = str "pipeline") then Some (Pipeline, t')
    else None
  else Some (Unknown, t).

(** [HRN(const std::string& input)] *)
Definition FromString (input : text) : option HRN :=
  let tokenizer := NewTokenizer input colon in
  if negb (hasNext tokenizer) then Some default_HRN
  else
    let '(protocol, t0) := next tokenizer in
    if decide (protocol = str "http" \/ protocol = str "https") then
      Some (MkHRN (str "catalog-url") Unknown [] [] input [] [] [] [] [])
    else if decide (protocol = str "hrn") then
      let '(partition, t1) := next_field t0 [] in
      '(service, t2) ← next_service t1;
      let '(region, t3) := next_field t2 [] in
      let '(account, t4) := next_field t3 [] in
      match service with
      | Data =>
        let '(catalogId, t5) := next_field t4 [] in
        let '(layerId, _) := tail_field t5 [] in
        Some (MkHRN partition Data region account catalogId layerId [] [] [] [])
      | Schema =>
        let '(groupId, t5) := next_field t4 [] in
        let '(schemaName, t6) := next_field t5 [] in
        let '(version, _) := tail_field t6 [] in
        Some (MkHRN partition Schema region account [] [] groupId schemaName version [])
      | Pipeline =>
        let '(pipelineId, _) := tail_field t4 [] in
        Some (MkHRN partition Pipeline region account [] [] [] [] [] pipelineId)
      | Unknown => Some (MkHRN partition Unknown region account [] [] [] [] [] [])
      end
    else Some default_HRN.

(** [operator==] *)
Definition hrn_eqb (a b : HRN) : bool :=
  bool_decide (partition a = partition b) && bool_decide (service a = service b) &&
  bool_decide (region a = region b) && bool_decide (account a = account b) &&
  match service a with
  | Data => bool_decide (catalogId a = catalogId b) && bool_decide (layerId a = layerId b)
  | Schema => bool_decide (groupId a = groupId b) && bool_decide (schemaName a = schemaName b) &&
              bool_decide (version a = version b)
  | Pipeline => bool_decide (pipelineId a = pipelineId b)
  | Unknown => true
  end.

Definition is_empty (s : text) : bool := match s with [] => true | _ => false end.

Definition IsNull (h : HRN) : bool :=
  is_empty (partition h) && is_empty (region h) && is_empty (account h) &&
  match service h with
  | Data => is_empty (catalogId h) && is_empty (layerId h)
  | Schema => is_empty (groupId h) && is_empty (schemaName h) && is_empty (version h)
  | Pipeline => is_empty (pipelineId h)
  | Unknown => true
  end.

(** ** The tokenizer on what remains of its string *)

Definition remaining (t : Tokenizer) : option text := p ← tok_pos t; Some (drop p (tok_str t)).

Lemma list_find_sep (sep : ascii) (tok r : text) :
  sep ∉ tok -> list_find (fun c => c = sep) (tok ++ sep :: r) = Some (length tok, sep).
Proof.
  intros Hs. apply list_find_Some. split_and!; [|done|].
  - by rewrite lookup_app_r, Nat.sub_diag.
  - intros j y Hy Hj ->. apply Hs. rewrite lookup_app_l in Hy by done.
    by eapply list_elem_of_lookup_2.
Qed.

Lemma next_sep t tok r :
  remaining t = Some (tok ++ tok_sep t :: r) -> tok_sep t ∉ tok ->
  exists t', next t = (tok, t') /\ remaining t' = Some r /\
    tok_str t' = tok_str t /\ tok_sep t' = tok_sep t.
Proof.
  unfold remaining, next, find_first_of. destruct (tok_pos t) as [p|]; [|done].
  cbn [mbind option_bind]. intros [= E] Hs. rewrite E, list_find_sep by done.
  cbn [mbind option_bind].
  exists (MkTokenizer (tok_str t) (Some (p + length tok + 1)%nat) (tok_sep t)).
  split_and!; [| | done | done].
  - f_equal. replace (p + length tok - p)%nat with (length tok) by lia. by rewrite take_app_length.
  - cbn. f_equal. replace (p + length tok + 1)%nat with (p + S (length tok))%nat by lia.
    rewrite <- drop_drop, E, drop_app_ge by lia.
    by replace (S (length tok) - length tok)%nat with 1%nat by lia.
Qed.

Lemma next_last t tok :
  remaining t = Some tok -> tok_sep t ∉ tok ->
  exists t', next t = (tok, t') /\ remaining t' = None /\
    tok_str t' = tok_str t /\ tok_sep t' = tok_sep t.
Proof.
  unfold remaining, next, find_first_of. destruct (tok_pos t) as [p|]; [|done].
  cbn [mbind option_bind]. intros [= E] Hs. rewrite E.
  destruct (list_find (fun c => c = tok_sep t) tok) as [[i x]|] eqn:El.
  - apply list_find_Some in El as (Hi & -> & _). exfalso. apply Hs. by eapply list_elem_of_lookup_2.
  - cbn. by eexists.
Qed.

Lemma tail_all t r : remaining t = Some r -> (tail t).1 = r.
Proof. unfold remaining, tail. destruct (tok_pos t); [|done]. by intros [= ->]. Qed.

Lemma hasNext_remaining t r : remaining t = Some r -> tok_str t <> [] -> hasNext t = true.
Proof.
  unfold remaining, hasNext. intros Hr Hs. rewrite !bool_decide_true; [done| |done].
  destruct (tok_pos t); [by eexists|done].
Qed.

Lemma hasNext_none t : remaining t = None -> hasNext t = false.
Proof.
  unfold remaining, hasNext. destruct (tok_pos t); [done|]. intros _.
  rewrite andb_comm. rewrite bool_decide_false; [done|]. by intros [].
Qed.

(** ** Parsing what was printed *)

(** A tokenizer over an HRN string with [r] left to read. *)
Definition reading (t : Tokenizer) (r : option text) : Prop :=
  tok_str t <> [] /\ tok_sep t = colon /\ remaining t = r.

Lemma field_sep t tok r old :
  reading t (Some (tok ++ colon :: r)) -> colon ∉ tok ->
  exists t', next_field t old = (tok, t') /\ reading t' (Some r).
Proof.
  intros (Hs & Hc & Hr) Hn. unfold next_field. rewrite (hasNext_remaining _ _ Hr Hs).
  rewrite <- Hc in Hr, Hn. destruct (next_sep _ _ _ Hr Hn) as (t' & -> & Hr' & Hs' & Hc').
  exists t'. split; [done|]. split_and!; congruence.
Qed.

Lemma field_last t tok old :
  reading t (Some tok) -> colon ∉ tok ->
  exists t', next_field t old = (tok, t') /\ reading t' None.
Proof.
  intros (Hs & Hc & Hr) Hn. unfold next_field. rewrite (hasNext_remaining _ _ Hr Hs).
  rewrite <- Hc in Hn. destruct (next_last _ _ Hr Hn) as (t' & -> & Hr' & Hs' & Hc').
  exists t'. split; [done|]. split_and!; congruence.
Qed.

Lemma field_tail t r old : reading t (Some r) -> (tail_field t old).1 = r.
Proof.
  intros (Hs & _ & Hr). unfold tail_field. rewrite (hasNext_remaining _ _ Hr Hs).
  by apply tail_all.
Qed.

Lemma field_tail_none t old : reading t None -> (tail_field t old).1 = old.
Proof. intros (_ & _ & Hr). unfold tail_field. by rewrite (hasNext_none _ Hr). Qed.

Definition service_name (s : ServiceType) : text :=
  match s with Data => str "data" | Schema => str "schema" | Pipeline => str "pipeline"
             | Unknown => [] end.

Lemma service_sep t s r :
  reading t (Some (service_name s ++ colon :: r)) -> s <> Unknown ->
  exists t', next_service t = Some (s, t') /\ reading t' (Some r).
Proof.
  intros (Hs & Hc & Hr) Hu. unfold next_service. rewrite (hasNext_remaining _ _ Hr Hs).
  rewrite <- Hc in Hr. assert (tok_sep t ∉ service_name s) as Hn
    by (rewrite Hc; apply (bool_decide_unpack _); by destruct s; vm_compute).
  destruct (next_sep _ _ _ Hr Hn) as (t' & -> & Hr' & Hs' & Hc').
  exists t'. split; [by destruct s|]. split_and!; congruence.
Qed.

(** The fields that the text of the service's kind of resource holds; all but
    the last one are free of colons, the others are empty. *)
Definition well_formed (h : HRN) : Prop :=
  (colon ∉ partition h) /\ (colon ∉ region h) /\ (colon ∉ account h) /\
  match service h with
  | Data => (colon ∉ catalogId h) /\ groupId h = [] /\ schemaName h = [] /\ version h = [] /\
            pipelineId h = []
  | Schema => (colon ∉ groupId h) /\ (colon ∉ schemaName h) /\ catalogId h = [] /\ layerId h = [] /\
              pipelineId h = []
  | Pipeline => catalogId h = [] /\ layerId h = [] /\ groupId h = [] /\ schemaName h = [] /\
                version h = []
  | Unknown => False
  end.

(** The common part of the text. *)
Lemma ToString_parts h rest :
  str "hrn:" ++ partition h ++ [colon] ++ service_name (service h) ++
    ([colon] ++ region h ++ [colon] ++ account h ++ [colon]) ++ rest =
  str "hrn" ++ colon :: partition h ++ colon :: service_name (service h) ++
    colon :: region h ++ colon :: account h ++ colon :: rest.
Proof. simpl. rewrite <- !app_assoc. simpl. rewrite <- !app_assoc. done. Qed.

Lemma read_header p s r a rest :
  s <> Unknown -> colon ∉ p -> colon ∉ r -> colon ∉ a ->
  exists t0 t1 t2 t3 t4,
    next (NewTokenizer (str "hrn" ++ colon :: p ++ colon :: service_name s ++
      colon :: r ++ colon :: a ++ colon :: rest) colon) = (str "hrn", t0) /\
    next_field t0 [] = (p, t1) /\ next_service t1 = Some (s, t2) /\
    next_field t2 [] = (r, t3) /\ next_field t3 [] = (a, t4) /\ reading t4 (Some rest).
Proof.
  intros Hs Hp Hr Ha. set (input := str "hrn" ++ _).
  assert (reading (NewTokenizer input colon) (Some input)) as H0 by done.
  assert (colon ∉ str "hrn") as Hh by (apply (bool_decide_unpack _); by vm_compute).
  destruct (field_sep _ _ _ [] H0 Hh) as (t0 & E0 & H1).
  assert (next_field (NewTokenizer input colon) [] = next (NewTokenizer input colon)) as E by done.
  rewrite E in E0. clear E.
  destruct (field_sep _ _ _ [] H1 Hp) as (t1 & E1 & H2).
  destruct (service_sep _ _ _ H2 Hs) as (t2 & E2 & H3).
  destruct (field_sep _ _ _ [] H3 Hr) as (t3 & E3 & H4).
  destruct (field_sep _ _ _ [] H4 Ha) as (t4 & E4 & H5).
  by exists t0, t1, t2, t3, t4.
Qed.

(** C40.  A resource name of a known service whose separated fields hold no
    colon is recovered from its text; its catalog name is recovered from the
    catalog text, and equality distinguishes names with different text. *)
Theorem hrn_roundtrip h :
  well_formed h ->
  FromString (ToString h) = Some h /\
  (service h = Data ->
     FromString (ToCatalogHRNString h) =
     Some (MkHRN (partition h) Data (region h) (account h) (catalogId h) [] [] [] [] [])) /\
  (forall h', well_formed h' -> hrn_eqb h h' = true <-> ToString h = ToString h').
Proof.
  assert (forall h, well_formed h -> FromString (ToString h) = Some h) as Hrt.
  { intros [p s r a c l g n v i] (Hp & Hr & Ha & Hw); simpl in *.
    assert (s <> Unknown) as Hs by by destruct s.
    set (rest := match s with
      | Data => c ++ (if decide (l = []) then [] else [colon] ++ l)
      | Schema => g ++ [colon] ++ n ++ [colon] ++ v | Pipeline => i | Unknown => [] end).
    replace (ToString _) with (str "hrn" ++ colon :: p ++ colon :: service_name s ++
      colon :: r ++ colon :: a ++ colon :: rest).
    2:{ unfold ToString; simpl. destruct s; [done| | |]; simpl; rewrite <- !app_assoc; simpl;
        rewrite <- ?app_assoc; done. }
    destruct (read_header p s r a rest Hs Hp Hr Ha) as (t0 & t1 & t2 & t3 & t4 & E0 & E1 & E2 & E3 & E4 & H5).
    unfold FromString. cbn [negb hasNext]. rewrite E0.
    rewrite decide_False, decide_True by (done || by intros []).
    rewrite E1, E2. cbn [mbind option_bind]. rewrite E3, E4.
    destruct s; [done | | |]; unfold rest in H5.
    - destruct Hw as (Hc & -> & -> & -> & ->). destruct (decide (l = [])) as [->|Hl].
      + rewrite app_nil_r in H5. destruct (field_last _ _ [] H5 Hc) as (t5 & -> & H6).
        pose proof (field_tail_none t5 [] H6). destruct (tail_field t5 []); simpl in *. by subst.
      + destruct (field_sep _ _ _ [] H5 Hc) as (t5 & -> & H6).
        pose proof (field_tail t5 _ [] H6). destruct (tail_field t5 []); simpl in *. by subst.
    - destruct Hw as (Hg & Hn & -> & -> & ->).
      destruct (field_sep _ _ _ [] H5 Hg) as (t5 & -> & H6).
      destruct (field_sep _ _ _ [] H6 Hn) as (t6 & -> & H7).
      pose proof (field_tail t6 _ [] H7). destruct (tail_field t6 []); simpl in *. by subst.
    - destruct Hw as (-> & -> & -> & -> & ->).
      pose proof (field_tail t4 _ [] H5). destruct (tail_field t4 []); simpl in *. by subst. }
  intros Hw. split_and!; [by apply Hrt| |].
  - destruct h as [p s r a c l g n v i]; simpl; intros ->.
    rewrite <- (Hrt (MkHRN p Data r a c [] [] [] [] [])).
    + f_equal. unfold ToString, ToCatalogHRNString; simpl. rewrite <- !app_assoc. simpl.
      rewrite <- !app_assoc. simpl. by rewrite app_nil_r.
    + destruct Hw as (? & ? & ? & ? & _). by split_and!.
  - intros h' Hw'. split; intros E.
    + f_equal. destruct h, h'. unfold hrn_eqb in E; simpl in *.
      rewrite !andb_true_iff, !bool_decide_eq_true in E.
      destruct E as ((((-> & ->) & ->) & ->) & E).
      destruct Hw as (_ & _ & _ & Hw), Hw' as (_ & _ & _ & Hw'); simpl in *.
      destruct service1; [done| | |]; rewrite ?andb_true_iff, !bool_decide_eq_true in E;
        intuition congruence.
    + assert (h = h') as -> by (apply Hrt in Hw, Hw'; congruence).
      destruct h'. unfold hrn_eqb; simpl. rewrite !bool_decide_true by done.
      by destruct service0.
Qed.

Definition sample_hrn : HRN :=
  MkHRN (str "here") Data (str "eu") (str "acc") (str "cat") (str "la:yer") [] [] [] [].

Lemma hrn_roundtrip_witness :
  FromString (ToString sample_hrn) = Some sample_hrn /\
  (service sample_hrn = Data ->
     FromString (ToCatalogHRNString sample_hrn) =
     Some (MkHRN (str "here") Data (str "eu") (str "acc") (str "cat") [] [] [] [] [])) /\
  (forall h', well_formed h' -> hrn_eqb sample_hrn h' = true <-> ToString sample_hrn = ToString h').
Proof.
  apply (hrn_roundtrip sample_hrn). unfold well_formed.
  split_and!; try done; apply (bool_decide_unpack _); by vm_compute.
Defined.
