(* ===== verification/Url.v ===== *)
(** * Percent encoding

    [olp-cpp-sdk-core/src/utils/Url.cpp]. *)

From Stdlib Require Import ZArith Lia Bool Ascii.
From stdpp Require Import base numbers strings list.
From S2P Require Import Prelude Decimal Http.
Local Open Scope Z_scope.
Local Open Scope olp_scope.

Definition in_chars (lo hi : Z) (c : ascii) : bool := (lo <=? char_code c) && (char_code c <=? hi).

(** [isxdigit] *)
Definition is_hex_digit (c : ascii) : bool :=
  in_chars 48 57 c || in_chars 65 70 c || in_chars 97 102 c.

Definition hex_value (c : ascii) : Z :=
  if in_chars 48 57 c then char_code c - 48
  else if in_chars 65 70 c then char_code c - 55 else char_code c - 87.

(** The digits of [hexStr] read by a [std::hex] stream. *)
Definition hex_to_uint (hexStr : text) : Z := foldl (fun acc c => 16 * acc + hex_value c) 0 hexStr.

Definition percent : ascii := char_of 37.
Definition plus_char : ascii := char_of 43.
Definition space_char : ascii := char_of 32.

(** Whether an escape starts at [read_idx], evaluated left to right; [None] is
    an access beyond the terminating NUL. *)
Definition escape_at (s : text) (read_idx : Z) : option bool :=
  if negb (read_idx <? u64 (Z.of_nat (length s) - 2)) then Some false
  else
    c0 ← char_at s read_idx;
    if negb (bool_decide (c0 = percent)) then Some false
    else
      c1 ← char_at s (u32 (read_idx + 1));
      if negb (is_hex_digit c1) then Some false
      else c2 ← char_at s (u32 (read_idx + 2)); Some (is_hex_digit c2).

(** The loop, with the [unsigned int] index; every iteration advances it. *)
Fixpoint decode_loop (fuel : nat) (s : text) (read_idx : Z) (out : text) : option text :=
  if read_idx <? Z.of_nat (length s) then
    match fuel with
    | O => None
    | S n =>
      escape ← escape_at s read_idx;
      if (escape : bool) then
        c1 ← char_at s (u32 (read_idx + 1));
        c2 ← char_at s (u32 (read_idx + 2));
        decode_loop n s (u32 (read_idx + 3)) (out ++ [char_of (u8 (hex_to_uint [c1; c2]))])
      else
        c ← char_at s read_idx;
        decode_loop n s (u32 (read_idx + 1))
          (out ++ [if decide (c = plus_char) then space_char else c])
    end
  else Some out.

(** As many iterations as characters are enough. *)
Definition Decode (s : text) : option text := decode_loop (length s) s 0 [].

(** Letters, digits and [.-~_] stand for themselves. *)
Definition is_unreserved (c : ascii) : bool :=
  in_chars 97 122 c || in_chars 65 90 c || in_chars 48 57 c ||
  (char_code c =? 46) || (char_code c =? 45) || (char_code c =? 126) || (char_code c =? 95).

Definition hex_digit (d : Z) : ascii := if d <? 10 then char_of (48 + d) else char_of (55 + d).

(** [snprintf("%%%.2X")] *)
Definition escape (c : ascii) : text :=
  [percent; hex_digit (char_code c / 16); hex_digit (char_code c mod 16)].

Definition encode_char (c : ascii) : text := if is_unreserved c then [c] else escape c.

Fixpoint Encode (s : text) : text :=
  match s with
  | [] => []
  | c :: s' => encode_char c ++ Encode s'
  end.

(** ** Round trip *)

Lemma char_at_app (p s : text) c (r : text) :
  s = p ++ c :: r -> char_at s (Z.of_nat (length p)) = Some c.
Proof.
  intros ->. rewrite char_at_lookup by (rewrite length_app; simpl; lia).
  by rewrite lookup_app_r, Nat.sub_diag.
Qed.

Lemma escape_digits c :
  is_hex_digit (hex_digit (char_code c / 16)) = true /\
  is_hex_digit (hex_digit (char_code c mod 16)) = true /\
  char_of (u8 (hex_to_uint [hex_digit (char_code c / 16); hex_digit (char_code c mod 16)])) = c.
Proof. by destruct c as [[] [] [] [] [] [] [] []]; vm_compute. Qed.

Lemma digits_unreserved c :
  is_unreserved (hex_digit (char_code c / 16)) = true /\
  is_unreserved (hex_digit (char_code c mod 16)) = true.
Proof. by destruct c as [[] [] [] [] [] [] [] []]; vm_compute. Qed.

Lemma unreserved_plain c : is_unreserved c = true -> c <> percent /\ c <> plus_char.
Proof. intros Hu; split; intros ->; vm_compute in Hu; done. Qed.

Lemma decode_char n s p c r out :
  s = p ++ encode_char c ++ r -> Z.of_nat (length s) < 2 ^ 32 ->
  decode_loop (S n) s (Z.of_nat (length p)) out =
  decode_loop n s (Z.of_nat (length (p ++ encode_char c))) (out ++ [c]).
Proof.
  intros Hs Hlen. assert (length s = length p + length (encode_char c) + length r)%nat as Hl
    by (rewrite Hs, !length_app; lia).
  cbn [decode_loop]. unfold encode_char, escape_at in *. rewrite length_app.
  destruct (is_unreserved c) eqn:Hu; simpl length in *.
  - replace (Z.of_nat (length p) <? Z.of_nat (length s)) with true by lia.
    destruct (unreserved_plain c Hu) as [Hp Hq].
    rewrite (char_at_app p s c r) by done.
    match goal with |- (e ← ?x; _) = _ => assert (x = Some false) as -> end.
    { destruct (negb _); [done|]. cbn [mbind option_bind]. by rewrite bool_decide_false. }
    cbn [mbind option_bind]. rewrite decide_False by done.
    rewrite wrap_small by (unfold in_range; lia). f_equal. lia.
  - replace (Z.of_nat (length p) <? Z.of_nat (length s)) with true by lia.
    rewrite (wrap_small 64) by (unfold in_range; lia).
    replace (Z.of_nat (length p) <? Z.of_nat (length s) - 2) with true by lia. cbn [negb].
    destruct (escape_digits c) as (Hd1 & Hd2 & Hc).
    unfold escape in Hs. rewrite !wrap_small by (unfold in_range; lia).
    replace (Z.of_nat (length p) + 1) with (Z.of_nat (length (p ++ [percent])))
      by (rewrite length_app; simpl; lia).
    replace (Z.of_nat (length p) + 2)
      with (Z.of_nat (length (p ++ [percent; hex_digit (char_code c / 16)])))
      by (rewrite length_app; simpl; lia).
    rewrite (char_at_app p s _ _ Hs).
    rewrite (char_at_app (p ++ [percent]) s (hex_digit (char_code c / 16))
      (hex_digit (char_code c mod 16) :: r)) by (rewrite Hs, <- app_assoc; done).
    rewrite (char_at_app (p ++ [percent; hex_digit (char_code c / 16)]) s
      (hex_digit (char_code c mod 16)) r) by (rewrite Hs, <- app_assoc; done).
    cbn [mbind option_bind]. rewrite bool_decide_true, Hd1, Hd2 by done.
    cbn [mbind option_bind negb]. rewrite Hc. f_equal. lia.
Qed.

Lemma decode_loop_encode n s p s' out :
  s = p ++ Encode s' -> Z.of_nat (length s) < 2 ^ 32 -> (length s' <= n)%nat ->
  decode_loop n s (Z.of_nat (length p)) out = Some (out ++ s').
Proof.
  revert n p out. induction s' as [|c s' IH]; intros n p out Hs Hlen Hn; cbn [Encode length] in *.
  - rewrite app_nil_r in *. subst p. destruct n; cbn [decode_loop]; by rewrite Z.ltb_irrefl.
  - destruct n as [|n]; [lia|]. rewrite (decode_char n s p c (Encode s')) by done.
    rewrite IH; [by rewrite <- app_assoc | by rewrite <- app_assoc | done | lia].
Qed.

Lemma encode_length s : (length s <= length (Encode s))%nat.
Proof.
  induction s as [|c s IH]; simpl; [lia|]. rewrite length_app. unfold encode_char.
  destruct (is_unreserved c); simpl; lia.
Qed.

(** Decoding an encoded text gives the text back, for encoded texts
    shorter than 2^32 (the index is an [unsigned int]), and an encoded text
    holds only unreserved characters and the percent sign. *)
Theorem url_roundtrip s :
  Z.of_nat (length (Encode s)) < 2 ^ 32 ->
  Decode (Encode s) = Some s /\
  Forall (fun c => is_unreserved c = true \/ c = percent) (Encode s).
Proof.
  intros Hlen. split.
  - unfold Decode. change 0 with (Z.of_nat (length (@nil ascii))).
    rewrite (decode_loop_encode _ (Encode s) [] s []); [done | done | done | apply encode_length].
  - clear Hlen. induction s as [|c s IH]; [constructor|]. cbn [Encode]. apply Forall_app. split; [|done].
    unfold encode_char. destruct (is_unreserved c) eqn:E; [by constructor; [left|]|].
    destruct (digits_unreserved c) as [H1 H2]. unfold escape.
    repeat apply Forall_cons_2; [by right | by left | by left | constructor].
Qed.

Lemma url_roundtrip_witness :
  Decode (Encode (str "a b&c+%41/~")) = Some (str "a b&c+%41/~") /\
  Forall (fun c => is_unreserved c = true \/ c = percent) (Encode (str "a b&c+%41/~")).
Proof. apply (url_roundtrip (str "a b&c+%41/~")). vm_compute. reflexivity. Defined.
