(* ===== verification/PriorityQueue.v ===== *)
(** * Network requests and their priority queue

    [olp-cpp-sdk-core/src/network/NetworkRequest.cpp] and
    [NetworkRequestPriorityQueue]: one queue per priority, first in first out
    within a priority. *)

From Stdlib Require Import ZArith Lia Bool Ascii.
From stdpp Require Import base numbers strings list.
From S2P Require Import Prelude Decimal.
Local Open Scope Z_scope.

(** ** Requests *)

Inductive HttpVerb := GET | POST | HEAD | PUT | DEL | PATCH.

Definition PriorityMin : Z := 0.
Definition PriorityDefault : Z := 2.
Definition PriorityMax : Z := 5.

Record NetworkRequest := MkNetworkRequest {
  url_ : text;
  modified_since_ : Z;
  extra_headers_ : list (text * text);
  content_ : option text;
  verb_ : HttpVerb;
  priority_ : Z;
  ignore_offset_ : bool;
  get_statistics_ : bool }.

Definition clamp_priority (priority : Z) : Z :=
  if priority <? PriorityMin then PriorityMin
  else if priority >? PriorityMax then PriorityMax
  else priority.

Definition SetPriority (priority : Z) (r : NetworkRequest) : NetworkRequest :=
  MkNetworkRequest (url_ r) (modified_since_ r) (extra_headers_ r) (content_ r) (verb_ r)
    (clamp_priority priority) (ignore_offset_ r) (get_statistics_ r).

Definition NewNetworkRequest (url : text) (modified_since priority : Z) (verb : HttpVerb)
    : NetworkRequest :=
  SetPriority priority (MkNetworkRequest url modified_since [] None verb PriorityDefault false false).

Definition with_headers (h : list (text * text)) (r : NetworkRequest) : NetworkRequest :=
  MkNetworkRequest (url_ r) (modified_since_ r) h (content_ r) (verb_ r) (priority_ r)
    (ignore_offset_ r) (get_statistics_ r).

Definition AddHeader (name value : text) (r : NetworkRequest) : NetworkRequest :=
  with_headers (extra_headers_ r ++ [(name, value)]) r.

Definition RemoveHeader (condition : text * text -> bool) (r : NetworkRequest) : NetworkRequest :=
  with_headers (filter (fun h => condition h = false) (extra_headers_ r)) r.

Definition RemoveHeaderByName (name_to_remove : text) (r : NetworkRequest) : NetworkRequest :=
  RemoveHeader (fun name_and_value => bool_decide (name_to_remove = name_and_value.1)) r.

(** [RequestContext]: the request and its id; the streams, the configuration and
    the callbacks are named by the id. *)
Record RequestContext := MkRequestContext { request_ : NetworkRequest; id_ : Z }.

(** ** The queue *)

(** [requests_]: an array of one deque per priority. *)
Definition kArraySize : nat := Z.to_nat (PriorityMax - PriorityMin + 1).

Record PriorityQueue := MkPriorityQueue { requests_ : list (list RequestContext) }.

Definition NewPriorityQueue : PriorityQueue := MkPriorityQueue (repeat [] kArraySize).

(** Indexing with a priority outside the array is undefined. *)
Definition Push (context : RequestContext) (q : PriorityQueue) : option PriorityQueue :=
  let p := priority_ (request_ context) in
  if p <? 0 then None
  else
    d ← requests_ q !! Z.to_nat p;
    Some (MkPriorityQueue (<[Z.to_nat p := d ++ [context]]> (requests_ q))).

(** The loop of [Pop] over the priorities [i - 1 .. 0]. *)
Fixpoint pop_from (i : nat) (q : PriorityQueue) : option (RequestContext * PriorityQueue) :=
  match i with
  | O => None
  | S n =>
    match requests_ q !! n with
    | Some (ctx :: rest) => Some (ctx, MkPriorityQueue (<[n := rest]> (requests_ q)))
    | _ => pop_from n q
    end
  end.

Definition Pop (q : PriorityQueue) : option (RequestContext * PriorityQueue) :=
  pop_from kArraySize q.

Definition Size (q : PriorityQueue) : nat := foldl (fun count d => count + length d)%nat 0%nat (requests_ q).

(** The removed requests, by priority, and the queue without them. *)
Definition RemoveIf (f : RequestContext -> bool) (q : PriorityQueue)
    : list RequestContext * PriorityQueue :=
  (mjoin ((fun d => filter (fun c => f c = true) d) <$> requests_ q),
   MkPriorityQueue ((fun d => filter (fun c => f c = false) d) <$> requests_ q)).

(** ** Well-formed queues *)

(** The requests of one priority, oldest first. *)
Definition at_priority (q : PriorityQueue) (p : nat) : list RequestContext :=
  default [] (requests_ q !! p).

(** Every deque holds the requests of its priority. *)
Record queue_ok (q : PriorityQueue) : Prop := {
  queue_length : length (requests_ q) = kArraySize;
  queue_priority : forall p c, c ∈ at_priority q p -> priority_ (request_ c) = Z.of_nat p }.

(** The requests, highest priority first, oldest first within a priority. *)
Definition pending (q : PriorityQueue) : list RequestContext := mjoin (reverse (requests_ q)).

Definition request_ok (r : NetworkRequest) : Prop := PriorityMin <= priority_ r <= PriorityMax.

Lemma clamp_range p : PriorityMin <= clamp_priority p <= PriorityMax.
Proof.
  unfold clamp_priority, PriorityMin, PriorityMax.
  destruct (Z.ltb_spec p 0); [lia|]. rewrite Z.gtb_ltb. destruct (Z.ltb_spec 5 p); lia.
Qed.

Lemma pending_insert q p d1 d2 c (n : nat) :
  requests_ q !! n = Some d1 -> p = MkPriorityQueue (<[n := d2]> (requests_ q)) ->
  d1 = c :: d2 -> (forall m, (n < m)%nat -> at_priority q m = []) ->
  pending q = c :: pending p.
Proof.
  intros Hn -> -> Hhi. unfold pending, at_priority in *; simpl.
  apply list_elem_of_split_length in Hn as (l1 & l2 & E & Hl). rewrite E in *.
  rewrite insert_app_r_alt, Hl, Nat.sub_diag by lia. simpl.
  assert (mjoin (reverse l2) = []) as E2.
  { assert (Forall (fun d => d = []) l2) as Hall.
    { apply Forall_lookup. intros i d Hi. specialize (Hhi (n + S i)%nat ltac:(lia)).
      rewrite lookup_app_r, Hl in Hhi by lia. replace (length l1 + S i - length l1)%nat with (S i) in Hhi by lia.
      simpl in Hhi. by rewrite Hi in Hhi. }
    clear -Hall. induction l2 as [|d l2 IH] using rev_ind; [done|].
    apply Forall_app in Hall as [H1 H2]. apply Forall_cons in H2 as [-> _].
    rewrite reverse_snoc. simpl. by apply IH. }
  rewrite !reverse_app, !reverse_cons, !join_app, E2. simpl. done.
Qed.

Lemma pop_from_spec q i :
  queue_ok q -> (i <= kArraySize)%nat -> (forall m, (i <= m)%nat -> at_priority q m = []) ->
  match pop_from i q with
  | Some (c, q') => pending q = c :: pending q' /\ queue_ok q'
  | None => pending q = []
  end.
Proof.
  intros Hq. induction i as [|n IH]; intros Hi Hhi; cbn [pop_from].
  - unfold pending. destruct q as [ds]; simpl in *.
    assert (Forall (fun d => d = []) ds) as Hall.
    { apply Forall_lookup. intros m d Hm. specialize (Hhi m ltac:(lia)).
      unfold at_priority in Hhi; simpl in Hhi. by rewrite Hm in Hhi. }
    clear -Hall. induction ds as [|d ds IH] using rev_ind; [done|].
    apply Forall_app in Hall as [H1 H2]. apply Forall_cons in H2 as [-> _].
    rewrite reverse_snoc. simpl. by apply IH.
  - destruct (requests_ q !! n) as [[|c d]|] eqn:E.
    + apply IH; [lia|]. intros m Hm. destruct (decide (m = n)) as [->|]; [|apply Hhi; lia].
      unfold at_priority. by rewrite E.
    + split.
      * eapply pending_insert; [done|done|done|]. intros m Hm. apply Hhi. lia.
      * split; simpl; [rewrite length_insert; apply Hq|].
        intros p c' Hc'. unfold at_priority in Hc'; simpl in Hc'.
        apply (queue_priority q Hq). unfold at_priority.
        destruct (decide (p = n)) as [->|Hne].
        -- rewrite list_lookup_insert_eq in Hc' by (by eapply lookup_lt_Some). simpl in Hc'.
           rewrite E. simpl. by right.
        -- by rewrite list_lookup_insert_ne in Hc'.
    + apply IH; [lia|]. intros m Hm. destruct (decide (m = n)) as [->|]; [|apply Hhi; lia].
      unfold at_priority. by rewrite E.
Qed.

Lemma Pop_spec q :
  queue_ok q ->
  match Pop q with
  | Some (c, q') => pending q = c :: pending q' /\ queue_ok q'
  | None => pending q = []
  end.
Proof.
  intros Hq. apply pop_from_spec; [done|done|]. intros m Hm.
  unfold at_priority. rewrite lookup_ge_None_2; [done|]. by rewrite (queue_length q Hq).
Qed.

Lemma queue_split q p :
  queue_ok q -> PriorityMin <= p <= PriorityMax ->
  exists l1 d l2, requests_ q = l1 ++ d :: l2 /\ length l1 = Z.to_nat p /\
    requests_ q !! Z.to_nat p = Some d.
Proof.
  intros Hq Hp. unfold PriorityMin, PriorityMax in Hp.
  destruct (lookup_lt_is_Some_2 (requests_ q) (Z.to_nat p)) as [d Hd].
  { rewrite (queue_length q Hq). unfold kArraySize, PriorityMax, PriorityMin. lia. }
  pose proof Hd as Hd'. apply list_elem_of_split_length in Hd' as (l1 & l2 & E & Hl).
  by exists l1, d, l2.
Qed.

(** The requests in a run of deques starting at the priority [n]. *)
Lemma run_priority q l1 l2 c :
  queue_ok q -> requests_ q = l1 ++ l2 ->
  (c ∈ mjoin (reverse l2) -> Z.of_nat (length l1) <= priority_ (request_ c)) /\
  (c ∈ mjoin (reverse l1) -> priority_ (request_ c) < Z.of_nat (length l1)).
Proof.
  intros Hq E. split; intros (d & Hc & Hd)%list_elem_of_join;
    rewrite elem_of_reverse in Hd; apply list_elem_of_lookup in Hd as [i Hi].
  - assert (at_priority q (length l1 + i) = d) as Hat.
    { unfold at_priority. rewrite E, lookup_app_r by lia.
      replace (length l1 + i - length l1)%nat with i by lia. by rewrite Hi. }
    rewrite (queue_priority q Hq (length l1 + i) c); [lia|]. by rewrite Hat.
  - pose proof (lookup_lt_Some _ _ _ Hi). assert (at_priority q i = d) as Hat.
    { unfold at_priority. rewrite E, lookup_app_l by done. by rewrite Hi. }
    rewrite (queue_priority q Hq i c); [lia|]. by rewrite Hat.
Qed.

Lemma list_filter_none {A} (P : A -> Prop) `{forall x, Decision (P x)} (l : list A) :
  Forall (fun x => ~ P x) l -> filter P l = [].
Proof. induction 1 as [|x l Hx _ IH]; [done|]. by rewrite filter_cons_False. Qed.

Lemma Push_spec q c :
  queue_ok q -> request_ok (request_ c) ->
  exists q', Push c q = Some q' /\ queue_ok q' /\
    pending q' =
      filter (fun x => priority_ (request_ c) <= priority_ (request_ x)) (pending q) ++ [c] ++
      filter (fun x => priority_ (request_ x) < priority_ (request_ c)) (pending q).
Proof.
  intros Hq Hc. set (p := priority_ (request_ c)).
  destruct (queue_split q p Hq Hc) as (l1 & d & l2 & E & Hl & Hd).
  unfold Push. fold p. unfold request_ok, PriorityMin in Hc.
  destruct (Z.ltb_spec p 0); [unfold p in *; lia|]. rewrite Hd. cbn [mbind option_bind].
  eexists. split; [done|]. split.
  - split; simpl; [rewrite length_insert; apply Hq|]. intros n x Hx.
    unfold at_priority in Hx; simpl in Hx. destruct (decide (n = Z.to_nat p)) as [->|Hne].
    + rewrite list_lookup_insert_eq in Hx by (by eapply lookup_lt_Some). simpl in Hx.
      apply elem_of_app in Hx as [Hx| ->%list_elem_of_singleton]; [|fold p; lia].
      apply (queue_priority q Hq). unfold at_priority. by rewrite Hd.
    + rewrite list_lookup_insert_ne in Hx by done. by apply (queue_priority q Hq).
  - unfold pending; simpl. rewrite E, insert_app_r_alt, Hl, Nat.sub_diag by lia. simpl.
    rewrite !reverse_app, !reverse_cons, !join_app. simpl. rewrite !app_nil_r, !filter_app.
    assert (forall x, x ∈ mjoin (reverse l2) \/ x ∈ d -> p <= priority_ (request_ x)) as Hhi.
    { intros x Hx. destruct (run_priority q l1 (d :: l2) x Hq E) as [H1 _].
      rewrite Hl, Z2Nat.id in H1 by done. apply H1.
      rewrite reverse_cons, join_app, elem_of_app. simpl. rewrite app_nil_r. tauto. }
    assert (forall x, x ∈ mjoin (reverse l1) -> priority_ (request_ x) < p) as Hlo.
    { intros x Hx. destruct (run_priority q l1 (d :: l2) x Hq E) as [_ H2].
      rewrite Hl, Z2Nat.id in H2 by done. by apply H2. }
    rewrite !(list_filter_all (fun x => p <= _)) by (apply Forall_forall; intros; apply Hhi; auto).
    rewrite (list_filter_none (fun x => p <= priority_ (request_ x)) (mjoin (reverse l1)))
      by (apply Forall_forall; intros x Hx; specialize (Hlo x Hx); lia).
    rewrite (list_filter_none (fun x => priority_ (request_ x) < p) (mjoin (reverse l2)))
      by (apply Forall_forall; intros x Hx; specialize (Hhi x (or_introl Hx)); lia).
    rewrite (list_filter_none (fun x => priority_ (request_ x) < p) d)
      by (apply Forall_forall; intros x Hx; specialize (Hhi x (or_intror Hx)); lia).
    rewrite (list_filter_all (fun x => priority_ (request_ x) < p) (mjoin (reverse l1)))
      by (apply Forall_forall; intros; by apply Hlo).
    by rewrite app_nil_r, <- !app_assoc.
Qed.

Lemma Size_pending q : Size q = length (pending q).
Proof.
  unfold Size, pending. destruct q as [ds]; simpl.
  assert (forall ds n, foldl (fun count d => count + length d)%nat n ds =
            (n + length (mjoin (reverse ds) : list RequestContext))%nat) as Hs.
  { clear. induction ds as [|d ds IH]; intros n; simpl; [lia|].
    rewrite IH, reverse_cons, join_app, length_app. simpl. rewrite app_nil_r. lia. }
  rewrite Hs. lia.
Qed.

Lemma filter_mjoin {A} (P : A -> Prop) `{forall x, Decision (P x)} (ds : list (list A)) :
  filter P (mjoin ds) = mjoin (filter P <$> ds).
Proof. induction ds as [|d ds IH]; simpl; [done|]. by rewrite filter_app, IH. Qed.

Lemma mjoin_reverse_perm {A} (ds : list (list A)) : mjoin ds ≡ₚ mjoin (reverse ds).
Proof.
  induction ds as [|d ds IH]; simpl; [done|]. rewrite reverse_cons, join_app. simpl.
  rewrite app_nil_r, IH. apply Permutation_app_comm.
Qed.

Lemma RemoveIf_spec f q :
  queue_ok q ->
  let '(removed, q') := RemoveIf f q in
  pending q' = filter (fun c => f c = false) (pending q) /\
  removed ≡ₚ filter (fun c => f c = true) (pending q) /\ queue_ok q'.
Proof.
  intros Hq. unfold RemoveIf, pending; simpl. split_and!.
  - by rewrite <- fmap_reverse, filter_mjoin.
  - rewrite filter_mjoin, fmap_reverse. apply mjoin_reverse_perm.
  - split; simpl; [rewrite length_fmap; apply Hq|]. intros p c.
    unfold at_priority; simpl. rewrite list_lookup_fmap. intros Hc.
    apply (queue_priority q Hq). unfold at_priority.
    destruct (requests_ q !! p); simpl in *; [|done]. by apply list_elem_of_filter in Hc as [_ ?].
Qed.

Lemma NewPriorityQueue_ok : queue_ok NewPriorityQueue /\ pending NewPriorityQueue = [].
Proof.
  split; [split; [done|]|done]. intros p c. unfold at_priority, NewPriorityQueue; simpl.
  do 6 (destruct p as [|p]; [intros ?%not_elem_of_nil; done|]). simpl.
  by intros ?%not_elem_of_nil.
Qed.

(** The queue serves the highest priority first and, within a priority, in
    order of arrival: a pushed request (whose priority the request's setter has
    clamped) goes behind those of its priority or higher and before the lower
    ones, [Pop] takes the first, [RemoveIf] keeps the order of the rest, and
    [Size] counts them. *)
Theorem priority_queue_order q url since priority verb id f :
  queue_ok q ->
  let c := MkRequestContext (NewNetworkRequest url since priority verb) id in
  (exists q', Push c q = Some q' /\ queue_ok q' /\
     pending q' =
       filter (fun x => priority_ (request_ c) <= priority_ (request_ x)) (pending q) ++ [c] ++
       filter (fun x => priority_ (request_ x) < priority_ (request_ c)) (pending q)) /\
  match Pop q with
  | Some (first, q') => pending q = first :: pending q' /\ queue_ok q'
  | None => pending q = []
  end /\
  (let '(removed, q') := RemoveIf f q in
   pending q' = filter (fun c => f c = false) (pending q) /\
   removed ≡ₚ filter (fun c => f c = true) (pending q) /\ queue_ok q') /\
  Size q = length (pending q).
Proof.
  intros Hq c. split_and!.
  - apply Push_spec; [done|]. apply clamp_range.
  - by apply Pop_spec.
  - by apply RemoveIf_spec.
  - apply Size_pending.
Qed.

Lemma priority_queue_order_witness :
  let c := MkRequestContext (NewNetworkRequest [] 0 9 GET) 1 in
  (exists q', Push c NewPriorityQueue = Some q' /\ queue_ok q' /\
     pending q' =
       filter (fun x => priority_ (request_ c) <= priority_ (request_ x)) (pending NewPriorityQueue)
       ++ [c] ++
       filter (fun x => priority_ (request_ x) < priority_ (request_ c)) (pending NewPriorityQueue)) /\
  match Pop NewPriorityQueue with
  | Some (first, q') => pending NewPriorityQueue = first :: pending q' /\ queue_ok q'
  | None => pending NewPriorityQueue = []
  end /\
  (let '(removed, q') := RemoveIf (fun c => id_ c =? 1) NewPriorityQueue in
   pending q' = filter (fun c => (id_ c =? 1) = false) (pending NewPriorityQueue) /\
   removed ≡ₚ filter (fun c => (id_ c =? 1) = true) (pending NewPriorityQueue) /\ queue_ok q') /\
  Size NewPriorityQueue = length (pending NewPriorityQueue).
Proof.
  apply (priority_queue_order NewPriorityQueue [] 0 9 GET 1 (fun c => id_ c =? 1)).
  apply NewPriorityQueue_ok.
Defined.
