(* ===== verification/QueueDecorator.v ===== *)
(** * The priority-queue decorator of a network protocol

    [olp-cpp-sdk-core/src/network/NetworkRequestPriorityQueueDecorator.cpp]: the
    requests wait in quota queues until a worker thread hands them to the
    decorated protocol.  The actions of the caller, the worker and the protocol
    are the steps of a transition system.  The worker pops a request outside the
    cancellation mutex and sends it under the mutex, so these are two steps and
    the request it holds is part of the state.  What the protocol answers (an
    error code now, a response later) is chosen by the step.

    Besides the queues and the request the worker holds ([popped]) the state
    records the requests the protocol has accepted, the callbacks made, the
    requests accepted from the caller and the queues that had a request pushed
    back. *)

From Stdlib Require Import ZArith Lia Bool Ascii.
From stdpp Require Import base numbers strings relations list.
From S2P Require Import Prelude Decimal Http PriorityQueue.
Local Open Scope Z_scope.
Local Open Scope olp_scope.

(** [NetworkProtocol::ErrorCode] *)
Inductive ProtocolError :=
| ErrorNone | ErrorIO | ErrorNotReady | ErrorNoConnection | ErrorInvalidRequest
| ErrorFailedBindInterface | ErrorNetworkInterfaceOptionNotImplemented | ErrorNetworkOverload
| ErrorFailedSetCaCert | ErrorCaCertOptionNotImplemented.

#[global] Instance ProtocolError_eq_dec : EqDecision ProtocolError.
Proof. solve_decision. Defined.

Record NetworkResponse := MkNetworkResponse {
  response_id : Z; response_cancelled : bool; response_status : Z; response_error : text }.

(** [NetworkResponse(id, status, error)] *)
Definition NetworkResponse3 (id status : Z) (error : text) : NetworkResponse :=
  MkNetworkResponse id false status error.

(** The response that [HandleSynchronousNetworkErrors] hands to the callback. *)
Definition HandleSynchronousNetworkErrors (error_code : ProtocolError) (request_id : Z)
    : NetworkResponse :=
  if decide (error_code = ErrorInvalidRequest) then
    NetworkResponse3 request_id (network_value InvalidURLError) (str "Invalid Request")
  else if decide (error_code = ErrorNoConnection) then
    NetworkResponse3 request_id (network_value Offline) (str "Offline")
  else if decide (error_code = ErrorIO) then
    NetworkResponse3 request_id (network_value IOError) (str "I/O Error")
  else NetworkResponse3 request_id (network_value UnknownError) (str "Unknown error").

Record QuotaQueue := MkQuotaQueue {
  queue : PriorityQueue; quota : Z; selector : NetworkRequest -> bool; counter : Z }.

Record State := MkState {
  queues_ : list QuotaQueue;
  popped : option (nat * RequestContext);
  in_flight : list (nat * RequestContext);
  answered : list (RequestContext * NetworkResponse);
  sent : list RequestContext;
  pushed_back : list nat }.

Definition set_queue (i : nat) (qq : QuotaQueue) (st : State) : State :=
  MkState (<[i := qq]> (queues_ st)) (popped st) (in_flight st) (answered st) (sent st)
    (pushed_back st).
Definition set_popped (p : option (nat * RequestContext)) (st : State) : State :=
  MkState (queues_ st) p (in_flight st) (answered st) (sent st) (pushed_back st).
(** The protocol has accepted a request of the queue [i]. *)
Definition accept (i : nat) (ptr : RequestContext) (st : State) : State :=
  MkState (queues_ st) (popped st) (in_flight st ++ [(i, ptr)]) (answered st) (sent st)
    (pushed_back st).
(** The callback of a request is called. *)
Definition answer (ptr : RequestContext) (response : NetworkResponse) (st : State) : State :=
  MkState (queues_ st) (popped st) (in_flight st) (answered st ++ [(ptr, response)]) (sent st)
    (pushed_back st).
(** A request of the caller has been queued. *)
Definition note_sent (ptr : RequestContext) (st : State) : State :=
  MkState (queues_ st) (popped st) (in_flight st) (answered st) (sent st ++ [ptr])
    (pushed_back st).
(** A request has gone back to the queue [i]. *)
Definition note_pushed_back (i : nat) (st : State) : State :=
  MkState (queues_ st) (popped st) (in_flight st) (answered st) (sent st) (i :: pushed_back st).

Definition with_queue (q : PriorityQueue) (qq : QuotaQueue) : QuotaQueue :=
  MkQuotaQueue q (quota qq) (selector qq) (counter qq).
(** [( *counter) += n] of a [std::atomic<size_t>] *)
Definition count (n : Z) (qq : QuotaQueue) : QuotaQueue :=
  MkQuotaQueue (queue qq) (quota qq) (selector qq) (u64 (counter qq + n)).

Definition AddQuotaGroup (quota : Z) (request_filter : NetworkRequest -> bool)
    (queues : list QuotaQueue) : list QuotaQueue :=
  queues ++ [MkQuotaQueue NewPriorityQueue quota request_filter 0].

Definition AddDefaultQuotaGroup (default_quota_group_size : Z) (queues : list QuotaQueue)
    : list QuotaQueue :=
  AddQuotaGroup default_quota_group_size (fun _ => true) queues.

Definition NewDecorator (default_quota_group_size : Z)
    (queue_configs : list (Z * (NetworkRequest -> bool))) : State :=
  MkState
    (foldl (fun qs config => AddQuotaGroup config.1 config.2 qs)
       (AddDefaultQuotaGroup default_quota_group_size []) queue_configs)
    None [] [] [] [].

(** [Send]: the last queue whose selector accepts the request takes it; the loop
    looks at the indices [n - 1 .. 0]. *)
Fixpoint send_to (n : nat) (context : RequestContext) (st : State) : option (State * ProtocolError) :=
  match n with
  | O => Some (st, ErrorNetworkOverload)
  | S i =>
    qq ← queues_ st !! i;
    if selector qq (request_ context) then
      q ← Push context (queue qq);
      Some (note_sent context (set_queue i (with_queue q qq) st), ErrorNone)
    else send_to i context st
  end.

Definition Send (request : NetworkRequest) (id : Z) (st : State) : option (State * ProtocolError) :=
  send_to (length (queues_ st)) (MkRequestContext request id) st.

(** The worker's visit to the queue [i] when the protocol is ready: it takes the
    next request, unless the quota is used up or the queue is empty. *)
Definition visit (i : nat) (st : State) : option State :=
  qq ← queues_ st !! i;
  if counter qq >=? quota qq then Some st (* quota exceeded *)
  else
    match Pop (queue qq) with
    | None => Some st (* no request in this queue *)
    | Some (request_ptr, q) =>
      Some (set_popped (Some (i, request_ptr)) (set_queue i (with_queue q qq) st))
    end.

(** [SendRequest] for a request of the queue [i]; [error_code] is what
    [protocol_->Send] returns. *)
Definition SendRequest (i : nat) (request_ptr : RequestContext) (error_code : ProtocolError)
    (st : State) : option State :=
  qq ← queues_ st !! i;
  let qq1 := count 1 qq in
  if decide (error_code = ErrorNone) then
    Some (accept i request_ptr (set_queue i qq1 st))
  else if decide (error_code = ErrorNotReady) then
    q ← Push request_ptr (queue qq1);
    Some (note_pushed_back i (set_queue i (with_queue q qq1) st))
  else
    let response := HandleSynchronousNetworkErrors error_code (id_ request_ptr) in
    Some (answer request_ptr response (set_queue i (count (-1) qq1) st)).

(** The worker sends the request it holds. *)
Definition send_popped (error_code : ProtocolError) (st : State) : option State :=
  '(i, request_ptr) ← popped st;
  SendRequest i request_ptr error_code (set_popped None st).

(** The callback the protocol makes for its [n]th accepted request. *)
Definition complete (n : nat) (response : NetworkResponse) (st : State) : option State :=
  '(i, request_ptr) ← in_flight st !! n;
  qq ← queues_ st !! i;
  Some (answer request_ptr response
          (MkState (<[i := count (-1) qq]> (queues_ st)) (popped st) (delete n (in_flight st))
             (answered st) (sent st) (pushed_back st))).

Definition cancelled_response (ptr : RequestContext) : NetworkResponse :=
  MkNetworkResponse (id_ ptr) true (network_value NetCancelled) (str "Cancelled").

(** [CancelIfPending]: stops at the first queue that held the request. *)
Fixpoint cancel_pending (id : Z) (qs : list QuotaQueue) : list RequestContext * list QuotaQueue :=
  match qs with
  | [] => ([], [])
  | qq :: rest =>
    let '(removed, q) := RemoveIf (fun ptr => id_ ptr =? id) (queue qq) in
    match removed with
    | [] => let '(removed', rest') := cancel_pending id rest in (removed', with_queue q qq :: rest')
    | _ :: _ => (removed, with_queue q qq :: rest)
    end
  end.

Definition CancelIfPending (id : Z) (st : State) : State * bool :=
  let '(removed, qs) := cancel_pending id (queues_ st) in
  (MkState qs (popped st) (in_flight st)
     (answered st ++ ((fun ptr => (ptr, cancelled_response ptr)) <$> removed))
     (sent st) (pushed_back st),
   bool_decide (removed <> [])).

(** [Cancel]; [protocol_cancel] is what [protocol_->Cancel] returns: it answers
    an accepted request through the callback, later. *)
Definition Cancel (id : Z) (protocol_cancel : bool) (st : State) : State * bool :=
  let '(st', was_removed_from_queue) := CancelIfPending id st in
  if negb was_removed_from_queue then
    if negb protocol_cancel then (st', false) else (st', true)
  else (st', true).

(** ** Steps *)

Inductive step : State -> State -> Prop :=
| step_send r id st st' e : request_ok r -> Send r id st = Some (st', e) -> step st st'
| step_visit i st st' : popped st = None -> visit i st = Some st' -> step st st'
| step_send_popped e st st' : send_popped e st = Some st' -> step st st'
| step_complete n resp st st' : complete n resp st = Some st' -> step st st'
| step_cancel id b st : step st (Cancel id b st).1.
