(* ===== verification/QueueFacts.v ===== *)
(** * Correctness of the priority-queue decorator

    Over all interleavings of the caller, the worker and the protocol: no
    request is lost or answered twice, the counters never exceed their quota,
    and a pushed-back request keeps its slot of the quota for good. *)

From Stdlib Require Import ZArith Lia Bool Ascii.
From stdpp Require Import base numbers strings relations list.
From S2P Require Import Prelude Decimal Http PriorityQueue QueueDecorator.
Local Open Scope Z_scope.
Local Open Scope olp_scope.

(** ** The invariant *)

(** Requests waiting in the queues. *)
Definition waiting (qs : list QuotaQueue) : list RequestContext := qs ≫= fun qq => pending (queue qq).
(** The request the worker holds. *)
Definition held (st : State) : list RequestContext := snd <$> option_list (popped st).
(** Every request is waiting, held, accepted by the protocol or answered. *)
Definition accounted (st : State) : list RequestContext :=
  waiting (queues_ st) ++ held st ++ (snd <$> in_flight st) ++ (fst <$> answered st).
Definition occurrences (i : nat) (l : list nat) : nat := length (filter (fun j => j = i) l).
(** The slots of the quota of the queue [i] that are taken. *)
Definition taken (i : nat) (st : State) : nat :=
  (occurrences i (in_flight st).*1 + occurrences i (pushed_back st))%nat.
Definition holds (i : nat) (st : State) : bool :=
  match popped st with Some (j, _) => bool_decide (j = i) | None => false end.

Definition group_ok (st : State) (i : nat) (qq : QuotaQueue) : Prop :=
  queue_ok (queue qq) /\ in_range 64 (quota qq) /\ counter qq = Z.of_nat (taken i st) /\
  Z.of_nat (taken i st) + (if holds i st then 1 else 0) <= quota qq.

Record invariant (st : State) : Prop := {
  inv_accounted : sent st ≡ₚ accounted st;
  inv_priority : forall c, c ∈ sent st -> request_ok (request_ c);
  inv_group : forall i qq, queues_ st !! i = Some qq -> group_ok st i qq;
  inv_index : forall i, i ∈ (in_flight st).*1 \/ holds i st = true -> is_Some (queues_ st !! i) }.

Lemma occurrences_app i l1 l2 : occurrences i (l1 ++ l2) = (occurrences i l1 + occurrences i l2)%nat.
Proof. unfold occurrences. by rewrite filter_app, length_app. Qed.

Lemma occurrences_cons i j l :
  occurrences i (j :: l) = ((if decide (j = i) then 1 else 0) + occurrences i l)%nat.
Proof. unfold occurrences. rewrite filter_cons. by destruct (decide (j = i)). Qed.

Lemma occurrences_perm i l1 l2 : l1 ≡ₚ l2 -> occurrences i l1 = occurrences i l2.
Proof. unfold occurrences. by intros ->. Qed.

Lemma waiting_insert i qq qs :
  qs !! i = Some qq ->
  exists rest, waiting qs ≡ₚ pending (queue qq) ++ rest /\
    forall qq', waiting (<[i := qq']> qs) ≡ₚ pending (queue qq') ++ rest.
Proof.
  intros Hi. apply list_elem_of_split_length in Hi as (l1 & l2 & -> & ->).
  exists (waiting l1 ++ waiting l2). unfold waiting. split; [|intros qq'].
  - rewrite bind_app, bind_cons, Permutation_app_swap_app. done.
  - rewrite insert_app_r_alt, Nat.sub_diag by lia. simpl.
    rewrite bind_app, bind_cons, Permutation_app_swap_app. done.
Qed.

Lemma filter_lt_perm c (l : list RequestContext) :
  l ≡ₚ filter (fun x => priority_ (request_ c) <= priority_ (request_ x)) l ++
       filter (fun x => priority_ (request_ x) < priority_ (request_ c)) l.
Proof.
  induction l as [|x l IH]; [done|].
  destruct (Z.le_gt_cases (priority_ (request_ c)) (priority_ (request_ x))).
  - rewrite filter_cons_True by done. rewrite filter_cons_False by lia. simpl. by rewrite <- IH.
  - rewrite filter_cons_False by lia. rewrite filter_cons_True by lia.
    by rewrite <- Permutation_middle, <- IH.
Qed.

Lemma Push_perm q c :
  queue_ok q -> request_ok (request_ c) ->
  exists q', Push c q = Some q' /\ queue_ok q' /\ pending q' ≡ₚ c :: pending q.
Proof.
  intros Hq Hc. destruct (Push_spec q c Hq Hc) as (q' & Hp & Hok & E).
  exists q'. split_and!; [done|done|]. rewrite E. simpl.
  by rewrite <- Permutation_middle, <- filter_lt_perm.
Qed.

(** A step that touches one queue keeps the others' counters right. *)
Lemma group_update st st' i qq' :
  (forall j qq, queues_ st !! j = Some qq -> group_ok st j qq) ->
  queues_ st' = <[i := qq']> (queues_ st) ->
  (forall j, j <> i -> taken j st' = taken j st /\ (holds j st' = true -> holds j st = true)) ->
  group_ok st' i qq' ->
  forall j qq, queues_ st' !! j = Some qq -> group_ok st' j qq.
Proof.
  intros Hg Hq Hj Hi j qq. rewrite Hq. intros Hl. destruct (decide (j = i)) as [->|Hne].
  - apply lookup_lt_Some in Hl as Hlt. rewrite length_insert in Hlt.
    rewrite list_lookup_insert_eq in Hl by done. by injection Hl as <-.
  - rewrite list_lookup_insert_ne in Hl by done.
    destruct (Hg j qq Hl) as (H1 & H2 & H3 & H4). destruct (Hj j Hne) as [E Hh].
    split_and!; [done|done|by rewrite E|]. rewrite E.
    destruct (holds j st'); [|destruct (holds j st); lia]. by rewrite Hh in H4.
Qed.

Lemma is_Some_insert (qs : list QuotaQueue) i qq' j :
  is_Some (qs !! j) -> is_Some (<[i := qq']> qs !! j).
Proof. rewrite !lookup_lt_is_Some. by rewrite length_insert. Qed.

Lemma counter_up st i qq :
  group_ok st i qq -> holds i st = true -> counter (count 1 qq) = counter qq + 1.
Proof.
  intros (_ & Hr & Hc & Hq) Hh. simpl. rewrite Hh in Hq. unfold in_range in Hr.
  apply wrap_small. unfold in_range. lia.
Qed.

Lemma counter_down st i qq :
  group_ok st i qq -> (0 < taken i st)%nat -> counter (count (-1) qq) = counter qq - 1.
Proof.
  intros (_ & Hr & Hc & Hq) Hh. simpl. unfold in_range in Hr.
  apply wrap_small. unfold in_range. destruct (holds i st); lia.
Qed.

(** ** Each step preserves the invariant *)

Lemma send_to_invariant n c st st' e :
  request_ok (request_ c) -> invariant st -> (n <= length (queues_ st))%nat ->
  send_to n c st = Some (st', e) -> invariant st'.
Proof.
  intros Hc Hinv. induction n as [|i IH]; intros Hn; cbn [send_to].
  - intros [= <- <-]. done.
  - destruct (queues_ st !! i) as [qq|] eqn:Ei; cbn [mbind option_bind]; [|done].
    destruct (selector qq (request_ c)); [|intros; apply IH; [lia|done]].
    destruct (inv_group st Hinv i qq Ei) as (Hqok & Hr & Hct & Hlim).
    destruct (Push_perm (queue qq) c Hqok Hc) as (q & -> & Hq & Hp).
    cbn [mbind option_bind]. intros [= <- <-]. destruct Hinv as [Ha Hpr Hg Hix]. split; simpl.
    + rewrite Ha. unfold accounted; simpl.
      destruct (waiting_insert i qq _ Ei) as (rest & E1 & E2). rewrite E1, E2; simpl.
      rewrite Hp. simpl. by rewrite Permutation_app_comm.
    + intros x [Hx| ->%list_elem_of_singleton]%elem_of_app; [by apply Hpr|done].
    + eapply (group_update st (note_sent c (set_queue i (with_queue q qq) st)) i);
        [done|done|done|by split_and!].
    + intros j Hj. by apply is_Some_insert, Hix.
Qed.

Lemma visit_invariant i st st' :
  popped st = None -> invariant st -> visit i st = Some st' -> invariant st'.
Proof.
  intros Hpop Hinv. unfold visit.
  destruct (queues_ st !! i) as [qq|] eqn:Ei; cbn [mbind option_bind]; [|done].
  destruct (inv_group st Hinv i qq Ei) as (Hqok & Hr & Hct & Hlim).
  destruct (counter qq >=? quota qq) eqn:Hquota; [by intros [= <-]|].
  pose proof (Pop_spec (queue qq) Hqok) as Hp.
  destruct (Pop (queue qq)) as [[c q]|]; [|by intros [= <-]].
  destruct Hp as [Hp Hq]. intros [= <-]. destruct Hinv as [Ha Hpr Hg Hix].
  set (st1 := set_popped _ _). assert (forall j, holds j st = false) as Hno.
  { intros j. unfold holds. by rewrite Hpop. }
  split.
  - etrans; [exact Ha|]. unfold accounted, held. rewrite Hpop. simpl.
    destruct (waiting_insert i qq _ Ei) as (rest & E1 & E2). rewrite E1, E2. simpl.
    rewrite Hp. simpl. by rewrite <- !Permutation_middle.
  - done.
  - eapply (group_update st st1 i); [done|done| |].
    + intros j Hj. split; [done|]. unfold holds; simpl. by rewrite bool_decide_false.
    + split_and!; [done|done|done|]. unfold holds; simpl. rewrite bool_decide_true by done.
      change (taken i st1) with (taken i st). lia.
  - intros j Hj. apply is_Some_insert. destruct Hj as [Hj|Hj]; [by apply Hix; left|].
    unfold holds in Hj; simpl in Hj. by apply bool_decide_eq_true in Hj as <-.
Qed.

(** What the invariant says of the request the worker holds. *)
Lemma held_facts st i c qq :
  invariant st -> popped st = Some (i, c) -> queues_ st !! i = Some qq ->
  holds i st = true /\ group_ok st i qq /\ request_ok (request_ c) /\
  counter (count 1 qq) = counter qq + 1 /\
  exists rest, sent st ≡ₚ (pending (queue qq) ++ rest) ++
      [c] ++ (snd <$> in_flight st) ++ (fst <$> answered st) /\
    forall qq', waiting (<[i := qq']> (queues_ st)) ≡ₚ pending (queue qq') ++ rest.
Proof.
  intros Hinv Hpop Ei. assert (holds i st = true) as Hh.
  { unfold holds. rewrite Hpop. by rewrite bool_decide_true. }
  pose proof (inv_group st Hinv i qq Ei) as Hgrp.
  destruct (waiting_insert i qq _ Ei) as (rest & E1 & E2).
  assert (sent st ≡ₚ (pending (queue qq) ++ rest) ++
            [c] ++ (snd <$> in_flight st) ++ (fst <$> answered st)) as Ha.
  { rewrite (inv_accounted st Hinv). unfold accounted, held. by rewrite Hpop, E1. }
  split_and!; [done|done| |by apply (counter_up st i)|by exists rest].
  apply (inv_priority st Hinv). rewrite Ha, elem_of_app. right. by left.
Qed.

Section sending.
  Context (st : State) (i : nat) (c : RequestContext) (qq : QuotaQueue).
  Context (Hinv : invariant st) (Hpop : popped st = Some (i, c)).
  Context (Ei : queues_ st !! i = Some qq).

Lemma accept_invariant : invariant (accept i c (set_queue i (count 1 qq) (set_popped None st))).
Proof using Hinv Hpop Ei.
  destruct (held_facts st i c qq Hinv Hpop Ei)
    as (Hh & (Hqok & Hr & Hct & Hlim) & Hc & Hup & rest & Ha & E2). rewrite Hh in Hlim.
  destruct Hinv as [_ Hpr Hg Hix]. set (st1 := accept _ _ _).
  assert (forall j, taken j st1 = taken j st + (if decide (i = j) then 1 else 0))%nat as Ht.
  { intros j. unfold taken, st1; simpl. rewrite fmap_app, occurrences_app. simpl.
    rewrite occurrences_cons. unfold occurrences at 2. simpl. destruct (decide _); lia. }
  split; [|done| |].
  - etrans; [exact Ha|]. unfold accounted, st1, held; simpl. rewrite E2. simpl.
    rewrite fmap_app. simpl. rewrite <- !app_assoc. simpl. by rewrite <- !Permutation_middle.
  - eapply (group_update st st1 i); [done|done| |].
    + intros j Hj. rewrite Ht, decide_False by done. split; [lia|done].
    + split_and!; [done|done| |]; rewrite Ht, decide_True by done; [rewrite Hup|simpl]; lia.
  - intros j Hj. apply is_Some_insert. destruct Hj as [Hj|Hj]; [|done]. unfold st1 in Hj; simpl in Hj.
    rewrite fmap_app in Hj. apply elem_of_app in Hj as [Hj| ->%list_elem_of_singleton]; [|done].
    by apply Hix; left.
Qed.

Lemma push_back_invariant q :
  Push c (queue qq) = Some q ->
  invariant (note_pushed_back i (set_queue i (with_queue q (count 1 qq)) (set_popped None st))).
Proof using Hinv Hpop Ei.
  intros Hpush. destruct (held_facts st i c qq Hinv Hpop Ei)
    as (Hh & (Hqok & Hr & Hct & Hlim) & Hc & Hup & rest & Ha & E2). rewrite Hh in Hlim.
  destruct Hinv as [_ Hpr Hg Hix]. set (st1 := note_pushed_back _ _).
  destruct (Push_perm (queue qq) c Hqok Hc) as (q' & E & Hq & Hp).
  rewrite Hpush in E. injection E as <-.
  assert (forall j, taken j st1 = taken j st + (if decide (i = j) then 1 else 0))%nat as Ht.
  { intros j. unfold taken, st1; simpl. rewrite occurrences_cons. destruct (decide _); lia. }
  split; [|done| |].
  - etrans; [exact Ha|]. unfold accounted, st1, held; simpl. rewrite E2. simpl. rewrite Hp. simpl.
    by rewrite <- !Permutation_middle.
  - eapply (group_update st st1 i); [done|done| |].
    + intros j Hj. rewrite Ht, decide_False by done. split; [lia|done].
    + split_and!; [done|done| |]; rewrite Ht, decide_True by done; [|simpl; lia].
      change (counter (count 1 qq) = Z.of_nat (taken i st + 1)). rewrite Hup. lia.
  - intros j [Hj|Hj]; [|done]. by apply is_Some_insert, Hix; left.
Qed.

Lemma refuse_invariant resp :
  invariant (answer c resp (set_queue i (count (-1) (count 1 qq)) (set_popped None st))).
Proof using Hinv Hpop Ei.
  destruct (held_facts st i c qq Hinv Hpop Ei)
    as (Hh & (Hqok & Hr & Hct & Hlim) & Hc & Hup & rest & Ha & E2). rewrite Hh in Hlim.
  destruct Hinv as [_ Hpr Hg Hix]. set (st1 := answer _ _ _).
  assert (counter (count (-1) (count 1 qq)) = counter qq) as Hback.
  { simpl. rewrite wrap_add_l. replace (counter qq + 1 + -1) with (counter qq) by lia.
    apply wrap_small. unfold in_range in *. lia. }
  split; [|done| |].
  - etrans; [exact Ha|]. unfold accounted, st1, held; simpl. rewrite E2. simpl. rewrite fmap_app.
    simpl. rewrite <- !Permutation_middle. by rewrite app_nil_r.
  - eapply (group_update st st1 i); [done|done|done|].
    split_and!; [done|done| |]; change (taken i st1) with (taken i st); [by rewrite Hback|simpl; lia].
  - intros j [Hj|Hj]; [|done]. by apply is_Some_insert, Hix; left.
Qed.

End sending.

Lemma send_popped_invariant e st st' :
  invariant st -> send_popped e st = Some st' -> invariant st'.
Proof.
  intros Hinv. unfold send_popped. destruct (popped st) as [[i c]|] eqn:Hpop; [|done].
  cbn [mbind option_bind]. unfold SendRequest. change (queues_ (set_popped None st)) with (queues_ st).
  destruct (queues_ st !! i) as [qq|] eqn:Ei; cbn [mbind option_bind]; [|done].
  destruct (decide (e = ErrorNone)); [|destruct (decide (e = ErrorNotReady))].
  - intros [= <-]. by eapply accept_invariant.
  - change (queue (count 1 qq)) with (queue qq).
    destruct (Push c (queue qq)) as [q|] eqn:Hpush; cbn [mbind option_bind]; [|done].
    intros [= <-]. by eapply push_back_invariant.
  - intros [= <-]. by eapply refuse_invariant.
Qed.

Lemma complete_invariant n resp st st' :
  invariant st -> complete n resp st = Some st' -> invariant st'.
Proof.
  intros Hinv. unfold complete.
  destruct (in_flight st !! n) as [[i c]|] eqn:En; cbn [mbind option_bind]; [|done].
  destruct (queues_ st !! i) as [qq|] eqn:Ei; cbn [mbind option_bind]; [|done].
  pose proof (inv_group st Hinv i qq Ei) as Hgrp. pose proof Hgrp as (Hqok & Hr & Hct & Hlim).
  pose proof (delete_Permutation _ _ _ En) as Hdel.
  intros [= <-]. set (st1 := answer _ _ _).
  assert (forall j, taken j st = taken j st1 + (if decide (i = j) then 1 else 0))%nat as Ht.
  { intros j. unfold taken. change (in_flight st1) with (delete n (in_flight st)).
    rewrite (occurrences_perm j _ _ (fmap_Permutation fst _ _ Hdel)), fmap_cons, occurrences_cons.
    change (pushed_back st1) with (pushed_back st). simpl. destruct (decide (i = j)); lia. }
  assert (forall j, holds j st1 = holds j st) as Hh by done.
  pose proof (Ht i) as Hti. rewrite decide_True in Hti by done.
  pose proof (counter_down st i qq Hgrp ltac:(lia)) as Hdown.
  destruct Hinv as [Ha Hpr Hg Hix].
  destruct (waiting_insert i qq _ Ei) as (rest & E1 & E2). split; [|done| |].
  - etrans; [exact Ha|]. unfold accounted, st1, held; simpl. rewrite E1, E2. simpl.
    rewrite Hdel at 1. rewrite fmap_app. simpl.
    rewrite <- !Permutation_middle. by rewrite app_nil_r.
  - eapply (group_update st st1 i); [done|done| |].
    + intros j Hj. rewrite Ht, decide_False by done. split; [lia|done].
    + split_and!; [done|done|rewrite Hdown; lia|]. rewrite Hh. simpl. lia.
  - intros j Hj. apply is_Some_insert, Hix. destruct Hj as [Hj|Hj]; [left|by right].
    unfold st1 in Hj; simpl in Hj. rewrite Hdel. simpl. by right.
Qed.

Lemma filter_split_perm (f : RequestContext -> bool) l :
  l ≡ₚ filter (fun c => f c = false) l ++ filter (fun c => f c = true) l.
Proof.
  induction l as [|x l IH]; [done|]. rewrite !filter_cons.
  destruct (f x); simpl; [rewrite <- Permutation_middle|]; by rewrite <- IH.
Qed.

(** A group after a cancellation: only its queue may have lost requests. *)
Definition group_kept (qq qq' : QuotaQueue) : Prop :=
  queue_ok (queue qq') /\ quota qq' = quota qq /\ selector qq' = selector qq /\
  counter qq' = counter qq.

Lemma cancel_pending_spec id qs :
  Forall (fun qq => queue_ok (queue qq)) qs ->
  let '(removed, qs') := cancel_pending id qs in
  waiting qs ≡ₚ waiting qs' ++ removed /\ Forall2 group_kept qs qs' /\
  Forall (fun c => id_ c = id) removed.
Proof.
  induction 1 as [|qq qs Hqq Hqs IH]; [done|]. cbn [cancel_pending].
  pose proof (RemoveIf_spec (fun ptr => id_ ptr =? id) (queue qq) Hqq) as Hr.
  destruct (RemoveIf _ (queue qq)) as [removed q]. destruct Hr as (Hp & Hrem & Hq).
  assert (pending (queue qq) ≡ₚ pending q ++ removed) as Hsplit.
  { rewrite Hp, Hrem. apply filter_split_perm. }
  assert (Forall (fun c => id_ c = id) removed) as Hid.
  { rewrite Hrem. apply Forall_forall. intros c [Hc%Z.eqb_eq _]%list_elem_of_filter. done. }
  destruct removed as [|r rs].
  - destruct (cancel_pending id qs) as [removed' rest']. destruct IH as (H1 & H2 & H3).
    split_and!; [|by constructor|done]. unfold waiting in *. simpl.
    rewrite H1, Hsplit. by rewrite app_nil_r, app_assoc.
  - split_and!; [| |done].
    + unfold waiting. simpl. rewrite Hsplit, <- !app_assoc.
      by rewrite (Permutation_app_comm (r :: rs)).
    + constructor; [done|]. clear -Hqs. induction Hqs; by constructor.
Qed.

Lemma queues_ok st : invariant st -> Forall (fun qq => queue_ok (queue qq)) (queues_ st).
Proof. intros Hinv. apply Forall_lookup. intros i qq Hi. by apply (inv_group st Hinv i qq Hi). Qed.

Lemma answered_requests (l : list RequestContext) :
  fst <$> ((fun ptr => (ptr, cancelled_response ptr)) <$> l) = l.
Proof. induction l as [|c l IH]; [done|]. cbn. f_equal. apply IH. Qed.

Lemma cancel_if_pending_invariant id st :
  invariant st -> invariant (CancelIfPending id st).1.
Proof.
  intros Hinv. pose proof (cancel_pending_spec id _ (queues_ok st Hinv)) as Hc.
  unfold CancelIfPending. destruct (cancel_pending id (queues_ st)) as [removed qs].
  destruct Hc as (Hw & Hk & _). destruct Hinv as [Ha Hpr Hg Hix]. simpl. split; [|done| |].
  - etrans; [exact Ha|]. unfold accounted, held; simpl. rewrite Hw, fmap_app, answered_requests.
    rewrite <- !app_assoc. f_equiv. rewrite (Permutation_app_comm removed). by rewrite <- !app_assoc.
  - simpl. intros i qq' Hi. destruct (Forall2_lookup_r _ _ _ _ _ Hk Hi) as (qq & Hi' & Hok & Eq & _ & Ec).
    destruct (Hg i qq Hi') as (H1 & H2 & H3 & H4).
    split_and!; [done|by rewrite Eq|by rewrite Ec|by rewrite Eq].
  - simpl. intros j Hj. rewrite lookup_lt_is_Some, <- (Forall2_length _ _ _ Hk), <- lookup_lt_is_Some.
    by apply Hix.
Qed.

Lemma Cancel_state id b st : (Cancel id b st).1 = (CancelIfPending id st).1.
Proof. unfold Cancel. destruct (CancelIfPending id st) as [st' []]; [done|]. by destruct b. Qed.

Lemma step_invariant st st' : step st st' -> invariant st -> invariant st'.
Proof.
  intros [r id s s' e Hr Hs|i s s' Hpop Hs|e s s' Hs|n resp s s' Hs|id b s] Hinv.
  - by apply (send_to_invariant _ (MkRequestContext r id) s s' e Hr Hinv (le_n _)).
  - by eapply visit_invariant.
  - by eapply send_popped_invariant.
  - by eapply complete_invariant.
  - rewrite Cancel_state. by apply cancel_if_pending_invariant.
Qed.

Lemma steps_invariant st st' : invariant st -> rtc step st st' -> invariant st'.
Proof. intros Hinv. induction 1; eauto using step_invariant. Qed.

(** ** The start *)

Lemma new_groups quota configs :
  queues_ (NewDecorator quota configs) =
  (fun config => MkQuotaQueue NewPriorityQueue config.1 config.2 0) <$> ((quota, fun _ => true) :: configs).
Proof.
  unfold NewDecorator, AddDefaultQuotaGroup; simpl.
  assert (forall qs, foldl (fun qs config => AddQuotaGroup config.1 config.2 qs) qs configs =
    qs ++ ((fun config => MkQuotaQueue NewPriorityQueue config.1 config.2 0) <$> configs)) as H.
  { induction configs as [|config configs IH]; intros qs; simpl; [by rewrite app_nil_r|].
    rewrite IH. unfold AddQuotaGroup. by rewrite <- app_assoc. }
  by rewrite H.
Qed.

Lemma new_invariant quota configs :
  Forall (in_range 64) (quota :: configs.*1) -> invariant (NewDecorator quota configs).
Proof.
  intros Hq. split.
  - unfold accounted. rewrite new_groups. simpl. unfold waiting.
    induction configs as [|config configs IH]; [done|].
    apply IH. inversion_clear Hq as [|? ? ? Hq']. inversion_clear Hq'. by constructor.
  - intros c Hc. by apply not_elem_of_nil in Hc.
  - intros i qq. rewrite new_groups. intros (config & -> & Hc)%list_lookup_fmap_Some.
    assert (in_range 64 config.1) as Hr.
    { rewrite Forall_forall in Hq. apply Hq. change (quota :: configs.*1) with (((quota, fun _ : NetworkRequest => true) :: configs).*1).
      apply list_elem_of_fmap_2. by eapply list_elem_of_lookup_2. }
    split_and!; [apply NewPriorityQueue_ok|done|done|].
    change (0 + 0 <= config.1). unfold in_range in Hr. lia.
  - intros i [Hi|Hi]; [by apply not_elem_of_nil in Hi|done].
Qed.

(** ** The properties *)

Lemma reachable_invariant quota configs st :
  Forall (in_range 64) (quota :: configs.*1) -> rtc step (NewDecorator quota configs) st ->
  invariant st.
Proof. intros Hq Hst. eapply steps_invariant; [by apply new_invariant|done]. Qed.

Lemma quotas_insert (qs : list QuotaQueue) i qq qq' :
  qs !! i = Some qq -> quota qq' = quota qq -> quota <$> <[i := qq']> qs = quota <$> qs.
Proof.
  intros Hi E. rewrite list_fmap_insert, E. apply list_insert_id. by rewrite list_lookup_fmap, Hi.
Qed.

Lemma quotas_cancel id qs : quota <$> (cancel_pending id qs).2 = quota <$> qs.
Proof.
  induction qs as [|qq qs IH]; [done|]. cbn [cancel_pending].
  destruct (RemoveIf _ _) as [[|r rs] q]; [|done].
  destruct (cancel_pending id qs) as [removed rest]. cbn [snd] in *.
  by rewrite !fmap_cons, IH.
Qed.

(** Quotas do not change and pushed-back requests stay counted. *)
Definition later (st st' : State) : Prop :=
  quota <$> queues_ st' = quota <$> queues_ st /\
  forall i, (occurrences i (pushed_back st) <= occurrences i (pushed_back st'))%nat.

Ltac step_option H :=
  match type of H with
  | context [mbind _ ?m] =>
    let E := fresh "E" in destruct m as [?|] eqn:E; cbn [mbind option_bind] in H; [|done]
  | context [decide ?P] => destruct (decide P)
  | context [if ?b then _ else _] => destruct b
  end.

Lemma step_later st st' : step st st' -> later st st'.
Proof.
  assert (forall s, later s s) as Hrefl by done.
  intros [r id s s' e Hr Hs|j s s' Hpop Hs|e s s' Hs|n resp s s' Hs|id b s].
  - unfold Send in Hs. revert Hs. generalize (length (queues_ s)) as m.
    induction m as [|m IH]; cbn [send_to]; [by intros [= <- <-]|]. intros Hs.
    step_option Hs. destruct (selector _ _); [|by apply IH]. step_option Hs. injection Hs as <- <-.
    split; [|done]. by eapply quotas_insert.
  - unfold visit in Hs. do 2 step_option Hs; [by injection Hs as <-|].
    destruct (Pop _) as [[c qu]|]; injection Hs as <-; [|done].
    split; [|done]. by eapply quotas_insert.
  - unfold send_popped, SendRequest in Hs. step_option Hs. destruct p as [j c].
    do 2 step_option Hs; [|step_option Hs]; [|step_option Hs|]; injection Hs as <-;
      (split; [by eapply quotas_insert|done || (intros i; simpl; rewrite occurrences_cons; lia)]).
  - unfold complete in Hs. step_option Hs. destruct p as [j c]. step_option Hs. injection Hs as <-.
    split; [|done]. by eapply quotas_insert.
  - rewrite Cancel_state. pose proof (quotas_cancel id (queues_ s)). unfold CancelIfPending.
    by destruct (cancel_pending _ _).
Qed.

Lemma steps_later st st' : rtc step st st' -> later st st'.
Proof.
  induction 1 as [|st1 st2 st3 H12 _ [IH1 IH2]]; [done|].
  destruct (step_later _ _ H12) as [H1 H2]. split; [congruence|].
  intros i. specialize (H2 i). specialize (IH2 i). lia.
Qed.

(** C22.  In every state reachable from a new decorator, under every interleaving
    of sends, cancellations, worker actions and protocol callbacks, the requests
    accepted from the caller are, each exactly once, waiting in a queue, held by
    the worker, accepted by the protocol or answered; and the counter of each
    queue counts its requests with the protocol plus the requests the protocol
    pushed back, and never exceeds the queue's quota, so the protocol never holds
    more requests of a group than its quota. *)
Theorem decorator_conserves_requests default_quota configs st :
  Forall (in_range 64) (default_quota :: configs.*1) ->
  rtc step (NewDecorator default_quota configs) st ->
  sent st ≡ₚ waiting (queues_ st) ++ held st ++ (snd <$> in_flight st) ++ (fst <$> answered st) /\
  forall i qq, queues_ st !! i = Some qq ->
    counter qq = Z.of_nat (occurrences i (in_flight st).*1 + occurrences i (pushed_back st)) /\
    Z.of_nat (occurrences i (in_flight st).*1) <= counter qq <= quota qq.
Proof.
  intros Hq Hst. pose proof (reachable_invariant _ _ _ Hq Hst) as Hinv.
  split; [apply (inv_accounted st Hinv)|]. intros i qq Hi.
  destruct (inv_group st Hinv i qq Hi) as (_ & _ & Hc & Hlim). unfold taken in *.
  destruct (holds i st); lia.
Qed.

(** A request the protocol is not ready for goes back to its queue, but the
    slot of the quota it had taken is never given back: once as many requests of
    a queue have been pushed back as its quota, the worker's visits leave that
    queue alone in every later state, so its waiting requests are never sent. *)
Theorem pushed_back_quota_is_lost default_quota configs st i qq st' :
  Forall (in_range 64) (default_quota :: configs.*1) ->
  rtc step (NewDecorator default_quota configs) st ->
  queues_ st !! i = Some qq ->
  quota qq <= Z.of_nat (occurrences i (pushed_back st)) ->
  rtc step st st' -> visit i st' = Some st'.
Proof.
  intros Hq Hst Hi Hlost Hst'.
  assert (invariant st') as Hinv by (eapply reachable_invariant; [done|by etrans]).
  destruct (steps_later _ _ Hst') as [Hquota Hback]. specialize (Hback i).
  apply (f_equal (lookup i)) in Hquota. rewrite !list_lookup_fmap, Hi in Hquota.
  unfold visit. destruct (queues_ st' !! i) as [qq'|] eqn:Ei; [|done]. injection Hquota as Hquota.
  cbn [mbind option_bind]. destruct (inv_group st' Hinv i qq' Ei) as (_ & _ & Hc & _).
  unfold taken in Hc. rewrite Z.geb_leb. destruct (Z.leb_spec (quota qq') (counter qq')); [done|lia].
Qed.

(** ** A request pushed back by a protocol that is not ready *)

Definition example_request : RequestContext :=
  MkRequestContext (NewNetworkRequest [] 0 PriorityDefault GET) 7.
Definition example_state : State :=
  MkState [MkQuotaQueue (MkPriorityQueue [[]; []; [example_request]; []; []; []]) 1 (fun _ => true) 1]
    None [] [] [example_request] [0%nat].

Lemma example_reachable : rtc step (NewDecorator 1 []) example_state.
Proof.
  eapply rtc_l.
  { apply (step_send (request_ example_request) 7 _ _ ErrorNone); [|vm_compute; reflexivity].
    vm_compute. split; discriminate. }
  eapply rtc_l; [apply (step_visit 0); [done|vm_compute; reflexivity]|].
  eapply rtc_l; [apply (step_send_popped ErrorNotReady); vm_compute; reflexivity|].
  apply rtc_refl.
Qed.

Lemma decorator_conserves_requests_witness :
  let st := example_state in
  sent st ≡ₚ waiting (queues_ st) ++ held st ++ (snd <$> in_flight st) ++ (fst <$> answered st) /\
  forall i qq, queues_ st !! i = Some qq ->
    counter qq = Z.of_nat (occurrences i (in_flight st).*1 + occurrences i (pushed_back st)) /\
    Z.of_nat (occurrences i (in_flight st).*1) <= counter qq <= quota qq.
Proof.
  apply (decorator_conserves_requests 1 []); [|apply example_reachable].
  constructor; [vm_compute; split; [discriminate|reflexivity]|constructor].
Defined.

Lemma pushed_back_quota_is_lost_witness : visit 0 example_state = Some example_state.
Proof.
  apply (pushed_back_quota_is_lost 1 [] example_state 0
    (MkQuotaQueue (MkPriorityQueue [[]; []; [example_request]; []; []; []]) 1 (fun _ => true) 1)).
  - constructor; [vm_compute; split; [discriminate|reflexivity]|constructor].
  - apply example_reachable.
  - reflexivity.
  - vm_compute. discriminate.
  - apply rtc_refl.
Defined.
