(* ===== verification/NetworkClient.v ===== *)
(** * The network client

    [olp-cpp-sdk-core/src/network/Network.cpp]: clients ([Network]) send requests
    through the one shared [NetworkSingleton], which owns the protocol.  The
    globals of the file, the clients and the singletons are one [World]; the
    callers' operations and the protocol's callbacks are its steps.  The protocol
    is not modelled: what it answers is chosen by the step. *)

From Stdlib Require Import ZArith Lia Bool Ascii.
From stdpp Require Import base numbers strings relations list.
From S2P Require Import Prelude Decimal Http PriorityQueue QueueDecorator.
Local Open Scope Z_scope.
Local Open Scope olp_scope.

(** ** Ids *)

(** [NetworkRequestIdConstants] and [ClientId] *)
Definition NetworkRequestIdInvalid : Z := - 2 ^ 31.
Definition NetworkRequestIdMin : Z := - 2 ^ 31 + 1.
Definition NetworkRequestIdMax : Z := 2 ^ 31 - 1.
Definition ClientId_Invalid : Z := 0.
Definition ClientId_Min : Z := 1.

(** The new id and the new value of the counter [next_id]; an atomic [int] wraps
    around. *)
Definition NextRequestId (next_id : Z) : Z * Z :=
  let id := s32 (next_id + 1) in
  if id =? NetworkRequestIdInvalid then let id := s32 (id + 1) in (id, id) else (id, id).

Definition NextClientId (next_id : Z) : Z * Z :=
  let id := u32 (next_id + 1) in
  if id =? ClientId_Invalid then let id := u32 (id + 1) in (id, id) else (id, id).

(** [Network::RequestIds] *)
Definition RequestIds_Insert (id : Z) (data_ : list Z) : list Z := data_ ++ [id].
Fixpoint RequestIds_Remove (id : Z) (data_ : list Z) : list Z :=
  match data_ with
  | [] => []
  | x :: rest => if x =? id then rest else x :: RequestIds_Remove id rest
  end.
(** The ids and the emptied container. *)
Definition RequestIds_Clear (data_ : list Z) : list Z * list Z := (data_, []).

(** ** Connection status *)

Inductive ConnectionStatus := Valid | NoConnection | ConnectionReestablished | ShuttingDown.

#[global] Instance ConnectionStatus_eq_dec : EqDecision ConnectionStatus.
Proof. solve_decision. Defined.

(** [s_connection_status_], [s_listener_id_count_], the listeners (a listener is
    named by a number) and the calls made to them. *)
Record Listeners := MkListeners {
  s_connection_status_ : ConnectionStatus;
  s_listener_id_count_ : Z;
  s_listeners_ : list (Z * nat);
  notified : list (list nat * ConnectionStatus) }.

Definition initial_listeners : Listeners := MkListeners Valid 1 [] [].

(** [listeners[id] = f] of an ordered map *)
Fixpoint map_assign (id : Z) (f : nat) (l : list (Z * nat)) : list (Z * nat) :=
  match l with
  | [] => [(id, f)]
  | (k, g) :: rest =>
    if id <? k then (id, f) :: l
    else if id =? k then (id, f) :: rest
    else (k, g) :: map_assign id f rest
  end.

Definition AddListenerCallback (callback : option nat) (l : Listeners) : Listeners * Z :=
  match callback with
  | None => (l, 0)
  | Some f =>
    let id := s_listener_id_count_ l in
    (MkListeners (s_connection_status_ l) (s32 (id + 1)) (map_assign id f (s_listeners_ l)) (notified l), id)
  end.

Definition RemoveListenerCallback (callback_id : Z) (l : Listeners) : Listeners :=
  MkListeners (s_connection_status_ l) (s_listener_id_count_ l) 
    (filter (fun e => e.1 <> callback_id) (s_listeners_ l)) (notified l).

Definition NotifyListeners (status : Z) (l : Listeners) : Listeners :=
  let networkError :=
    if (status =? network_value Offline) || (status =? network_value IOError)
    then NoConnection else Valid in
  if decide (s_connection_status_ l = networkError) then l
  else
    let '(networkError, status') :=
      if decide (s_connection_status_ l = NoConnection /\ networkError = Valid)
      then (ConnectionReestablished, Valid) else (networkError, networkError) in
    MkListeners status' (s_listener_id_count_ l) (s_listeners_ l)
      (notified l ++ [((s_listeners_ l).*2, networkError)]).

(** ** Statistics of the finished requests *)

Record Statistics := MkStatistics { content_bytes_ : Z; requests_count : Z; errors_ : Z }.

(** [NetworkEventImpl::Record] *)
Definition Record_event (content_length status : Z) (s : Statistics) : Statistics :=
  MkStatistics (u64 (content_bytes_ s + content_length)) (u64 (requests_count s + 1))
    (if (status <? 200) || (status >=? 400) then u64 (errors_ s + 1) else errors_ s).

(** ** Clients and singletons *)

Record NetworkSingleton := MkSingleton {
  protocol_ : bool;
  blocked_ : bool;
  certificate_update_was_triggered_ : bool }.

Definition NewSingleton : NetworkSingleton := MkSingleton false false false.

Record Network := MkNetwork { client_id_ : Z; singleton_ : option nat; request_ids_ : list Z }.

Definition NewNetwork : Network := MkNetwork ClientId_Invalid None [].

(** The state of the file's globals and of all clients.  [accepted] are the
    requests the protocol has accepted (singleton, client, id), [answers] the
    callbacks made, [returned] the ids [Send] gave out, [protocol_cancelled] the
    cancellations passed to the protocol and [updates] the singletons that asked
    for new certificates. *)
Record World := MkWorld {
  networks : list Network;
  singletons : list NetworkSingleton;
  g_singleton : option nat;
  next_request_id : Z;
  next_client_id : Z;
  listeners : Listeners;
  accepted : list (nat * nat * Z);
  answers : list (nat * NetworkResponse);
  returned : list (nat * Z);
  protocol_cancelled : list Z;
  updates : list nat }.

Definition NewWorld (n : nat) : World :=
  MkWorld (replicate n NewNetwork) [] None NetworkRequestIdMin ClientId_Min initial_listeners
    [] [] [] [] [].

Definition Started (c : Network) : bool := negb (client_id_ c =? ClientId_Invalid).

(** A singleton lives as long as a client holds it. *)
Definition alive (s : nat) (w : World) : bool :=
  existsb (fun c => bool_decide (singleton_ c = Some s)) (networks w).

(** The parts of the world an operation assigns. *)
Definition set_networks cs w := MkWorld cs (singletons w) (g_singleton w) (next_request_id w)
  (next_client_id w) (listeners w) (accepted w) (answers w) (returned w) (protocol_cancelled w) (updates w).
Definition set_singletons xs g w := MkWorld (networks w) xs g (next_request_id w)
  (next_client_id w) (listeners w) (accepted w) (answers w) (returned w) (protocol_cancelled w) (updates w).
Definition set_next_ids r c w := MkWorld (networks w) (singletons w) (g_singleton w) r
  c (listeners w) (accepted w) (answers w) (returned w) (protocol_cancelled w) (updates w).
Definition set_listeners l w := MkWorld (networks w) (singletons w) (g_singleton w) (next_request_id w)
  (next_client_id w) l (accepted w) (answers w) (returned w) (protocol_cancelled w) (updates w).
Definition set_accepted a w := MkWorld (networks w) (singletons w) (g_singleton w) (next_request_id w)
  (next_client_id w) (listeners w) a (answers w) (returned w) (protocol_cancelled w) (updates w).
Definition call_back n r w := MkWorld (networks w) (singletons w) (g_singleton w) (next_request_id w)
  (next_client_id w) (listeners w) (accepted w) (answers w ++ [(n, r)]) (returned w)
  (protocol_cancelled w) (updates w).
Definition return_id n id w := MkWorld (networks w) (singletons w) (g_singleton w) (next_request_id w)
  (next_client_id w) (listeners w) (accepted w) (answers w) (returned w ++ [(n, id)])
  (protocol_cancelled w) (updates w).
Definition protocol_Cancel id w := MkWorld (networks w) (singletons w) (g_singleton w)
  (next_request_id w) (next_client_id w) (listeners w) (accepted w) (answers w) (returned w)
  (protocol_cancelled w ++ [id]) (updates w).
Definition update_certificate s w := MkWorld (networks w) (singletons w) (g_singleton w)
  (next_request_id w) (next_client_id w) (listeners w) (accepted w) (answers w) (returned w)
  (protocol_cancelled w) (updates w ++ [s]).
Definition set_network n c w := set_networks (<[n := c]> (networks w)) w.
Definition set_singleton s x w := set_singletons (<[s := x]> (singletons w)) (g_singleton w) w.

(** ** The singleton *)

(** [SingletonInstance]: the weak pointer is locked, or a new one is made. *)
Definition SingletonInstance (w : World) : nat * World :=
  let fresh := length (singletons w) in
  let new := (fresh, set_singletons (singletons w ++ [NewSingleton]) (Some fresh) w) in
  match g_singleton w with
  | Some s => if alive s w then (s, w) else new
  | None => new
  end.

(** [created]: the factory made a protocol and it initialised. *)
Definition InitializeClient (s : nat) (created : bool) (w : World) : option (World * bool) :=
  x ← singletons w !! s;
  if protocol_ x then Some (w, true)
  else if created then
    Some (set_singleton s (MkSingleton true (blocked_ x) (certificate_update_was_triggered_ x)) w, true)
  else Some (w, false).

(** The callback [Network::Send] hands to the singleton. *)
Definition finish (n : nat) (response : NetworkResponse) (w : World) : option World :=
  c ← networks w !! n;
  let w1 := set_network n (MkNetwork (client_id_ c) (singleton_ c)
              (RequestIds_Remove (response_id response) (request_ids_ c))) w in
  let w2 := call_back n response w1 in
  Some (set_listeners (NotifyListeners (response_status response) (listeners w2)) w2).

Definition Singleton_Send (s n : nat) (requestId : Z) (err : ProtocolError) (w : World) : option World :=
  x ← singletons w !! s;
  if blocked_ x then
    finish n (NetworkResponse3 requestId (network_value AuthorizationError)
                (str "Waiting for certificates.")) w
  else if negb (protocol_ x) then
    finish n (NetworkResponse3 requestId (network_value Offline) (str "Offline")) w
  else if decide (err <> ErrorNone) then
    finish n (HandleSynchronousNetworkErrors err requestId) w
  else Some (set_accepted (accepted w ++ [(s, n, requestId)]) w).

(** The callback the singleton hands to the protocol, called for the [k]th
    accepted request. *)
Definition respond (k : nat) (response : NetworkResponse) (w : World) : option World :=
  '(s, n, _) ← accepted w !! k;
  let w1 := set_accepted (delete k (accepted w)) w in
  x ← singletons w1 !! s;
  let w2 :=
    if (response_status response =? network_value AuthenticationError) && alive s w1
       && negb (certificate_update_was_triggered_ x)
    then update_certificate s (set_singleton s (MkSingleton (protocol_ x) true true) w1)
    else w1 in
  finish n response w2.

(** [NetworkSingleton::Cancel]; [result] is the protocol's answer. *)
Definition Singleton_Cancel (s : nat) (request_id : Z) (result : bool) (w : World)
    : option (World * bool) :=
  x ← singletons w !! s;
  if negb (protocol_ x) then Some (w, false) else Some (protocol_Cancel request_id w, result).

Definition Singleton_CancelIfPending (s : nat) (request_id : Z) (result : bool) (w : World)
    : option bool :=
  x ← singletons w !! s;
  if negb (protocol_ x) then Some false else Some result.

(** ** The client *)

(** [Network::Start]; [created] is the outcome of the protocol's creation. *)
Definition Start (n : nat) (created : bool) (w : World) : option (World * bool) :=
  c ← networks w !! n;
  if Started c then Some (w, false)
  else
    let '(s, w1) := SingletonInstance w in
    '(w2, initialized) ← InitializeClient s created w1;
    if negb initialized then
      Some (set_network n (MkNetwork (client_id_ c) None (request_ids_ c)) w2, false)
    else
      let '(id, next) := NextClientId (next_client_id w2) in
      Some (set_network n (MkNetwork id (Some s) (request_ids_ c))
              (set_next_ids (next_request_id w2) next w2), true).

Fixpoint cancel_all (s : nat) (requestIds : list Z) (w : World) : option World :=
  match requestIds with
  | [] => Some w
  | id :: rest => '(w', _) ← Singleton_Cancel s id true w; cancel_all s rest w'
  end.

Definition Stop (n : nat) (w : World) : option (World * bool) :=
  c ← networks w !! n;
  if negb (Started c) then Some (w, false)
  else
    let '(requestIds, ids) := RequestIds_Clear (request_ids_ c) in
    let w1 := set_network n (MkNetwork ClientId_Invalid None ids) w in
    singleton ← singleton_ c;
    w2 ← cancel_all singleton requestIds w1;
    Some (w2, true).

Definition Restart (n : nat) (created : bool) (w : World) : option (World * bool) :=
  '(w', _) ← Stop n w; Start n created w'.

(** [Network::Send]; [err] is what the protocol's [Send] returns. *)
Definition Network_Send (n : nat) (err : ProtocolError) (w : World) : option (World * Z) :=
  c ← networks w !! n;
  match (if negb (Started c) then None else singleton_ c) with
  | None =>
    let resp := MkNetworkResponse 0 false (network_value Offline) (str "Offline") in
    Some (call_back n resp (return_id n 0 w), 0)
  | Some s =>
    let '(requestId, next) := NextRequestId (next_request_id w) in
    let c1 := MkNetwork (client_id_ c) (singleton_ c) (RequestIds_Insert requestId (request_ids_ c)) in
    let w1 := set_network n c1 (set_next_ids next (next_client_id w) w) in
    w2 ← Singleton_Send s n requestId err (return_id n requestId w1);
    Some (w2, requestId)
  end.

Definition Network_Cancel (n : nat) (id : Z) (result : bool) (w : World) : option (World * bool) :=
  c ← networks w !! n;
  if negb (Started c) then Some (w, false)
  else
    match singleton_ c with
    | None => Some (w, false)
    | Some s =>
      let c1 := MkNetwork (client_id_ c) (singleton_ c) (RequestIds_Remove id (request_ids_ c)) in
      Singleton_Cancel s id result (set_network n c1 w)
    end.

Definition Network_CancelIfPending (n : nat) (id : Z) (result : bool) (w : World)
    : option (World * bool) :=
  c ← networks w !! n;
  if negb (Started c) then Some (w, false)
  else
    match singleton_ c with
    | None => Some (w, false)
    | Some s =>
      b ← Singleton_CancelIfPending s id result w;
      if negb b then Some (w, false)
      else
        let c1 := MkNetwork (client_id_ c) (singleton_ c) (RequestIds_Remove id (request_ids_ c)) in
        Some (set_network n c1 w, true)
    end.

Definition Unblock (w : World) : option World :=
  match g_singleton w with
  | Some s =>
    if alive s w then
      x ← singletons w !! s;
      Some (set_singleton s (MkSingleton (protocol_ x) false (certificate_update_was_triggered_ x)) w)
    else Some w
  | None => Some w
  end.

(** The actions of callers and protocol.  A protocol answers an accepted request
    with a response that bears its id, once. *)
Inductive action :=
| DoStart (n : nat) (created : bool)
| DoStop (n : nat)
| DoRestart (n : nat) (created : bool)
| DoSend (n : nat) (err : ProtocolError)
| DoRespond (k : nat) (cancelled : bool) (status : Z) (error : text)
| DoCancel (n : nat) (id : Z) (result : bool)
| DoCancelIfPending (n : nat) (id : Z) (result : bool)
| DoUnblock
| DoAddListener (callback : option nat)
| DoRemoveListener (id : Z).

Definition act (a : action) (w : World) : option World :=
  match a with
  | DoStart n created => fst <$> Start n created w
  | DoStop n => fst <$> Stop n w
  | DoRestart n created => fst <$> Restart n created w
  | DoSend n err => fst <$> Network_Send n err w
  | DoRespond k cancelled status error =>
    '(_, id) ← accepted w !! k; respond k (MkNetworkResponse id cancelled status error) w
  | DoCancel n id result => fst <$> Network_Cancel n id result w
  | DoCancelIfPending n id result => fst <$> Network_CancelIfPending n id result w
  | DoUnblock => Unblock w
  | DoAddListener callback => Some (set_listeners (AddListenerCallback callback (listeners w)).1 w)
  | DoRemoveListener id => Some (set_listeners (RemoveListenerCallback id (listeners w)) w)
  end.

Fixpoint run (l : list action) (w : World) : option World :=
  match l with
  | [] => Some w
  | a :: rest => w' ← act a w; run rest w'
  end.
