(* ===== verification/NetworkFacts.v ===== *)
(** * Correctness of the network client

    Request ids, the connection status told to the listeners, and the invariant
    of the clients and their singletons over all sequences of actions. *)

From Stdlib Require Import ZArith Lia Bool Ascii.
From stdpp Require Import base numbers strings relations list.
From S2P Require Import Prelude Decimal Http PriorityQueue QueueDecorator QueueFacts NetworkClient.
Local Open Scope Z_scope.
Local Open Scope olp_scope.

(** ** Ids *)

(** The id of the [k]th request. *)
Definition nth_request_id (k : nat) : Z := Nat.iter k (fun id => (NextRequestId id).2) NetworkRequestIdMin.

Lemma nth_request_id_closed k :
  nth_request_id k = NetworkRequestIdMin + Z.of_nat k mod (2 ^ 32 - 1).
Proof.
  unfold NetworkRequestIdMin. induction k as [|k IH]; [done|].
  change (nth_request_id (S k)) with (NextRequestId (nth_request_id k)).2. rewrite IH.
  assert (Z.of_nat (S k) = Z.of_nat k + 1) as -> by lia.
  pose proof (Z.mod_pos_bound (Z.of_nat k) (2 ^ 32 - 1) ltac:(lia)) as Hr.
  rewrite <- Zplus_mod_idemp_l. set (r := Z.of_nat k mod (2 ^ 32 - 1)) in *.
  unfold NextRequestId, NetworkRequestIdInvalid.
  destruct (Z.eq_dec r (2 ^ 32 - 2)) as [->|Hne].
  - vm_compute. done.
  - rewrite swrap_small by lia. rewrite Z.mod_small by lia.
    destruct (Z.eqb_spec (- 2 ^ 31 + 1 + r + 1) (- 2 ^ 31)); simpl; lia.
Qed.

(** Request ids are never the invalid id, two requests less than 2^32 - 1
    apart have different ids, and the 2^31 - 1st request gets the id 0 with which
    [Send] reports a client that is not started. *)
Theorem request_ids_distinct :
  (forall k, nth_request_id k <> NetworkRequestIdInvalid /\
             NetworkRequestIdMin <= nth_request_id k <= NetworkRequestIdMax) /\
  (forall j k, (j < k)%nat -> Z.of_nat k - Z.of_nat j < 2 ^ 32 - 1 ->
               nth_request_id j <> nth_request_id k) /\
  nth_request_id (Z.to_nat (2 ^ 31 - 1)) = 0.
Proof.
  unfold NetworkRequestIdInvalid, NetworkRequestIdMin, NetworkRequestIdMax. split_and!.
  - intros k. rewrite nth_request_id_closed. unfold NetworkRequestIdMin.
    pose proof (Z.mod_pos_bound (Z.of_nat k) (2 ^ 32 - 1) ltac:(lia)). lia.
  - intros j k Hjk Hlt. rewrite !nth_request_id_closed. intros E.
    assert ((Z.of_nat k - Z.of_nat j) mod (2 ^ 32 - 1) = 0) as H0.
    { rewrite Zminus_mod. replace (Z.of_nat k mod _) with (Z.of_nat j mod (2 ^ 32 - 1)) by lia.
      by rewrite Z.sub_diag. }
    rewrite Z.mod_small in H0 by lia. lia.
  - rewrite nth_request_id_closed, Z2Nat.id by lia. done.
Qed.

(** ** Connection status *)

Definition offline (status : Z) : bool :=
  (status =? network_value Offline) || (status =? network_value IOError).

(** The changes in a sequence of response statuses, as seen from [prev]. *)
Fixpoint changes (prev : bool) (statuses : list Z) : list ConnectionStatus :=
  match statuses with
  | [] => []
  | s :: rest =>
    if eqb (offline s) prev then changes prev rest
    else (if offline s then NoConnection else ConnectionReestablished) :: changes (offline s) rest
  end.

Lemma notify_changes l statuses (prev : bool) :
  s_connection_status_ l = (if prev then NoConnection else Valid) ->
  let l' := foldl (fun l s => NotifyListeners s l) l statuses in
  notified l' = notified l ++ ((fun c => ((s_listeners_ l).*2, c)) <$> changes prev statuses) /\
  s_listeners_ l' = s_listeners_ l.
Proof.
  revert l prev. induction statuses as [|s rest IH]; intros l prev Hl.
  - split; [|done]. by rewrite app_nil_r.
  - cbn [foldl changes]. change (NotifyListeners s l) with
      (let networkError := if offline s then NoConnection else Valid in
       if decide (s_connection_status_ l = networkError) then l
       else
         let '(networkError, status') :=
           if decide (s_connection_status_ l = NoConnection /\ networkError = Valid)
           then (ConnectionReestablished, Valid) else (networkError, networkError) in
         MkListeners status' (s_listener_id_count_ l) (s_listeners_ l)
           (notified l ++ [((s_listeners_ l).*2, networkError)])).
    cbv zeta. rewrite Hl. destruct (offline s), prev; simpl; try (by apply IH).
    + destruct (IH (MkListeners NoConnection (s_listener_id_count_ l) (s_listeners_ l)
        (notified l ++ [((s_listeners_ l).*2, NoConnection)])) true eq_refl) as [-> ->].
      simpl. by rewrite <- app_assoc.
    + destruct (IH (MkListeners Valid (s_listener_id_count_ l) (s_listeners_ l)
        (notified l ++ [((s_listeners_ l).*2, ConnectionReestablished)])) false eq_refl) as [-> ->].
      simpl. by rewrite <- app_assoc.
Qed.

(** Whatever responses arrive, every registered listener is called exactly at
    the changes between offline (an offline or I/O error status) and online,
    starting from online: [NoConnection] when the connection is lost and
    [ConnectionReestablished] when it is back. *)
Theorem connection_changes_reported callbacks statuses :
  let registered := foldl (fun l f => (AddListenerCallback (Some f) l).1) initial_listeners callbacks in
  notified (foldl (fun l s => NotifyListeners s l) registered statuses) =
  (fun c => ((s_listeners_ registered).*2, c)) <$> changes false statuses.
Proof.
  intros registered.
  assert (forall cs l, s_connection_status_ (foldl (fun l f => (AddListenerCallback (Some f) l).1) l cs)
                       = s_connection_status_ l /\
                     notified (foldl (fun l f => (AddListenerCallback (Some f) l).1) l cs) = notified l) as H.
  { induction cs as [|f cs IH]; intros l; [done|]. cbn [foldl]. by destruct (IH (AddListenerCallback (Some f) l).1) as [-> ->]. }
  destruct (H callbacks initial_listeners) as [Hs Hn]. fold registered in Hs, Hn.
  destruct (notify_changes registered statuses false Hs) as [-> _]. by rewrite Hn.
Qed.

(** ** The invariant of clients and singletons *)

(** The ids of the requests of the client [n] that the protocol has accepted. *)
Definition accepted_ids (n : nat) (acc : list (nat * nat * Z)) : list Z :=
  (filter (fun e => e.1.2 = n) acc).*2.

Definition triggered (s : nat) (xs : list NetworkSingleton) : bool :=
  match xs !! s with Some x => certificate_update_was_triggered_ x | None => false end.

(** Every id that [Send] gave out is with the protocol or answered, once. *)
Definition requests_answered (w : World) : Prop :=
  returned w ≡ₚ ((fun e => (e.1.2, e.2)) <$> accepted w) ++
                ((fun a => (a.1, response_id a.2)) <$> answers w).

(** A started client has an initialised singleton; its ids are with the protocol. *)
Definition network_ok (w : World) (n : nat) (c : Network) : Prop :=
  match singleton_ c with
  | Some s => Started c = true /\ exists x, singletons w !! s = Some x /\ protocol_ x = true
  | None => Started c = false
  end /\
  request_ids_ c ⊆+ accepted_ids n (accepted w).

Record world_ok (w : World) : Prop := {
  ok_g : forall s, g_singleton w = Some s -> is_Some (singletons w !! s);
  ok_networks : forall n c, networks w !! n = Some c -> network_ok w n c;
  ok_accepted : forall s n id, (s, n, id) ∈ accepted w ->
    is_Some (singletons w !! s) /\ is_Some (networks w !! n);
  ok_answered : requests_answered w;
  ok_updates : forall s, occurrences s (updates w) = if triggered s (singletons w) then 1%nat else 0%nat;
  ok_blocked : forall s x, singletons w !! s = Some x -> blocked_ x = true ->
    certificate_update_was_triggered_ x = true }.

Lemma remove_perm id l : id ∈ l -> l ≡ₚ id :: RequestIds_Remove id l.
Proof.
  induction l as [|x l IH]; intros Hid; [by apply not_elem_of_nil in Hid|]. cbn [RequestIds_Remove].
  destruct (Z.eqb_spec x id) as [->|Hne]; [done|].
  rewrite elem_of_cons in Hid. destruct Hid as [->|Hid]; [done|].
  rewrite (IH Hid) at 1. by constructor.
Qed.

Lemma remove_absent id l : id ∉ l -> RequestIds_Remove id l = l.
Proof.
  induction l as [|x l IH]; intros Hid; [done|]. cbn [RequestIds_Remove].
  apply not_elem_of_cons in Hid as [Hx Hl]. destruct (Z.eqb_spec x id); [congruence|]. by rewrite IH.
Qed.

Lemma remove_submseteq id l1 l2 : l1 ⊆+ id :: l2 -> RequestIds_Remove id l1 ⊆+ l2.
Proof.
  intros Hsub. destruct (decide (id ∈ l1)) as [Hin|Hin].
  - rewrite (remove_perm id l1 Hin) in Hsub. by apply submseteq_cons_l in Hsub as (k & E%Permutation_cons_inv & Hk); rewrite <- E in Hk.
  - rewrite remove_absent by done. apply submseteq_cons_r in Hsub as [Hsub|(k & E & Hk)]; [done|].
    exfalso. apply Hin. rewrite E. by left.
Qed.

Lemma remove_sub id l : RequestIds_Remove id l ⊆+ l.
Proof.
  induction l as [|x l IH]; [done|]. cbn [RequestIds_Remove].
  destruct (x =? id); [by apply submseteq_cons|by apply submseteq_skip].
Qed.

(** ** What the parts of an operation preserve *)

(** Replacing a client. *)
Lemma set_network_ok w n c :
  world_ok w -> is_Some (networks w !! n) -> network_ok w n c -> world_ok (set_network n c w).
Proof.
  intros [Hg Hn Ha Hr Hu Hb] Hsome Hc. split; try done; simpl.
  - intros m d Hm. destruct (decide (m = n)) as [->|Hne].
    + rewrite list_lookup_insert_eq in Hm by (by apply lookup_lt_is_Some). by injection Hm as <-.
    + rewrite list_lookup_insert_ne in Hm by done. by apply Hn.
  - intros s m id Hin. destruct (Ha s m id Hin) as [H1 H2]. split; [done|].
    rewrite lookup_lt_is_Some, length_insert. by apply lookup_lt_is_Some.
Qed.

(** The parts of the world the invariant does not look at. *)
Lemma set_listeners_ok w l : world_ok w -> world_ok (set_listeners l w).
Proof. by intros []. Qed.
Lemma set_next_ids_ok w r c : world_ok w -> world_ok (set_next_ids r c w).
Proof. by intros []. Qed.
Lemma protocol_Cancel_ok w id : world_ok w -> world_ok (protocol_Cancel id w).
Proof. by intros []. Qed.

(** A change of a singleton that keeps its protocol and its certificate flag. *)
Lemma set_singleton_ok w s x y :
  world_ok w -> singletons w !! s = Some x ->
  (protocol_ x = true -> protocol_ y = true) ->
  certificate_update_was_triggered_ y = certificate_update_was_triggered_ x ->
  (blocked_ y = true -> blocked_ x = true) ->
  world_ok (set_singleton s y w).
Proof.
  intros [Hg Hn Ha Hr Hu Hb] Hs Hp Ht Hbl.
  assert (s < length (singletons w))%nat as Hlt by (by eapply lookup_lt_Some).
  assert (forall t, is_Some (<[s := y]> (singletons w) !! t) <-> is_Some (singletons w !! t)) as Hsome.
  { intros t. by rewrite !lookup_lt_is_Some, length_insert. }
  split; simpl.
  - intros t Ht'. by apply Hsome, Hg.
  - intros n c Hc. destruct (Hn n c Hc) as [H1 H2]. split; [|done].
    destruct (singleton_ c) as [t|]; [|done]. destruct H1 as (H1 & z & Hz & Hz'). split; [done|].
    simpl. destruct (decide (t = s)) as [->|Hne].
    + rewrite list_lookup_insert_eq by done. exists y. split; [done|].
      apply Hp. congruence.
    + rewrite list_lookup_insert_ne by done. by exists z.
  - intros t n id Hin. destruct (Ha t n id Hin). split; [by apply Hsome|done].
  - done.
  - intros t. rewrite Hu. unfold triggered. destruct (decide (t = s)) as [->|Hne].
    + by rewrite list_lookup_insert_eq, Hs, Ht.
    + by rewrite list_lookup_insert_ne.
  - intros t z. destruct (decide (t = s)) as [->|Hne].
    + rewrite list_lookup_insert_eq by done. intros [= <-] Hy. rewrite Ht. apply (Hb s x Hs). by apply Hbl.
    + rewrite list_lookup_insert_ne by done. apply Hb.
Qed.

Lemma instance_ok w :
  world_ok w -> let '(s, w1) := SingletonInstance w in
  world_ok w1 /\ is_Some (singletons w1 !! s) /\ networks w1 = networks w /\ next_client_id w1 = next_client_id w.
Proof.
  intros Hok. unfold SingletonInstance.
  assert (forall w1, w1 = set_singletons (singletons w ++ [NewSingleton]) (Some (length (singletons w))) w ->
    world_ok w1 /\ is_Some (singletons w1 !! length (singletons w)) /\ networks w1 = networks w
    /\ next_client_id w1 = next_client_id w) as Hnew.
  { intros w1 ->. destruct Hok as [Hg Hn Ha Hr Hu Hb].
    assert (forall t, is_Some (singletons w !! t) -> (singletons w ++ [NewSingleton]) !! t = singletons w !! t) as Hold.
    { intros t [x Hx]. by rewrite (lookup_app_l_Some _ _ _ _ Hx). }
    assert (is_Some ((singletons w ++ [NewSingleton]) !! length (singletons w))) as Hlast.
    { rewrite lookup_app_r, Nat.sub_diag by lia. by eexists. }
    split_and!; [|done|done|done]. split; simpl.
    - by intros s [= <-].
    - intros n c Hc. destruct (Hn n c Hc) as [H1 H2]. split; [|done].
      destruct (singleton_ c) as [t|]; [|done]. destruct H1 as (H1 & z & Hz & Hz'). split; [done|].
      exists z. simpl. by rewrite Hold.
    - intros t n id Hin. destruct (Ha t n id Hin) as [H1 H2]. split; [|done]. by rewrite Hold.
    - done.
    - intros t. rewrite Hu. unfold triggered. destruct (singletons w !! t) as [x|] eqn:Et.
      + by rewrite Hold, Et.
      + apply lookup_ge_None in Et. rewrite lookup_app_r by done.
        by destruct (t - length (singletons w))%nat as [|k] eqn:Ek; [|destruct k].
    - intros t x. rewrite lookup_app. destruct (singletons w !! t) as [y|] eqn:Et; [intros [= <-]; by eapply Hb|].
      destruct (t - length (singletons w))%nat as [|k]; [by intros [= <-]|by destruct k]. }
  destruct (g_singleton w) as [s|] eqn:Eg; [|by apply Hnew].
  destruct (alive s w); [|by apply Hnew]. split_and!; [done| |done|done]. by apply (ok_g w Hok).
Qed.

Lemma accepted_ids_perm n a1 a2 : a1 ≡ₚ a2 -> accepted_ids n a1 ≡ₚ accepted_ids n a2.
Proof. unfold accepted_ids. by intros ->. Qed.

Lemma accepted_ids_cons n e a :
  accepted_ids n (e :: a) = if decide (e.1.2 = n) then e.2 :: accepted_ids n a else accepted_ids n a.
Proof. unfold accepted_ids. rewrite filter_cons. by destruct (decide _). Qed.

(** Answering an accepted request. *)
Lemma finish_ok w s n id acc resp :
  world_ok w -> accepted w ≡ₚ (s, n, id) :: acc -> response_id resp = id ->
  exists w', finish n resp (set_accepted acc w) = Some w' /\ world_ok w'.
Proof.
  intros [Hg Hn Ha Hr Hu Hb] Hacc Hid. unfold finish. simpl.
  assert (is_Some (networks w !! n)) as [c Hc] by (apply (Ha s n id); rewrite Hacc; by left).
  rewrite Hc. cbn [mbind option_bind]. eexists. split; [done|]. apply set_listeners_ok.
  assert (forall m d, request_ids_ d ⊆+ accepted_ids m (accepted w) -> m <> n ->
            request_ids_ d ⊆+ accepted_ids m acc) as Hother.
  { intros m d Hd Hm. by rewrite (accepted_ids_perm m _ _ Hacc), accepted_ids_cons, decide_False in Hd. }
  assert (is_Some (networks w !! n)) as Hsome by done.
  split; simpl; [done| | | |done|done].
  - intros m d Hd. destruct (decide (m = n)) as [->|Hne].
    + rewrite list_lookup_insert_eq in Hd by (by apply lookup_lt_is_Some). injection Hd as <-.
      destruct (Hn n c Hc) as [H1 H2]. split; [done|]. simpl. rewrite Hid.
      apply remove_submseteq. rewrite (accepted_ids_perm n _ _ Hacc), accepted_ids_cons in H2.
      by rewrite decide_True in H2.
    + rewrite list_lookup_insert_ne in Hd by done. destruct (Hn m d Hd) as [H1 H2].
      split; [done|]. by apply Hother.
  - intros t m i Hin. destruct (Ha t m i) as [H1 H2]; [rewrite Hacc; by right|].
    split; [done|]. by rewrite lookup_lt_is_Some, length_insert, <- lookup_lt_is_Some.
  - unfold requests_answered in *. simpl. etrans; [exact Hr|]. rewrite Hacc, fmap_app. simpl. rewrite Hid.
    by rewrite app_assoc, <- Permutation_cons_append.
Qed.

(** ** The operations *)

Lemma next_client_valid next : (NextClientId next).1 <> ClientId_Invalid.
Proof.
  unfold NextClientId, ClientId_Invalid. destruct (Z.eqb_spec (wrap 32 (next + 1)) 0) as [->|]; [done|done].
Qed.

Lemma initialize_ok w s created :
  world_ok w -> is_Some (singletons w !! s) ->
  exists w' b, InitializeClient s created w = Some (w', b) /\ world_ok w' /\
    networks w' = networks w /\
    (b = true -> exists x, singletons w' !! s = Some x /\ protocol_ x = true).
Proof.
  intros Hok [x Hx]. unfold InitializeClient. rewrite Hx. cbn [mbind option_bind].
  destruct (protocol_ x) eqn:Ep; [|destruct created].
  - exists w, true. split_and!; [done|done|done|]. intros _. by exists x.
  - eexists _, true. split_and!; [done|by eapply set_singleton_ok|done|].
    intros _. simpl. rewrite list_lookup_insert_eq by (by eapply lookup_lt_Some). by eexists.
  - by exists w, false.
Qed.

Lemma Start_ok w n created :
  world_ok w -> is_Some (networks w !! n) ->
  exists w' b, Start n created w = Some (w', b) /\ world_ok w'.
Proof.
  intros Hok [c Hc]. unfold Start. rewrite Hc. cbn [mbind option_bind].
  destruct (Started c) eqn:Est; [by exists w, false|].
  pose proof (instance_ok w Hok) as Hi. destruct (SingletonInstance w) as [s w1].
  destruct Hi as (Hok1 & Hs & En & _).
  destruct (initialize_ok w1 s created Hok1 Hs) as (w2 & b & -> & Hok2 & En2 & Hb).
  cbn [mbind option_bind].
  assert (networks w2 !! n = Some c) as Hc2 by (by rewrite En2, En).
  destruct (ok_networks w2 Hok2 n c Hc2) as [_ Hids].
  destruct b; simpl.
  - pose proof (next_client_valid (next_client_id w2)) as Hid.
    destruct (NextClientId (next_client_id w2)) as [id next]. simpl in Hid. eexists _, _. split; [done|].
    apply set_network_ok; [by apply set_next_ids_ok|by eexists|]. split; [|done].
    simpl. split; [|by apply Hb]. unfold Started. simpl. by destruct (Z.eqb_spec id ClientId_Invalid).
  - eexists _, _. split; [done|]. apply set_network_ok; [done|by eexists|]. by split.
Qed.

Lemma cancel_all_ok s ids w :
  world_ok w -> is_Some (singletons w !! s) ->
  exists w', cancel_all s ids w = Some w' /\ world_ok w' /\ networks w' = networks w.
Proof.
  revert w. induction ids as [|id ids IH]; intros w Hok [x Hx]; cbn [cancel_all]; [by exists w|].
  unfold Singleton_Cancel. rewrite Hx. cbn [mbind option_bind]. destruct (protocol_ x); simpl.
  - destruct (IH (protocol_Cancel id w)) as (w' & E & H1 & H2); [by apply protocol_Cancel_ok|by exists x|].
    by exists w'.
  - by apply IH; [|exists x].
Qed.

Lemma Stop_ok w n :
  world_ok w -> is_Some (networks w !! n) ->
  exists w' b, Stop n w = Some (w', b) /\ world_ok w' /\ is_Some (networks w' !! n).
Proof.
  intros Hok [c Hc]. unfold Stop. rewrite Hc. cbn [mbind option_bind].
  destruct (Started c) eqn:Est; simpl; [|by exists w, false].
  destruct (ok_networks w Hok n c Hc) as [Hs _]. destruct (singleton_ c) as [s|]; [|congruence].
  destruct Hs as (_ & x & Hx & _). cbn [mbind option_bind].
  destruct (cancel_all_ok s (request_ids_ c) (set_network n (MkNetwork ClientId_Invalid None []) w))
    as (w' & -> & Hok' & En).
  - apply set_network_ok; [done|by eexists|]. split; [done|]. simpl. apply submseteq_nil_l.
  - by exists x.
  - eexists _, _. split_and!; [done|done|]. rewrite En. simpl.
    rewrite lookup_lt_is_Some, length_insert. by eapply lookup_lt_Some.
Qed.

(** The world after [Send] has taken an id, were the protocol to accept it. *)
Lemma note_send_ok w n c s id next :
  world_ok w -> networks w !! n = Some c -> singleton_ c = Some s ->
  let c1 := MkNetwork (client_id_ c) (singleton_ c) (RequestIds_Insert id (request_ids_ c)) in
  world_ok (set_accepted (accepted w ++ [(s, n, id)])
              (return_id n id (set_network n c1 (set_next_ids next (next_client_id w) w)))).
Proof.
  intros [Hg Hn Ha Hr Hu Hb] Hc Hs c1. split; simpl; [done| | | |done|done].
  - intros m d Hd. destruct (decide (m = n)) as [->|Hne].
    + rewrite list_lookup_insert_eq in Hd by (by eapply lookup_lt_Some). injection Hd as <-.
      destruct (Hn n c Hc) as [H1 H2]. split; [done|]. simpl.
      rewrite (accepted_ids_perm n _ _ (Permutation_app_comm _ _)). simpl.
      rewrite accepted_ids_cons, decide_True by done. simpl. unfold RequestIds_Insert.
      rewrite <- Permutation_cons_append. by apply submseteq_skip.
    + rewrite list_lookup_insert_ne in Hd by done. destruct (Hn m d Hd) as [H1 H2]. split; [done|].
      simpl. rewrite (accepted_ids_perm m _ _ (Permutation_app_comm _ _)). simpl.
      by rewrite accepted_ids_cons, decide_False.
  - intros t m i [Hin|Hin%list_elem_of_singleton]%elem_of_app.
    + destruct (Ha t m i Hin). split; [done|]. by rewrite lookup_lt_is_Some, length_insert, <- lookup_lt_is_Some.
    + injection Hin as -> -> ->. split.
      * destruct (Hn n c Hc) as [H1 _]. rewrite Hs in H1. destruct H1 as (_ & x & Hx & _). by exists x.
      * rewrite lookup_lt_is_Some, length_insert. by eapply lookup_lt_Some.
  - unfold requests_answered in *. simpl. rewrite Hr, fmap_app. simpl. rewrite <- !app_assoc.
    f_equiv. by rewrite Permutation_app_comm.
Qed.

Lemma Send_ok w n err :
  world_ok w -> is_Some (networks w !! n) ->
  exists w' id, Network_Send n err w = Some (w', id) /\ world_ok w'.
Proof.
  intros Hok [c Hc]. unfold Network_Send. rewrite Hc. cbn [mbind option_bind].
  destruct (ok_networks w Hok n c Hc) as [Hs Hids].
  destruct (if negb (Started c) then None else singleton_ c) as [s|] eqn:Es.
  - assert (singleton_ c = Some s) as Hsc by (by destruct (Started c)).
    rewrite Hsc in Hs. destruct Hs as (Hst & x & Hx & Hp).
    destruct (NextRequestId (next_request_id w)) as [id next].
    set (c1 := MkNetwork (client_id_ c) (singleton_ c) (RequestIds_Insert id (request_ids_ c))).
    set (w1 := return_id n id _).
    assert (world_ok (set_accepted (accepted w ++ [(s, n, id)]) w1)) as Hok1.
    { by apply (note_send_ok w n c s id next). }
    assert (exists w2, Singleton_Send s n id err w1 = Some w2 /\ world_ok w2) as (w2 & -> & Hok2).
    { unfold Singleton_Send. simpl. rewrite Hx. cbn [mbind option_bind].
      assert (forall resp, response_id resp = id -> exists w2, finish n resp w1 = Some w2 /\ world_ok w2) as Hfin.
      { intros resp Hr. change w1 with (set_accepted (accepted w) (set_accepted (accepted w ++ [(s, n, id)]) w1)).
        eapply finish_ok; [done| |done]. simpl. by rewrite <- Permutation_cons_append. }
      destruct (blocked_ x); [by apply Hfin|]. destruct (protocol_ x); [|by apply Hfin]. simpl.
      destruct (decide (err <> ErrorNone)); [|by eexists]. apply Hfin.
      unfold HandleSynchronousNetworkErrors. by repeat destruct (decide _). }
    by eexists _, _.
  - eexists _, _. split; [done|]. destruct Hok as [Hg Hn Ha Hr Hu Hb]. split; try done.
    unfold requests_answered in *. simpl. rewrite Hr, fmap_app. simpl. by rewrite app_assoc.
Qed.

(** The world after the protocol has asked for new certificates. *)
Lemma update_ok w s x :
  world_ok w -> singletons w !! s = Some x -> certificate_update_was_triggered_ x = false ->
  world_ok (update_certificate s (set_singleton s (MkSingleton (protocol_ x) true true) w)).
Proof.
  intros [Hg Hn Ha Hr Hu Hb] Hs Hx.
  assert (s < length (singletons w))%nat as Hlt by (by eapply lookup_lt_Some).
  set (y := MkSingleton _ _ _).
  assert (forall t, is_Some (<[s := y]> (singletons w) !! t) <-> is_Some (singletons w !! t)) as Hsome.
  { intros t. by rewrite !lookup_lt_is_Some, length_insert. }
  split; simpl.
  - intros t Ht. by apply Hsome, Hg.
  - intros n c Hc. destruct (Hn n c Hc) as [H1 H2]. split; [|done].
    destruct (singleton_ c) as [t|]; [|done]. destruct H1 as (H1 & z & Hz & Hz'). split; [done|].
    simpl. destruct (decide (t = s)) as [->|Hne].
    + rewrite list_lookup_insert_eq by done. exists y. split; [done|]. unfold y. simpl. congruence.
    + rewrite list_lookup_insert_ne by done. by exists z.
  - intros t n id Hin. destruct (Ha t n id Hin). split; [by apply Hsome|done].
  - done.
  - intros t. rewrite occurrences_app, Hu, occurrences_cons. unfold triggered. destruct (decide (s = t)) as [<-|Hne].
    + by rewrite list_lookup_insert_eq, Hs, Hx.
    + rewrite list_lookup_insert_ne by done. unfold occurrences. simpl. lia.
  - intros t z. destruct (decide (t = s)) as [->|Hne].
    + rewrite list_lookup_insert_eq by done. by intros [= <-].
    + rewrite list_lookup_insert_ne by done. apply Hb.
Qed.

Lemma respond_ok w k s n id resp :
  world_ok w -> accepted w !! k = Some (s, n, id) -> response_id resp = id ->
  exists w', respond k resp w = Some w' /\ world_ok w'.
Proof.
  intros Hok Hk Hid. unfold respond. rewrite Hk. cbn [mbind option_bind].
  destruct (ok_accepted w Hok s n id (list_elem_of_lookup_2 _ _ _ Hk)) as [[x Hx] _].
  simpl. rewrite Hx. cbn [mbind option_bind].
  pose proof (delete_Permutation _ _ _ Hk) as Hperm.
  destruct (_ && negb (certificate_update_was_triggered_ x)) eqn:Et.
  - apply andb_true_iff in Et as [_ Et%negb_true_iff].
    change (update_certificate s _) with (set_accepted (delete k (accepted w))
      (update_certificate s (set_singleton s (MkSingleton (protocol_ x) true true) w))).
    eapply finish_ok; [by apply update_ok|exact Hperm|done].
  - by eapply finish_ok.
Qed.

(** Forgetting an id keeps a client well-formed. *)
Lemma forget_ok w n c id :
  world_ok w -> networks w !! n = Some c ->
  world_ok (set_network n (MkNetwork (client_id_ c) (singleton_ c)
                             (RequestIds_Remove id (request_ids_ c))) w).
Proof.
  intros Hok Hc. apply set_network_ok; [done|by eexists|].
  destruct (ok_networks w Hok n c Hc) as [H1 H2]. split; [done|]. simpl.
  etrans; [apply remove_sub|done].
Qed.

Lemma Cancel_ok w n id result :
  world_ok w -> is_Some (networks w !! n) ->
  exists w' b, Network_Cancel n id result w = Some (w', b) /\ world_ok w'.
Proof.
  intros Hok [c Hc]. unfold Network_Cancel. rewrite Hc. cbn [mbind option_bind].
  destruct (ok_networks w Hok n c Hc) as [Hs _].
  destruct (Started c); simpl; [|by exists w, false].
  destruct (singleton_ c) as [s|] eqn:Es; [|by exists w, false]. destruct Hs as (_ & x & Hx & Hp).
  unfold Singleton_Cancel. simpl. rewrite Hx. cbn [mbind option_bind]. rewrite Hp. simpl.
  eexists _, _. split; [done|]. apply protocol_Cancel_ok. rewrite <- Es. by apply forget_ok.
Qed.

Lemma CancelIfPending_ok w n id result :
  world_ok w -> is_Some (networks w !! n) ->
  exists w' b, Network_CancelIfPending n id result w = Some (w', b) /\ world_ok w'.
Proof.
  intros Hok [c Hc]. unfold Network_CancelIfPending. rewrite Hc. cbn [mbind option_bind].
  destruct (ok_networks w Hok n c Hc) as [Hs _].
  destruct (Started c); simpl; [|by exists w, false].
  destruct (singleton_ c) as [s|] eqn:Es; [|by exists w, false]. destruct Hs as (_ & x & Hx & Hp).
  unfold Singleton_CancelIfPending. rewrite Hx. cbn [mbind option_bind]. rewrite Hp. simpl.
  destruct result; simpl; [|by exists w, false].
  eexists _, _. split; [done|]. rewrite <- Es. by apply forget_ok.
Qed.

Lemma Unblock_ok w : world_ok w -> exists w', Unblock w = Some w' /\ world_ok w'.
Proof.
  intros Hok. unfold Unblock. destruct (g_singleton w) as [s|] eqn:Eg; [|by exists w].
  destruct (alive s w); [|by exists w]. destruct (ok_g w Hok s Eg) as [x Hx]. rewrite Hx.
  cbn [mbind option_bind]. eexists. split; [done|]. by eapply set_singleton_ok.
Qed.

(** The client or the accepted request an action names exists. *)
Definition in_bounds (a : action) (w : World) : Prop :=
  match a with
  | DoStart n _ | DoStop n | DoRestart n _ | DoSend n _ | DoCancel n _ _ | DoCancelIfPending n _ _ =>
    is_Some (networks w !! n)
  | DoRespond k _ _ _ => is_Some (accepted w !! k)
  | _ => True
  end.

Lemma action_ok a w : world_ok w -> in_bounds a w -> exists w', act a w = Some w' /\ world_ok w'.
Proof.
  intros Hok Ha. destruct a as [n b|n|n b|n err|k b status error|n id b|n id b| |f|id]; cbn [act in_bounds] in *.
  - destruct (Start_ok w n b Hok Ha) as (w' & r & -> & H). by exists w'.
  - destruct (Stop_ok w n Hok Ha) as (w' & r & -> & H & _). by exists w'.
  - unfold Restart. destruct (Stop_ok w n Hok Ha) as (w1 & r1 & -> & H1 & Hn1).
    destruct (Start_ok w1 n b H1 Hn1) as (w' & r & E & H). exists w'. cbn [mbind option_bind]. by rewrite E.
  - destruct (Send_ok w n err Hok Ha) as (w' & r & -> & H). by exists w'.
  - destruct Ha as [[[s n] id] Hk]. rewrite Hk. cbn [mbind option_bind]. by eapply respond_ok.
  - destruct (Cancel_ok w n id b Hok Ha) as (w' & r & -> & H). by exists w'.
  - destruct (CancelIfPending_ok w n id b Hok Ha) as (w' & r & -> & H). by exists w'.
  - by apply Unblock_ok.
  - eexists. split; [done|]. by apply set_listeners_ok.
  - eexists. split; [done|]. by apply set_listeners_ok.
Qed.

Lemma action_in_bounds a w w' : act a w = Some w' -> in_bounds a w.
Proof.
  destruct a as [n b|n|n b|n err|k b status error|n id b|n id b| |f|id]; cbn [act in_bounds]; try done.
  - unfold Start. by destruct (networks w !! n).
  - unfold Stop. by destruct (networks w !! n).
  - unfold Restart, Stop. by destruct (networks w !! n).
  - unfold Network_Send. by destruct (networks w !! n).
  - by destruct (accepted w !! k).
  - unfold Network_Cancel. by destruct (networks w !! n).
  - unfold Network_CancelIfPending. by destruct (networks w !! n).
Qed.

Lemma run_ok l w w' : world_ok w -> run l w = Some w' -> world_ok w'.
Proof.
  revert w. induction l as [|a l IH]; intros w Hok; cbn [run]; [by intros [= <-]|].
  destruct (act a w) as [w1|] eqn:Ea; cbn [mbind option_bind]; [|done]. apply IH.
  destruct (action_ok a w Hok (action_in_bounds _ _ _ Ea)) as (w2 & E & Hok2). congruence.
Qed.

Lemma new_world_ok n : world_ok (NewWorld n).
Proof.
  split; try done.
  - simpl. intros m c [-> _]%lookup_replicate. split; [done|]. apply submseteq_nil_l.
  - intros s m id Hin. by apply not_elem_of_nil in Hin.
  - unfold requests_answered. done.
Qed.

Lemma occurrences_NoDup l : (forall i, (occurrences i l <= 1)%nat) -> NoDup l.
Proof.
  induction l as [|x l IH]; intros H; [constructor|]. constructor.
  - intros Hin. specialize (H x). rewrite occurrences_cons, decide_True in H by done.
    apply list_elem_of_split in Hin as (l1 & l2 & ->).
    rewrite occurrences_app, occurrences_cons, decide_True in H by done. lia.
  - apply IH. intros i. specialize (H i). rewrite occurrences_cons in H. lia.
Qed.

(** The singletons that have asked are those whose flag is set. *)
Lemma occurrences_pos i l : (0 < occurrences i l)%nat <-> i ∈ l.
Proof.
  induction l as [|x l IH]; [split; [unfold occurrences; simpl; lia|by intros ?%elem_of_nil]|].
  rewrite occurrences_cons, elem_of_cons, <- IH. case_decide as E.
  - split; [by left|lia].
  - split; [by right|]. intros [->|?]; [done|lia].
Qed.

Lemma updates_iff w :
  world_ok w -> forall s, s ∈ updates w <->
  exists x, singletons w !! s = Some x /\ certificate_update_was_triggered_ x = true.
Proof.
  intros Hok s. rewrite <- occurrences_pos, (ok_updates w Hok). unfold triggered.
  destruct (singletons w !! s) as [x|]; [|split; [lia|by intros (? & ? & _)]].
  destruct (certificate_update_was_triggered_ x) eqn:E.
  - split; [intros _; by exists x|lia].
  - split; [lia|]. intros (x' & [= <-] & E'). congruence.
Qed.

(** C32.  After any sequence of starts, stops, sends, cancellations, responses of
    the protocol, unblockings and listener changes: each id that [Send] gave out is,
    exactly once, with the protocol or answered to the caller that sent it; the ids
    a client keeps are those of its requests with the protocol; each singleton asks for
    new certificates at most once, exactly if its flag says so, and blocks only after it
    has asked (the singleton made by a start after the last client has stopped may ask
    again); and no operation on an existing client, and no callback of an accepted
    request, finds a singleton missing. *)
Theorem network_requests_accounted n l w :
  run l (NewWorld n) = Some w ->
  returned w ≡ₚ ((fun e => (e.1.2, e.2)) <$> accepted w) ++
                ((fun a => (a.1, response_id a.2)) <$> answers w) /\
  (forall m c, networks w !! m = Some c -> request_ids_ c ⊆+ accepted_ids m (accepted w)) /\
  NoDup (updates w) /\
  (forall s, s ∈ updates w <->
     exists x, singletons w !! s = Some x /\ certificate_update_was_triggered_ x = true) /\
  (forall s x, singletons w !! s = Some x -> blocked_ x = true -> s ∈ updates w) /\
  (forall a, in_bounds a w -> is_Some (act a w)).
Proof.
  intros Hrun. pose proof (run_ok l _ _ (new_world_ok n) Hrun) as Hok. split_and!.
  - apply (ok_answered w Hok).
  - intros m c Hc. by apply (ok_networks w Hok m c Hc).
  - apply occurrences_NoDup. intros s. rewrite (ok_updates w Hok). destruct (triggered _ _); lia.
  - intros s. by apply updates_iff.
  - intros s x Hs Hb. apply (updates_iff w Hok). exists x. split; [done|]. by apply (ok_blocked w Hok s x).
  - intros a Ha. destruct (action_ok a w Hok Ha) as (w' & -> & _). by eexists.
Qed.

(** Two clients; the first's second request is answered with a certificate error
    and its third is refused. *)
Definition example_actions : list action :=
  [DoStart 0 true; DoSend 0 ErrorNone; DoSend 0 ErrorNone; DoStart 1 true;
   DoRespond 1 false (network_value AuthenticationError) []; DoSend 0 ErrorNone; DoStop 1].
Definition example_world : World := default (NewWorld 0) (run example_actions (NewWorld 2)).

Lemma network_requests_accounted_witness :
  let w := example_world in
  returned w ≡ₚ ((fun e => (e.1.2, e.2)) <$> accepted w) ++
                ((fun a => (a.1, response_id a.2)) <$> answers w) /\
  (forall m c, networks w !! m = Some c -> request_ids_ c ⊆+ accepted_ids m (accepted w)) /\
  NoDup (updates w) /\
  (forall s, s ∈ updates w <->
     exists x, singletons w !! s = Some x /\ certificate_update_was_triggered_ x = true) /\
  (forall s x, singletons w !! s = Some x -> blocked_ x = true -> s ∈ updates w) /\
  (forall a, in_bounds a w -> is_Some (act a w)).
Proof. apply (network_requests_accounted 2 example_actions). vm_compute. reflexivity. Defined.

(** A certificate error after a start, and one after the next start: each of the two
    singletons asks once. *)
Example certificates_asked_again :
  updates <$> run [DoStart 0 true; DoSend 0 ErrorNone; DoRespond 0 false (network_value AuthenticationError) [];
                   DoStop 0; DoStart 0 true; DoSend 0 ErrorNone;
                   DoRespond 0 false (network_value AuthenticationError) []] (NewWorld 1) = Some [0%nat; 1%nat].
Proof. reflexivity. Qed.

Example example_world_facts :
  (updates example_world, length (accepted example_world), length (answers example_world)) = ([0%nat], 1%nat, 2%nat).
Proof. reflexivity. Qed.
