(* ===== verification/OlpClient.v ===== *)
(** * The REST client: requests, retries and cancellation

    [olp-cpp-sdk-core/src/client/OlpClient.cpp] with the cancellation context of
    [CancellationContext.inl].  One call of [CallApi] is a [Call]; the network
    handler is not modelled: whether it calls back at once or later, and with what,
    is given by the parameters [handler] and [on_cancel]. *)

From Stdlib Require Import ZArith Lia Bool Ascii.
From stdpp Require Import base numbers strings list.
From S2P Require Import Prelude Decimal Http PriorityQueue.
Local Open Scope Z_scope.
Local Open Scope olp_scope.

Record HttpResponse := MkHttpResponse { status : Z; response : text }.

(** ** Settings *)

Record RetrySettings := MkRetrySettings {
  max_attempts : Z;
  timeout : Z;
  initial_backdown_period : Z;
  backdown_policy : Z -> Z;
  retry_condition : HttpResponse -> bool }.

Definition DefaultBackdownPolicy (milliseconds : Z) : Z := milliseconds.
Definition DefaultRetryCondition (_ : HttpResponse) : bool := false.
Definition default_RetrySettings : RetrySettings :=
  MkRetrySettings 3 60 200 DefaultBackdownPolicy DefaultRetryCondition.

(** The token the authentication settings' provider returns, if they are set. *)
Record OlpClientSettings := MkOlpClientSettings {
  retry_settings : RetrySettings;
  authentication_settings : option text }.

(** Multimaps are lists of pairs in the order of their iteration. *)
Record OlpClient := MkOlpClient {
  base_url_ : text;
  default_headers_ : list (text * text);
  settings_ : OlpClientSettings }.

Definition SetBaseUrl (baseUrl : text) (c : OlpClient) : OlpClient :=
  MkOlpClient baseUrl (default_headers_ c) (settings_ c).
(** The network handler of the settings, if they have one, is the [handler] below. *)
Definition SetSettings (settings : OlpClientSettings) (c : OlpClient) : OlpClient :=
  MkOlpClient (base_url_ c) (default_headers_ c) settings.
(** Through [GetMutableDefaultHeaders] the caller replaces the default headers. *)
Definition SetDefaultHeaders (headers : list (text * text)) (c : OlpClient) : OlpClient :=
  MkOlpClient (base_url_ c) headers (settings_ c).

(** ** Requests *)

Definition CaseInsensitiveCompare (str1 str2 : text) : bool :=
  (length str1 =? length str2)%nat &&
  forallb (fun '(c1, c2) => bool_decide (c1 = c2) || bool_decide (tolower c1 = tolower c2))
    (zip str1 str2).

Definition kAuthorizationHeader : text := str "Authorization".
Definition kContentTypeHeader : text := str "Content-Type".
Definition kUserAgentHeader : text := str "User-Agent".
Definition kBearer : text := str "Bearer".

Definition verb_of (method : text) : HttpVerb :=
  if bool_decide (method = str "GET") then GET
  else if bool_decide (method = str "PUT") then PUT
  else if bool_decide (method = str "POST") then POST
  else if bool_decide (method = str "DELETE") then DEL
  else GET.

(** The loop over the query parameters. *)
Fixpoint query_string (first : bool) (queryParams : list (text * text)) : text :=
  match queryParams with
  | [] => []
  | (key, value) :: rest =>
    (if first then [] else str "&") ++ key ++ str "=" ++ value ++ query_string false rest
  end.

Definition request_uri (c : OlpClient) (path : text) (queryParams : list (text * text)) : text :=
  base_url_ c ++ path ++
  match queryParams with [] => [] | _ => str "?" ++ query_string true queryParams end.

Definition add_headers (headers : list (text * text)) (r : NetworkRequest) : NetworkRequest :=
  foldl (fun r header => AddHeader header.1 header.2 r) r headers.

(** One header of the call: User-Agent headers are merged. *)
Definition add_custom (acc : NetworkRequest * text) (header : text * text) : NetworkRequest * text :=
  let '(r, custom_user_agent) := acc in
  if CaseInsensitiveCompare header.1 kUserAgentHeader
  then (r, custom_user_agent ++ header.2 ++ str " ")
  else (AddHeader header.1 header.2 r, custom_user_agent).

Definition SetContent (content : option text) (r : NetworkRequest) : NetworkRequest :=
  MkNetworkRequest (url_ r) (modified_since_ r) (extra_headers_ r) content (verb_ r)
    (priority_ r) (ignore_offset_ r) (get_statistics_ r).

(** [kOlpSdkUserAgent] is built from macros of the build. *)
Definition CreateRequest (kOlpSdkUserAgent : text) (c : OlpClient) (path method : text)
    (queryParams headerParams : list (text * text)) (postBody : option text) (contentType : text)
    : NetworkRequest :=
  let r0 := NewNetworkRequest (request_uri c path queryParams) 0 PriorityDefault (verb_of method) in
  let r1 :=
    match authentication_settings (settings_ c) with
    | Some token => AddHeader kAuthorizationHeader (kBearer ++ str " " ++ token) r0
    | None => r0
    end in
  let r2 := add_headers (default_headers_ c) r1 in
  let '(r3, custom_user_agent) := foldl add_custom (r2, []) headerParams in
  let r4 := AddHeader kUserAgentHeader (custom_user_agent ++ kOlpSdkUserAgent) r3 in
  let r5 := match contentType with [] => r4 | _ => AddHeader kContentTypeHeader contentType r4 end in
  SetContent postBody r5.

(** ** A call and its cancellation context *)

(** What the handler (or the cancellation of an attempt) does with the callback
    before it returns. *)
Inductive Answer := Later | Now (r : HttpResponse).

(** The retry callback of an attempt: the number of the try and the period to wait
    after it. *)
Record RetryCallback := MkRetryCallback { currentTry : Z; currentBackdownPeriod : Z }.

(** [sub_operation_cancel_token_] is the attempt whose token the context holds;
    [context_alive]: the caller still holds the token that [CallApi] returned, and
    with it the context.  [attempts] counts the requests given to the handler,
    [in_flight] are those not yet answered, [waits] the waiting times and [results]
    the calls of the caller's callback. *)
Record Call := MkCall {
  is_cancelled_ : bool;
  sub_operation_cancel_token_ : option nat;
  context_alive : bool;
  attempts : nat;
  in_flight : list (nat * RetryCallback);
  waits : list Z;
  results : list HttpResponse }.

Definition new_call : Call := MkCall false None true 0 [] [] [].

Definition set_token t c := MkCall (is_cancelled_ c) t (context_alive c) (attempts c) (in_flight c) (waits c) (results c).
Definition set_cancelled c := MkCall true (sub_operation_cancel_token_ c) (context_alive c) (attempts c) (in_flight c) (waits c) (results c).
Definition drop_context c := MkCall (is_cancelled_ c) (sub_operation_cancel_token_ c) false (attempts c) (in_flight c) (waits c) (results c).
Definition count_attempt c := MkCall (is_cancelled_ c) (sub_operation_cancel_token_ c) (context_alive c) (S (attempts c)) (in_flight c) (waits c) (results c).
Definition set_in_flight l c := MkCall (is_cancelled_ c) (sub_operation_cancel_token_ c) (context_alive c) (attempts c) l (waits c) (results c).
Definition sleep_for ms c := MkCall (is_cancelled_ c) (sub_operation_cancel_token_ c) (context_alive c) (attempts c) (in_flight c) (waits c ++ [ms]) (results c).
Definition call_back r c := MkCall (is_cancelled_ c) (sub_operation_cancel_token_ c) (context_alive c) (attempts c) (in_flight c) (waits c) (results c ++ [r]).

(** [CancellationContext::ExecuteOrCancelled] *)
Definition ExecuteOrCancelled (execute_fn : Call -> option (Call * nat)) (cancel_fn : Call -> Call)
    (c : Call) : option Call :=
  if is_cancelled_ c then Some (cancel_fn c)
  else '(c', token) ← execute_fn c; Some (set_token (Some token) c').

Definition CancelledResponse : HttpResponse :=
  MkHttpResponse (network_value NetCancelled) (str "Operation Cancelled.").
Definition UnknownResponse : HttpResponse :=
  MkHttpResponse (network_value UnknownError) (str "Unknown error.").

Section retry.
  Variables (settings : RetrySettings) (handler on_cancel : nat -> Answer).

(** The handler is given the next attempt with the callback [cb], which
    [callback] runs. *)
Definition networkAsyncHandler (callback : RetryCallback -> HttpResponse -> Call -> option Call)
    (cb : RetryCallback) (c : Call) : option (Call * nat) :=
  let n := attempts c in
  match handler n with
  | Later => Some (set_in_flight (in_flight c ++ [(n, cb)]) (count_attempt c), n)
  | Now r => c' ← callback cb r (count_attempt c); Some (c', n)
  end.

(** [GetRetryCallback(currentTry, currentBackdownPeriod, ...)]: the new callback. *)
Definition GetRetryCallback (currentTry currentBackdownPeriod : Z) : RetryCallback :=
  MkRetryCallback (s32 (currentTry + 1)) currentBackdownPeriod.

(** The body of the callback; [fuel] bounds the nesting of handlers that call back
    at once. *)
Fixpoint retry_callback (fuel : nat) (cb : RetryCallback) (r : HttpResponse) (c : Call) : option Call :=
  match fuel with
  | O => None
  | S fuel =>
    if (currentTry cb >=? max_attempts settings) || negb (retry_condition settings r) then
      Some (call_back r c)
    else
      let c1 := sleep_for (currentBackdownPeriod cb) c in
      let nextBackdownPeriod := backdown_policy settings (currentBackdownPeriod cb) in
      if context_alive c1 then
        ExecuteOrCancelled
          (networkAsyncHandler (retry_callback fuel) (GetRetryCallback (currentTry cb) nextBackdownPeriod))
          (call_back CancelledResponse) c1
      else Some (call_back UnknownResponse c1)
  end.

Definition retry_fuel : nat := S (Z.to_nat (max_attempts settings)).

Definition CallApi : option Call :=
  ExecuteOrCancelled
    (networkAsyncHandler (retry_callback retry_fuel)
       (GetRetryCallback 0 (initial_backdown_period settings)))
    (call_back CancelledResponse) new_call.

Fixpoint find_attempt (n : nat) (l : list (nat * RetryCallback))
    : option (RetryCallback * list (nat * RetryCallback)) :=
  match l with
  | [] => None
  | (m, cb) :: rest =>
    if (m =? n)%nat then Some (cb, rest)
    else '(cb', rest') ← find_attempt n rest; Some (cb', (m, cb) :: rest')
  end.

(** The handler calls back for the attempt [n]; it does so once. *)
Definition answer (n : nat) (r : HttpResponse) (c : Call) : option Call :=
  match find_attempt n (in_flight c) with
  | None => Some c
  | Some (cb, rest) => retry_callback retry_fuel cb r (set_in_flight rest c)
  end.

(** The token of the attempt [n] is cancelled. *)
Definition cancel_attempt (n : nat) (c : Call) : option Call :=
  match on_cancel n with
  | Later => Some c
  | Now r => answer n r c
  end.

(** [CancellationContext::CancelOperation] *)
Definition CancelOperation (c : Call) : option Call :=
  if is_cancelled_ c then Some c
  else
    c1 ← match sub_operation_cancel_token_ c with
         | None => Some c
         | Some n => cancel_attempt n c
         end;
    Some (set_cancelled (set_token None c1)).

(** What happens to a call: the handler answers an attempt, the caller cancels, or
    lets go of its token (after which it can no longer cancel). *)
Inductive event := Respond (n : nat) (r : HttpResponse) | Cancel | Drop.

Definition on_event (e : event) (c : Call) : option Call :=
  match e with
  | Respond n r => answer n r c
  | Cancel => if context_alive c then CancelOperation c else Some c
  | Drop => Some (drop_context c)
  end.

Fixpoint on_events (l : list event) (c : Call) : option Call :=
  match l with
  | [] => Some c
  | e :: rest => c' ← on_event e c; on_events rest c'
  end.

End retry.
