(* ===== verification/OlpClientFacts.v ===== *)
(** * Correctness of the REST client

    The caller's callback is called exactly once per call, attempts and waiting
    times follow the retry settings, and the headers of a request. *)

From Stdlib Require Import ZArith Lia Bool Ascii.
From stdpp Require Import base numbers strings list.
From S2P Require Import Prelude Decimal Http PriorityQueue OlpClient.
Local Open Scope Z_scope.
Local Open Scope olp_scope.

Section facts.
  Context (settings : RetrySettings) (handler on_cancel : nat -> Answer).
  Context (max_range : max_attempts settings < 2 ^ 31).

(** The waiting time after the [k]th retry. *)
Definition period_after (k : nat) : Z :=
  Nat.iter k (backdown_policy settings) (initial_backdown_period settings).
Definition callback_after (k : nat) : RetryCallback :=
  MkRetryCallback (Z.of_nat k + 1) (period_after k).

(** The attempts and waiting times of a call. *)
Definition progress_ok (c : Call) : Prop :=
  (attempts c <= S (length (waits c)))%nat /\
  waits c = period_after <$> seq 0 (length (waits c)) /\
  Z.of_nat (length (waits c)) <= Z.max 0 (max_attempts settings - 1).

(** Either the callback has been called or one attempt is waited for. *)
Definition outcome_ok (c : Call) : Prop :=
  (exists r, results c = [r] /\ in_flight c = []) \/
  (exists n, results c = [] /\ in_flight c = [(n, callback_after (length (waits c)))]).

Definition call_ok (c : Call) : Prop := progress_ok c /\ outcome_ok c.

Lemma period_snoc k :
  (period_after <$> seq 0 k) ++ [period_after k] = period_after <$> seq 0 (S k).
Proof. by rewrite seq_S, fmap_app. Qed.

Lemma finished_ok c r :
  progress_ok c -> results c = [] -> in_flight c = [] -> call_ok (call_back r c).
Proof. intros Hp Hres Hfl. split; [done|]. left. exists r. simpl. by rewrite Hres. Qed.

(** Waiting before the next try. *)
Lemma sleep_ok c :
  progress_ok c -> Z.of_nat (length (waits c)) + 1 < max_attempts settings ->
  let c1 := sleep_for (period_after (length (waits c))) c in
  progress_ok (count_attempt c1) /\ progress_ok c1 /\ length (waits c1) = S (length (waits c)).
Proof.
  intros (Hatt & Hw & Hlen) Hlt c1.
  assert (length (waits c1) = S (length (waits c))) as Hl1 by (simpl; rewrite length_app; simpl; lia).
  unfold progress_ok. change (waits (count_attempt c1)) with (waits c1). rewrite Hl1.
  assert (waits c1 = period_after <$> seq 0 (S (length (waits c)))) as Hw1.
  { simpl. rewrite Hw at 1. apply period_snoc. }
  split_and!; try done; simpl; lia.
Qed.

Lemma next_callback k :
  Z.of_nat k + 1 < max_attempts settings ->
  GetRetryCallback (Z.of_nat k + 1) (backdown_policy settings (period_after k)) = callback_after (S k).
Proof using max_range.
  intros Hlt. unfold GetRetryCallback, callback_after. f_equal. rewrite swrap_small by lia. lia.
Qed.

(** The callback of the one awaited attempt, enough fuel given. *)
Lemma retry_callback_ok fuel r c :
  progress_ok c -> results c = [] -> in_flight c = [] -> (0 < fuel)%nat ->
  max_attempts settings - (Z.of_nat (length (waits c)) + 1) < Z.of_nat fuel ->
  exists c', retry_callback settings handler fuel (callback_after (length (waits c))) r c = Some c' /\
    call_ok c' /\ context_alive c' = context_alive c.
Proof using max_range.
  revert r c. induction fuel as [|fuel IH]; intros r c Hp Hres Hfl Hpos Hfuel; [lia|].
  cbn [retry_callback]. simpl currentTry. simpl currentBackdownPeriod.
  destruct (Z.geb_spec (Z.of_nat (length (waits c)) + 1) (max_attempts settings)) as [Hge|Hlt]; simpl.
  { eexists. split; [done|]. split; [by apply finished_ok|done]. }
  destruct (retry_condition settings r); simpl.
  2:{ eexists. split; [done|]. split; [by apply finished_ok|done]. }
  destruct (sleep_ok c Hp Hlt) as (Hp2 & Hp1 & Hl1). set (c1 := sleep_for _ c) in *.
  destruct (context_alive c) eqn:Halive.
  2:{ eexists. split; [done|]. split; [by apply finished_ok|done]. }
  unfold ExecuteOrCancelled. change (is_cancelled_ c1) with (is_cancelled_ c).
  destruct (is_cancelled_ c).
  { eexists. split; [done|]. split; [by apply finished_ok|done]. }
  rewrite (next_callback _ Hlt). unfold networkAsyncHandler. destruct (handler (attempts c1)) as [|r'].
  - eexists. split; [done|]. split; [|done]. split; [done|]. right. eexists.
    simpl. rewrite Hres, Hfl. split; [done|]. simpl in Hl1. by rewrite Hl1.
  - change (callback_after (S (length (waits c)))) with (callback_after (S (length (waits c)))).
    rewrite <- Hl1. destruct (IH r' (count_attempt c1)) as (c2 & E & Hok & Ha); [done|done|done|lia| |].
    + change (waits (count_attempt c1)) with (waits c1). lia.
    + change (waits (count_attempt c1)) with (waits c1) in E. rewrite E. cbn [mbind option_bind].
      eexists. split; [done|]. split; [by destruct Hok|]. simpl. by rewrite Ha.
Qed.

Lemma retry_fuel_enough k : max_attempts settings - (Z.of_nat k + 1) < Z.of_nat (retry_fuel settings).
Proof. unfold retry_fuel. lia. Qed.

Lemma CallApi_ok :
  exists c, CallApi settings handler = Some c /\ call_ok c /\ context_alive c = true.
Proof using max_range.
  unfold CallApi, ExecuteOrCancelled, networkAsyncHandler.
  change (is_cancelled_ new_call) with false. change (attempts new_call) with 0%nat. cbv iota.
  assert (progress_ok (count_attempt new_call)) as Hp by (unfold progress_ok; simpl; split_and!; [lia|done|lia]).
  destruct (handler 0) as [|r].
  - eexists. split; [done|]. split; [|done]. split; [done|]. right. by exists 0%nat.
  - destruct (retry_callback_ok (retry_fuel settings) r (count_attempt new_call))
      as (c & E & Hok & Ha); [done|done|done|unfold retry_fuel; lia|apply retry_fuel_enough|].
    change (GetRetryCallback 0 _) with (callback_after (length (waits (count_attempt new_call)))).
    rewrite E. cbn [mbind option_bind].
    eexists. split; [done|]. split; [by destruct Hok|done].
Qed.

Lemma answer_ok n r c :
  call_ok c -> exists c', answer settings handler n r c = Some c' /\ call_ok c' /\
    context_alive c' = context_alive c.
Proof using max_range.
  intros [Hp Ho]. unfold answer. destruct Ho as [(r' & Hres & Hfl)|(m & Hres & Hfl)]; rewrite Hfl; cbn [find_attempt].
  - exists c. split; [done|]. split; [|done]. split; [done|]. left. by exists r'.
  - destruct (m =? n)%nat; cbn [mbind option_bind].
    + by apply (retry_callback_ok _ r (set_in_flight [] c)); [| | |unfold retry_fuel; lia|apply retry_fuel_enough].
    + exists c. split; [done|]. split; [|done]. split; [done|]. right. by exists m.
Qed.

Lemma on_event_ok e c :
  call_ok c -> exists c', on_event settings handler on_cancel e c = Some c' /\ call_ok c'.
Proof using max_range.
  intros Hok. destruct e as [n r| |]; cbn [on_event].
  - destruct (answer_ok n r c Hok) as (c' & -> & H & _). by exists c'.
  - destruct (context_alive c); [|by exists c]. unfold CancelOperation.
    destruct (is_cancelled_ c); [by exists c|].
    assert (exists c1, match sub_operation_cancel_token_ c with
                       | None => Some c | Some n => cancel_attempt settings handler on_cancel n c end = Some c1
              /\ call_ok c1) as (c1 & -> & H1).
    { destruct (sub_operation_cancel_token_ c) as [n|]; [|by exists c]. unfold cancel_attempt.
      destruct (on_cancel n) as [|r]; [by exists c|].
      destruct (answer_ok n r c Hok) as (c' & -> & H & _). by exists c'. }
    cbn [mbind option_bind]. eexists. split; [done|]. by destruct H1.
  - eexists. split; [done|]. by destruct Hok.
Qed.

Lemma on_events_ok l c :
  call_ok c -> exists c', on_events settings handler on_cancel l c = Some c' /\ call_ok c'.
Proof using max_range.
  revert c. induction l as [|e l IH]; intros c Hok; cbn [on_events]; [by exists c|].
  destruct (on_event_ok e c Hok) as (c1 & -> & H1). by apply IH.
Qed.

End facts.

(** C18.  However the handler answers (at once or later), whenever the caller
    cancels or lets go of its token: a call never gets stuck in the nested retry
    callbacks, the caller's callback has been called exactly once or exactly one
    attempt is still to be answered, there are at most [max_attempts] attempts
    (one, if that is not positive), and the waiting times are the successive
    values of the backdown policy. *)
Theorem callback_called_once settings handler on_cancel events :
  max_attempts settings < 2 ^ 31 ->
  exists c c', CallApi settings handler = Some c /\
    on_events settings handler on_cancel events c = Some c' /\
    (length (results c') + length (in_flight c') = 1)%nat /\
    (attempts c' <= Nat.max 1 (Z.to_nat (max_attempts settings)))%nat /\
    waits c' = period_after settings <$> seq 0 (length (waits c')) /\
    (length (waits c') < Nat.max 1 (Z.to_nat (max_attempts settings)))%nat.
Proof.
  intros Hmax. destruct (CallApi_ok settings handler Hmax) as (c & Hc & Hok & _).
  destruct (on_events_ok settings handler on_cancel Hmax events c Hok) as (c' & Hc' & (Ha & Hw & Hl) & Ho).
  exists c, c'. split_and!; [done|done| |lia|done|lia].
  by destruct Ho as [(r & -> & ->)|(n & -> & ->)].
Qed.

Lemma callback_called_once_witness :
  let settings := MkRetrySettings 3 60 200 (fun p => 2 * p) (fun r => status r =? 503) in
  let handler n := if (n =? 1)%nat then Now (MkHttpResponse 503 []) else Later in
  exists c c', CallApi settings handler = Some c /\
    on_events settings handler (fun _ => Later) [Respond 0 (MkHttpResponse 503 [])] c = Some c' /\
    (length (results c') + length (in_flight c') = 1)%nat /\
    (attempts c' <= Nat.max 1 (Z.to_nat (max_attempts settings)))%nat /\
    waits c' = period_after settings <$> seq 0 (length (waits c')) /\
    (length (waits c') < Nat.max 1 (Z.to_nat (max_attempts settings)))%nat.
Proof. intros settings handler. apply callback_called_once. reflexivity. Defined.

(** ** Which response is delivered *)

Definition later : nat -> Answer := fun _ => Later.

(** A call whose attempts [0 .. k - 1] have been retried and whose attempt [k] is
    with the handler. *)
Definition awaiting (settings : RetrySettings) (k : nat) : Call :=
  MkCall false (Some k) true (S k) [(k, callback_after settings k)] (period_after settings <$> seq 0 k) [].

Lemma answer_awaiting settings k r :
  max_attempts settings < 2 ^ 31 ->
  answer settings later k r (awaiting settings k) =
  if (Z.of_nat k + 1 >=? max_attempts settings) || negb (retry_condition settings r)
  then Some (MkCall false (Some k) true (S k) [] (period_after settings <$> seq 0 k) [r])
  else Some (awaiting settings (S k)).
Proof.
  intros Hmax. unfold answer. cbn [awaiting in_flight find_attempt]. rewrite Nat.eqb_refl.
  unfold retry_fuel. cbn [retry_callback callback_after currentTry currentBackdownPeriod].
  destruct (Z.geb_spec (Z.of_nat k + 1) (max_attempts settings)) as [|Hlt]; [done|].
  destruct (retry_condition settings r); simpl; [|done].
  unfold ExecuteOrCancelled. simpl. rewrite next_callback by lia.
  unfold awaiting. by rewrite <- period_snoc.
Qed.

Lemma respond_retryable settings k rs :
  max_attempts settings < 2 ^ 31 -> Z.of_nat (k + length rs) < max_attempts settings ->
  Forall (fun r => retry_condition settings r = true) rs ->
  on_events settings later later (imap (fun i r => Respond (k + i) r) rs) (awaiting settings k) =
  Some (awaiting settings (k + length rs)).
Proof.
  intros Hmax. revert k. induction rs as [|r rs IH]; intros k Hlen Hall; simpl.
  - by rewrite Nat.add_0_r.
  - apply Forall_cons in Hall as [Hr Hall]. simpl in Hlen.
    rewrite Nat.add_0_r, answer_awaiting by done. rewrite Hr.
    destruct (Z.geb_spec (Z.of_nat k + 1) (max_attempts settings)); [lia|]. cbn [orb negb mbind option_bind].
    rewrite <- Nat.add_succ_comm, <- IH; [|simpl; lia|done]. f_equal.
    apply imap_ext. intros i x _. simpl. f_equal. lia.
Qed.

Lemma on_events_app settings handler on_cancel l1 l2 c :
  on_events settings handler on_cancel (l1 ++ l2) c =
  c' ← on_events settings handler on_cancel l1 c; on_events settings handler on_cancel l2 c'.
Proof.
  revert c. induction l1 as [|e l1 IH]; intros c; [done|]. cbn [app on_events].
  destruct (on_event _ _ _ e c); cbn [mbind option_bind]; [apply IH|done].
Qed.

(** A call that is not cancelled sends the next attempt after each response
    the retry condition accepts, while attempts are left; the first response that
    is not retried, or the one to the last attempt, is what the caller gets. *)
Theorem retry_delivers_response settings rs r :
  max_attempts settings < 2 ^ 31 ->
  Z.of_nat (length rs) < Z.max 1 (max_attempts settings) ->
  Forall (fun r => retry_condition settings r = true) rs ->
  retry_condition settings r = false \/ max_attempts settings <= Z.of_nat (length rs) + 1 ->
  exists c c', CallApi settings later = Some c /\
    on_events settings later later (imap Respond (rs ++ [r])) c = Some c' /\
    results c' = [r] /\ attempts c' = S (length rs) /\ in_flight c' = [].
Proof.
  intros Hmax Hlen Hall Hlast.
  assert (CallApi settings later = Some (awaiting settings 0)) as Hc by done.
  eexists _, _. split; [exact Hc|]. split.
  - rewrite imap_app, on_events_app.
    assert (on_events settings later later (imap Respond rs) (awaiting settings 0) =
            Some (awaiting settings (length rs))) as ->.
    { destruct rs as [|r0 rs]; [done|]. apply (respond_retryable settings 0); [done|simpl in *; lia|done]. }
    cbn [mbind option_bind imap on_events on_event]. simpl imap. cbn [on_events on_event].
    rewrite Nat.add_0_r, answer_awaiting by done.
    assert ((Z.of_nat (length rs) + 1 >=? max_attempts settings) || negb (retry_condition settings r) = true) as ->.
    { destruct Hlast as [->|Hge]; [by rewrite orb_true_r|].
      destruct (Z.geb_spec (Z.of_nat (length rs) + 1) (max_attempts settings)); [done|lia]. }
    cbn [mbind option_bind]. reflexivity.
  - done.
Qed.

Lemma retry_delivers_response_witness :
  let settings := MkRetrySettings 3 60 200 (fun p => 2 * p) (fun r => status r =? 503) in
  exists c c', CallApi settings later = Some c /\
    on_events settings later later (imap Respond ([MkHttpResponse 503 []] ++ [MkHttpResponse 200 []])) c = Some c' /\
    results c' = [MkHttpResponse 200 []] /\ attempts c' = 2%nat /\ in_flight c' = [].
Proof.
  intros settings. apply (retry_delivers_response settings [MkHttpResponse 503 []]).
  - reflexivity.
  - reflexivity.
  - constructor; [reflexivity|constructor].
  - left. reflexivity.
Defined.

(** When cancelling an attempt calls the callback at once with a response
    the retry condition accepts, the cancelled call sends another request: the
    context is marked as cancelled only after the attempt's token, so the new
    attempt is sent, and its own token is then overwritten: nothing answered the
    caller, one attempt is with the handler, and further cancellations do
    nothing. *)
Theorem cancelled_call_sends_again settings on_cancel r :
  1 < max_attempts settings < 2 ^ 31 ->
  on_cancel 0%nat = Now r -> retry_condition settings r = true ->
  exists c c', CallApi settings later = Some c /\
    on_events settings later on_cancel [Cancel] c = Some c' /\
    is_cancelled_ c' = true /\ results c' = [] /\ attempts c' = 2%nat /\
    (exists cb, in_flight c' = [(1%nat, cb)]) /\
    forall n, on_events settings later on_cancel (repeat Cancel n) c' = Some c'.
Proof.
  intros [Hmin Hmax] Hnow Hr.
  assert (CallApi settings later = Some (awaiting settings 0)) as Hc by done.
  exists (awaiting settings 0), (set_cancelled (set_token None (awaiting settings 1))).
  split_and!; try done.
  - cbn [on_events on_event]. unfold CancelOperation. simpl. unfold cancel_attempt. rewrite Hnow.
    rewrite answer_awaiting by done. rewrite Hr.
    destruct (Z.geb_spec (Z.of_nat 0 + 1) (max_attempts settings)); [lia|]. done.
  - by eexists.
  - intros n. induction n as [|n IH]; [done|]. exact IH.
Qed.

Lemma cancelled_call_sends_again_witness :
  let settings := MkRetrySettings 3 60 200 DefaultBackdownPolicy (fun r => status r <? 0) in
  let on_cancel (n : nat) := Now CancelledResponse in
  exists c c', CallApi settings later = Some c /\
    on_events settings later on_cancel [Cancel] c = Some c' /\
    is_cancelled_ c' = true /\ results c' = [] /\ attempts c' = 2%nat /\
    (exists cb, in_flight c' = [(1%nat, cb)]) /\
    forall n, on_events settings later on_cancel (repeat Cancel n) c' = Some c'.
Proof.
  intros settings on_cancel. apply (cancelled_call_sends_again settings on_cancel CancelledResponse).
  - split; reflexivity.
  - reflexivity.
  - reflexivity.
Defined.

(** ** The headers of a request *)

Definition is_user_agent (header : text * text) : bool :=
  CaseInsensitiveCompare header.1 kUserAgentHeader.

Lemma compare_lower a b :
  CaseInsensitiveCompare a b = true <-> tolower <$> a = tolower <$> b.
Proof.
  unfold CaseInsensitiveCompare. rewrite andb_true_iff, Nat.eqb_eq.
  revert b. induction a as [|x a IH]; intros [|y b]; simpl.
  { done. } { by split; [intros [? _]|]. } { by split; [intros [? _]|]. }
  rewrite andb_true_iff, orb_true_iff, !bool_decide_eq_true. split.
  - intros [[= Hl] [Hxy Hab]]. f_equal; [by destruct Hxy as [->|]|]. by apply IH.
  - intros [= Hxy Hab]. apply IH in Hab as [Hl Hab]. by split; [congruence|split; [right|]].
Qed.

(** The values of the User-Agent headers among [headers], each followed by a space. *)
Definition merged_user_agents (headers : list (text * text)) : text :=
  mjoin ((fun header => header.2 ++ str " ") <$> filter (fun h => is_user_agent h = true) headers).

Lemma add_headers_spec headers r :
  add_headers headers r = with_headers (extra_headers_ r ++ headers) r.
Proof.
  revert r. induction headers as [|[name value] headers IH]; intros r.
  - unfold add_headers, with_headers; simpl. rewrite app_nil_r. by destruct r.
  - unfold add_headers in *. cbn [foldl]. rewrite IH. unfold AddHeader, with_headers; simpl.
    by rewrite <- app_assoc.
Qed.

Lemma add_custom_spec headers r ua :
  foldl add_custom (r, ua) headers =
  (with_headers (extra_headers_ r ++ filter (fun h => is_user_agent h = false) headers) r,
   ua ++ merged_user_agents headers).
Proof.
  revert r ua. induction headers as [|h headers IH]; intros r ua.
  - unfold merged_user_agents, with_headers; simpl. rewrite !app_nil_r. by destruct r.
  - cbn [foldl add_custom]. fold (is_user_agent h). unfold merged_user_agents in *.
    rewrite !filter_cons. destruct (is_user_agent h) eqn:E; simpl; rewrite IH.
    + by rewrite <- !app_assoc.
    + unfold AddHeader, with_headers; simpl. destruct h. by rewrite <- app_assoc.
Qed.

(** The headers of a request, in order: the bearer token, the client's default
    headers, the call's headers without its User-Agent ones, one User-Agent header
    that merges those before the SDK's own, and the content type if there is one.
    A header is a User-Agent one if its name is, up to the case of ASCII letters.
    A User-Agent among the default headers is not merged: the request then has
    more than one. *)
Theorem create_request_headers sdk_agent c path method queryParams headerParams postBody contentType :
  let r := CreateRequest sdk_agent c path method queryParams headerParams postBody contentType in
  extra_headers_ r =
    match authentication_settings (settings_ c) with
    | Some token => [(kAuthorizationHeader, kBearer ++ str " " ++ token)] | None => [] end ++
    default_headers_ c ++
    filter (fun h => is_user_agent h = false) headerParams ++
    [(kUserAgentHeader, merged_user_agents headerParams ++ sdk_agent)] ++
    match contentType with [] => [] | _ => [(kContentTypeHeader, contentType)] end /\
  length (filter (fun h => is_user_agent h = true) (extra_headers_ r)) =
    S (length (filter (fun h => is_user_agent h = true) (default_headers_ c))) /\
  (forall name value, is_user_agent (name, value) = true <-> tolower <$> name = str "user-agent") /\
  verb_ r = verb_of method /\ content_ r = postBody /\ url_ r = request_uri c path queryParams.
Proof.
  assert (forall name value, is_user_agent (name, value) = true <-> tolower <$> name = str "user-agent") as Hua.
  { intros name value. apply compare_lower. }
  assert (forall (l : list (text * text)), filter (fun h => is_user_agent h = true)
            (filter (fun h => is_user_agent h = false) l) = []) as Hnone.
  { intros l. induction l as [|h l IH]; [done|]. rewrite filter_cons.
    destruct (is_user_agent h) eqn:E; simpl; [done|]. by rewrite filter_cons, E. }
  intros r. unfold r, CreateRequest. rewrite add_headers_spec, add_custom_spec.
  destruct (authentication_settings (settings_ c)) as [token|], contentType as [|ch rest];
    cbn [extra_headers_ AddHeader with_headers SetContent NewNetworkRequest SetPriority
         verb_ content_ url_ app];
    (split; [by rewrite <- !app_assoc|]; split; [|by split]);
    rewrite ?filter_cons, ?filter_app, ?Hnone; simpl; rewrite ?length_app; simpl; lia.
Qed.
