(* ===== verification/MultiRequest.v ===== *)
(** * Requests shared by several callers

    [olp-cpp-sdk-dataservice-read/src/MultiRequestContext.h]: callers that ask for
    the same key while a request is running are associated with it.  The contexts
    are shared objects, so they live in a store and are named by their index; a
    caller (its callback, its uuid) is named by the number of its call, a running
    request by the number of its execution.  The lock is released between the
    registration of a new context and the execution of its request, so these are
    two steps. *)

From Stdlib Require Import ZArith Lia Bool Ascii.
From stdpp Require Import base numbers strings gmap list.
From S2P Require Import Prelude Decimal.

(** What the provider does with the callback before it returns. *)
Inductive Answer (Response : Type) := Later | Now (r : Response).
Arguments Later {Response}.
Arguments Now {Response} r.

(** [MultiRequestContext::RequestContext]; [request_key] is the key it was made
    for. *)
Record RequestContext := MkRequestContext {
  request_key : text;
  cancellation_token_ : option nat;
  callbacks_ : list nat }.

Section multi_request.
  Context {Response : Type}.

(** [active_reqs_], the store of contexts, the contexts whose request is not yet
    executed, the keys of the executions and of the calls, and the callbacks
    called. *)
Record MultiRequestContext := MkMultiRequestContext {
  active_reqs_ : gmap text nat;
  contexts : list RequestContext;
  starting : list nat;
  executed : list text;
  issued : list text;
  called : list (nat * Response) }.

Definition NewMultiRequestContext : MultiRequestContext := MkMultiRequestContext ∅ [] [] [] [] [].

Definition set_active m s := MkMultiRequestContext m (contexts s) (starting s) (executed s) (issued s) (called s).
Definition set_context c x s := MkMultiRequestContext (active_reqs_ s) (<[c := x]> (contexts s)) (starting s) (executed s) (issued s) (called s).
Definition add_called l s := MkMultiRequestContext (active_reqs_ s) (contexts s) (starting s) (executed s) (issued s) (called s ++ l).

(** The part of [ExecuteOrAssociate] under the lock. *)
Definition Associate (key : text) (s : MultiRequestContext) : option MultiRequestContext :=
  let request_id := length (issued s) in
  match active_reqs_ s !! key with
  | Some c =>
    x ← contexts s !! c;
    Some (MkMultiRequestContext (active_reqs_ s)
            (<[c := MkRequestContext (request_key x) (cancellation_token_ x) (callbacks_ x ++ [request_id])]>
               (contexts s))
            (starting s) (executed s) (issued s ++ [key]) (called s))
  | None =>
    let newContext := MkRequestContext key None [request_id] in
    let c := length (contexts s) in
    Some (MkMultiRequestContext (<[key := c]> (active_reqs_ s)) (contexts s ++ [newContext])
            (starting s ++ [c]) (executed s) (issued s ++ [key]) (called s))
  end.

Definition onRequestCompleted (response : Response) (key : text) (s : MultiRequestContext)
    : option MultiRequestContext :=
  match active_reqs_ s !! key with
  | None => Some s
  | Some c =>
    let s1 := set_active (delete key (active_reqs_ s)) s in
    context ← contexts s1 !! c;
    Some (add_called ((fun callback => (callback, response)) <$> callbacks_ context) s1)
  end.

(** The rest of [ExecuteOrAssociate] for the [k]th context that waits for its
    execution; [answer] is what [execute_fn] does with the callback. *)
Definition Execute (k : nat) (answer : Answer Response) (s : MultiRequestContext)
    : option MultiRequestContext :=
  c ← starting s !! k;
  x ← contexts s !! c;
  let n := length (executed s) in
  let s1 := MkMultiRequestContext (active_reqs_ s) (contexts s) (delete k (starting s))
              (executed s ++ [request_key x]) (issued s) (called s) in
  s2 ← match answer with
       | Later => Some s1
       | Now r => onRequestCompleted r (request_key x) s1
       end;
  y ← contexts s2 !! c;
  Some (set_context c (MkRequestContext (request_key y) (Some n) (callbacks_ y)) s2).

(** The callback of the [n]th execution. *)
Definition Complete (n : nat) (response : Response) (s : MultiRequestContext)
    : option MultiRequestContext :=
  key ← executed s !! n;
  onRequestCompleted response key s.

Variables (cancelled_ : Response) (on_cancel : nat -> Answer Response).

(** [cancellation_token_.cancel()]; an empty token does nothing. *)
Definition cancel_token (token : option nat) (s : MultiRequestContext) : option MultiRequestContext :=
  match token with
  | None => Some s
  | Some n =>
    match on_cancel n with
    | Later => Some s
    | Now r => Complete n r s
    end
  end.

Definition onRequestCancelled (key : text) (request_id : nat) (s : MultiRequestContext)
    : option MultiRequestContext :=
  match active_reqs_ s !! key with
  | None => Some s
  | Some c =>
    let s1 := set_active (delete key (active_reqs_ s)) s in
    context ← contexts s1 !! c;
    if decide (request_id ∈ callbacks_ context) then
      s2 ← (if (length (callbacks_ context) <=? 1)%nat
            then cancel_token (cancellation_token_ context) s1 else Some s1);
      let rest := filter (fun i => i <> request_id) (callbacks_ context) in
      Some (add_called [(request_id, cancelled_)]
              (set_context c (MkRequestContext (request_key context) (cancellation_token_ context) rest) s2))
    else Some s1
  end.

(** The token [ExecuteOrAssociate] returned to the call [request_id]. *)
Definition CancelCall (request_id : nat) (s : MultiRequestContext) : option MultiRequestContext :=
  key ← issued s !! request_id;
  onRequestCancelled key request_id s.

(** The loop of the destructor, which holds the lock all the time; [None] is a
    loop that has not ended.  It takes the active requests in some order. *)
Fixpoint destroy (fuel : nat) (s : MultiRequestContext) : option MultiRequestContext :=
  match fuel with
  | O => None
  | S fuel =>
    match map_to_list (active_reqs_ s) with
    | [] => Some s
    | (_, c) :: _ =>
      context ← contexts s !! c;
      s' ← cancel_token (cancellation_token_ context) s;
      destroy fuel s'
    end
  end.

Inductive action := DoAssociate (key : text) | DoExecute (k : nat) (answer : Answer Response)
  | DoComplete (n : nat) (r : Response) | DoCancel (request_id : nat).

Definition act (a : action) (s : MultiRequestContext) : option MultiRequestContext :=
  match a with
  | DoAssociate key => Associate key s
  | DoExecute k answer => Execute k answer s
  | DoComplete n r => Complete n r s
  | DoCancel request_id => CancelCall request_id s
  end.

Fixpoint run (l : list action) (s : MultiRequestContext) : option MultiRequestContext :=
  match l with
  | [] => Some s
  | a :: rest => s' ← act a s; run rest s'
  end.

End multi_request.
Arguments MultiRequestContext : clear implicits.
Arguments action : clear implicits.
