(* ===== verification/MultiRequestFacts.v ===== *)
(** * Correctness of shared requests

    No caller is called back twice; without cancellations every caller is waiting
    or has been called back; a cancellation loses the other callers of the key,
    and the destructor does not end when the provider answers cancellations
    later. *)

From Stdlib Require Import ZArith Lia Bool Ascii.
From stdpp Require Import base numbers strings gmap list.
From S2P Require Import Prelude Decimal MultiRequest.

Section facts.
  Context {Response : Type} (cancelled_ : Response) (on_cancel : nat -> Answer Response).
  Implicit Types s : MultiRequestContext Response.

(** ** The invariant *)

Record ok s : Prop := {
  ok_active : forall key c, active_reqs_ s !! key = Some c ->
    exists x, contexts s !! c = Some x /\ request_key x = key;
  ok_issued : forall c x i, contexts s !! c = Some x -> i ∈ callbacks_ x ->
    issued s !! i = Some (request_key x);
  ok_nodup : forall c x, contexts s !! c = Some x -> NoDup (callbacks_ x);
  ok_apart : forall c d x y i, contexts s !! c = Some x -> contexts s !! d = Some y ->
    i ∈ callbacks_ x -> i ∈ callbacks_ y -> c = d;
  ok_called : forall i, i ∈ (called s).*1 -> (i < length (issued s))%nat;
  ok_fresh : forall key c x i, active_reqs_ s !! key = Some c -> contexts s !! c = Some x ->
    i ∈ callbacks_ x -> i ∉ (called s).*1;
  ok_once : NoDup (called s).*1;
  ok_starting : forall c, c ∈ starting s -> is_Some (contexts s !! c);
  ok_token : forall c x n, contexts s !! c = Some x -> cancellation_token_ x = Some n ->
    executed s !! n = Some (request_key x) }.

Lemma new_ok : ok NewMultiRequestContext.
Proof.
  split; simpl; try (intros; set_solver); try constructor.
Qed.

Lemma calls_fst {A} (r : Response) (l : list A) : ((fun i => (i, r)) <$> l).*1 = l.
Proof. induction l as [|i l IH]; [done|]. cbn. f_equal. exact IH. Qed.

(** An active request is erased and its callbacks are called. *)
Lemma completed_ok r key s :
  ok s -> exists s', onRequestCompleted r key s = Some s' /\ ok s' /\
    active_reqs_ s' = delete key (active_reqs_ s) /\ contexts s' = contexts s /\
    issued s' = issued s /\ executed s' = executed s /\ starting s' = starting s /\
    (forall i, i ∈ (called s').*1 <-> i ∈ (called s).*1 \/
       exists c x, active_reqs_ s !! key = Some c /\ contexts s !! c = Some x /\ i ∈ callbacks_ x).
Proof.
  intros Hok. unfold onRequestCompleted. destruct (active_reqs_ s !! key) as [c|] eqn:Ek.
  2:{ exists s. split_and!; try done; [by rewrite delete_id|]. intros i. split; [by left|].
      by intros [|(c & x & ? & _)]. }
  destruct (ok_active s Hok key c Ek) as (x & Hx & Hkey). simpl. rewrite Hx. cbn [mbind option_bind].
  eexists. split; [done|]. destruct Hok as [Ha Hi Hn Hap Hc Hf Ho Hs Ht].
  assert (forall i, i ∈ (called s ++ ((fun callback => (callback, r)) <$> callbacks_ x)).*1 <->
            i ∈ (called s).*1 \/ i ∈ callbacks_ x) as Hcalled.
  { intros i. by rewrite fmap_app, calls_fst, elem_of_app. }
  split_and!; try done.
  - split; simpl; try done.
    + intros k d [_ Hd]%lookup_delete_Some. by apply Ha.
    + intros i [Hi'|Hi']%Hcalled; [by apply Hc|]. eapply lookup_lt_Some, Hi; done.
    + intros k d y i [Hne Hd]%lookup_delete_Some Hy Hin [Hin'|Hin']%Hcalled; [by eapply Hf|].
      assert (c = d) as -> by (by eapply Hap). destruct (Ha k d Hd) as (y' & Hy' & <-). congruence.
    + rewrite fmap_app, calls_fst. apply NoDup_app. split_and!; [done| |by eapply Hn].
      intros i Hi' Hin. by eapply Hf.
  - intros i. rewrite Hcalled. split; (intros [Hi'|Hi']; [by left|right]); [by exists c, x|].
    destruct Hi' as (d & y & [= <-] & Hy & Hin). by simplify_eq.
Qed.

(** A context whose key, callbacks and place are kept. *)
Lemma set_token_ok s c x n :
  ok s -> contexts s !! c = Some x -> executed s !! n = Some (request_key x) ->
  ok (set_context c (MkRequestContext (request_key x) (Some n) (callbacks_ x)) s).
Proof.
  intros [Ha Hi Hn Hap Hc Hf Ho Hs Ht] Hx Hex. set (x1 := MkRequestContext _ _ _).
  assert (forall d y, <[c := x1]> (contexts s) !! d = Some y ->
    exists y0, contexts s !! d = Some y0 /\ request_key y0 = request_key y /\ callbacks_ y0 = callbacks_ y /\
      (forall m, cancellation_token_ y = Some m -> executed s !! m = Some (request_key y))) as Hold.
  { intros d y. destruct (decide (d = c)) as [->|Hne].
    - rewrite list_lookup_insert_eq by (by eapply lookup_lt_Some). intros [= <-].
      exists x. split_and!; [done|done|done|]. by intros m [= <-].
    - rewrite list_lookup_insert_ne by done. intros Hy. exists y. split_and!; [done|done|done|].
      intros m. by apply (Ht d y m). }
  split; simpl; try done.
  - intros key d Hd. destruct (Ha key d Hd) as (y & Hy & Hkey). destruct (decide (d = c)) as [->|Hne].
    + exists x1. rewrite list_lookup_insert_eq by (by eapply lookup_lt_Some). split; [done|].
      simpl. congruence.
    + exists y. by rewrite list_lookup_insert_ne.
  - intros d y i (y0 & Hy & Hk & Hcb & _)%Hold Hin. rewrite <- Hk. apply (Hi d y0); [done|by rewrite Hcb].
  - intros d y (y0 & Hy & _ & <- & _)%Hold. by eapply Hn.
  - intros d e y z i (y0 & Hy & _ & <- & _)%Hold (z0 & Hz & _ & <- & _)%Hold. by apply Hap.
  - intros key d y i Hd (y0 & Hy & _ & <- & _)%Hold. by eapply Hf.
  - intros d Hd. rewrite lookup_lt_is_Some, length_insert. by apply lookup_lt_is_Some, Hs.
  - intros d y m (y0 & _ & _ & _ & H)%Hold. apply H.
Qed.

Lemma executing_ok s k c x :
  ok s -> starting s !! k = Some c -> contexts s !! c = Some x ->
  ok (MkMultiRequestContext (active_reqs_ s) (contexts s) (delete k (starting s))
        (executed s ++ [request_key x]) (issued s) (called s)).
Proof.
  intros [Ha Hi Hn Hap Hc Hf Ho Hs Ht] Hk Hx. split; simpl; try done.
  - intros d Hd. apply Hs. rewrite (delete_Permutation _ _ _ Hk). by right.
  - intros d y n Hy Hn'. apply lookup_app_l_Some. by eapply Ht.
Qed.

Lemma Execute_ok k answer s :
  ok s -> is_Some (starting s !! k) -> exists s', Execute k answer s = Some s' /\ ok s'.
Proof.
  intros Hok [c Hk]. unfold Execute. rewrite Hk. cbn [mbind option_bind].
  destruct (ok_starting s Hok c) as [x Hx]; [by eapply list_elem_of_lookup_2|].
  rewrite Hx. cbn [mbind option_bind]. pose proof (executing_ok s k c x Hok Hk Hx) as Hok1.
  set (s1 := MkMultiRequestContext _ _ _ _ _ _) in *.
  assert (executed s1 !! length (executed s) = Some (request_key x)) as Hex.
  { simpl. by rewrite lookup_app_r, Nat.sub_diag by lia. }
  destruct answer as [|r]; cbn [mbind option_bind].
  - simpl. rewrite Hx. cbn [mbind option_bind]. eexists. split; [done|]. by apply set_token_ok.
  - destruct (completed_ok r (request_key x) s1 Hok1) as (s2 & -> & Hok2 & _ & Hcx & _ & Hex2 & _).
    cbn [mbind option_bind]. rewrite Hcx. simpl. rewrite Hx. cbn [mbind option_bind].
    eexists. split; [done|]. apply set_token_ok; [done|by rewrite Hcx|by rewrite Hex2].
Qed.

(** A new caller of a running request. *)
Lemma associated_ok s key c x :
  ok s -> active_reqs_ s !! key = Some c -> contexts s !! c = Some x ->
  ok (MkMultiRequestContext (active_reqs_ s)
        (<[c := MkRequestContext (request_key x) (cancellation_token_ x)
                  (callbacks_ x ++ [length (issued s)])]> (contexts s))
        (starting s) (executed s) (issued s ++ [key]) (called s)).
Proof.
  intros [Ha Hi Hn Hap Hc Hf Ho Hs Ht] Hkey Hx. set (x1 := MkRequestContext _ _ _).
  assert (request_key x = key) as Hk by (destruct (Ha key c Hkey) as (y & Hy & E); congruence).
  assert (forall d y i, contexts s !! d = Some y -> i ∈ callbacks_ y -> (i < length (issued s))%nat) as Hlt.
  { intros d y i Hy Hin. by eapply lookup_lt_Some, Hi. }
  assert (forall d y, <[c := x1]> (contexts s) !! d = Some y ->
    exists y0, contexts s !! d = Some y0 /\ request_key y = request_key y0 /\
      cancellation_token_ y = cancellation_token_ y0 /\
      (forall i, i ∈ callbacks_ y <-> i ∈ callbacks_ y0 \/ d = c /\ i = length (issued s)) /\
      NoDup (callbacks_ y)) as Hold.
  { intros d y. destruct (decide (d = c)) as [->|Hne].
    - rewrite list_lookup_insert_eq by (by eapply lookup_lt_Some). intros [= <-].
      exists x. split_and!; [done|done|done| |].
      + intros i. simpl. rewrite elem_of_app, list_elem_of_singleton. tauto.
      + simpl. apply NoDup_app. split_and!; [by eapply Hn| |apply NoDup_singleton].
        intros i Hin ->%list_elem_of_singleton. specialize (Hlt c x _ Hx Hin). lia.
    - rewrite list_lookup_insert_ne by done. intros Hy. exists y. split_and!; [done|done|done| |by eapply Hn].
      intros i. tauto. }
  split; simpl; try done.
  - intros k d Hd. destruct (Ha k d Hd) as (y & Hy & E). destruct (decide (d = c)) as [->|Hne].
    + exists x1. rewrite list_lookup_insert_eq by (by eapply lookup_lt_Some). split; [done|]. simpl. congruence.
    + exists y. by rewrite list_lookup_insert_ne.
  - intros d y i (y0 & Hy & -> & _ & Hcb & _)%Hold [Hin|[-> ->]]%Hcb.
    + apply lookup_app_l_Some. by eapply Hi.
    + assert (y0 = x) as -> by congruence. rewrite Hk. by rewrite lookup_app_r, Nat.sub_diag by lia.
  - by intros d y (y0 & _ & _ & _ & _ & H)%Hold.
  - intros d e y z i (y0 & Hy & _ & _ & Hcy & _)%Hold (z0 & Hz & _ & _ & Hcz & _)%Hold.
    intros [Hin|[-> ->]]%Hcy [Hin'|[-> E]]%Hcz; [by eapply Hap| |specialize (Hlt e z0 _ Hz Hin'); lia|done].
    specialize (Hlt d y0 _ Hy Hin). lia.
  - intros i Hin%Hc. rewrite length_app. simpl. lia.
  - intros k d y i Hd (y0 & Hy & _ & _ & Hcb & _)%Hold [Hin|[-> ->]]%Hcb; [by eapply Hf|].
    intros Hin%Hc. lia.
  - intros d Hd. rewrite lookup_lt_is_Some, length_insert. by apply lookup_lt_is_Some, Hs.
  - intros d y m (y0 & Hy & -> & -> & _)%Hold. by eapply Ht.
Qed.

(** A first caller of a key. *)
Lemma new_request_ok s key :
  ok s -> active_reqs_ s !! key = None ->
  ok (MkMultiRequestContext (<[key := length (contexts s)]> (active_reqs_ s))
        (contexts s ++ [MkRequestContext key None [length (issued s)]])
        (starting s ++ [length (contexts s)]) (executed s) (issued s ++ [key]) (called s)).
Proof.
  intros [Ha Hi Hn Hap Hc Hf Ho Hs Ht] Hkey. set (x1 := MkRequestContext _ _ _).
  assert (forall d y i, contexts s !! d = Some y -> i ∈ callbacks_ y -> (i < length (issued s))%nat) as Hlt.
  { intros d y i Hy Hin. by eapply lookup_lt_Some, Hi. }
  assert (forall d y, (contexts s ++ [x1]) !! d = Some y ->
            contexts s !! d = Some y \/ d = length (contexts s) /\ y = x1) as Hold.
  { intros d y [Hy|[Hle [Hz <-]%list_lookup_singleton_Some]]%lookup_app_Some; [by left|right].
    split; [lia|done]. }
  assert ((contexts s ++ [x1]) !! length (contexts s) = Some x1) as Hnew.
  { by rewrite lookup_app_r, Nat.sub_diag by lia. }
  split; simpl; try done.
  - intros k d [[<- <-]|[Hne Hd]]%lookup_insert_Some; [by exists x1|].
    destruct (Ha k d Hd) as (y & Hy & <-). exists y. split; [by apply lookup_app_l_Some|done].
  - intros d y i [Hy|[-> ->]]%Hold Hin; [apply lookup_app_l_Some; by eapply Hi|].
    simpl in Hin. apply list_elem_of_singleton in Hin as ->. by rewrite lookup_app_r, Nat.sub_diag by lia.
  - intros d y [Hy|[-> ->]]%Hold; [by eapply Hn|apply NoDup_singleton].
  - intros d e y z i [Hy|[-> ->]]%Hold [Hz|[-> ->]]%Hold Hin Hin'; [by eapply Hap| | |done].
    + apply list_elem_of_singleton in Hin' as ->. specialize (Hlt d y _ Hy Hin). lia.
    + apply list_elem_of_singleton in Hin as ->. specialize (Hlt e z _ Hz Hin'). lia.
  - intros i Hin%Hc. rewrite length_app. simpl. lia.
  - intros k d y i Hd [Hy|[-> ->]]%Hold Hin Hin'.
    + apply lookup_insert_Some in Hd as [[<- <-]|[Hne Hd]]; [|by eapply Hf].
      apply lookup_lt_Some in Hy. lia.
    + apply list_elem_of_singleton in Hin as ->. apply Hc in Hin'. lia.
  - intros d [Hd| ->%list_elem_of_singleton]%elem_of_app; [|by exists x1].
    destruct (Hs d Hd) as [y Hy]. exists y. by apply lookup_app_l_Some.
  - intros d y m [Hy|[-> ->]]%Hold; [by apply (Ht d y m)|done].
Qed.

Lemma Associate_ok key s : ok s -> exists s', Associate key s = Some s' /\ ok s'.
Proof.
  intros Hok. unfold Associate. destruct (active_reqs_ s !! key) as [c|] eqn:Ek.
  - destruct (ok_active s Hok key c Ek) as (x & Hx & _). rewrite Hx. cbn [mbind option_bind].
    eexists. split; [done|]. by apply associated_ok.
  - eexists. split; [done|]. by apply new_request_ok.
Qed.

Lemma Complete_ok n r s : ok s -> is_Some (executed s !! n) -> exists s', Complete n r s = Some s' /\ ok s'.
Proof.
  intros Hok [key Hn]. unfold Complete. rewrite Hn. cbn [mbind option_bind].
  destruct (completed_ok r key s Hok) as (s' & -> & H & _). by exists s'.
Qed.

(** The request of a key is forgotten. *)
Lemma erase_ok key s : ok s -> ok (set_active (delete key (active_reqs_ s)) s).
Proof.
  intros [Ha Hi Hn Hap Hc Hf Ho Hs Ht]. split; simpl; try done.
  - intros k d [_ Hd]%lookup_delete_Some. by apply Ha.
  - intros k d y i [_ Hd]%lookup_delete_Some. by apply (Hf k).
Qed.

(** Once its key is forgotten, cancelling a request calls nobody back. *)
Lemma cancel_forgotten c x s :
  ok s -> contexts s !! c = Some x -> active_reqs_ s !! request_key x = None ->
  cancel_token on_cancel (cancellation_token_ x) s = Some s.
Proof.
  intros Hok Hx Hkey. unfold cancel_token. destruct (cancellation_token_ x) as [n|] eqn:En; [|done].
  destruct (on_cancel n) as [|r]; [done|]. unfold Complete. rewrite (ok_token s Hok c x n Hx En).
  cbn [mbind option_bind]. unfold onRequestCompleted. by rewrite Hkey.
Qed.

(** A caller of a forgotten request is told of its cancellation. *)
Lemma cancelled_ok s c x i :
  ok s -> contexts s !! c = Some x -> (forall key, active_reqs_ s !! key <> Some c) -> i ∈ callbacks_ x ->
  i ∉ (called s).*1 ->
  ok (add_called [(i, cancelled_)]
        (set_context c (MkRequestContext (request_key x) (cancellation_token_ x)
                          (filter (fun j => j <> i) (callbacks_ x))) s)).
Proof.
  intros [Ha Hi Hn Hap Hc Hf Ho Hs Ht] Hx Hdead Hin Hno. set (x1 := MkRequestContext _ _ _).
  assert (forall d y, <[c := x1]> (contexts s) !! d = Some y ->
    exists y0, contexts s !! d = Some y0 /\ request_key y0 = request_key y /\
      cancellation_token_ y0 = cancellation_token_ y /\ NoDup (callbacks_ y) /\
      forall j, j ∈ callbacks_ y -> j ∈ callbacks_ y0 /\ (d = c -> j <> i)) as Hold.
  { intros d y. destruct (decide (d = c)) as [->|Hne].
    - rewrite list_lookup_insert_eq by (by eapply lookup_lt_Some). intros [= <-].
      exists x. split_and!; [done|done|done|by apply NoDup_filter, (Hn c)|].
      by intros j [Hj Hj']%list_elem_of_filter.
    - rewrite list_lookup_insert_ne by done. intros Hy. exists y. split_and!; [done|done|done|by eapply Hn|done]. }
  assert (forall j, j ∈ (called s ++ [(i, cancelled_)]).*1 <-> j ∈ (called s).*1 \/ j = i) as Hcalled.
  { intros j. rewrite fmap_app, elem_of_app. simpl. by rewrite list_elem_of_singleton. }
  split; simpl; try done.
  - intros k d Hd. destruct (Ha k d Hd) as (y & Hy & E). exists y.
    rewrite list_lookup_insert_ne; [done|]. intros ->. by apply (Hdead k).
  - intros d y j (y0 & Hy & <- & _ & _ & H)%Hold [Hj _]%H. by eapply Hi.
  - by intros d y (y0 & _ & _ & _ & H & _)%Hold.
  - intros d e y z j (y0 & Hy & _ & _ & _ & H1)%Hold (z0 & Hz & _ & _ & _ & H2)%Hold [Hj _]%H1 [Hj' _]%H2.
    by eapply Hap.
  - intros j [Hj| ->]%Hcalled; [by apply Hc|]. by eapply lookup_lt_Some, Hi.
  - intros k d y j Hd (y0 & Hy & _ & _ & _ & H)%Hold [Hj Hne]%H [Hj'| ->]%Hcalled; [by eapply Hf|].
    apply Hne; [|done]. by eapply Hap.
  - rewrite fmap_app. simpl. apply NoDup_app. split_and!; [done| |apply NoDup_singleton].
    by intros j Hj ->%list_elem_of_singleton.
  - intros d Hd. rewrite lookup_lt_is_Some, length_insert. by apply lookup_lt_is_Some, Hs.
  - intros d y m (y0 & Hy & <- & <- & _)%Hold. by eapply Ht.
Qed.

(** What a cancellation does. *)
Lemma onRequestCancelled_spec key i s :
  ok s ->
  exists s', onRequestCancelled cancelled_ on_cancel key i s = Some s' /\ ok s' /\
    match active_reqs_ s !! key with
    | None => s' = s
    | Some c =>
      exists x, contexts s !! c = Some x /\ request_key x = key /\
        let s1 := set_active (delete key (active_reqs_ s)) s in
        s' = if decide (i ∈ callbacks_ x) then
               add_called [(i, cancelled_)]
                 (set_context c (MkRequestContext (request_key x) (cancellation_token_ x)
                                   (filter (fun j => j <> i) (callbacks_ x))) s1)
             else s1
    end.
Proof.
  intros Hok. unfold onRequestCancelled. destruct (active_reqs_ s !! key) as [c|] eqn:Ek; [|by exists s].
  destruct (ok_active s Hok key c Ek) as (x & Hx & Hkey). simpl. rewrite Hx. cbn [mbind option_bind].
  set (s1 := set_active _ s). pose proof (erase_ok key s Hok) as Hok1. fold s1 in Hok1.
  assert (active_reqs_ s1 !! request_key x = None) as Hgone by (rewrite Hkey; apply lookup_delete_eq).
  destruct (decide (i ∈ callbacks_ x)) as [Hin|Hin].
  - assert ((if (length (callbacks_ x) <=? 1)%nat
             then cancel_token on_cancel (cancellation_token_ x) s1 else Some s1) = Some s1) as ->.
    { destruct (_ <=? _)%nat; [|done]. by apply (cancel_forgotten c). }
    cbn [mbind option_bind]. eexists. split; [done|]. split.
    + apply cancelled_ok; [done|done| |done|by apply (ok_fresh s Hok key c x)].
      intros k Hk. simpl in Hk. apply lookup_delete_Some in Hk as [Hne Hk].
      destruct (ok_active s Hok k c Hk) as (y & Hy & E). congruence.
    + exists x. by rewrite decide_True.
  - eexists. split; [done|]. split; [done|]. exists x. by rewrite decide_False.
Qed.

(** ** Sequences of actions *)

Definition in_bounds (a : action Response) s : Prop :=
  match a with
  | DoAssociate _ => True
  | DoExecute k _ => is_Some (starting s !! k)
  | DoComplete n _ => is_Some (executed s !! n)
  | DoCancel i => is_Some (issued s !! i)
  end.

Abbreviation act := (act cancelled_ on_cancel).
Abbreviation run := (run cancelled_ on_cancel).

Lemma act_ok a s : ok s -> in_bounds a s -> exists s', act a s = Some s' /\ ok s'.
Proof.
  intros Hok Ha. destruct a as [key|k answer|n r|i]; cbn [MultiRequest.act in_bounds] in *.
  - by apply Associate_ok.
  - by apply Execute_ok.
  - by apply Complete_ok.
  - destruct Ha as [key Hk]. unfold CancelCall. rewrite Hk. cbn [mbind option_bind].
    destruct (onRequestCancelled_spec key i s Hok) as (s' & -> & H & _). by exists s'.
Qed.

Lemma act_in_bounds a s s' : act a s = Some s' -> in_bounds a s.
Proof.
  destruct a as [key|k answer|n r|i]; cbn [MultiRequest.act in_bounds]; [done| | |].
  - unfold Execute. by destruct (starting s !! k).
  - unfold Complete. by destruct (executed s !! n).
  - unfold CancelCall. by destruct (issued s !! i).
Qed.

Lemma act_keeps_ok a s s' : ok s -> act a s = Some s' -> ok s'.
Proof.
  intros Hok Ha. destruct (act_ok a s Hok (act_in_bounds _ _ _ Ha)) as (s1 & E & H). congruence.
Qed.

(** A property that every action keeps holds after every run. *)
Lemma run_induction (P : MultiRequestContext Response -> Prop) (allowed : action Response -> Prop) l s s' :
  (forall a s1 s2, allowed a -> ok s1 -> P s1 -> act a s1 = Some s2 -> P s2) ->
  Forall allowed l -> ok s -> P s -> run l s = Some s' -> ok s' /\ P s'.
Proof.
  intros Hstep Hall. revert s. induction Hall as [|a l Ha Hl IH]; intros s Hok HP; cbn [MultiRequest.run].
  - by intros [= <-].
  - destruct (act a s) as [s1|] eqn:E; cbn [mbind option_bind]; [|done].
    apply IH; [by eapply act_keeps_ok|by eapply Hstep].
Qed.

(** ** Callers that wait *)

Definition waiting (i : nat) s : Prop :=
  exists key c x, active_reqs_ s !! key = Some c /\ contexts s !! c = Some x /\ i ∈ callbacks_ x.

Definition nobody_lost s : Prop :=
  forall i, (i < length (issued s))%nat -> i ∈ (called s).*1 \/ waiting i s.

Definition not_cancel (a : action Response) : Prop := match a with DoCancel _ => False | _ => True end.

Lemma waiting_set_context c x y i s :
  contexts s !! c = Some x -> callbacks_ y = callbacks_ x -> waiting i s -> waiting i (set_context c y s).
Proof.
  intros Hx E (key & d & z & Hd & Hz & Hi). exists key, d. destruct (decide (d = c)) as [->|Hne].
  - exists y. split; [done|]. simpl. rewrite list_lookup_insert_eq by (by eapply lookup_lt_Some).
    split; [done|]. rewrite E. by simplify_eq.
  - exists z. split; [done|]. simpl. by rewrite list_lookup_insert_ne.
Qed.

Lemma completed_nobody_lost r key s s' :
  ok s -> nobody_lost s -> onRequestCompleted r key s = Some s' -> nobody_lost s'.
Proof.
  intros Hok Hl E. destruct (completed_ok r key s Hok) as (s1 & E1 & _ & Ha & Hc & Hi & _ & _ & Hcalled).
  assert (s1 = s') as -> by congruence. intros i Hlt. rewrite Hi in Hlt.
  destruct (Hl i Hlt) as [Hin|(k & c & x & Hk & Hx & Hin)]; [left; apply Hcalled; by left|].
  destruct (decide (k = key)) as [->|Hne].
  - left. apply Hcalled. right. by exists c, x.
  - right. exists k, c, x. rewrite Ha, Hc. split; [|done]. by rewrite lookup_delete_ne.
Qed.

Lemma associate_nobody_lost key s s' :
  ok s -> nobody_lost s -> Associate key s = Some s' -> nobody_lost s'.
Proof.
  intros Hok Hl. unfold Associate. destruct (active_reqs_ s !! key) as [c|] eqn:Ek.
  - destruct (contexts s !! c) as [x|] eqn:Ex; cbn [mbind option_bind]; [|done]. intros [= <-] i Hlt.
    simpl in *. rewrite length_app in Hlt. simpl in Hlt.
    destruct (decide (i = length (issued s))) as [->|Hne].
    + right. eexists key, c, _. split; [done|]. simpl.
      rewrite list_lookup_insert_eq by (by eapply lookup_lt_Some). split; [done|]. simpl. set_solver.
    + destruct (Hl i) as [|(k & d & y & Hk & Hy & Hi)]; [lia|by left|right]. exists k, d. simpl.
      destruct (decide (d = c)) as [->|Hd].
      * eexists. rewrite list_lookup_insert_eq by (by eapply lookup_lt_Some).
        split_and!; [done|done|]. simpl. simplify_eq. set_solver.
      * exists y. by rewrite list_lookup_insert_ne.
  - intros [= <-] i Hlt. simpl in *. rewrite length_app in Hlt. simpl in Hlt.
    destruct (decide (i = length (issued s))) as [->|Hne].
    + right. eexists key, _, _. simpl. rewrite lookup_insert_eq. split; [done|].
      rewrite lookup_app_r, Nat.sub_diag by lia. split; [done|]. simpl. set_solver.
    + destruct (Hl i) as [|(k & d & y & Hk & Hy & Hi)]; [lia|by left|right]. exists k, d, y. simpl.
      rewrite lookup_insert_ne by congruence. split_and!; [done|by apply lookup_app_l_Some|done].
Qed.

Lemma execute_nobody_lost k answer s s' :
  ok s -> nobody_lost s -> Execute k answer s = Some s' -> nobody_lost s'.
Proof.
  intros Hok Hl. unfold Execute. destruct (starting s !! k) as [c|] eqn:Hk; cbn [mbind option_bind]; [|done].
  destruct (contexts s !! c) as [x|] eqn:Hx; cbn [mbind option_bind]; [|done].
  pose proof (executing_ok s k c x Hok Hk Hx) as Hok1. set (s1 := MkMultiRequestContext _ _ _ _ _ _) in *.
  assert (nobody_lost s1) as Hl1 by exact Hl.
  assert (forall s2, nobody_lost s2 ->
    (y ← contexts s2 !! c; Some (set_context c (MkRequestContext (request_key y) (Some (length (executed s)))
       (callbacks_ y)) s2)) = Some s' -> nobody_lost s') as Hfin.
  { intros s2 H2. destruct (contexts s2 !! c) as [y|] eqn:Hy; cbn [mbind option_bind]; [|done].
    intros [= <-] i Hlt. destruct (H2 i Hlt) as [|Hw]; [by left|right]. by eapply waiting_set_context. }
  destruct answer as [|r]; cbn [mbind option_bind]; [by apply Hfin|].
  destruct (onRequestCompleted r (request_key x) s1) as [s2|] eqn:E2; cbn [mbind option_bind]; [|done].
  apply Hfin. by eapply completed_nobody_lost.
Qed.

Lemma act_nobody_lost a s s' :
  not_cancel a -> ok s -> nobody_lost s -> act a s = Some s' -> nobody_lost s'.
Proof.
  intros Ha Hok Hl. destruct a as [key|k answer|n r|i]; cbn [MultiRequest.act]; [| | |done].
  - by apply associate_nobody_lost.
  - by apply execute_nobody_lost.
  - unfold Complete. destruct (executed s !! n) as [key|]; cbn [mbind option_bind]; [|done].
    by apply completed_nobody_lost.
Qed.

(** ** Callers that are lost *)

(** The caller [i] belongs to the context [c], which no key leads to any more, and
    has not been called back. *)
Definition lost (i c : nat) s : Prop :=
  (forall key, active_reqs_ s !! key <> Some c) /\ i ∉ (called s).*1 /\
  exists x, contexts s !! c = Some x /\ i ∈ callbacks_ x.

Lemma completed_lost r key i c s s' :
  ok s -> lost i c s -> onRequestCompleted r key s = Some s' -> lost i c s'.
Proof.
  intros Hok (Hdead & Hno & x & Hx & Hi) E.
  destruct (completed_ok r key s Hok) as (s1 & E1 & _ & Ha & Hc & _ & _ & _ & Hcalled).
  assert (s1 = s') as -> by congruence. split_and!.
  - intros k. rewrite Ha. intros [_ Hk]%lookup_delete_Some. by apply (Hdead k).
  - rewrite Hcalled. intros [|(d & y & Hd & Hy & Hin)]; [done|].
    assert (c = d) as -> by (by eapply (ok_apart s Hok)). by apply (Hdead key).
  - exists x. by rewrite Hc.
Qed.

Lemma associate_lost i c key s s' : lost i c s -> Associate key s = Some s' -> lost i c s'.
Proof.
  intros (Hdead & Hno & x & Hx & Hi). unfold Associate. destruct (active_reqs_ s !! key) as [d|] eqn:Ek.
  - destruct (contexts s !! d) as [y|] eqn:Ey; cbn [mbind option_bind]; [|done]. intros [= <-].
    split_and!; [done|done|]. exists x. simpl. rewrite list_lookup_insert_ne; [done|].
    intros ->. by apply (Hdead key).
  - intros [= <-]. split_and!; [|done|exists x; split; [by apply lookup_app_l_Some|done]].
    simpl. intros k [[_ <-]|[_ Hk]]%lookup_insert_Some; [|by apply (Hdead k)].
    apply lookup_lt_Some in Hx. lia.
Qed.

Lemma execute_lost i c k answer s s' :
  ok s -> lost i c s -> Execute k answer s = Some s' -> lost i c s'.
Proof.
  intros Hok Hlost. unfold Execute.
  destruct (starting s !! k) as [d|] eqn:Hk; cbn [mbind option_bind]; [|done].
  destruct (contexts s !! d) as [y|] eqn:Hy; cbn [mbind option_bind]; [|done].
  pose proof (executing_ok s k d y Hok Hk Hy) as Hok1. set (s1 := MkMultiRequestContext _ _ _ _ _ _) in *.
  assert (lost i c s1) as Hlost1 by exact Hlost.
  assert (forall s2 z, lost i c s2 -> contexts s2 !! d = Some z -> lost i c (set_context d
    (MkRequestContext (request_key z) (Some (length (executed s))) (callbacks_ z)) s2)) as Hfin.
  { intros s2 z (H1 & H2 & w & Hw & Hiw) Hz. split_and!; [done|done|]. simpl.
    destruct (decide (c = d)) as [<-|Hne]; [|exists w; by rewrite list_lookup_insert_ne].
    eexists. rewrite list_lookup_insert_eq by (by eapply lookup_lt_Some). split; [done|].
    simpl. by simplify_eq. }
  destruct answer as [|r]; cbn [mbind option_bind].
  - simpl. rewrite Hy. cbn [mbind option_bind]. intros [= <-]. by apply (Hfin s1).
  - destruct (onRequestCompleted r (request_key y) s1) as [s2|] eqn:E2; cbn [mbind option_bind]; [|done].
    destruct (contexts s2 !! d) as [z|] eqn:Hz; cbn [mbind option_bind]; [|done]. intros [= <-].
    apply Hfin; [by eapply completed_lost|done].
Qed.

Lemma cancel_lost i c key j s s' :
  ok s -> lost i c s -> onRequestCancelled cancelled_ on_cancel key j s = Some s' -> lost i c s'.
Proof.
  intros Hok Hlost E. pose proof Hlost as (Hdead & Hno & x & Hx & Hi).
  destruct (onRequestCancelled_spec key j s Hok) as (s1 & E1 & _ & Hs1). assert (s1 = s') as -> by congruence.
  destruct (active_reqs_ s !! key) as [d|] eqn:Ek; [|by subst].
  destruct Hs1 as (y & Hy & _ & ->). assert (c <> d) as Hcd by (intros ->; by apply (Hdead key)).
  assert (forall k, delete key (active_reqs_ s) !! k <> Some c) as Hdead'.
  { intros k [_ Hk]%lookup_delete_Some. by apply (Hdead k). }
  destruct (decide (j ∈ callbacks_ y)) as [Hj|Hj]; [|by split_and!; [| |exists x]].
  split_and!; [done| |exists x; simpl; by rewrite list_lookup_insert_ne].
  simpl. rewrite fmap_app, elem_of_app. simpl. intros [| ->%list_elem_of_singleton]; [done|].
  apply Hcd. by eapply (ok_apart s Hok).
Qed.

Lemma act_lost i c a s s' : ok s -> lost i c s -> act a s = Some s' -> lost i c s'.
Proof.
  intros Hok Hlost. destruct a as [key|k answer|n r|j]; cbn [MultiRequest.act].
  - by apply associate_lost.
  - by apply execute_lost.
  - unfold Complete. destruct (executed s !! n) as [key|]; cbn [mbind option_bind]; [|done].
    by apply completed_lost.
  - unfold CancelCall. destruct (issued s !! j) as [key|]; cbn [mbind option_bind]; [|done].
    by apply cancel_lost.
Qed.
End facts.

(** ** The properties *)

(** C4.  Whatever callers, the provider and cancellations do: nobody is called back
    twice, every operation finds the contexts it looks for, and the completion of a
    request calls back everybody who waits for its key, with its response.
    Without cancellations, everybody who called has been called back or waits. *)
Theorem shared_requests_answered_once {Response} (cancelled_ : Response) on_cancel l s :
  run cancelled_ on_cancel l NewMultiRequestContext = Some s ->
  NoDup (called s).*1 /\
  (forall a, in_bounds a s -> is_Some (act cancelled_ on_cancel a s)) /\
  (forall key c x i r s', active_reqs_ s !! key = Some c -> contexts s !! c = Some x ->
     i ∈ callbacks_ x -> onRequestCompleted r key s = Some s' ->
     (i, r) ∈ called s' /\ active_reqs_ s' !! key = None) /\
  (Forall not_cancel l -> forall i, (i < length (issued s))%nat -> i ∈ (called s).*1 \/ waiting i s).
Proof.
  intros Hrun.
  destruct (run_induction cancelled_ on_cancel (fun _ => True) (fun _ => True) l _ s
    ltac:(done) ltac:(by apply Forall_true) new_ok I Hrun) as [Hok _].
  split_and!.
  - by apply (ok_once s).
  - intros a Ha. destruct (act_ok cancelled_ on_cancel a s Hok Ha) as (s' & -> & _). by eexists.
  - intros key c x i r s' Hkey Hx Hi. unfold onRequestCompleted. rewrite Hkey. simpl. rewrite Hx.
    cbn [mbind option_bind]. intros [= <-]. simpl. split; [|apply lookup_delete_eq].
    apply elem_of_app. right. apply list_elem_of_fmap. by exists i.
  - intros Hall. apply (run_induction cancelled_ on_cancel nobody_lost not_cancel l _ s) in Hrun as [_ H];
      [exact H|intros; by eapply act_nobody_lost|done|apply new_ok|].
    intros i Hi. simpl in Hi. lia.
Qed.

(** When one of several callers of a key cancels, the others are lost: the
    request's context is removed from the active ones although it still has
    callbacks, the underlying request is not cancelled, and in every later state
    the other callers have not been called back. *)
Theorem cancel_loses_other_callers {Response} (cancelled_ : Response) on_cancel l s key c x i j s' l' s'' :
  run cancelled_ on_cancel l NewMultiRequestContext = Some s ->
  active_reqs_ s !! key = Some c -> contexts s !! c = Some x ->
  i ∈ callbacks_ x -> j ∈ callbacks_ x -> i <> j ->
  onRequestCancelled cancelled_ on_cancel key i s = Some s' ->
  run cancelled_ on_cancel l' s' = Some s'' ->
  called s' = called s ++ [(i, cancelled_)] /\ j ∉ (called s'').*1.
Proof.
  intros Hrun Hkey Hx Hi Hj Hne Hcancel Hrun'.
  destruct (run_induction cancelled_ on_cancel (fun _ => True) (fun _ => True) l _ s
    ltac:(done) ltac:(by apply Forall_true) new_ok I Hrun) as [Hok _].
  destruct (onRequestCancelled_spec cancelled_ on_cancel key i s Hok) as (s1 & E1 & Hok1 & Hs1).
  assert (s1 = s') as -> by congruence. rewrite Hkey in Hs1. destruct Hs1 as (y & Hy & Hk & E).
  assert (y = x) as -> by congruence. cbv zeta in E. rewrite decide_True in E by done. split; [by rewrite E|].
  assert (lost j c s') as Hlost.
  { rewrite E. split_and!.
    - simpl. intros k [Hnk Hk']%lookup_delete_Some.
      destruct (ok_active s Hok k c Hk') as (z & Hz & Ez). congruence.
    - simpl. rewrite fmap_app, elem_of_app. simpl. intros [Hin| ->%list_elem_of_singleton]; [|done].
      by apply (ok_fresh s Hok key c x j).
    - simpl. eexists. rewrite list_lookup_insert_eq by (by eapply lookup_lt_Some). split; [done|].
      simpl. apply list_elem_of_filter. by split. }
  apply (run_induction cancelled_ on_cancel (lost j c) (fun _ => True) l' s' s'') in Hrun' as [_ (_ & H & _)];
    [done|intros; by eapply act_lost|by apply Forall_true|done|done].
Qed.

(** ** The destructor *)

Section destructor.
  Context {Response : Type} (on_cancel : nat -> Answer Response).
  Implicit Types s : MultiRequestContext Response.

Lemma cancel_token_spec s c x :
  ok s -> contexts s !! c = Some x ->
  cancel_token on_cancel (cancellation_token_ x) s =
  match cancellation_token_ x with
  | Some n => match on_cancel n with
              | Now r => onRequestCompleted r (request_key x) s
              | Later => Some s
              end
  | None => Some s
  end.
Proof.
  intros Hok Hx. unfold cancel_token. destruct (cancellation_token_ x) as [n|] eqn:En; [|done].
  destruct (on_cancel n); [done|]. unfold Complete. by rewrite (ok_token s Hok c x n Hx En).
Qed.

(** The next request the loop takes. *)
Lemma destroy_head s :
  ok s -> active_reqs_ s <> ∅ ->
  exists key c l x, map_to_list (active_reqs_ s) = (key, c) :: l /\ active_reqs_ s !! key = Some c /\
    contexts s !! c = Some x /\ request_key x = key.
Proof.
  intros Hok Hne. destruct (map_to_list (active_reqs_ s)) as [|[key c] l] eqn:El.
  - by apply map_to_list_empty_iff in El.
  - assert (active_reqs_ s !! key = Some c) as Hk.
    { apply elem_of_map_to_list. rewrite El. by left. }
    destruct (ok_active s Hok key c Hk) as (x & Hx & Hkey). by exists key, c, l, x.
Qed.

Lemma destroy_ends fuel s :
  ok s -> size (active_reqs_ s) < fuel -> (forall n, exists r, on_cancel n = Now r) ->
  (forall key c x, active_reqs_ s !! key = Some c -> contexts s !! c = Some x ->
     is_Some (cancellation_token_ x)) ->
  exists s', destroy on_cancel fuel s = Some s' /\ active_reqs_ s' = ∅ /\
    forall i, i ∈ (called s).*1 \/ waiting i s -> i ∈ (called s').*1.
Proof.
  revert s. induction fuel as [|fuel IH]; intros s Hok Hsize Hnow Htok; [lia|]. cbn [destroy].
  destruct (decide (active_reqs_ s = ∅)) as [He|Hne].
  - rewrite He, map_to_list_empty. exists s. split_and!; [done|done|].
    intros i [|(k & c & x & Hk & _)]; [done|]. by rewrite He in Hk.
  - destruct (destroy_head s Hok Hne) as (key & c & l & x & -> & Hk & Hx & Hkey).
    rewrite Hx. cbn [mbind option_bind]. rewrite (cancel_token_spec s c x Hok Hx).
    destruct (Htok key c x Hk Hx) as [n ->]. destruct (Hnow n) as [r ->]. rewrite Hkey.
    destruct (completed_ok r key s Hok) as (s1 & -> & Hok1 & Ha & Hc & _ & _ & _ & Hcalled).
    cbn [mbind option_bind]. destruct (IH s1) as (s' & E & He & Hall); [done| |done| |].
    + rewrite Ha, map_size_delete_Some by (by eexists).
      assert (size (active_reqs_ s) <> 0) by (by rewrite map_size_empty_iff). lia.
    + intros k d y. rewrite Ha, Hc. intros [_ Hd]%lookup_delete_Some. by apply (Htok k).
    + exists s'. split_and!; [done|done|]. intros i Hi. apply Hall. rewrite Hcalled.
      destruct Hi as [Hi|(k & d & y & Hd & Hy & Hi)]; [by left; left|].
      destruct (decide (k = key)) as [->|Hnk]; [left; right; by exists d, y|].
      right. exists k, d, y. rewrite Ha, Hc. by rewrite lookup_delete_ne.
Qed.

(** A request that cannot be cancelled keeps the loop going. *)
Lemma destroy_stuck fuel s key c x :
  ok s -> active_reqs_ s !! key = Some c -> contexts s !! c = Some x ->
  (cancellation_token_ x = None \/ forall n, on_cancel n = Later) ->
  destroy on_cancel fuel s = None.
Proof.
  revert s. induction fuel as [|fuel IH]; intros s Hok Hk Hx Hno; [done|]. cbn [destroy].
  assert (active_reqs_ s <> ∅) as Hne by (intros He; by rewrite He in Hk).
  destruct (destroy_head s Hok Hne) as (k & d & l & y & -> & Hd & Hy & Hky).
  rewrite Hy. cbn [mbind option_bind]. rewrite (cancel_token_spec s d y Hok Hy).
  destruct (cancellation_token_ y) as [n|] eqn:En; cbn [mbind option_bind]; [|by apply IH].
  destruct (on_cancel n) as [|r] eqn:Ec; cbn [mbind option_bind]; [by apply IH|].
  destruct (completed_ok r (request_key y) s Hok) as (s1 & -> & Hok1 & Ha & Hc & _).
  cbn [mbind option_bind]. destruct Hno as [Hno|Hno]; [|congruence].
  assert (request_key y <> key) as Hdiff by (intros E; simplify_eq; congruence).
  apply IH; [done| |by rewrite Hc|by left]. by rewrite Ha, lookup_delete_ne.
Qed.
End destructor.

(** The destructor cancels the active requests until none is left.  With a
    provider that calls back inside the cancellation, and every request executed,
    it ends, having called back everybody who waited; with a provider that answers
    cancellations later, or with an active request whose token is not yet set, it
    does not end, whatever the number of rounds; and as it holds the lock, no other
    thread can end it. *)
Theorem destructor_termination {Response} (cancelled_ : Response) on_cancel l s :
  run cancelled_ on_cancel l NewMultiRequestContext = Some s ->
  ((forall n, exists r, on_cancel n = Now r) ->
   (forall key c x, active_reqs_ s !! key = Some c -> contexts s !! c = Some x ->
      is_Some (cancellation_token_ x)) ->
   exists s', destroy on_cancel (S (size (active_reqs_ s))) s = Some s' /\ active_reqs_ s' = ∅ /\
     forall i, waiting i s -> i ∈ (called s').*1) /\
  (forall key c x, active_reqs_ s !! key = Some c -> contexts s !! c = Some x ->
     (cancellation_token_ x = None \/ forall n, on_cancel n = Later) ->
     forall fuel, destroy on_cancel fuel s = None).
Proof.
  intros Hrun.
  destruct (run_induction cancelled_ on_cancel (fun _ => True) (fun _ => True) l _ s
    ltac:(done) ltac:(by apply Forall_true) new_ok I Hrun) as [Hok _].
  split.
  - intros Hnow Htok. destruct (destroy_ends on_cancel (S (size (active_reqs_ s))) s) as (s' & E & He & H);
      [done|lia|done|done|]. exists s'. split_and!; [done|done|]. intros i Hi. apply H. by right.
  - intros key c x Hk Hx Hno fuel. by eapply destroy_stuck.
Qed.

(** ** Two callers of one key, the first of which cancels *)

Definition example_calls : list (action nat) :=
  [DoAssociate (str "k"); DoExecute 0 Later; DoAssociate (str "k")].
Definition example_calls_state : MultiRequestContext nat :=
  MkMultiRequestContext {[ str "k" := 0 ]} [MkRequestContext (str "k") (Some 0) [0; 1]] []
    [str "k"] [str "k"; str "k"] [].
Definition example_cancelled_state : MultiRequestContext nat :=
  MkMultiRequestContext ∅ [MkRequestContext (str "k") (Some 0) [1]] []
    [str "k"] [str "k"; str "k"] [(0, 99)].

Lemma shared_requests_answered_once_witness :
  let s := example_calls_state in
  NoDup (called s).*1 /\
  (forall a, in_bounds a s -> is_Some (act 99 (fun _ => Later) a s)) /\
  (forall key c x i r s', active_reqs_ s !! key = Some c -> contexts s !! c = Some x ->
     i ∈ callbacks_ x -> onRequestCompleted r key s = Some s' ->
     (i, r) ∈ called s' /\ active_reqs_ s' !! key = None) /\
  (Forall not_cancel example_calls -> forall i, (i < length (issued s))%nat -> i ∈ (called s).*1 \/ waiting i s).
Proof. apply (shared_requests_answered_once 99 (fun _ => Later) example_calls). vm_compute. reflexivity. Defined.

Lemma cancel_loses_other_callers_witness :
  called example_cancelled_state = called example_calls_state ++ [(0, 99)] /\
  1 ∉ (called example_cancelled_state).*1.
Proof.
  apply (cancel_loses_other_callers 99 (fun _ => Later) example_calls example_calls_state (str "k") 0
    (MkRequestContext (str "k") (Some 0) [0; 1]) 0 1 example_cancelled_state
    [DoComplete 0 7] example_cancelled_state).
  - vm_compute. reflexivity.
  - vm_compute. reflexivity.
  - reflexivity.
  - simpl. left.
  - simpl. right. left.
  - discriminate.
  - vm_compute. reflexivity.
  - vm_compute. reflexivity.
Defined.

Lemma destructor_termination_witness :
  let s := example_calls_state in
  ((forall n : nat, exists r, (fun _ => Now 99) n = Now r) ->
   (forall key c x, active_reqs_ s !! key = Some c -> contexts s !! c = Some x ->
      is_Some (cancellation_token_ x)) ->
   exists s', destroy (fun _ => Now 99) (S (size (active_reqs_ s))) s = Some s' /\ active_reqs_ s' = ∅ /\
     forall i, waiting i s -> i ∈ (called s').*1) /\
  (forall key c x, active_reqs_ s !! key = Some c -> contexts s !! c = Some x ->
     (cancellation_token_ x = None \/ forall n : nat, (fun _ => Now 99) n = Later) ->
     forall fuel, destroy (fun _ => Now 99) fuel s = None).
Proof. apply (destructor_termination 99 (fun _ => Now 99) example_calls). vm_compute. reflexivity. Defined.

(** With a provider that answers later the same state is not destroyed. *)
Example destructor_hangs : destroy (fun _ => Later) 100 example_calls_state = None.
Proof. vm_compute. reflexivity. Qed.
