(* ===== verification/PrefetchTiles.v ===== *)
(** * Tiles to prefetch

    The tile selection of [PrefetchTilesRepository.cpp]: from the requested tiles and
    levels, the quad trees (a root tile and a depth) that are asked from the query
    service.  A C++ [std::map] from HERE-tile texts is a [gmap]; the recursions
    carry fuel and return [None] when it is used up. *)

From Stdlib Require Import ZArith Lia Bool Ascii.
From stdpp Require Import base numbers strings gmap list.
From S2P Require Import Prelude Decimal TileKey TileKeyFacts TileText TileTree.
Local Open Scope Z_scope.
Local Open Scope olp_scope.

Definition kMaxQuadTreeIndexDepth : Z := 4.

Abbreviation TileKeyAndDepth := (TileKey * Z)%type.
Abbreviation SubQuadsRequest := (gmap text TileKeyAndDepth).

(** [std::pair]'s [operator<] and [std::max]. *)
Definition pair_ltb (a b : TileKeyAndDepth) : bool :=
  key_ltb a.1 b.1 || (negb (key_ltb b.1 a.1) && (a.2 <? b.2)).
Definition pair_max (a b : TileKeyAndDepth) : TileKeyAndDepth := if pair_ltb a b then b else a.

(** The loops that add the tiles of one request to another: the greater one of two
    values of the same key. *)
Definition merge_request (ret childTiles : SubQuadsRequest) : SubQuadsRequest :=
  union_with (fun oldChild tile => Some (pair_max oldChild tile)) ret childTiles.

(** The loop of [AddParents]. *)
Fixpoint add_parents (fuel : nat) (minLevel maxLevel : Z) (tile : TileKey) (ret : SubQuadsRequest)
    : option SubQuadsRequest :=
  if level_ tile >=? minLevel then
    match fuel with
    | O => None
    | S n =>
      add_parents n minLevel maxLevel (Parent tile)
        (if level_ tile <=? maxLevel then <[ToHereTile tile := (tile, 0)]> ret else ret)
    end
  else Some ret.

Fixpoint GetChildAtLevel (fuel : nat) (tilekey : TileKey) (minLevel : Z) : option (list TileKey) :=
  if level_ tilekey >=? minLevel then Some [tilekey]
  else
    match fuel with
    | O => None
    | S n =>
      mjoin <$> mapM (fun i => GetChildAtLevel n (GetChild tilekey i) minLevel) [0; 1; 2; 3]
    end.

(** [for (auto child : children) AddChildren(child);] *)
Fixpoint add_children (effective : TileKey -> option SubQuadsRequest) (children : list TileKey)
    (ret : SubQuadsRequest) : option SubQuadsRequest :=
  match children with
  | [] => Some ret
  | child :: rest =>
    childTiles ← effective child;
    add_children effective rest (merge_request ret childTiles)
  end.

(** The private [EffectiveTileKeys] of one tile. *)
Fixpoint EffectiveTileKey (fuel : nat) (minLevel maxLevel : Z) (addAncestors : bool) (tilekey : TileKey)
    : option SubQuadsRequest :=
  match fuel with
  | O => None
  | S n =>
    let currentLevel := level_ tilekey in
    let AddParents := add_parents n minLevel maxLevel (Parent tilekey) in
    let AddChildren := add_children (EffectiveTileKey n minLevel maxLevel false) in
    if currentLevel >? maxLevel then AddParents ∅
    else if currentLevel <? minLevel then
      children ← GetChildAtLevel n tilekey minLevel;
      AddChildren children ∅
    else
      ret ← (if addAncestors then AddParents ∅ else Some ∅);
      if u32 (maxLevel - currentLevel) <=? kMaxQuadTreeIndexDepth then
        Some (<[ToHereTile tilekey := (tilekey, u32 (maxLevel - currentLevel))]> ret)
      else
        children ← GetChildAtLevel n tilekey (u32 (currentLevel + kMaxQuadTreeIndexDepth + 1));
        AddChildren children (<[ToHereTile tilekey := (tilekey, kMaxQuadTreeIndexDepth)]> ret)
  end.

(** The public [EffectiveTileKeys]. *)
Definition EffectiveTileKeys (fuel : nat) (tilekeys : list TileKey) (minLevel maxLevel : Z)
    : option SubQuadsRequest :=
  add_children (EffectiveTileKey fuel minLevel maxLevel true) tilekeys ∅.

(** ** The tiles selected for a prefetch

    The quad trees of a request cover exactly the tiles between the two levels that
    are ancestors or descendants of a requested tile, and the selection ends, when
    the lower level is at least 1; with the lower level 0 it does not end. *)

(** ** Ancestors and descendants *)

(** [d] is [t] or below it. *)
Definition below (t d : TileKey) : Prop :=
  level_ t <= level_ d /\ ancestor d (level_ d - level_ t) = t.

Lemma ancestor_0 k : ancestor k 0 = k.
Proof. unfold ancestor. destruct k; simpl. by rewrite !Z.shiftr_0_r, Z.sub_0_r. Qed.

Lemma below_refl t : below t t.
Proof. split; [lia|]. by rewrite Z.sub_diag, ancestor_0. Qed.

Lemma below_same_level t d : below t d -> level_ d <= level_ t -> d = t.
Proof.
  intros [? E] ?. replace (level_ d - level_ t) with 0 in E by lia. by rewrite ancestor_0 in E.
Qed.

Lemma below_trans a b c : below a b -> below b c -> below a c.
Proof.
  intros [H1 E1] [H2 E2]. split; [lia|]. rewrite <- E1 at 2. rewrite <- E2 at 1.
  rewrite ancestor_ancestor by lia. f_equal. lia.
Qed.

Lemma below_ancestor d l :
  0 <= l <= level_ d -> below (ancestor d (level_ d - l)) d /\ level_ (ancestor d (level_ d - l)) = l.
Proof.
  intros Hl. assert (level_ (ancestor d (level_ d - l)) = l) as E by (cbn; lia).
  split; [|done]. split; [lia|]. by rewrite E.
Qed.

(** Two tiles above the same one are comparable. *)
Lemma below_between a b d :
  below a d -> below b d -> level_ a <= level_ b -> below a b.
Proof.
  intros [H1 E1] [H2 E2] H. split; [done|]. rewrite <- E1 at 2. rewrite <- E2 at 1.
  rewrite ancestor_ancestor by lia. f_equal. lia.
Qed.

Lemma below_parent t : Valid t -> 0 < level_ t -> below (Parent t) t.
Proof.
  intros Ht Hl. rewrite Parent_ancestor by done. split; [cbn; lia|]. f_equal. cbn. lia.
Qed.

(** The tiles above a tile. *)
Lemma above_split t d :
  Valid t -> 0 < level_ t -> below d t <-> d = t \/ below d (Parent t).
Proof.
  intros Ht Hl. pose proof (below_parent t Ht Hl) as Hp.
  assert (level_ (Parent t) = level_ t - 1) as El by (rewrite Parent_ancestor by done; done).
  split.
  - intros Hd. destruct (Z.eq_dec (level_ d) (level_ t)); [left|right].
    + destruct Hd as [? E]. rewrite <- E. replace (level_ t - level_ d) with 0 by lia. by rewrite ancestor_0.
    + apply (below_between d (Parent t) t); [done|done|]. destruct Hd. lia.
  - intros [->|Hd]; [apply below_refl|]. by apply (below_trans d (Parent t) t).
Qed.

(** The tiles below a tile. *)
Lemma below_GetChild t i : Valid t -> level_ t < 31 -> 0 <= i < 4 ->
  Valid (GetChild t i) /\ level_ (GetChild t i) = level_ t + 1 /\ below t (GetChild t i).
Proof.
  intros Ht Hl Hi. rewrite GetChild_child by done.
  assert (0 <= i / 2 < 2) by (split; [apply Z.div_pos|apply Z.div_lt_upper_bound]; lia).
  assert (0 <= i mod 2 < 2) by (apply Z.mod_pos_bound; lia).
  split; [by apply child_Valid|]. split; [done|]. split; [cbn; lia|].
  replace (level_ (child t (i / 2) (i mod 2)) - level_ t) with 1 by (cbn; lia). by apply child_parent.
Qed.

Lemma child_of_parent p : Valid p -> 0 < level_ p ->
  exists i, 0 <= i < 4 /\ GetChild (ancestor p 1) i = p.
Proof.
  intros Hp Hl. pose proof (ancestor_Valid p 1 Hp) as Ha.
  exists (2 * (row_ p mod 2) + column_ p mod 2).
  assert (0 <= row_ p mod 2 < 2) as Hr by (apply Z.mod_pos_bound; lia).
  assert (0 <= column_ p mod 2 < 2) as Hc by (apply Z.mod_pos_bound; lia).
  split; [lia|]. rewrite GetChild_child; [|apply Ha; lia|cbn; destruct Hp; lia|lia].
  rewrite Z.mul_comm, Z.div_add_l, (Z.div_small (column_ p mod 2)), Z.add_0_r by lia.
  rewrite Z.add_comm, Z.mod_add, (Z.mod_small (column_ p mod 2)) by lia.
  unfold ancestor, child; destruct p as [r c l]; cbn in *.
  rewrite !Z.shiftr_div_pow2 by lia. change (2 ^ 1) with 2.
  pose proof (Z.div_mod r 2). pose proof (Z.div_mod c 2). f_equal; lia.
Qed.

Lemma below_split t c :
  Valid t -> Valid c -> level_ t < level_ c ->
  below t c <-> exists i, 0 <= i < 4 /\ below (GetChild t i) c.
Proof.
  intros Ht Hc Hl. split.
  - intros [_ E]. set (p := ancestor c (level_ c - level_ t - 1)).
    assert (Valid p) as Hp by (apply ancestor_Valid; [done|destruct Ht; lia]).
    assert (level_ p = level_ t + 1) as Elp by (cbn; lia).
    destruct (child_of_parent p Hp) as (i & Hi & Ei); [destruct Ht; lia|].
    assert (ancestor p 1 = t) as Ep.
    { unfold p. rewrite ancestor_ancestor by lia. rewrite <- E at 2. f_equal. lia. }
    rewrite Ep in Ei. exists i. split; [done|]. rewrite Ei. split; [lia|].
    rewrite Elp. unfold p. f_equal. lia.
  - intros (i & Hi & Hb). apply (below_trans t (GetChild t i) c); [|done].
    apply below_GetChild; [done|destruct Hc; lia|done].
Qed.

(** ** [GetChildAtLevel] *)

Lemma GetChildAtLevel_spec fuel t l :
  Valid t -> level_ t <= l < 32 -> l - level_ t <= Z.of_nat fuel ->
  exists children, GetChildAtLevel fuel t l = Some children /\
    forall c, c ∈ children <-> Valid c /\ level_ c = l /\ below t c.
Proof.
  revert t. induction fuel as [|n IH]; intros t Ht Hl Hf; cbn [GetChildAtLevel];
    destruct (Z.geb_spec (level_ t) l) as [Hge|Hlt].
  1,3: exists [t]; split; [done|]; intros c; rewrite list_elem_of_singleton; split;
    [intros ->; split_and!; [done|lia|apply below_refl]|intros (_ & Hc & Hb); apply below_same_level; [done|lia]].
  - lia.
  - assert (forall i, 0 <= i < 4 -> exists children, GetChildAtLevel n (GetChild t i) l = Some children /\
      forall c, c ∈ children <-> Valid c /\ level_ c = l /\ below (GetChild t i) c) as Hi.
    { intros i Hi. destruct (below_GetChild t i) as (? & ? & ?); [done|lia|done|].
      apply IH; [done|lia|lia]. }
    destruct (Hi 0) as (l0 & E0 & H0), (Hi 1) as (l1 & E1 & H1), (Hi 2) as (l2 & E2 & H2),
      (Hi 3) as (l3 & E3 & H3); try lia.
    exists (l0 ++ l1 ++ l2 ++ l3 ++ []). split.
    { cbn [mapM mbind option_bind mret option_ret]. by rewrite E0, E1, E2, E3. }
    intros c. rewrite !elem_of_app, elem_of_nil, H0, H1, H2, H3. split.
    + intros Hc. assert (exists i, 0 <= i < 4 /\ Valid c /\ level_ c = l /\ below (GetChild t i) c)
        as (i & Hi4 & Hv & Hlc & Hb)
        by (destruct Hc as [?|[?|[?|[?|[]]]]]; [exists 0|exists 1|exists 2|exists 3]; split; (lia || done)).
      split_and!; [done|done|]. apply below_split; [done|done|lia|eauto].
    + intros (Hv & Hlc & Hb). apply below_split in Hb as (i & Hi4 & Hb); [|done|done|lia].
      assert (i = 0 \/ i = 1 \/ i = 2 \/ i = 3) as [->|[->|[->| ->]]] by lia; tauto.
Qed.

(** ** Requests *)

(** The tiles a quad tree of some depth has, and those of a request. *)
Definition covers (e : TileKeyAndDepth) (d : TileKey) : Prop :=
  Valid d /\ below e.1 d /\ level_ d <= level_ e.1 + e.2.
Definition covered (ret : SubQuadsRequest) (d : TileKey) : Prop :=
  exists k e, ret !! k = Some e /\ covers e d.

Definition entry_ok (minLevel maxLevel : Z) (k : text) (e : TileKeyAndDepth) : Prop :=
  Valid e.1 /\ k = ToHereTile e.1 /\ 0 <= e.2 <= kMaxQuadTreeIndexDepth /\
  minLevel <= level_ e.1 /\ level_ e.1 + e.2 <= maxLevel.
Definition request_ok (minLevel maxLevel : Z) (ret : SubQuadsRequest) : Prop :=
  map_Forall (entry_ok minLevel maxLevel) ret.

Lemma ToHereTile_inj a b : Valid a -> Valid b -> ToHereTile a = ToHereTile b -> a = b.
Proof. intros Ha Hb E. by rewrite <- (from_to_here_tile a Ha), E, from_to_here_tile. Qed.

Lemma covered_empty d : ~ covered ∅ d.
Proof. intros (k & e & He & _). by rewrite lookup_empty in He. Qed.

Lemma covered_insert k e ret d :
  ret !! k = None -> covered (<[k := e]> ret) d <-> covers e d \/ covered ret d.
Proof.
  intros Hk. split.
  - intros (k' & e' & He & Hc). destruct (decide (k = k')) as [->|].
    + rewrite lookup_insert_eq in He. simplify_eq. by left.
    + rewrite lookup_insert_ne in He by done. right. by exists k', e'.
  - intros [Hc|(k' & e' & He & Hc)].
    + exists k, e. by rewrite lookup_insert_eq.
    + exists k', e'. rewrite lookup_insert_ne; [done|]. intros ->. by rewrite Hk in He.
Qed.

Lemma pair_max_same a b : a.1 = b.1 -> pair_max a b = (a.1, Z.max a.2 b.2).
Proof.
  destruct a as [t x], b as [t' y]; cbn. intros <-. unfold pair_max, pair_ltb. cbn.
  assert (key_ltb t t = false) as -> by (apply not_true_iff_false; rewrite key_ltb_lex; lia).
  cbn. destruct (Z.ltb_spec x y); f_equal; lia.
Qed.

Section levels.
  Context (minLevel maxLevel : Z).

(** Values of the same key belong to the same tile, and the deeper one is kept. *)
Lemma merge_lookup a b k :
  request_ok minLevel maxLevel a -> request_ok minLevel maxLevel b ->
  merge_request a b !! k =
  match a !! k, b !! k with
  | Some x, Some y => Some (x.1, Z.max x.2 y.2)
  | Some x, None => Some x
  | None, o => o
  end.
Proof.
  intros Ha Hb.
  assert (merge_request a b !! k =
    union_with (fun x y => Some (pair_max x y)) (a !! k) (b !! k)) as -> by apply lookup_union_with.
  destruct (a !! k) as [x|] eqn:Ea, (b !! k) as [y|] eqn:Eb; try done.
  cbn [union_with option_union_with]. f_equal.
  destruct (Ha k x Ea) as (Hx & Ekx & _), (Hb k y Eb) as (Hy & Eky & _).
  apply pair_max_same, ToHereTile_inj; congruence || done.
Qed.

Lemma merge_ok a b :
  request_ok minLevel maxLevel a -> request_ok minLevel maxLevel b ->
  request_ok minLevel maxLevel (merge_request a b).
Proof.
  intros Ha Hb k e. rewrite merge_lookup by done.
  destruct (a !! k) as [x|] eqn:Ea, (b !! k) as [y|] eqn:Eb; intros [= <-]; auto.
  destruct (Ha k x Ea) as (Hx & Ekx & ? & ? & ?), (Hb k y Eb) as (Hy & Eky & ? & ? & ?).
  assert (x.1 = y.1) as E by (apply ToHereTile_inj; congruence).
  unfold entry_ok. cbn [fst snd]. rewrite <- E in *. split_and!; [exact Hx|exact Ekx|lia..].
Qed.

Lemma merge_covered a b d :
  request_ok minLevel maxLevel a -> request_ok minLevel maxLevel b ->
  covered (merge_request a b) d <-> covered a d \/ covered b d.
Proof.
  intros Ha Hb. split.
  - intros (k & e & He & Hv & Hbe & Hl). rewrite merge_lookup in He by done.
    destruct (a !! k) as [x|] eqn:Ea, (b !! k) as [y|] eqn:Eb; simplify_eq; cbn in *.
    + destruct (Ha k x Ea) as (Hx & Ekx & _), (Hb k y Eb) as (Hy & Eky & _).
      assert (x.1 = y.1) as E by (apply ToHereTile_inj; congruence).
      destruct (Z.max_spec x.2 y.2) as [[_ Em]|[_ Em]]; rewrite Em in Hl.
      * right. exists k, y. split; [done|]. rewrite E in *. by split_and!.
      * left. exists k, x. by split_and!.
    + left. exists k, e. by split_and!.
    + right. exists k, e. by split_and!.
  - intros [(k & e & He & Hv & Hbe & Hl)|(k & e & He & Hv & Hbe & Hl)];
      exists k; rewrite merge_lookup, He by done.
    + destruct (b !! k) as [y|]; eexists; split; try done. split_and!; cbn; (done || lia).
    + destruct (a !! k) as [x|] eqn:Ea; [|by exists e].
      destruct (Ha k x Ea) as (Hx & Ekx & _), (Hb k e He) as (Hy & Eky & _).
      assert (x.1 = e.1) as E by (apply ToHereTile_inj; congruence).
      eexists. split; [done|]. cbn. rewrite E. split_and!; cbn; (done || lia).
Qed.

(** ** The loops *)

Lemma add_parents_spec fuel tile ret :
  1 <= minLevel -> Valid tile -> level_ tile < Z.of_nat fuel ->
  request_ok minLevel maxLevel ret -> (forall k e, ret !! k = Some e -> level_ tile < level_ e.1) ->
  exists ret', add_parents fuel minLevel maxLevel tile ret = Some ret' /\
    request_ok minLevel maxLevel ret' /\
    (forall d, covered ret' d <->
       covered ret d \/ (Valid d /\ minLevel <= level_ d <= maxLevel /\ below d tile)) /\
    (forall k e, ret' !! k = Some e -> ret !! k = Some e \/ below e.1 tile).
Proof.
  intros Hmin. revert tile ret. induction fuel as [|n IH]; intros tile ret Ht Hf Hok Hnew;
    [destruct Ht; lia|]. cbn [add_parents].
  destruct (Z.geb_spec (level_ tile) minLevel) as [Hge|Hlt].
  2:{ exists ret. split_and!; [done|done| |auto]. intros d. split; [auto|].
      intros [?|(_ & ? & [? _])]; [done|lia]. }
  assert (ret !! ToHereTile tile = None) as Hnone.
  { destruct (ret !! ToHereTile tile) as [e|] eqn:E; [|done]. exfalso.
    pose proof (Hnew _ _ E). destruct (Hok _ _ E) as (Hv & Ek & _).
    apply ToHereTile_inj in Ek; [apply (f_equal level_) in Ek; lia|done|done]. }
  set (ret1 := if level_ tile <=? maxLevel then <[ToHereTile tile := (tile, 0)]> ret else ret).
  assert (level_ (Parent tile) = level_ tile - 1) as El by (rewrite Parent_ancestor by (done || lia); done).
  assert (Valid (Parent tile)) as Hp by (apply Parent_Valid; [done|lia]).
  assert (forall k e, ret1 !! k = Some e -> e = (tile, 0) /\ level_ tile <= maxLevel \/ ret !! k = Some e) as Hret1.
  { intros k e. unfold ret1. destruct (Z.leb_spec (level_ tile) maxLevel) as [Hm|Hm]; [|auto].
    intros [[_ He]|[_ He]]%lookup_insert_Some; auto. }
  destruct (IH (Parent tile) ret1) as (ret' & E & Hok' & Hcov & Hfrom); [done|lia| | |].
  { unfold ret1. destruct (Z.leb_spec (level_ tile) maxLevel); [|done].
    apply map_Forall_insert_2; [|done]. unfold entry_ok, kMaxQuadTreeIndexDepth. cbn. split_and!; (done || lia). }
  { intros k e [[-> _]|He]%Hret1; cbn; [lia|]. pose proof (Hnew k e He). lia. }
  exists ret'. split_and!; [done|done| |].
  - intros d. rewrite Hcov. rewrite (above_split tile d) by (done || lia).
    assert (covered ret1 d <-> covered ret d \/ (d = tile /\ level_ tile <= maxLevel)) as ->.
    { unfold ret1. destruct (Z.leb_spec (level_ tile) maxLevel) as [Hm|Hm].
      - rewrite covered_insert by done. unfold covers. cbn. rewrite Z.add_0_r. split.
        + intros [(_ & Hb & Hl)|?]; [right; split; [by apply below_same_level|lia]|by left].
        + intros [?|[-> _]]; [by right|left]. split_and!; [done|apply below_refl|lia].
      - split; [auto|]. intros [?|[_ ?]]; [done|lia]. }
    split.
    + intros [[?|[-> ?]]|(? & ? & ?)]; [auto| |]; right; split_and!; auto; lia.
    + intros [?|(? & ? & [->|?])]; [auto| |auto]. left. right. split; [done|lia].
  - intros k e He. destruct (Hfrom k e He) as [Hr|Hb].
    + apply Hret1 in Hr as [[-> _]|?]; [right; apply below_refl|by left].
    + right. apply (below_trans _ (Parent tile)); [done|]. apply below_parent; [done|lia].
Qed.

(** The loop over the children, for tiles that are covered as [P] says. *)
Lemma add_children_spec (effective : TileKey -> option SubQuadsRequest) (P : TileKey -> TileKey -> Prop)
    children ret :
  (forall c, c ∈ children -> exists r, effective c = Some r /\ request_ok minLevel maxLevel r /\
     forall d, covered r d <-> P c d) ->
  request_ok minLevel maxLevel ret ->
  exists ret', add_children effective children ret = Some ret' /\ request_ok minLevel maxLevel ret' /\
    forall d, covered ret' d <-> covered ret d \/ exists c, c ∈ children /\ P c d.
Proof.
  revert ret. induction children as [|c rest IH]; intros ret Hc Hok; cbn [add_children].
  - exists ret. split_and!; [done|done|]. intros d. split; [auto|].
    by intros [?|(c & ?%elem_of_nil & _)].
  - destruct (Hc c) as (r & -> & Hr & Hcov); [left|]. cbn [mbind option_bind].
    destruct (IH (merge_request ret r)) as (ret' & E & Hok' & Hcov').
    { intros c' ?. apply Hc. by right. }
    { by apply merge_ok. }
    exists ret'. split_and!; [done|done|]. intros d. rewrite Hcov', merge_covered, Hcov by done. split.
    + intros [[?|?]|(c' & ? & ?)]; [by left|right; exists c; split; [left|done]|right; exists c'; split; [by right|done]].
    + intros [?|(c' & [->|?]%elem_of_cons & ?)]; [auto|auto|]. right. eauto.
Qed.

(** ** One tile *)

Definition related (addAncestors : bool) (t d : TileKey) : Prop :=
  Valid d /\ minLevel <= level_ d <= maxLevel /\ (below t d \/ (addAncestors = true /\ below d t)).

(** The branch of a tile between the levels, whose ancestors [ret] covers. *)
Lemma in_range_spec n t (P : TileKey -> Prop) ret :
  Valid t -> minLevel <= level_ t <= maxLevel -> maxLevel < 32 -> 32 <= Z.of_nat n ->
  request_ok minLevel maxLevel ret -> (forall k e, ret !! k = Some e -> level_ e.1 < level_ t) ->
  (forall d, covered ret d <-> P d) ->
  (forall c, Valid c -> level_ t < level_ c <= maxLevel ->
     exists r, EffectiveTileKey n minLevel maxLevel false c = Some r /\ request_ok minLevel maxLevel r /\
       forall d, covered r d <-> related false c d) ->
  exists ret',
    (if u32 (maxLevel - level_ t) <=? kMaxQuadTreeIndexDepth then
       Some (<[ToHereTile t := (t, u32 (maxLevel - level_ t))]> ret)
     else
       children ← GetChildAtLevel n t (u32 (level_ t + kMaxQuadTreeIndexDepth + 1));
       add_children (EffectiveTileKey n minLevel maxLevel false) children
         (<[ToHereTile t := (t, kMaxQuadTreeIndexDepth)]> ret)) = Some ret' /\
    request_ok minLevel maxLevel ret' /\
    forall d, covered ret' d <-> P d \/ (Valid d /\ minLevel <= level_ d <= maxLevel /\ below t d).
Proof.
  intros Ht Hl Hmax Hn Hok Hlow HP Hrec. pose proof Ht as (Hlt & _).
  rewrite !wrap_small by (unfold in_range, kMaxQuadTreeIndexDepth; lia).
  assert (ret !! ToHereTile t = None) as Hnone.
  { destruct (ret !! ToHereTile t) as [e|] eqn:E; [|done]. exfalso.
    pose proof (Hlow _ _ E). destruct (Hok _ _ E) as (Hv & Ek & _).
    apply ToHereTile_inj in Ek; [apply (f_equal level_) in Ek; lia|done|done]. }
  assert (forall depth, 0 <= depth <= kMaxQuadTreeIndexDepth -> level_ t + depth <= maxLevel ->
    request_ok minLevel maxLevel (<[ToHereTile t := (t, depth)]> ret)) as Hins.
  { intros depth ??. apply map_Forall_insert_2; [|done]. unfold entry_ok. cbn. split_and!; (done || lia). }
  unfold kMaxQuadTreeIndexDepth in *.
  destruct (Z.leb_spec (maxLevel - level_ t) 4) as [Hs|Hs].
  - eexists. split_and!; [done|apply Hins; lia|]. intros d. rewrite covered_insert, HP by done.
    unfold covers; cbn. replace (level_ t + (maxLevel - level_ t)) with maxLevel by lia. split.
    + intros [(? & [? ?] & ?)|?]; [|auto]. right. split_and!; (done || lia).
    + intros [?|(? & ? & ?)]; [auto|]. left. split_and!; (done || lia).
  - destruct (GetChildAtLevel_spec n t (level_ t + 4 + 1)) as (children & -> & Hch); [done|lia|lia|].
    cbn [mbind option_bind].
    destruct (add_children_spec (EffectiveTileKey n minLevel maxLevel false) (related false) children
      (<[ToHereTile t := (t, 4)]> ret)) as (ret' & E & Hok' & Hcov).
    { intros c (Hv & Hlc & _)%Hch. apply Hrec; [done|lia]. }
    { apply Hins; lia. }
    exists ret'. split_and!; [done|done|]. intros d. rewrite Hcov, covered_insert, HP by done.
    unfold covers, related; cbn. split.
    + intros [[(? & [? ?] & ?)|?]|(c & (Hv & Hlc & Hbc)%Hch & ? & ? & [?|[? _]])]; [|auto| |done].
      * right. split_and!; (done || lia).
      * right. split_and!; [done|lia|lia|]. by apply (below_trans t c d).
    + intros [?|(Hd & ? & Hb)]; [auto|].
      destruct (Z.le_gt_cases (level_ d) (level_ t + 4)); [left; left; split_and!; (done || lia)|right].
      destruct (below_ancestor d (level_ t + 5)) as [Hba Hla]; [lia|].
      set (c := ancestor d (level_ d - (level_ t + 5))) in *.
      exists c. split; [|split_and!; [done|lia|lia|by left]]. apply Hch. split_and!.
      * apply ancestor_Valid; [done|destruct Hd; lia].
      * lia.
      * apply (below_between t c d); [done|done|lia].
Qed.

(** The ancestors of a tile, between the levels. *)
Lemma parents_spec n t :
  1 <= minLevel -> Valid t -> 0 < level_ t -> 32 <= Z.of_nat n ->
  exists ret', add_parents n minLevel maxLevel (Parent t) ∅ = Some ret' /\
    request_ok minLevel maxLevel ret' /\
    (forall k e, ret' !! k = Some e -> level_ e.1 < level_ t) /\
    (forall d, covered ret' d <-> Valid d /\ minLevel <= level_ d <= maxLevel /\ below d (Parent t)).
Proof.
  intros Hmin Ht Hl Hn.
  assert (level_ (Parent t) = level_ t - 1) as El by (rewrite Parent_ancestor by done; done).
  destruct (add_parents_spec n (Parent t) ∅) as (ret' & E & Hok & Hcov & Hfrom).
  - done.
  - by apply Parent_Valid.
  - destruct Ht. lia.
  - apply map_Forall_empty.
  - intros k e. by rewrite lookup_empty.
  - exists ret'. split_and!; [done|done| |].
    + intros k e He. destruct (Hfrom k e He) as [Hn'|[? _]]; [by rewrite lookup_empty in Hn'|lia].
    + intros d. rewrite Hcov. split; [|auto]. intros [?%covered_empty|?]; done.
Qed.

(** Without ancestors: the tiles below one that is not under the levels, or is on
    the lower one. *)
Lemma descend_spec fuel t :
  1 <= minLevel < 32 -> 0 <= maxLevel < 32 -> Valid t -> level_ t <= maxLevel \/ level_ t <= minLevel ->
  64 - level_ t <= Z.of_nat fuel ->
  exists ret, EffectiveTileKey fuel minLevel maxLevel false t = Some ret /\
    request_ok minLevel maxLevel ret /\ forall d, covered ret d <-> related false t d.
Proof.
  intros Hmin Hmax. revert t. induction fuel as [|n IH]; intros t Ht Hl Hf; [destruct Ht; lia|].
  pose proof Ht as (Hlt & _). cbn [EffectiveTileKey].
  destruct (Z.gtb_spec (level_ t) maxLevel) as [Hgt|Hle].
  - destruct (parents_spec n t) as (ret & E & Hok & _ & Hcov); [lia|done|lia|lia|].
    exists ret. split_and!; [done|done|]. intros d. rewrite Hcov. unfold related.
    split; [|intros (_ & ? & [[??]|[? _]]); [lia|done]].
    intros (_ & ? & [Hb _]). rewrite Parent_ancestor in Hb by (done || lia). cbn in Hb. lia.
  - destruct (Z.ltb_spec (level_ t) minLevel) as [Hlow|Hin].
    + destruct (GetChildAtLevel_spec n t minLevel) as (children & -> & Hch); [done|lia|lia|].
      cbn [mbind option_bind].
      destruct (add_children_spec (EffectiveTileKey n minLevel maxLevel false) (related false) children ∅)
        as (ret & E & Hok & Hcov); [|apply map_Forall_empty|].
      { intros c (Hv & Hlc & _)%Hch. apply IH; [done|lia|lia]. }
      exists ret. split_and!; [done|done|]. intros d. rewrite Hcov. unfold related. split.
      * intros [?%covered_empty|(c & (Hv & Hlc & Hbc)%Hch & ? & ? & [?|[? _]])]; [done| |done].
        split_and!; [done|lia|lia|]. left. by apply (below_trans t c d).
      * intros (Hd & ? & [Hb|[? _]]); [right|done].
        destruct (below_ancestor d minLevel) as [Hba Hla]; [lia|].
        exists (ancestor d (level_ d - minLevel)). split; [|split_and!; [done|lia|lia|by left]].
        apply Hch. split_and!; [apply ancestor_Valid; [done|destruct Hd; lia]|done|].
        apply (below_between t _ d); [done|done|lia].
    + cbn [mbind option_bind].
      destruct (in_range_spec n t (fun _ => False) ∅) as (ret & E & Hok & Hcov);
        [done|lia|lia|lia|apply map_Forall_empty| | | |].
      * intros k e. by rewrite lookup_empty.
      * intros d. split; [|done]. apply covered_empty.
      * intros c Hv Hlc. apply IH; [done|lia|lia].
      * exists ret. split_and!; [done|done|]. intros d. rewrite Hcov. unfold related.
        split; [intros [?|(? & ? & ?)]; [done|auto]|]. intros (? & ? & [?|[? _]]); [auto|done].
Qed.

(** A requested tile. *)
Lemma EffectiveTileKey_spec fuel t :
  1 <= minLevel < 32 -> 0 <= maxLevel < 32 -> Valid t -> 65 <= Z.of_nat fuel ->
  exists ret, EffectiveTileKey fuel minLevel maxLevel true t = Some ret /\
    request_ok minLevel maxLevel ret /\ forall d, covered ret d <-> related true t d.
Proof.
  intros Hmin Hmax Ht Hf. destruct fuel as [|n]; [lia|]. pose proof Ht as (Hlt & _).
  destruct (Z.lt_ge_cases (level_ t) minLevel) as [Hlow|Hin].
  { destruct (descend_spec (S n) t) as (ret & E & Hok & Hcov); [done|done|done|lia|lia|].
    exists ret. split_and!; [|done|].
    - rewrite <- E. cbn [EffectiveTileKey]. destruct (level_ t >? maxLevel); [done|].
      by replace (level_ t <? minLevel) with true by lia.
    - intros d. rewrite Hcov. unfold related. split; [intros (? & ? & [?|[? _]]); [auto|done]|].
      intros (? & ? & [?|[_ [? _]]]); [auto|lia]. }
  destruct (parents_spec n t) as (ps & Eps & Hokp & Hlowp & Hcovp); [lia|done|lia|lia|].
  cbn [EffectiveTileKey]. rewrite Eps. destruct (Z.gtb_spec (level_ t) maxLevel) as [Hgt|Hle].
  - exists ps. split_and!; [done|done|]. intros d. rewrite Hcovp. unfold related.
    split.
    + intros (? & ? & ?). split_and!; [done|lia|lia|]. right. split; [done|].
      apply above_split; [done|lia|auto].
    + intros (? & ? & [[??]|[_ Hb]]); [lia|]. apply above_split in Hb as [->|?]; [lia|auto|done|lia].
  - replace (level_ t <? minLevel) with false by lia. cbn [mbind option_bind].
    destruct (in_range_spec n t (fun d => Valid d /\ minLevel <= level_ d <= maxLevel /\ below d (Parent t)) ps)
      as (ret & E & Hok & Hcov); [done|lia|lia|lia|done|done|done| |].
    { intros c Hv Hlc. apply descend_spec; [done|done|done|lia|lia]. }
    exists ret. split_and!; [done|done|]. intros d. rewrite Hcov. unfold related.
    split.
    + intros [(? & ? & ?)|?]; [|tauto]. split_and!; [done|lia|lia|]. right. split; [done|].
      apply above_split; [done|lia|auto].
    + intros (? & ? & [?|[_ Hb]]); [tauto|]. apply above_split in Hb as [->|?]; [|tauto|done|lia].
      right. split_and!; [done|lia|lia|apply below_refl].
Qed.
End levels.

(** ** The lower level 0 *)

(** The parent of the root tile is the invalid tile of level 32, whose parents lead
    to the root again: with the lower level 0 the loop never ends. *)
Lemma add_parents_diverges fuel maxLevel tile ret :
  0 <= level_ tile <= 32 -> add_parents fuel 0 maxLevel tile ret = None.
Proof.
  revert tile ret. induction fuel as [|n IH]; intros tile ret Hl; cbn [add_parents];
    replace (level_ tile >=? 0) with true by lia; [done|].
  apply IH. unfold Parent. destruct (Z.gtb_spec (level_ tile) 0); [|by cbn].
  cbn. rewrite wrap_small by (unfold in_range; lia). lia.
Qed.

Lemma EffectiveTileKey_diverges fuel maxLevel t :
  Valid t -> EffectiveTileKey fuel 0 maxLevel true t = None.
Proof.
  intros (Hl & _). destruct fuel as [|n]; [done|]. cbn [EffectiveTileKey].
  assert (forall ret, add_parents n 0 maxLevel (Parent t) ret = None) as Hd.
  { intros ret. apply add_parents_diverges. unfold Parent.
    destruct (Z.gtb_spec (level_ t) 0); [|by cbn]. cbn. rewrite wrap_small by (unfold in_range; lia). lia. }
  rewrite Hd. replace (level_ t <? 0) with false by lia. by destruct (level_ t >? maxLevel).
Qed.

(** ** The property *)

(** C23. With a lower level of at least 1, the quad trees selected for a list of
    tiles exist, their roots are valid tiles with a depth of at most 4 that stay
    between the levels, and together they have exactly the tiles between the levels
    that are a requested tile, an ancestor or a descendant of one.  With the lower
    level 0, the default of a request, the selection does not end for any list that
    is not empty. *)
Theorem prefetch_covers_related_tiles minLevel maxLevel tilekeys :
  0 <= minLevel < 32 -> 0 <= maxLevel < 32 -> Forall Valid tilekeys ->
  (1 <= minLevel -> forall fuel, (65 <= fuel)%nat -> exists request,
     EffectiveTileKeys fuel tilekeys minLevel maxLevel = Some request /\
     (forall k t depth, request !! k = Some (t, depth) ->
        Valid t /\ k = ToHereTile t /\ 0 <= depth <= 4 /\ minLevel <= level_ t /\ level_ t + depth <= maxLevel) /\
     (forall d, covered request d <->
        exists t, t ∈ tilekeys /\ Valid d /\ minLevel <= level_ d <= maxLevel /\ (below t d \/ below d t))) /\
  (minLevel = 0 -> tilekeys <> [] -> forall fuel, EffectiveTileKeys fuel tilekeys minLevel maxLevel = None).
Proof.
  intros Hmin Hmax Hv. rewrite Forall_forall in Hv. split.
  - intros Hge fuel Hf. destruct (add_children_spec minLevel maxLevel
      (EffectiveTileKey fuel minLevel maxLevel true) (related minLevel maxLevel true) tilekeys ∅)
      as (request & E & Hok & Hcov); [|apply map_Forall_empty|].
    { intros t Ht. apply EffectiveTileKey_spec; [lia|lia|by apply Hv|lia]. }
    exists request. split_and!; [done| |].
    + intros k t depth Hk. exact (Hok k (t, depth) Hk).
    + intros d. rewrite Hcov. unfold related. split.
      * intros [?%covered_empty|(t & ? & ? & ? & [?|[_ ?]])]; [done|eauto 6|eauto 6].
      * intros (t & ? & ? & ? & ?). right. exists t. split_and!; [done|done|lia|lia|tauto].
  - intros -> Hne fuel. destruct tilekeys as [|t rest]; [done|]. unfold EffectiveTileKeys. cbn [add_children].
    rewrite EffectiveTileKey_diverges; [done|]. apply Hv. left.
Qed.

Lemma prefetch_covers_related_tiles_witness :
  exists request,
    EffectiveTileKeys 65 [FromRowColumnLevel 5 6 3] 2 4 = Some request /\
    (forall k t depth, request !! k = Some (t, depth) ->
       Valid t /\ k = ToHereTile t /\ 0 <= depth <= 4 /\ 2 <= level_ t /\ level_ t + depth <= 4) /\
    (forall d, covered request d <->
       exists t, t ∈ [FromRowColumnLevel 5 6 3] /\ Valid d /\ 2 <= level_ d <= 4 /\ (below t d \/ below d t)).
Proof.
  apply (prefetch_covers_related_tiles 2 4 [FromRowColumnLevel 5 6 3]); [lia|lia| |lia|lia].
  repeat constructor; vm_compute; congruence.
Defined.
