(* ===== verification/ReadModel.v ===== *)
(** * The read client: requests, answers and the cache interface

    The request classes of [olp/dataservice/read/*Request.h] with the keys they
    create, the parts of the generated model classes the repositories look at, the
    cache ([cache::KeyValueCache]) as an interface, and a state and exception monad
    in which the repositories are written. *)

From Stdlib Require Import ZArith Lia Bool Ascii.
From stdpp Require Import base numbers strings gmap list.
From S2P Require Import Prelude Decimal Http TileKey.
Local Open Scope Z_scope.

(** ** A state and exception monad *)

(** [None] is an exception that leaves the function. *)
Definition ST (W A : Type) : Type := W -> option (A * W).
Definition st_ret {W A} (a : A) : ST W A := fun w => Some (a, w).
Definition st_bind {W A B} (m : ST W A) (f : A -> ST W B) : ST W B :=
  fun w => match m w with Some (a, w') => f a w' | None => None end.

Declare Scope st_scope.
Delimit Scope st_scope with st.
Notation "'let*' x := m 'in' k" := (st_bind m (fun x => k))
  (at level 10, x name, m at level 100, k at level 200) : st_scope.
Notation "m ;; k" := (st_bind m (fun _ => k)) (at level 100, right associativity) : st_scope.

(** ** Answers *)

(** [ApiResponse<Result, ApiError>]: the member that [IsSuccessful] selects. *)
Inductive Response (R : Type) := Success (r : R) | Failure (e : ApiError).
Arguments Success {R} r.
Arguments Failure {R} e.

(** [model::Layer] and [model::Catalog]; the members the client does not look at are
    one opaque text. *)
Record Layer := MkLayer { layer_id : text; layer_type_ : text; ttl_ : option Z; layer_rest : text }.
Record Catalog := MkCatalog { layers_ : list Layer; catalog_rest : text }.

Record Partition := MkPartition {
  checksum_ : option text; compressed_data_size_ : option Z; data_handle_ : text;
  data_size_ : option Z; partition_ : text; version_ : option Z }.

Record LayerVersion := MkLayerVersion { layer_ : text; layer_version_ : Z; timestamp_ : Z }.
Record LayerVersions := MkLayerVersions { layer_versions_ : list LayerVersion; layers_version : Z }.

Record SubQuad := MkSubQuad {
  sq_checksum : option text; sq_compressed_data_size : option Z; sq_data_handle : text;
  sq_data_size : option Z; sub_quad_key_ : text; sq_version : Z }.

(** [model::Data] is a pointer to bytes, or null. *)
Definition Data : Type := option text.

(** ** Requests *)

Inductive FetchOptions := OnlineIfNotFound | OnlineOnly | CacheOnly | CacheWithUpdate.
#[global] Instance FetchOptions_eq_dec : EqDecision FetchOptions.
Proof. solve_decision. Defined.

(** The number an enumerator is printed as. *)
Definition fetch_value (o : FetchOptions) : Z :=
  match o with OnlineIfNotFound => 0 | OnlineOnly => 1 | CacheOnly => 2 | CacheWithUpdate => 3 end.

Record CatalogRequest := MkCatalogRequest { cr_billing_tag : option text; cr_fetch_option : FetchOptions }.
Record CatalogVersionRequest := MkCatalogVersionRequest {
  start_version_ : Z; vr_billing_tag : option text; vr_fetch_option : FetchOptions }.
Record PartitionsRequest := MkPartitionsRequest {
  pr_layer_id : text; pr_version : option Z; pr_billing_tag : option text; pr_fetch_option : FetchOptions }.
Record DataRequest := MkDataRequest {
  dr_layer_id : text; dr_partition_id : option text; dr_version : option Z; dr_data_handle : option text;
  dr_billing_tag : option text; dr_fetch_option : FetchOptions }.
Record PrefetchTilesRequest := MkPrefetchTilesRequest {
  tr_layer_id : text; tile_keys_ : list TileKey; min_level_ : Z; max_level_ : Z; tr_billing_tag : option text }.

Definition CatalogRequest_WithFetchOption (o : FetchOptions) (r : CatalogRequest) : CatalogRequest :=
  MkCatalogRequest (cr_billing_tag r) o.
Definition CatalogVersionRequest_WithFetchOption (o : FetchOptions) (r : CatalogVersionRequest) :=
  MkCatalogVersionRequest (start_version_ r) (vr_billing_tag r) o.
Definition PartitionsRequest_WithFetchOption (o : FetchOptions) (r : PartitionsRequest) : PartitionsRequest :=
  MkPartitionsRequest (pr_layer_id r) (pr_version r) (pr_billing_tag r) o.
Definition PartitionsRequest_WithVersion (v : option Z) (r : PartitionsRequest) : PartitionsRequest :=
  MkPartitionsRequest (pr_layer_id r) v (pr_billing_tag r) (pr_fetch_option r).
Definition DataRequest_WithFetchOption (o : FetchOptions) (r : DataRequest) : DataRequest :=
  MkDataRequest (dr_layer_id r) (dr_partition_id r) (dr_version r) (dr_data_handle r) (dr_billing_tag r) o.
Definition DataRequest_WithDataHandle (h : option text) (r : DataRequest) : DataRequest :=
  MkDataRequest (dr_layer_id r) (dr_partition_id r) (dr_version r) h (dr_billing_tag r) (dr_fetch_option r).

(** The keys under which equal requests are shared. *)
Definition version_part (v : option Z) : text :=
  match v with Some v => str "@" ++ print_s64 v | None => [] end.
Definition billing_part (b : option text) : text :=
  match b with Some b => str "$" ++ b | None => [] end.
Definition fetch_part (o : FetchOptions) : text := str "^" ++ print_s64 (fetch_value o).

Definition CatalogRequest_CreateKey (r : CatalogRequest) : text :=
  billing_part (cr_billing_tag r) ++ fetch_part (cr_fetch_option r).
Definition CatalogVersionRequest_CreateKey (r : CatalogVersionRequest) : text :=
  str "@" ++ print_s64 (start_version_ r) ++ billing_part (vr_billing_tag r) ++ fetch_part (vr_fetch_option r).
Definition PartitionsRequest_CreateKey (r : PartitionsRequest) : text :=
  pr_layer_id r ++ version_part (pr_version r) ++ billing_part (pr_billing_tag r) ++ fetch_part (pr_fetch_option r).
Definition DataRequest_CreateKey (r : DataRequest) : text :=
  dr_layer_id r ++ str "[" ++
  match dr_partition_id r with
  | Some p => p
  | None => match dr_data_handle r with Some h => h | None => [] end
  end ++ str "]" ++
  version_part (dr_version r) ++ billing_part (dr_billing_tag r) ++ fetch_part (dr_fetch_option r).
Definition PrefetchTilesRequest_CreateKey (r : PrefetchTilesRequest) : text :=
  tr_layer_id r ++ str "[" ++ print_s64 (min_level_ r) ++ str "/" ++ print_s64 (max_level_ r) ++ str "]" ++
  str "(" ++ print_s64 (Z.of_nat (length (tile_keys_ r))) ++ str ")" ++ billing_part (tr_billing_tag r).

(** The key of [PartitionsRepository::GetPartitionsById]. *)
Fixpoint join_ids (ids : list text) : text :=
  match ids with
  | [] => []
  | [id] => id
  | id :: rest => id ++ str "," ++ join_ids rest
  end.
Definition GetKey (r : PartitionsRequest) (partitions : list text) : text :=
  pr_layer_id r ++ str "[" ++ join_ids partitions ++ str "]" ++
  version_part (pr_version r) ++ billing_part (pr_billing_tag r) ++ fetch_part (pr_fetch_option r).

(** ** The cache *)

(** The types of the values put into the cache ([boost::any] or bytes). *)
Inductive CacheValue :=
| CachedCatalog (c : Catalog) | CachedVersion (v : Z) | CachedPartition (p : Partition)
| CachedIds (ids : list text) | CachedLayerVersions (l : LayerVersions) | CachedUrl (url : text)
| CachedData (d : Data).

(** [cache::KeyValueCache], as far as the read client uses it. *)
Class KeyValueCache (C : Type) := {
  cache_Put : text -> CacheValue -> Z -> C -> C * bool;
  cache_Get : text -> C -> C * option CacheValue;
  cache_RemoveKeysWithPrefix : text -> C -> C * bool }.

(** A cache that makes nothing up: what it has for a key was in it before or has
    just been put there; removed keys are gone.  It may lose entries at any time. *)
Class SoundCache (C : Type) `{KeyValueCache C} := {
  view : C -> gmap text CacheValue;
  get_view k c : view (cache_Get k c).1 ⊆ view c;
  get_value k c v : (cache_Get k c).2 = Some v -> view c !! k = Some v;
  put_view k v e c k' v' :
    view (cache_Put k v e c).1 !! k' = Some v' -> (k' = k /\ v' = v) \/ view c !! k' = Some v';
  remove_view p c k v :
    view (cache_RemoveKeysWithPrefix p c).1 !! k = Some v -> view c !! k = Some v /\ ~ p `prefix_of` k }.

(** A cache that also loses nothing. *)
Class LosslessCache (C : Type) `{SoundCache C} := {
  get_keeps k c : view (cache_Get k c).1 = view c;
  get_found k c : (cache_Get k c).2 = view c !! k;
  put_keeps k v e c : view (cache_Put k v e c).1 = <[k := v]> (view c);
  remove_keeps p c k :
    view (cache_RemoveKeysWithPrefix p c).1 !! k = if decide (p `prefix_of` k) then None else view c !! k }.

(** The simplest lossless cache. *)
#[global] Instance map_cache : KeyValueCache (gmap text CacheValue) := {
  cache_Put k v _ c := (<[k := v]> c, true);
  cache_Get k c := (c, c !! k);
  cache_RemoveKeysWithPrefix p c := (filter (fun kv => ~ p `prefix_of` kv.1) c, true) }.

#[global] Instance map_cache_sound : SoundCache (gmap text CacheValue).
Proof.
  refine {| view := fun c => c |}.
  - done.
  - done.
  - cbn. intros k v _ c k' v' [[-> ->]|[_ ?]]%lookup_insert_Some; auto.
  - cbn. intros p c k v Hk. apply map_lookup_filter_Some in Hk. by cbn in Hk.
Defined.

#[global] Instance map_cache_lossless : LosslessCache (gmap text CacheValue).
Proof.
  split; try done. cbn. intros p c k. case_decide as Hp.
  - apply map_lookup_filter_None. right. by intros v _ Hn.
  - destruct (c !! k) as [v|] eqn:E; [by apply map_lookup_filter_Some|].
    apply map_lookup_filter_None. by left.
Qed.
