(* ===== verification/ReadCache.v ===== *)
(** * The cache repositories of the read client

    [ApiCacheRepository.cpp], [CatalogCacheRepository.cpp],
    [PartitionsCacheRepository.cpp] and [DataCacheRepository.cpp]: the keys under
    which answers are kept in the shared cache, and the functions that put, get and
    clear them.  The HRN text of the catalog is a parameter; a value of another type
    under a key makes [boost::any_cast] throw. *)

From Stdlib Require Import ZArith Lia Bool Ascii.
From stdpp Require Import base numbers strings gmap list.
From S2P Require Import Prelude Decimal ReadModel.
Local Open Scope Z_scope.
Local Open Scope st_scope.

(** ** Keys *)

Definition sep : text := str "::".

Definition ApiKey (hrn service serviceVersion : text) : text :=
  hrn ++ sep ++ service ++ sep ++ serviceVersion ++ str "::api".
Definition CatalogKey (hrn : text) : text := hrn ++ str "::catalog".
Definition VersionKey (hrn : text) : text := hrn ++ str "::latestVersion".
Definition PartitionKey (hrn layerId partitionId : text) (version : option Z) : text :=
  hrn ++ sep ++ layerId ++ sep ++ partitionId ++ sep ++
  match version with Some v => print_s64 v ++ str "::partition" | None => [] end.
Definition PartitionsKey (hrn layerId : text) (version : option Z) : text :=
  hrn ++ sep ++ layerId ++ sep ++
  match version with Some v => print_s64 v ++ str "::partitions" | None => [] end.
Definition LayerVersionsKey (hrn : text) (catalogVersion : Z) : text :=
  hrn ++ sep ++ print_s64 catalogVersion ++ str "::layerVersions".
Definition DataKey (hrn layer_id datahandle : text) : text :=
  hrn ++ sep ++ layer_id ++ sep ++ datahandle ++ str "::Data".

(** ** Access *)

Section repositories.
  Context {C : Type} `{KeyValueCache C}.
  Variable hrn : text.

Definition put (key : text) (v : CacheValue) (expiry : Z) : ST C unit :=
  fun c => Some (tt, (cache_Put key v expiry c).1).
Definition get (key : text) : ST C (option CacheValue) :=
  fun c => let '(c', v) := cache_Get key c in Some (v, c').
Definition remove_prefix (prefix : text) : ST C unit :=
  fun c => Some (tt, (cache_RemoveKeysWithPrefix prefix c).1).

(** [boost::any_cast] of a cached value. *)
Definition any_cast {A} (cast : CacheValue -> option A) (v : option CacheValue) : ST C (option A) :=
  match v with
  | None => st_ret None
  | Some v => fun c => match cast v with Some a => Some (Some a, c) | None => None end
  end.

Definition as_catalog v := match v with CachedCatalog c => Some c | _ => None end.
Definition as_version v := match v with CachedVersion n => Some n | _ => None end.
Definition as_partition v := match v with CachedPartition p => Some p | _ => None end.
Definition as_ids v := match v with CachedIds ids => Some ids | _ => None end.
Definition as_layer_versions v := match v with CachedLayerVersions l => Some l | _ => None end.
Definition as_url v := match v with CachedUrl u => Some u | _ => None end.
Definition as_data v := match v with CachedData d => Some d | _ => None end.

(** ** [ApiCacheRepository] *)

Definition Api_Put (service serviceVersion serviceUrl : text) : ST C unit :=
  put (ApiKey hrn service serviceVersion) (CachedUrl serviceUrl) 3600.

Definition Api_Get (service serviceVersion : text) : ST C (option text) :=
  let* url := get (ApiKey hrn service serviceVersion) in any_cast as_url url.

(** ** [CatalogCacheRepository] *)

Definition Catalog_Put (catalog : Catalog) : ST C unit :=
  put (CatalogKey hrn) (CachedCatalog catalog) time_max.

Definition Catalog_Get : ST C (option Catalog) :=
  let* cachedCatalog := get (CatalogKey hrn) in any_cast as_catalog cachedCatalog.

Definition Catalog_PutVersion (version : Z) : ST C unit :=
  put (VersionKey hrn) (CachedVersion version) time_max.

Definition Catalog_GetVersion : ST C (option Z) :=
  let* cachedVersion := get (VersionKey hrn) in any_cast as_version cachedVersion.

Definition Catalog_Clear : ST C unit := remove_prefix hrn.

(** ** [PartitionsCacheRepository] *)

(** The loop over the partitions, and the ids it collects. *)
Fixpoint put_partitions (request : PartitionsRequest) (expiry : option Z) (partitions : list Partition)
    : ST C unit :=
  match partitions with
  | [] => st_ret tt
  | p :: rest =>
    put (PartitionKey hrn (pr_layer_id request) (partition_ p) (pr_version request)) (CachedPartition p)
      (default time_max expiry) ;;
    put_partitions request expiry rest
  end.

Definition Partitions_Put (request : PartitionsRequest) (partitions : list Partition) (expiry : option Z)
    (allLayer : bool) : ST C unit :=
  put_partitions request expiry partitions ;;
  if allLayer then
    put (PartitionsKey hrn (pr_layer_id request) (pr_version request)) (CachedIds (partition_ <$> partitions))
      (default time_max expiry)
  else st_ret tt.

(** The partitions of a list of ids that are cached. *)
Fixpoint Partitions_GetIds (request : PartitionsRequest) (partitionIds : list text) : ST C (list Partition) :=
  match partitionIds with
  | [] => st_ret []
  | partitionId :: rest =>
    let* v := get (PartitionKey hrn (pr_layer_id request) partitionId (pr_version request)) in
    let* cachedPartition := any_cast as_partition v in
    let* cachedPartitions := Partitions_GetIds request rest in
    st_ret (match cachedPartition with Some p => p :: cachedPartitions | None => cachedPartitions end)
  end.

Definition Partitions_Get (request : PartitionsRequest) : ST C (option (list Partition)) :=
  let* v := get (PartitionsKey hrn (pr_layer_id request) (pr_version request)) in
  let* cachedIds := any_cast as_ids v in
  match cachedIds with
  | None => st_ret None
  | Some ids => let* partitions := Partitions_GetIds request ids in st_ret (Some partitions)
  end.

Definition Partitions_PutVersions (catalogVersion : Z) (layerVersions : LayerVersions) : ST C unit :=
  put (LayerVersionsKey hrn catalogVersion) (CachedLayerVersions layerVersions) time_max.

Definition Partitions_GetVersions (catalogVersion : Z) : ST C (option LayerVersions) :=
  let* v := get (LayerVersionsKey hrn catalogVersion) in any_cast as_layer_versions v.

Definition Partitions_Clear (layer_id : text) : ST C unit := remove_prefix (PartitionsKey hrn layer_id None).

Fixpoint clear_each (request : PartitionsRequest) (partitions : list Partition) : ST C unit :=
  match partitions with
  | [] => st_ret tt
  | p :: rest =>
    remove_prefix (hrn ++ sep ++ pr_layer_id request ++ sep ++ data_handle_ p) ;;
    remove_prefix (hrn ++ sep ++ pr_layer_id request ++ sep ++ partition_ p) ;;
    clear_each request rest
  end.

Definition ClearPartitions (request : PartitionsRequest) (partitionIds : list text) : ST C unit :=
  let* cachedPartitions := Partitions_GetIds request partitionIds in
  clear_each request cachedPartitions.

(** ** [DataCacheRepository] *)

Definition Data_Put (data : Data) (layer_id data_handle : text) : ST C unit :=
  put (DataKey hrn layer_id data_handle) (CachedData data) time_max.

(** A null pointer counts as nothing found. *)
Definition Data_Get (layer_id data_handle : text) : ST C (option text) :=
  let* v := get (DataKey hrn layer_id data_handle) in
  let* cachedData := any_cast as_data v in
  st_ret (match cachedData with Some (Some bytes) => Some bytes | _ => None end).

Definition Data_Clear (layer_id data_handle : text) : ST C unit :=
  remove_prefix (DataKey hrn layer_id data_handle).

End repositories.
