(* ===== verification/ReadRepositories.v ===== *)
(** * The repositories of the read client

    [ApiClientLookup.cpp], [ApiRepository.cpp], [CatalogRepository.cpp],
    [PartitionsRepository.cpp] and [DataRepository.cpp].  The code is written with
    callbacks; here each step returns what its callback is called with.  The
    generated API calls are the functions of a backend, which may answer every call
    differently; a context is cancelled or not at every [ExecuteOrCancelled], as the
    parameter [is_cancelled] says.  A response of [GetPartitions] or [GetData]
    comes from the callback the shared request was given, or directly from the
    caller's own callback, which their [cancel_callback] captures. *)

From Stdlib Require Import ZArith Lia Bool Ascii.
From stdpp Require Import base numbers strings gmap list.
From S2P Require Import Prelude Decimal Http Hrn ReadModel ReadCache.
Local Open Scope Z_scope.
Local Open Scope st_scope.

(** ** The network *)

(** The calls of the generated classes, with the base URL of their client. *)
Inductive ApiCall :=
| PlatformApi_GetApis (base_url service serviceVersion : text)
| ResourcesApi_GetApis (base_url hrn service serviceVersion : text)
| ConfigApi_GetCatalog (base_url hrn : text) (billing_tag : option text)
| MetadataApi_GetLatestCatalogVersion (base_url : text) (startVersion : Z) (billing_tag : option text)
| MetadataApi_GetLayerVersions (base_url : text) (version : Z) (billing_tag : option text)
| MetadataApi_GetPartitions (base_url layer : text) (version : option Z) (billing_tag : option text)
| QueryApi_GetPartitionsbyId (base_url layer : text) (partitions : list text) (version : option Z)
    (billing_tag : option text)
| QueryApi_QuadTreeIndex (base_url layer : text) (version : Z) (quadKey : text) (depth : Z)
    (billing_tag : option text)
| BlobApi_GetBlob (base_url layer dataHandle : text) (billing_tag : option text)
| VolatileBlobApi_GetVolatileBlob (base_url layer dataHandle : text) (billing_tag : option text).

(** What the network answers to a call, after the calls made before it. *)
Record Backend := MkBackend {
  answer_apis : list ApiCall -> ApiCall -> Response (list text); (* base URLs *)
  answer_catalog : list ApiCall -> ApiCall -> Response Catalog;
  answer_version : list ApiCall -> ApiCall -> Response Z;
  answer_layer_versions : list ApiCall -> ApiCall -> Response LayerVersions;
  answer_partitions : list ApiCall -> ApiCall -> Response (list Partition);
  answer_index : list ApiCall -> ApiCall -> Response (list SubQuad);
  answer_data : list ApiCall -> ApiCall -> Response Data }.

(** The cache, the calls made and the number of [ExecuteOrCancelled] done. *)
Record World (C : Type) := MkWorld { cache_ : C; calls : list ApiCall; checks : nat }.
Arguments MkWorld {C} _ _ _.
Arguments cache_ {C} _.
Arguments calls {C} _.
Arguments checks {C} _.

(** Who calls the caller's callback. *)
Inductive Reply (R : Type) := ByRequest (r : Response R) | ByCaller (r : Response R).
Arguments ByRequest {R} r.
Arguments ByCaller {R} r.
Definition reply_response {R} (r : Reply R) : Response R :=
  match r with ByRequest r | ByCaller r => r end.

(** [kDatastoreServerUrl] and [GetDatastoreServerUrl] of [ApiClientLookup.cpp] *)
Definition kDatastoreServerUrl : list (text * text) :=
  [(str "here", str "data.api.platform.here.com");
   (str "here-dev", str "data.api.platform.in.here.com");
   (str "here-cn", str "data.api.platform.hereolp.cn");
   (str "here-cn-dev", str "data.api.platform.in.hereolp.cn")].

Definition GetDatastoreServerUrl (partition : text) : text :=
  match list_find (fun entry => entry.1 = partition) kDatastoreServerUrl with
  | Some (_, (_, server_url)) => str "https://api-lookup." ++ server_url ++ str "/lookup/v1"
  | None => []
  end.

Definition error {R} (code : ErrorCode) (message : String.string) : Response R :=
  Failure (ApiError_of_code code (str message) false).
Definition cancelled_response {R} : Response R :=
  Failure (ApiError_of_code Cancelled (str "Operation cancelled.") true).
Definition is_403 (e : ApiError) : bool := http_status_code_ e =? 403.

Section repositories.
  Context {C : Type} `{KeyValueCache C}.
  Variables (hrn_ : HRN) (backend : Backend) (is_cancelled : nat -> bool).

Abbreviation hrn := (ToCatalogHRNString hrn_).

Definition cached {A} (m : ST C A) : ST (World C) A := fun w =>
  match m (cache_ w) with
  | Some (a, c) => Some (a, MkWorld c (calls w) (checks w))
  | None => None
  end.

Definition call {A} (answer : list ApiCall -> ApiCall -> A) (api : ApiCall) : ST (World C) A := fun w =>
  Some (answer (calls w) api, MkWorld (cache_ w) (calls w ++ [api]) (checks w)).

Definition ExecuteOrCancelled {A} (execute_fn cancel_fn : ST (World C) A) : ST (World C) A := fun w =>
  let w' := MkWorld (cache_ w) (calls w) (S (checks w)) in
  if is_cancelled (checks w) then cancel_fn w' else execute_fn w'.

(** ** [ApiClientLookup] and [ApiRepository] *)

(** A client is its base URL. *)
Definition LookupApi (service service_version : text) : ST (World C) (Response (list text)) :=
  let base_url := GetDatastoreServerUrl (partition hrn_) in
  match base_url with
  | [] => st_ret (error NotFound "Invalid or broken HRN")
  | _ =>
    if bool_decide (service = str "config") then
      call (answer_apis backend) (PlatformApi_GetApis base_url service service_version)
    else call (answer_apis backend) (ResourcesApi_GetApis base_url hrn service service_version)
  end.

Definition LookupApiClient (service service_version : text) : ST (World C) (Response text) :=
  let* response := LookupApi service service_version in
  st_ret (match response with
          | Failure e => Failure e
          | Success [] => error ServiceUnavailable "Service/Version not available for given HRN"
          | Success (base_url :: _) => Success base_url
          end).

Definition getApiClient (service serviceVersion : text) : ST (World C) (Response text) :=
  let* url := cached (Api_Get hrn service serviceVersion) in
  match url with
  | Some url => st_ret (Success url)
  | None =>
    let* response := LookupApiClient service serviceVersion in
    match response with
    | Success base_url => cached (Api_Put hrn service serviceVersion base_url) ;; st_ret response
    | Failure _ => st_ret response
    end
  end.

(** ** [CatalogRepository] *)

Definition getCatalog (request : CatalogRequest) : ST (World C) (Response Catalog) :=
  let query_network :=
    let* response := getApiClient (str "config") (str "v1") in
    match response with
    | Failure e => st_ret (Failure e)
    | Success client =>
      ExecuteOrCancelled
        (let* response := call (answer_catalog backend) (ConfigApi_GetCatalog client hrn (cr_billing_tag request)) in
         match response with
         | Success catalog => cached (Catalog_Put hrn catalog) ;; st_ret response
         | Failure e => (if is_403 e then cached (Catalog_Clear hrn) else st_ret tt) ;; st_ret response
         end)
        (st_ret cancelled_response)
    end in
  ExecuteOrCancelled
    (if bool_decide (OnlineOnly <> cr_fetch_option request) then
       let* cachedCatalog := cached (Catalog_Get hrn) in
       match cachedCatalog with
       | Some catalog => st_ret (Success catalog)
       | None =>
         if bool_decide (CacheOnly = cr_fetch_option request)
         then st_ret (error NotFound "Cache only resource not found in cache (catalog).")
         else query_network
       end
     else query_network)
    (st_ret cancelled_response).

Definition getLatestCatalogVersion (request : CatalogVersionRequest) : ST (World C) (Response Z) :=
  ExecuteOrCancelled
    (if bool_decide (CacheOnly = vr_fetch_option request) then
       let* cachedVersion := cached (Catalog_GetVersion hrn) in
       st_ret (match cachedVersion with
               | Some version => Success version
               | None => error NotFound "Cache only resource not found in cache (catalog version)."
               end)
     else
       let* response := getApiClient (str "metadata") (str "v1") in
       match response with
       | Failure e => st_ret (Failure e)
       | Success client =>
         ExecuteOrCancelled
           (let* response := call (answer_version backend)
              (MetadataApi_GetLatestCatalogVersion client (start_version_ request) (vr_billing_tag request)) in
            match response with
            | Success version => cached (Catalog_PutVersion hrn version) ;; st_ret response
            | Failure e => (if is_403 e then cached (Catalog_Clear hrn) else st_ret tt) ;; st_ret response
            end)
           (st_ret cancelled_response)
       end)
    (st_ret cancelled_response).

(** ** [PartitionsRepository] *)

Definition find_layer (layer : text) (catalog : Catalog) : option Layer :=
  snd <$> list_find (fun l => layer_id l = layer) (layers_ catalog).

Definition no_layer {R} : Response R := error InvalidArgument "Layer specified doesn't exist.".

(** C++ division truncates towards zero. *)
Definition layer_expiry (l : Layer) : option Z := (fun ttl => Z.quot ttl 1000) <$> ttl_ l.

Definition find_layer_version (layer : text) (v : LayerVersions) : Response Z :=
  match list_find (fun l => layer_ l = layer) (layer_versions_ v) with
  | Some (_, l) => Success (layer_version_ l)
  | None => no_layer
  end.

Definition GetLayerVersion (client : text) (request : PartitionsRequest) (version : Z)
    : ST (World C) (Response Z) :=
  ExecuteOrCancelled
    (let* cachedLayerVersions := cached (Partitions_GetVersions hrn version) in
     match cachedLayerVersions with
     | Some v => st_ret (find_layer_version (pr_layer_id request) v)
     | None =>
       let* response := call (answer_layer_versions backend)
         (MetadataApi_GetLayerVersions client version (pr_billing_tag request)) in
       match response with
       | Failure e => st_ret (Failure e)
       | Success v =>
         cached (Partitions_PutVersions hrn version v) ;;
         st_ret (find_layer_version (pr_layer_id request) v)
       end
     end)
    (st_ret cancelled_response).

Definition appendPartitionsRequest (request : PartitionsRequest)
    (fetchPartitions : PartitionsRequest -> option Z -> ST (World C) (Reply (list Partition)))
    : ST (World C) (Reply (list Partition)) :=
  ExecuteOrCancelled
    (let* catalogResponse := getCatalog (MkCatalogRequest (pr_billing_tag request) (pr_fetch_option request)) in
     match catalogResponse with
     | Failure e => st_ret (ByRequest (Failure e))
     | Success catalog =>
       match find_layer (pr_layer_id request) catalog with
       | None => st_ret (ByRequest no_layer)
       | Some layer =>
         let expiry := layer_expiry layer in
         if bool_decide (layer_type_ layer <> str "versioned") then
           fetchPartitions (PartitionsRequest_WithVersion None request) expiry
         else
           match pr_version request with
           | Some _ => fetchPartitions request expiry
           | None =>
             ExecuteOrCancelled
               (let* response := getLatestCatalogVersion
                  (MkCatalogVersionRequest (-1) (pr_billing_tag request) (pr_fetch_option request)) in
                match response with
                | Failure e => st_ret (ByRequest (Failure e))
                | Success version =>
                  fetchPartitions (PartitionsRequest_WithVersion (Some version) request) expiry
                end)
               (st_ret (ByCaller cancelled_response))
           end
       end
     end)
    (st_ret (ByCaller cancelled_response)).

(** The answers of the two partition queries, with their cache. *)
Definition cachePartitionsResponse (request : PartitionsRequest) (expiry : option Z)
    (response : Response (list Partition)) : ST (World C) (Reply (list Partition)) :=
  match response with
  | Success partitions =>
    cached (Partitions_Put hrn request partitions expiry true) ;; st_ret (ByRequest response)
  | Failure e =>
    (if is_403 e then cached (Partitions_Clear hrn (pr_layer_id request)) else st_ret tt) ;;
    st_ret (ByRequest response)
  end.

Definition getPartitionsInternal (client : text) (request : PartitionsRequest) (expiry version : option Z)
    : ST (World C) (Reply (list Partition)) :=
  ExecuteOrCancelled
    (let* response := call (answer_partitions backend)
       (MetadataApi_GetPartitions client (pr_layer_id request) version (pr_billing_tag request)) in
     cachePartitionsResponse request expiry response)
    (st_ret (ByCaller cancelled_response)).

(** [fetch] is the option of the caller's request. *)
Definition fetchPartitions (fetch : FetchOptions) (request : PartitionsRequest) (expiry : option Z)
    : ST (World C) (Reply (list Partition)) :=
  let query_network :=
    let* response := getApiClient (str "metadata") (str "v1") in
    match response with
    | Failure e => st_ret (ByRequest (Failure e))
    | Success client =>
      match pr_version request with
      | Some version =>
        let* layerVersionResponse := GetLayerVersion client request version in
        match layerVersionResponse with
        | Failure e =>
          (if is_403 e then cached (Partitions_Clear hrn (pr_layer_id request)) else st_ret tt) ;;
          st_ret (ByRequest (Failure e))
        | Success layerVersion => getPartitionsInternal client request expiry (Some layerVersion)
        end
      | None => getPartitionsInternal client request expiry None
      end
    end in
  ExecuteOrCancelled
    (if bool_decide (OnlineOnly <> fetch) then
       let* cachedPartitions := cached (Partitions_Get hrn request) in
       match cachedPartitions with
       | Some partitions => st_ret (ByRequest (Success partitions))
       | None =>
         if bool_decide (CacheOnly = fetch)
         then st_ret (ByRequest (error NotFound "Cache only resource not found in cache (partitions)."))
         else query_network
       end
     else query_network)
    (st_ret (ByCaller cancelled_response)).

Definition GetPartitions (request : PartitionsRequest) : ST (World C) (Reply (list Partition)) :=
  appendPartitionsRequest request (fetchPartitions (pr_fetch_option request)).

Definition fetchPartitionsById (fetch : FetchOptions) (partitions : list text) (request : PartitionsRequest)
    (expiry : option Z) : ST (World C) (Reply (list Partition)) :=
  let query_network :=
    let* response := getApiClient (str "query") (str "v1") in
    match response with
    | Failure e => st_ret (ByRequest (Failure e))
    | Success client =>
      ExecuteOrCancelled
        (let* response := call (answer_partitions backend)
           (QueryApi_GetPartitionsbyId client (pr_layer_id request) partitions (pr_version request)
              (pr_billing_tag request)) in
         match response with
         | Success result =>
           cached (Partitions_Put hrn request result expiry false) ;; st_ret (ByRequest response)
         | Failure e =>
           (if is_403 e then cached (ClearPartitions hrn request partitions) else st_ret tt) ;;
           st_ret (ByRequest response)
         end)
        (st_ret (ByCaller cancelled_response))
    end in
  ExecuteOrCancelled
    (if bool_decide (OnlineOnly <> fetch) then
       let* cachedPartitions := cached (Partitions_GetIds hrn request partitions) in
       if (length cachedPartitions =? length partitions)%nat
       then st_ret (ByRequest (Success cachedPartitions))
       else if bool_decide (CacheOnly = fetch)
       then st_ret (ByRequest (error NotFound "Cache only resource not found in cache (partition)."))
       else query_network
     else query_network)
    (st_ret (ByCaller cancelled_response)).

Definition GetPartitionsById (request : PartitionsRequest) (partitions : list text)
    : ST (World C) (Reply (list Partition)) :=
  appendPartitionsRequest request (fetchPartitionsById (pr_fetch_option request) partitions).

(** ** [DataRepository] *)

Definition kDataInlinePrefix : text := str "data:".
Definition IsInlineData (dataHandle : text) : bool := bool_decide (kDataInlinePrefix `prefix_of` dataHandle).

Definition cacheDataResponse (request : DataRequest) (response : Response Data) : ST (World C) (Response Data) :=
  match response with
  | Success data =>
    cached (Data_Put hrn data (dr_layer_id request) (default [] (dr_data_handle request))) ;; st_ret response
  | Failure e =>
    (if is_403 e then cached (Data_Clear hrn (dr_layer_id request) (default [] (dr_data_handle request)))
     else st_ret tt) ;;
    st_ret response
  end.

(** The service and the call of a layer type; the handle is dereferenced. *)
Definition data_service (layerType : text) : option (text * (text -> text -> text -> option text -> ApiCall)) :=
  if bool_decide (layerType = str "versioned") then Some (str "blob", BlobApi_GetBlob)
  else if bool_decide (layerType = str "volatile") then Some (str "volatile-blob", VolatileBlobApi_GetVolatileBlob)
  else None.

Definition GetDataInternal (layerType : text) (request : DataRequest) : ST (World C) (Response Data) :=
  match data_service layerType with
  | None => st_ret (error ServiceUnavailable "Stream layers are not supported yet.")
  | Some (service, data_call) =>
    let query_network :=
      let* response := getApiClient service (str "v1") in
      match response with
      | Failure e => st_ret (Failure e)
      | Success client =>
        ExecuteOrCancelled
          (let* response := call (answer_data backend)
             (data_call client (dr_layer_id request) (default [] (dr_data_handle request)) (dr_billing_tag request)) in
           cacheDataResponse request response)
          (st_ret cancelled_response)
      end in
    ExecuteOrCancelled
      (if bool_decide (OnlineOnly <> dr_fetch_option request) then
         let* cachedData := cached (Data_Get hrn (dr_layer_id request) (default [] (dr_data_handle request))) in
         match cachedData with
         | Some bytes => st_ret (Success (Some bytes))
         | None =>
           if bool_decide (CacheOnly = dr_fetch_option request)
           then st_ret (error NotFound "Cache only resource not found in cache (data).")
           else query_network
         end
       else query_network)
      (st_ret cancelled_response)
  end.

(** What is done with the partitions of [GetPartitionsById]. *)
Definition data_of_partitions (layerType : text) (request : DataRequest) (partition : text)
    (response : Response (list Partition)) : ST (World C) (Response Data) :=
  match response with
  | Failure e => st_ret (Failure e)
  | Success [p] =>
    if IsInlineData (data_handle_ p) then st_ret (Success (Some (data_handle_ p)))
    else
      let appendedRequest := DataRequest_WithDataHandle (Some (data_handle_ p)) request in
      let* response := GetDataInternal layerType appendedRequest in
      match response with
      | Failure e =>
        (if is_403 e then
           cached (ClearPartitions hrn
             (MkPartitionsRequest (dr_layer_id appendedRequest) (dr_version appendedRequest)
                (dr_billing_tag appendedRequest) OnlineIfNotFound) [partition])
         else st_ret tt) ;;
        st_ret response
      | Success _ => st_ret response
      end
  | Success _ => st_ret (Success None)
  end.

Definition GetData (request : DataRequest) : ST (World C) (Reply Data) :=
  match dr_data_handle request, dr_partition_id request with
  | None, None =>
    st_ret (ByCaller (error InvalidArgument "A data handle or a partition id must be defined."))
  | handle, partition =>
    ExecuteOrCancelled
      (let* catalogResponse := getCatalog (MkCatalogRequest (dr_billing_tag request) (dr_fetch_option request)) in
       match catalogResponse with
       | Failure e => st_ret (ByRequest (Failure e))
       | Success catalog =>
         match find_layer (dr_layer_id request) catalog with
         | None => st_ret (ByRequest no_layer)
         | Some layer =>
           match handle, partition with
           | None, Some partition =>
             ExecuteOrCancelled
               (let* reply := GetPartitionsById
                  (MkPartitionsRequest (dr_layer_id request) (dr_version request) (dr_billing_tag request)
                     (dr_fetch_option request)) [partition] in
                let* response := data_of_partitions (layer_type_ layer) request partition (reply_response reply) in
                st_ret (ByRequest response))
               (st_ret (ByCaller cancelled_response))
           | _, _ =>
             let* response := GetDataInternal (layer_type_ layer) request in st_ret (ByRequest response)
           end
         end
       end)
      (st_ret (ByCaller cancelled_response))
  end.

End repositories.
