(* ===== verification/ReadFacts.v ===== *)
(** * The repositories of the read client: cache and network

    What a [CacheOnly] request may do, that nothing is answered or cached but what
    the network has answered, that what was fetched can be read again without the
    network, and what clearing the cache takes with it. *)

From Stdlib Require Import ZArith Lia Bool Ascii.
From stdpp Require Import base numbers strings gmap list.
From S2P Require Import Prelude Decimal Http Hrn ReadModel ReadCache ReadRepositories.
Local Open Scope Z_scope.
Local Open Scope st_scope.

(** ** Rules for the monad *)

Section facts.
  Variable throws : Prop.

(** From a state with [P] the function yields a result and a state with [Q], or it
    throws, if [throws] allows that. *)
Definition triple {W A} (P : W -> Prop) (m : ST W A) (Q : A -> W -> Prop) : Prop :=
  forall w, P w -> match m w with Some (a, w') => Q a w' | None => throws end.

Section rules.
  Context {W : Type}.

Lemma triple_ret {A} (P : W -> Prop) (a : A) (Q : A -> W -> Prop) :
  (forall w, P w -> Q a w) -> triple P (st_ret a) Q.
Proof. intros H w Hp. by apply H. Qed.

Lemma triple_bind {A B} (P : W -> Prop) (m : ST W A) (R : A -> W -> Prop) (f : A -> ST W B) Q :
  triple P m R -> (forall a, triple (R a) (f a) Q) -> triple P (st_bind m f) Q.
Proof.
  intros Hm Hf w Hp. unfold st_bind. specialize (Hm w Hp). destruct (m w) as [[a w1]|]; [|done].
  by apply Hf.
Qed.

Lemma triple_weaken {A} (P P' : W -> Prop) (m : ST W A) (Q Q' : A -> W -> Prop) :
  triple P m Q -> (forall w, P' w -> P w) -> (forall a w, Q a w -> Q' a w) -> triple P' m Q'.
Proof.
  intros Hm HP HQ w Hp. specialize (Hm w (HP w Hp)). destruct (m w) as [[a w']|]; [by apply HQ|done].
Qed.

Lemma triple_pre {A} (P P' : W -> Prop) (m : ST W A) (Q : A -> W -> Prop) :
  (forall w, P' w -> P w) -> triple P m Q -> triple P' m Q.
Proof. intros HP Hm w Hp. by apply (Hm w), HP. Qed.

Lemma triple_assoc {A B D} (P : W -> Prop) (m : ST W A) (f : A -> ST W B) (g : B -> ST W D) Q :
  triple P (let* b := (let* a := m in f a) in g b) Q -> triple P (let* a := m in let* b := f a in g b) Q.
Proof.
  intros Hm w Hp. specialize (Hm w Hp). unfold st_bind in *. by destruct (m w) as [[a w1]|].
Qed.

(** A pure fact is kept. *)
Lemma triple_frame {A} (phi : Prop) (P : W -> Prop) (m : ST W A) Q :
  triple P m Q -> triple (fun w => P w /\ phi) m (fun a w => phi /\ Q a w).
Proof.
  intros Hm w [Hp Hphi]. specialize (Hm w Hp). by destruct (m w) as [[a w']|].
Qed.

Lemma triple_if {A} (b : bool) (P : W -> Prop) (m1 m2 : ST W A) Q :
  triple P m1 Q -> triple P m2 Q -> triple P (if b then m1 else m2) Q.
Proof. by destruct b. Qed.

End rules.

(** ** Cache repositories *)

Section cache_rules.
  Context {C : Type} `{SoundCache C}.

(** A cache from which entries were lost or removed. *)
Definition shrunk (c0 : C) (c : C) : Prop := view c ⊆ view c0.

Lemma get_rule c0 k :
  triple (shrunk c0) (get k) (fun v c => shrunk c0 c /\ forall x, v = Some x -> view c0 !! k = Some x).
Proof.
  intros c Hc. unfold get. destruct (cache_Get k c) as [c1 v] eqn:E.
  pose proof (get_view k c) as Hv. pose proof (get_value k c) as Hx. rewrite E in Hv, Hx. cbn in Hv, Hx.
  unfold shrunk in *. split; [by transitivity (view c)|]. intros x ->.
  by apply (lookup_weaken (view c)); [apply Hx|].
Qed.

Lemma remove_rule c0 p : triple (shrunk c0) (remove_prefix p) (fun _ c => shrunk c0 c).
Proof.
  intros c Hc. unfold remove_prefix. unfold shrunk in *.
  apply map_subseteq_spec. intros k v Hk. apply remove_view in Hk as [Hk _]. by eapply lookup_weaken.
Qed.

(** A cast that fails must be allowed to throw. *)
Lemma any_cast_rule {A} (P : C -> Prop) (cast : CacheValue -> option A) v :
  (forall c y, P c -> v = Some y -> cast y = None -> throws) ->
  triple P (any_cast cast v) (fun a c => P c /\ forall x, a = Some x -> exists y, v = Some y /\ cast y = Some x).
Proof.
  intros Ht. unfold any_cast. destruct v as [y|]; [|by apply triple_ret].
  intros c Hc. destruct (cast y) as [x|] eqn:E; [|by eapply Ht]. split; [done|].
  intros x' [= ->]. by exists y.
Qed.

Definition castable {A} (c0 : C) (cast : CacheValue -> option A) (k : text) : Prop :=
  forall y, view c0 !! k = Some y -> cast y = None -> throws.

(** A value of one type read from the cache. *)
Lemma get_cast_rule {A} c0 (cast : CacheValue -> option A) k :
  castable c0 cast k ->
  triple (shrunk c0) (let* v := get k in any_cast cast v)
    (fun a c => shrunk c0 c /\ forall x, a = Some x -> exists y, view c0 !! k = Some y /\ cast y = Some x).
Proof.
  intros Ht. eapply triple_bind; [apply get_rule|]. intros v.
  eapply triple_weaken; [apply (any_cast_rule (fun c => shrunk c0 c /\ forall x, v = Some x -> view c0 !! k = Some x))|done|].
  - intros c y [_ Hv] -> Hy. by apply (Ht y); [apply Hv|].
  - intros a c [[Hc Hv] Ha]. split; [done|]. intros x Hx. destruct (Ha x Hx) as (y & Hy & ?).
    exists y. split; [by apply Hv|done].
Qed.

(** The same for one constructor of the values. *)
Lemma get_as_rule {A} c0 (cast : CacheValue -> option A) (make : A -> CacheValue) k :
  (forall y x, cast y = Some x -> y = make x) -> castable c0 cast k ->
  triple (shrunk c0) (let* v := get k in any_cast cast v)
    (fun a c => shrunk c0 c /\ forall x, a = Some x -> view c0 !! k = Some (make x)).
Proof.
  intros Hmk Ht. eapply triple_weaken; [by apply get_cast_rule|done|].
  intros a c [Hc Ha]. split; [done|]. intros x Hx. destruct (Ha x Hx) as (y & Hy & E). by rewrite <- (Hmk y x E).
Qed.

Lemma as_partition_inv y p : as_partition y = Some p -> y = CachedPartition p.
Proof. by destruct y; intros; simplify_eq/=. Qed.
Lemma as_ids_inv y ids : as_ids y = Some ids -> y = CachedIds ids.
Proof. by destruct y; intros; simplify_eq/=. Qed.
Lemma as_data_inv y d : as_data y = Some d -> y = CachedData d.
Proof. by destruct y; intros; simplify_eq/=. Qed.

Abbreviation key_of hrn request id := (PartitionKey hrn (pr_layer_id request) id (pr_version request)).

(** Each partition is cached under its id. *)
Definition cached_under (m : gmap text CacheValue) hrn request (ids : list text) (ps : list Partition) : Prop :=
  Forall2 (fun id p => m !! key_of hrn request id = Some (CachedPartition p)) ids ps.

(** The cached partitions of some ids: those of the ids that are found, in their order. *)
Lemma GetIds_rule hrn request ids c0 :
  (forall id, castable c0 as_partition (key_of hrn request id)) ->
  triple (shrunk c0) (Partitions_GetIds hrn request ids)
    (fun ps c => shrunk c0 c /\
       exists found, found `sublist_of` ids /\ cached_under (view c0) hrn request found ps).
Proof.
  intros Ht. induction ids as [|id ids IH]; cbn [Partitions_GetIds].
  { apply triple_ret. intros c Hc. split; [done|]. exists []. by split; [|constructor]. }
  apply triple_assoc. eapply triple_bind; [apply (get_as_rule c0 as_partition CachedPartition)|];
    [apply as_partition_inv|apply Ht|].
  intros a. eapply triple_bind; [apply (triple_frame _ _ _ _ IH)|].
  intros ps. apply triple_ret. intros c [Ha [Hc (found & Hs & Hps)]]. split; [done|].
  destruct a as [p|]; [exists (id :: found)|exists found]; (split; [by constructor|]); [|done].
  constructor; [by apply Ha|done].
Qed.

Lemma Partitions_Get_rule hrn request c0 :
  (forall id, castable c0 as_partition (key_of hrn request id)) ->
  castable c0 as_ids (PartitionsKey hrn (pr_layer_id request) (pr_version request)) ->
  triple (shrunk c0) (Partitions_Get hrn request)
    (fun r c => shrunk c0 c /\ forall ps, r = Some ps ->
       exists all found,
         view c0 !! PartitionsKey hrn (pr_layer_id request) (pr_version request) = Some (CachedIds all) /\
         found `sublist_of` all /\ cached_under (view c0) hrn request found ps).
Proof.
  intros Ht Hids. unfold Partitions_Get. apply triple_assoc.
  eapply triple_bind; [apply (get_as_rule c0 as_ids CachedIds); [apply as_ids_inv|done]|].
  intros [ids|]; [|apply triple_ret; by intros c [Hc _]].
  eapply (triple_pre (fun c => shrunk c0 c /\
    view c0 !! PartitionsKey hrn (pr_layer_id request) (pr_version request) = Some (CachedIds ids)));
    [intros c [Hc Ha]; split; [done|by apply Ha]|].
  eapply triple_bind; [apply triple_frame, GetIds_rule; done|]. intros ps. apply triple_ret.
  intros c [Hall [Hc (found & Hs & Hps)]]. split; [done|]. intros ps' [= <-]. by exists ids, found.
Qed.

Lemma ClearPartitions_rule hrn request ids c0 :
  (forall id, castable c0 as_partition (key_of hrn request id)) ->
  triple (shrunk c0) (ClearPartitions hrn request ids) (fun _ c => shrunk c0 c).
Proof.
  intros Ht. unfold ClearPartitions. eapply triple_bind; [by apply GetIds_rule|]. intros ps.
  apply (triple_pre (shrunk c0)); [by intros c [? _]|].
  induction ps as [|p ps IH]; cbn [clear_each]; [by apply triple_ret|].
  eapply triple_bind; [apply remove_rule|]. intros []. eapply triple_bind; [apply remove_rule|].
  intros []. apply IH.
Qed.

Lemma Data_Get_rule hrn layer handle c0 :
  castable c0 as_data (DataKey hrn layer handle) ->
  triple (shrunk c0) (Data_Get hrn layer handle)
    (fun r c => shrunk c0 c /\ forall bytes, r = Some bytes ->
       view c0 !! DataKey hrn layer handle = Some (CachedData (Some bytes))).
Proof.
  intros Ht. unfold Data_Get. apply triple_assoc.
  eapply triple_bind; [apply (get_as_rule c0 as_data CachedData); [apply as_data_inv|done]|].
  intros a. apply triple_ret. intros c [Hc Ha]. split; [done|]. intros bytes Hb.
  destruct a as [[b|]|]; simplify_eq. by apply Ha.
Qed.

End cache_rules.

(** ** The kinds of keys *)

Definition colon_char : ascii := ":".

(** What follows the last colon of a key. *)
Fixpoint last_part (s : text) : text :=
  match s with
  | [] => []
  | _ :: r => if decide (colon_char ∈ s) then last_part r else s
  end.

Lemma last_part_sep x s : colon_char ∉ s -> last_part (x ++ sep ++ s) = s.
Proof.
  intros Hs. change sep with [colon_char; colon_char]. induction x as [|c x IH]; cbn [app last_part].
  - rewrite !decide_True by (by left).
    destruct s as [|c s]; [done|]. cbn [last_part]. by rewrite decide_False.
  - rewrite decide_True; [done|]. right. apply elem_of_app. right. by left.
Qed.

(** A key that ends in a separator and a word. *)
Ltac ends_in word :=
  repeat match goal with |- context [str (String.String "058" (String.String "058" ?s))] =>
    change (str (String.String "058" (String.String "058" s))) with (sep ++ str s) end;
  rewrite ?app_assoc, <- ?(app_assoc _ sep);
  apply last_part_sep; apply (bool_decide_unpack (colon_char ∉ str word)); exact I.

Lemma last_part_Api hrn s v : last_part (ApiKey hrn s v) = str "api".
Proof. unfold ApiKey. ends_in "api"%string. Qed.
Lemma last_part_Catalog hrn : last_part (CatalogKey hrn) = str "catalog".
Proof. unfold CatalogKey. ends_in "catalog"%string. Qed.
Lemma last_part_Version hrn : last_part (VersionKey hrn) = str "latestVersion".
Proof. unfold VersionKey. ends_in "latestVersion"%string. Qed.
Lemma last_part_LayerVersions hrn v : last_part (LayerVersionsKey hrn v) = str "layerVersions".
Proof. unfold LayerVersionsKey. ends_in "layerVersions"%string. Qed.
Lemma last_part_Data hrn l h : last_part (DataKey hrn l h) = str "Data".
Proof. unfold DataKey. ends_in "Data"%string. Qed.
Lemma last_part_Partition hrn l id v :
  last_part (PartitionKey hrn l id v) = match v with Some _ => str "partition" | None => [] end.
Proof.
  unfold PartitionKey. destruct v as [v|]; [ends_in "partition"%string|].
  rewrite !app_assoc. rewrite <- (app_assoc _ sep []). apply last_part_sep. apply not_elem_of_nil.
Qed.
Lemma last_part_Partitions hrn l v :
  last_part (PartitionsKey hrn l v) = match v with Some _ => str "partitions" | None => [] end.
Proof.
  unfold PartitionsKey. destruct v as [v|]; [ends_in "partitions"%string|].
  rewrite !app_assoc. rewrite <- (app_assoc _ sep []). apply last_part_sep. apply not_elem_of_nil.
Qed.

(** Without a version the keys of a partition and of the list of all partitions end
    alike; they differ if the layer has no colon. *)
Lemma unversioned_keys_differ hrn l id l' :
  colon_char ∉ l' -> PartitionKey hrn l id None <> PartitionsKey hrn l' None.
Proof.
  intros Hl E. unfold PartitionKey, PartitionsKey in E. rewrite !app_nil_r in E.
  apply app_inv_head, app_inv_head in E. rewrite !app_assoc in E. apply app_inv_tail in E.
  apply Hl. rewrite <- E. apply elem_of_app. left. apply elem_of_app. right. by left.
Qed.

Section genuine.
  Context {C : Type} `{SoundCache C}.
  Variables (hrn_ : HRN) (backend : Backend) (is_cancelled : nat -> bool).
  Variables (initial : gmap text CacheValue) (layer_ok : text -> Prop).

  Abbreviation hrn := (ToCatalogHRNString hrn_).

(** The lookup of a service. *)
Definition is_lookup (service version : text) (api : ApiCall) : Prop :=
  match api with
  | PlatformApi_GetApis _ s v => s = service /\ v = version
  | ResourcesApi_GetApis _ h s v => h = hrn /\ s = service /\ v = version
  | _ => False
  end.

(** The calls that ask for partitions of a layer at a version, for those of some ids or for all
    of them, and for data. *)
Definition asks_partitions (ids : option (list text)) (layer : text) (version : option Z) (api : ApiCall) : Prop :=
  match api, ids with
  | MetadataApi_GetPartitions _ l v _, None => l = layer /\ v = version
  | QueryApi_GetPartitionsbyId _ l ids' v _, Some ids => l = layer /\ ids' = ids /\ v = version
  | _, _ => False
  end.
Definition asks_data (layer handle : text) (api : ApiCall) : Prop :=
  match api with
  | BlobApi_GetBlob _ l h _ | VolatileBlobApi_GetVolatileBlob _ l h _ => l = layer /\ h = handle
  | _ => False
  end.

(** The call [api] was made after [pre]. *)
Definition made (pre : list ApiCall) (api : ApiCall) (l : list ApiCall) : Prop := (pre ++ [api]) `prefix_of` l.

(** The network answered the question for partitions with [ps]. *)
Definition answered (l : list ApiCall) (ids : option (list text)) (layer : text) (version : option Z)
    (ps : list Partition) : Prop :=
  exists pre api, made pre api l /\ asks_partitions ids layer version api /\
    answer_partitions backend pre api = Success ps.

(** What is cached of the partitions [ps]: each under its id, and the list of the ids if it
    is that of the whole layer, always under the version [version]. *)
Definition stored (ids : option (list text)) (layer : text) (version : option Z) (ps : list Partition)
    (k : text) (v : CacheValue) : Prop :=
  (exists p, p ∈ ps /\ k = PartitionKey hrn layer (partition_ p) version /\ v = CachedPartition p) \/
  (ids = None /\ layer_ok layer /\ k = PartitionsKey hrn layer version /\ v = CachedIds (partition_ <$> ps)).

(** The entries that were there or that follow from the answers to the calls [l].  Partitions
    of some ids, and those of a layer that has no versions, are cached under the version
    that was asked for; all partitions of a versioned layer are asked for at the version
    of the layer that belongs to the version [n] of the catalog, and cached under [n]. *)
Inductive genuine (l : list ApiCall) : text -> CacheValue -> Prop :=
| was_cached k v : initial !! k = Some v -> genuine l k v
| by_apis pre api service version url rest :
    made pre api l -> is_lookup service version api -> answer_apis backend pre api = Success (url :: rest) ->
    genuine l (ApiKey hrn service version) (CachedUrl url)
| by_catalog pre client b c :
    made pre (ConfigApi_GetCatalog client hrn b) l ->
    answer_catalog backend pre (ConfigApi_GetCatalog client hrn b) = Success c ->
    genuine l (CatalogKey hrn) (CachedCatalog c)
| by_version pre client start b v :
    made pre (MetadataApi_GetLatestCatalogVersion client start b) l ->
    answer_version backend pre (MetadataApi_GetLatestCatalogVersion client start b) = Success v ->
    genuine l (VersionKey hrn) (CachedVersion v)
| by_layer_versions pre client version b v :
    made pre (MetadataApi_GetLayerVersions client version b) l ->
    answer_layer_versions backend pre (MetadataApi_GetLayerVersions client version b) = Success v ->
    genuine l (LayerVersionsKey hrn version) (CachedLayerVersions v)
| by_partitions ids layer version ps k v :
    (ids = None -> version = None) -> answered l ids layer version ps ->
    stored ids layer version ps k v -> genuine l k v
| by_layer_version layer n versions version ps k v :
    genuine l (LayerVersionsKey hrn n) (CachedLayerVersions versions) ->
    find_layer_version layer versions = Success version ->
    answered l None layer (Some version) ps ->
    stored None layer (Some n) ps k v -> genuine l k v
| by_data pre api layer handle d :
    made pre api l -> asks_data layer handle api -> answer_data backend pre api = Success d ->
    genuine l (DataKey hrn layer handle) (CachedData d).

(** *** Answers *)

(** The version for which the partitions of a layer are asked: none if the catalog says that
    the layer has no versions, otherwise that of the request or the latest one. *)
Definition resolved (l : list ApiCall) (layer : text) (asked version : option Z) : Prop :=
  exists c x, genuine l (CatalogKey hrn) (CachedCatalog c) /\ find_layer layer c = Some x /\
    if bool_decide (layer_type_ x = str "versioned") then
      match asked with
      | Some _ => version = asked
      | None => exists v, version = Some v /\ genuine l (VersionKey hrn) (CachedVersion v)
      end
    else version = None.

(** The partitions are the answer of the network for exactly this question. *)
Definition fetched (l : list ApiCall) (ids : option (list text)) (layer : text) (version : option Z)
    (ps : list Partition) : Prop :=
  match ids, version with
  | None, Some n =>
    exists versions lv, genuine l (LayerVersionsKey hrn n) (CachedLayerVersions versions) /\
      find_layer_version layer versions = Success lv /\ answered l None layer (Some lv) ps
  | _, _ => answered l ids layer version ps
  end.

(** The partitions are the cached ones of the ids; for the whole layer those of the cached
    list of its ids that are still cached themselves. *)
Definition from_cache (l : list ApiCall) (ids : option (list text)) (layer : text) (version : option Z)
    (ps : list Partition) : Prop :=
  let each := Forall2 (fun id p => genuine l (PartitionKey hrn layer id version) (CachedPartition p)) in
  match ids with
  | Some ids => each ids ps
  | None => exists all found, genuine l (PartitionsKey hrn layer version) (CachedIds all) /\
      found `sublist_of` all /\ each found ps
  end.

Definition partitions_of (ids : option (list text)) (layer : text) (version : option Z)
    (r : Reply (list Partition)) (l : list ApiCall) : Prop :=
  forall ps, reply_response r = Success ps ->
    fetched l ids layer version ps \/ from_cache l ids layer version ps.

Definition genuine_partitions (ids : option (list text)) (layer : text) (asked : option Z)
    (r : Reply (list Partition)) (l : list ApiCall) : Prop :=
  forall ps, reply_response r = Success ps -> exists version, resolved l layer asked version /\
    (fetched l ids layer version ps \/ from_cache l ids layer version ps).

(** Bytes are the data of the handle that was asked for; if a partition was asked for, they are
    the handle of this partition if it is inline, else the data of its handle. *)
Definition bytes_of_handle (layer handle : text) (r : Response Data) (l : list ApiCall) : Prop :=
  forall bytes, r = Success (Some bytes) -> genuine l (DataKey hrn layer handle) (CachedData (Some bytes)).

Definition genuine_data (request : DataRequest) (r : Response Data) (l : list ApiCall) : Prop :=
  forall bytes, r = Success (Some bytes) ->
    match dr_data_handle request, dr_partition_id request with
    | Some handle, _ => genuine l (DataKey hrn (dr_layer_id request) handle) (CachedData (Some bytes))
    | None, Some id =>
      exists version p, resolved l (dr_layer_id request) (dr_version request) version /\
        (fetched l (Some [id]) (dr_layer_id request) version [p] \/
         from_cache l (Some [id]) (dr_layer_id request) version [p]) /\
        if IsInlineData (data_handle_ p) then bytes = data_handle_ p
        else genuine l (DataKey hrn (dr_layer_id request) (data_handle_ p)) (CachedData (Some bytes))
    | None, None => False
    end.

(** *** More calls *)

(** A fact [F] about the calls made so far is kept by everything. *)
Definition stable (F : list ApiCall -> Prop) : Prop := forall l l', l `prefix_of` l' -> F l -> F l'.

Lemma made_mono pre api : stable (made pre api).
Proof. unfold stable, made. intros. by transitivity l. Qed.

Lemma answered_mono ids layer version ps : stable (fun l => answered l ids layer version ps).
Proof. intros l l' Hl (pre & api & Hm & ?). exists pre, api. split; [by eapply made_mono|done]. Qed.

Lemma genuine_mono k v : stable (fun l => genuine l k v).
Proof.
  intros l l' Hl. induction 1;
    [eapply was_cached|eapply by_apis|eapply by_catalog|eapply by_version|eapply by_layer_versions
    |eapply by_partitions|eapply by_layer_version|eapply by_data];
    eauto; by first [eapply made_mono|eapply answered_mono].
Qed.

Lemma resolved_mono layer asked version : stable (fun l => resolved l layer asked version).
Proof.
  intros l l' Hl (c & x & Hc & Hx & Hv). exists c, x. split; [by eapply genuine_mono|]. split; [done|].
  destruct (bool_decide _); [|done]. destruct asked; [done|]. destruct Hv as (v & ? & ?).
  exists v. split; [done|by eapply genuine_mono].
Qed.

Lemma fetched_mono ids layer version ps : stable (fun l => fetched l ids layer version ps).
Proof.
  intros l l' Hl. unfold fetched. destruct ids, version as [n|]; try by apply answered_mono.
  intros (versions & lv & ? & ? & ?). exists versions, lv.
  split; [by eapply genuine_mono|]. split; [done|by eapply answered_mono].
Qed.

Lemma from_cache_mono ids layer version ps : stable (fun l => from_cache l ids layer version ps).
Proof.
  intros l l' Hl. unfold from_cache. destruct ids as [ids|].
  - intros H1. eapply Forall2_impl; [done|]. intros. by eapply genuine_mono.
  - intros (all & found & ? & ? & H1). exists all, found. split; [by eapply genuine_mono|]. split; [done|].
    eapply Forall2_impl; [done|]. intros. by eapply genuine_mono.
Qed.

Lemma genuine_partitions_mono ids layer asked r : stable (genuine_partitions ids layer asked r).
Proof.
  intros l l' Hl Hg ps Hps. destruct (Hg ps Hps) as (version & Hr & Hf). exists version.
  split; [by eapply resolved_mono|].
  destruct Hf; [left; by eapply fetched_mono|right; by eapply from_cache_mono].
Qed.

Lemma genuine_data_mono request r : stable (genuine_data request r).
Proof.
  intros l l' Hl Hg bytes Hb. specialize (Hg bytes Hb). destruct (dr_data_handle request); [by eapply genuine_mono|].
  destruct (dr_partition_id request); [|done]. destruct Hg as (version & p & Hr & Hf & Hd). exists version, p.
  split; [by eapply resolved_mono|].
  split; [destruct Hf; [left; by eapply fetched_mono|right; by eapply from_cache_mono]|].
  destruct (IsInlineData _); [done|by eapply genuine_mono].
Qed.

(** *** Types *)

(** A value under one of the client's keys has the type that is expected there. *)
Definition right_type (k : text) (y : CacheValue) : Prop :=
  (forall s v, k = ApiKey hrn s v -> is_Some (as_url y)) /\
  (k = CatalogKey hrn -> is_Some (as_catalog y)) /\
  (k = VersionKey hrn -> is_Some (as_version y)) /\
  (forall layer id v, k = PartitionKey hrn layer id v -> is_Some (as_partition y)) /\
  (forall layer v, layer_ok layer -> k = PartitionsKey hrn layer v -> is_Some (as_ids y)) /\
  (forall v, k = LayerVersionsKey hrn v -> is_Some (as_layer_versions y)) /\
  (forall layer handle, k = DataKey hrn layer handle -> is_Some (as_data y)).

(** Keys of different kinds differ. *)
Ltac key_clash E :=
  exfalso; apply (f_equal last_part) in E;
  rewrite ?last_part_Api, ?last_part_Catalog, ?last_part_Version, ?last_part_LayerVersions, ?last_part_Data,
    ?last_part_Partition, ?last_part_Partitions in E;
  repeat match type of E with context [match ?v with Some _ => _ | None => _ end] => destruct v end;
  discriminate E.

Lemma stored_typed ids layer version ps k y :
  (forall layer, layer_ok layer -> colon_char ∉ layer) -> stored ids layer version ps k y -> right_type k y.
Proof.
  intros Hlayer [(p & _ & -> & ->)|(_ & ? & -> & ->)]; unfold right_type; split_and!; intros; cbn; try (by eexists);
    match goal with E : _ = _ |- _ => try solve [key_clash E] end.
  - exfalso. destruct version as [n|], v as [m|].
    1-3: match goal with E : PartitionKey _ _ _ _ = _ |- _ => key_clash E end.
    eapply unversioned_keys_differ; [by apply Hlayer|done].
  - exfalso. destruct version as [n|], v as [m|].
    1-3: match goal with E : PartitionsKey _ _ _ = _ |- _ => key_clash E end.
    eapply unversioned_keys_differ; [by apply Hlayer|by symmetry].
Qed.

(** Either exceptions are allowed, or the cache was typed and the layers have no
    colon in their names. *)
Hypothesis typed : throws \/
  ((forall layer, layer_ok layer -> colon_char ∉ layer) /\ (forall k y, initial !! k = Some y -> right_type k y)).

Lemma genuine_typed l k y : genuine l k y -> throws \/ right_type k y.
Proof.
  intros Hg. destruct typed as [?|[Hl Ht]]; [by left|right].
  destruct Hg; [by apply Ht|..| | |]; try (by eapply stored_typed);
    unfold right_type; split_and!; intros; cbn; try (by eexists);
    match goal with E : _ = _ |- _ => solve [key_clash E] end.
Qed.

(** The cast for a kind of key. *)
Definition cast_fits {A} (cast : CacheValue -> option A) (k : text) : Prop :=
  forall y, right_type k y -> is_Some (cast y).

Lemma genuine_castable {A} (cast : CacheValue -> option A) k l c :
  cast_fits cast k -> (forall k' y, view c !! k' = Some y -> genuine l k' y) -> castable c cast k.
Proof.
  intros Hf Hg y Hy Hn. destruct (genuine_typed l k y) as [?|Ht]; [by apply Hg|done|].
  destruct (Hf y Ht) as [x Hx]. congruence.
Qed.

Lemma fits_url s v : cast_fits as_url (ApiKey hrn s v).
Proof. intros y (H1 & _). by eapply H1. Qed.
Lemma fits_catalog : cast_fits as_catalog (CatalogKey hrn).
Proof. intros y (_ & H1 & _). by apply H1. Qed.
Lemma fits_version : cast_fits as_version (VersionKey hrn).
Proof. intros y (_ & _ & H1 & _). by apply H1. Qed.
Lemma fits_partition layer id v : cast_fits as_partition (PartitionKey hrn layer id v).
Proof. intros y (_ & _ & _ & H1 & _). by eapply H1. Qed.
Lemma fits_ids layer v : layer_ok layer -> cast_fits as_ids (PartitionsKey hrn layer v).
Proof. intros Hl y (_ & _ & _ & _ & H1 & _). by eapply H1. Qed.
Lemma fits_layer_versions v : cast_fits as_layer_versions (LayerVersionsKey hrn v).
Proof. intros y (_ & _ & _ & _ & _ & H1 & _). by eapply H1. Qed.
Lemma fits_data layer handle : cast_fits as_data (DataKey hrn layer handle).
Proof. intros y (_ & _ & _ & _ & _ & _ & H1). by eapply H1. Qed.

(** The cache has only genuine entries; [offline]: nothing was added to it and no
    calls were made since [calls0]. *)
Definition genuine_view (l : list ApiCall) (m : gmap text CacheValue) : Prop :=
  forall k v, m !! k = Some v -> genuine l k v.

Section offline.
  Variables (offline : bool) (calls0 : list ApiCall).

Definition ok (w : World C) : Prop :=
  genuine_view (calls w) (view (cache_ w)) /\
  calls0 `prefix_of` calls w /\ (offline = true -> calls w = calls0 /\ view (cache_ w) ⊆ initial).

Definition okf (F : list ApiCall -> Prop) (w : World C) : Prop := ok w /\ F (calls w).

(** Access to the cache that only reads or removes. *)
Lemma cached_shrinks {A} (m : ST C A) (Phi : A -> gmap text CacheValue -> Prop) F :
  (forall w, okf F w -> triple (shrunk (cache_ w)) m (fun a c => shrunk (cache_ w) c /\ Phi a (view (cache_ w)))) ->
  triple (okf F) (cached m) (fun a w => okf F w /\ exists vw, genuine_view (calls w) vw /\ Phi a vw).
Proof.
  intros Hm w [[Hg [Hp Ho]] HF]. unfold cached. specialize (Hm w (conj (conj Hg (conj Hp Ho)) HF) (cache_ w)).
  destruct (m (cache_ w)) as [[a' c]|]; [|apply Hm; by unfold shrunk].
  destruct Hm as [Hs Hphi]; [by unfold shrunk|]. unfold okf, ok; cbn. unfold shrunk in Hs. split_and!; [|done| |done|].
  - intros k v Hk. apply Hg. by eapply lookup_weaken.
  - intros Hoff. destruct (Ho Hoff) as [Hc Hi]. split; [done|]. by transitivity (view (cache_ w)).
  - by exists (view (cache_ w)).
Qed.

Lemma cached_get {A} (cast : CacheValue -> option A) k F :
  cast_fits cast k ->
  triple (okf F) (cached (let* v := get k in any_cast cast v))
    (fun a w => okf F w /\ forall x, a = Some x -> exists y, genuine (calls w) k y /\ cast y = Some x).
Proof.
  intros Hfit. eapply triple_weaken; [apply (cached_shrinks _
    (fun a vw => forall x, a = Some x -> exists y, vw !! k = Some y /\ cast y = Some x) F)|done|].
  - intros w [[Hg _] _]. apply get_cast_rule. by eapply genuine_castable.
  - intros a w [Hw (vw & Hvw & Ha)]. split; [done|]. intros x Hx. destruct (Ha x Hx) as (y & Hy & ?).
    exists y. split; [by apply Hvw|done].
Qed.

Lemma cached_remove p F : triple (okf F) (cached (remove_prefix p)) (fun _ w => okf F w).
Proof.
  eapply triple_weaken; [apply (cached_shrinks _ (fun _ _ => True) F)|done|intros a w [Hw _]; exact Hw].
  intros w _. eapply triple_weaken; [apply remove_rule|done|intros a c Hc; by split].
Qed.

(** Storing something genuine. *)
Lemma cached_put k v e F :
  offline = false -> (forall l, F l -> genuine l k v) -> triple (okf F) (cached (put k v e)) (fun _ w => okf F w).
Proof.
  intros Hoff HF w [[Hg [Hp Ho]] HFw]. unfold cached, put. unfold okf, ok; cbn. split_and!; [|done|by rewrite Hoff|done].
  intros k' v' Hk. apply put_view in Hk as [[-> ->]|Hk]; [by apply HF|by apply Hg].
Qed.

(** A sequence of accesses. *)
Lemma cached_bind {A B} (P : World C -> Prop) (m : ST C A) (f : A -> ST C B) (Q : B -> World C -> Prop) :
  triple P (let* a := cached m in cached (f a)) Q -> triple P (cached (st_bind m f)) Q.
Proof.
  intros Hm w Hp. specialize (Hm w Hp). revert Hm. unfold cached, st_bind.
  destruct (m (cache_ w)) as [[a c]|]; [|done]. cbn. by destruct (f a c) as [[]|].
Qed.

Lemma cached_ret {A} F (a : A) : triple (okf F) (cached (st_ret a)) (fun _ w => okf F w).
Proof. intros w Hw. by destruct w. Qed.

Lemma cached_put_partitions request e ps F :
  offline = false ->
  (forall l, F l -> forall p, p ∈ ps ->
     genuine l (PartitionKey hrn (pr_layer_id request) (partition_ p) (pr_version request)) (CachedPartition p)) ->
  triple (okf F) (cached (put_partitions hrn request e ps)) (fun _ w => okf F w).
Proof.
  intros Hoff. induction ps as [|p ps IH]; intros HF; cbn [put_partitions]; [apply cached_ret|].
  apply cached_bind. eapply triple_bind; [apply cached_put; [done|]|].
  - intros l Hl. apply HF; [done|left].
  - intros []. apply IH. intros l Hl q Hq. apply HF; [done|by right].
Qed.

Lemma cached_Partitions_Put request ps e allLayer F :
  offline = false ->
  (forall l, F l -> forall p, p ∈ ps ->
     genuine l (PartitionKey hrn (pr_layer_id request) (partition_ p) (pr_version request)) (CachedPartition p)) ->
  (forall l, F l ->
     genuine l (PartitionsKey hrn (pr_layer_id request) (pr_version request)) (CachedIds (partition_ <$> ps))) ->
  triple (okf F) (cached (Partitions_Put hrn request ps e allLayer)) (fun _ w => okf F w).
Proof.
  intros Hoff Hp Hids. unfold Partitions_Put. apply cached_bind.
  eapply triple_bind; [by apply cached_put_partitions|]. intros [].
  destruct allLayer; [|apply cached_ret]. by apply cached_put.
Qed.

Lemma call_rule {A} (answer : list ApiCall -> ApiCall -> A) api F :
  offline = false -> stable F ->
  triple (okf F) (call answer api)
    (fun r w => okf F w /\ exists pre, made pre api (calls w) /\ r = answer pre api).
Proof.
  intros Hoff HF w [[Hg [Hp0 Ho]] HFw]. unfold call. unfold okf, ok; cbn.
  assert (calls w `prefix_of` calls w ++ [api]) as Hp by (by exists [api]).
  split_and!.
  - intros k v Hk. eapply genuine_mono; [done|by apply Hg].
  - by transitivity (calls w).
  - by rewrite Hoff.
  - by eapply HF.
  - exists (calls w). split; [|done]. by unfold made.
Qed.

Lemma cancel_rule {A} (m1 m2 : ST (World C) A) F Q :
  triple (okf F) m1 Q -> triple (okf F) m2 Q -> triple (okf F) (ExecuteOrCancelled is_cancelled m1 m2) Q.
Proof.
  intros H1 H2 w Hw. unfold ExecuteOrCancelled.
  destruct (is_cancelled (checks w)); [apply H2|apply H1]; done.
Qed.


(** After a call one may use that it was made. *)
Lemma call_bind {A B} (answer : list ApiCall -> ApiCall -> A) api F (f : A -> ST (World C) B) Q :
  offline = false -> stable F ->
  (forall pre, triple (okf (fun l => F l /\ made pre api l)) (f (answer pre api)) Q) ->
  triple (okf F) (st_bind (call answer api) f) Q.
Proof.
  intros Hoff HF H1. eapply triple_bind; [by apply call_rule|].
  intros r w [[Hok HFw] (pre & Hm & ->)]. apply (H1 pre). by split.
Qed.

(** A result of which [Phi] is known; what was known before still is. *)
Definition good {R} (F : list ApiCall -> Prop) (Phi : R -> list ApiCall -> Prop) (r : R) (w : World C) : Prop :=
  okf F w /\ Phi r (calls w).

(** A computation that yields such a result whatever is known before. *)
Definition yields {R} (m : ST (World C) R) (Phi : R -> list ApiCall -> Prop) : Prop :=
  forall F, stable F -> triple (okf F) m (good F Phi).

Lemma okf_weaken {A} (F F' : list ApiCall -> Prop) (m : ST (World C) A) Q :
  (forall l, F' l -> F l) -> triple (okf F) m Q -> triple (okf F') m Q.
Proof. intros HF Hm w [Hok HFw]. apply (Hm w). split; auto. Qed.

(** *** What the functions keep *)

(** The repositories' functions under a name for the parameters. *)
Abbreviation EOC := (ExecuteOrCancelled is_cancelled).

Lemma stable_and F G : stable F -> stable G -> stable (fun l => F l /\ G l).
Proof. intros HF HG l l' Hl [? ?]. split; [by eapply HF|by eapply HG]. Qed.

(** A result without facts. *)
Lemma ret_rule {A} F (a : A) (Phi : A -> list ApiCall -> Prop) :
  (forall l, F l -> Phi a l) -> triple (okf F) (st_ret a) (good F Phi).
Proof. intros HP. apply triple_ret. intros w [Hok HF]. split; [by split|by apply HP]. Qed.

(** What is known before the end is forgotten. *)
Lemma good_weaken {A} F F' (m : ST (World C) A) (Phi Phi' : A -> list ApiCall -> Prop) :
  triple (okf F') m (good F' Phi') -> (forall l, F' l -> F l) -> (forall a l, F' l -> Phi' a l -> Phi a l) ->
  triple (okf F') m (good F Phi).
Proof.
  intros Hm HF HP. eapply triple_weaken; [exact Hm|done|]. intros a w [[Hok HF'] Ha].
  split; [split; [done|by apply HF]|by apply HP].
Qed.

(** After a function that yields [Phi] one may use it. *)
Lemma good_bind {A B} F (m : ST (World C) A) (f : A -> ST (World C) B) (Phi : A -> list ApiCall -> Prop) Q :
  stable F -> yields m Phi -> (forall a, triple (okf (fun l => F l /\ Phi a l)) (f a) Q) ->
  triple (okf F) (st_bind m f) Q.
Proof.
  intros HF Hm Hf. eapply triple_bind; [by apply Hm|]. intros a.
  eapply triple_pre; [|apply Hf]. intros w [[Hok HFw] Ha]. split; [done|by split].
Qed.

(** The result of a function that is used in the end. *)
Lemma good_last {A} F G (m : ST (World C) A) (Phi Phi' : A -> list ApiCall -> Prop) :
  stable F -> stable G -> yields m Phi' -> (forall a l, G l -> Phi' a l -> Phi a l) ->
  triple (okf (fun l => F l /\ G l)) m (good F Phi).
Proof.
  intros HF HG Hm HP. eapply good_weaken; [by apply Hm, stable_and|by intros l [? _]|].
  intros a l [_ Hl]. by apply HP.
Qed.

(** Clearing something after a refusal, then returning. *)
Lemma clear_rule {A} F G (b : bool) (m : ST (World C) unit) (r : A) (Phi : A -> list ApiCall -> Prop) :
  triple (okf (fun l => F l /\ G l)) m (fun _ w => okf (fun l => F l /\ G l) w) -> (forall l, F l -> G l -> Phi r l) ->
  triple (okf (fun l => F l /\ G l)) ((if b then m else st_ret tt) ;; st_ret r) (good F Phi).
Proof.
  intros Hm HP. eapply (triple_bind _ _ (fun _ w => okf (fun l => F l /\ G l) w)).
  - apply triple_if; [done|]. by apply triple_ret.
  - intros []. eapply good_weaken; [by apply ret_rule; intros l [? ?]; apply HP|by intros l [? _]|done].
Qed.

(** A result with facts. *)
Lemma ret_fact {A} F G (a : A) (Phi : A -> list ApiCall -> Prop) :
  (forall l, G l -> Phi a l) -> triple (okf (fun l => F l /\ G l)) (st_ret a) (good F Phi).
Proof. intros HP. apply triple_ret. intros w [Hok [HF HG]]. split; [by split|by apply HP]. Qed.

(** Storing the answer to a call, then returning it. *)
Lemma put_rule {A} F G (m : ST C unit) (r : A) (Phi : A -> list ApiCall -> Prop) :
  triple (okf (fun l => F l /\ G l)) (cached m) (fun _ w => okf (fun l => F l /\ G l) w) ->
  (forall l, G l -> Phi r l) ->
  triple (okf (fun l => F l /\ G l)) (cached m ;; st_ret r) (good F Phi).
Proof. intros Hm HP. eapply triple_bind; [exact Hm|]. intros []. by apply ret_fact. Qed.

Lemma yields_cancel {A} (m1 : ST (World C) A) a (Phi : A -> list ApiCall -> Prop) :
  yields m1 Phi -> (forall l, Phi a l) -> yields (EOC m1 (st_ret a)) Phi.
Proof. intros H1 Ha F HF. apply cancel_rule; [by apply H1|by apply ret_rule]. Qed.

Definition any_response {R} (_ : Response R) (_ : list ApiCall) : Prop := True.

Lemma getApiClient_ok service version :
  offline = false -> yields (getApiClient hrn_ backend service version) any_response.
Proof.
  intros Hoff F HF. unfold getApiClient.
  eapply triple_bind; [apply (cached_get as_url), fits_url|]. intros [url|].
  { apply triple_ret. intros w [Hw _]. by split. }
  eapply (triple_bind _ _ (fun r w => okf (fun l => F l /\ forall url, r = Success url ->
    genuine l (ApiKey hrn service version) (CachedUrl url)) w)).
  - unfold LookupApiClient, LookupApi. set (base := GetDatastoreServerUrl _).
    assert (forall api, is_lookup service version api ->
      triple (okf F) (let* response := call (answer_apis backend) api in
                  st_ret (match response with
                          | Failure e => Failure e
                          | Success [] => error ServiceUnavailable "Service/Version not available for given HRN"
                          | Success (base_url :: _) => Success base_url
                          end))
        (fun r w => okf (fun l => F l /\ forall url, r = Success url ->
           genuine l (ApiKey hrn service version) (CachedUrl url)) w)) as Hcall.
    { intros api Hapi. apply call_bind; [done..|]. intros pre. apply triple_ret.
      intros w [Hok [HFw Hm]]. split; [done|]. split; [done|]. intros url Hurl.
      destruct (answer_apis backend pre api) as [[|u rest]|e] eqn:Er; simplify_eq. by eapply by_apis. }
    destruct base as [|b bs].
    + intros w [[Hok HFw] _]. cbn. split; [exact Hok|]. split; [exact HFw|]. intros url Hu. discriminate Hu.
    + intros w [Hw _]. destruct (bool_decide (service = str "config")); apply Hcall; done.
  - intros [url|e]; [|by apply ret_fact]. apply put_rule; [|done]. apply cached_put; [done|].
    intros l [_ Hl]. by apply Hl.
Qed.

(** A cached value is returned; without one the network is asked, if that is allowed. *)
Lemma through_cache {A B} fetch (read : ST C (option A)) (found : A -> B) missing query (Phi : B -> list ApiCall -> Prop) :
  fetch = CacheOnly \/ offline = false -> (offline = false -> yields query Phi) ->
  (forall F, triple (okf F) (cached read) (fun a w => okf F w /\ forall x, a = Some x -> Phi (found x) (calls w))) ->
  (forall l, Phi missing l) ->
  yields (if bool_decide (OnlineOnly <> fetch) then
            let* a := cached read in
            match a with
            | Some x => st_ret (found x)
            | None => if bool_decide (CacheOnly = fetch) then st_ret missing else query
            end
          else query) Phi.
Proof.
  intros Hfetch Hquery Hread Hmiss F HF. case_bool_decide as E1.
  - eapply triple_bind; [apply Hread|]. intros [x|].
    + apply triple_ret. intros w [Hw Hx]. split; [done|by apply Hx].
    + apply (triple_pre (okf F)); [by intros w [? _]|]. case_bool_decide as E2; [by apply ret_rule|].
      apply Hquery; [|done]. destruct Hfetch; congruence.
  - apply Hquery; [|done]. destruct Hfetch; congruence.
Qed.

Lemma getCatalog_ok request :
  cr_fetch_option request = CacheOnly \/ offline = false ->
  yields (getCatalog hrn_ backend is_cancelled request)
    (fun r l => forall c, r = Success c -> genuine l (CatalogKey hrn) (CachedCatalog c)).
Proof.
  intros Hfetch. unfold getCatalog. set (query := let* response := getApiClient _ _ _ _ in _).
  apply yields_cancel; [|done]. apply through_cache; [done|..|done].
  - intros Hoff F HF. unfold query. eapply good_bind; [done|by apply getApiClient_ok|]. intros [client|e];
      [|by apply ret_fact].
    apply (okf_weaken F); [by intros l [? _]|]. apply cancel_rule; [|by apply ret_rule].
    apply call_bind; [done..|]. intros pre. destruct (answer_catalog backend pre _) as [c|e] eqn:Er;
      [|apply clear_rule; [apply cached_remove|done]].
    apply put_rule; [apply cached_put; [done|]|].
    + intros l [_ Hl]. by eapply by_catalog.
    + intros l Hl c' [= <-]. by eapply by_catalog.
  - intros F. eapply triple_weaken; [apply (cached_get as_catalog), fits_catalog|done|].
    intros a w [Hw Hc]. split; [done|]. intros x Hx c [= <-].
    destruct (Hc x Hx) as (y & Hy & Hcast). destruct y; by simplify_eq/=.
Qed.

Lemma getLatestCatalogVersion_ok request :
  vr_fetch_option request = CacheOnly \/ offline = false ->
  yields (getLatestCatalogVersion hrn_ backend is_cancelled request)
    (fun r l => forall v, r = Success v -> genuine l (VersionKey hrn) (CachedVersion v)).
Proof.
  intros Hfetch. unfold getLatestCatalogVersion. apply yields_cancel; [|done]. intros F HF.
  case_bool_decide as E1.
  - eapply triple_bind; [apply (cached_get as_version), fits_version|].
    intros [v|]; apply triple_ret; intros w [Hw Hv]; split; try done.
    intros v' [= <-]. destruct (Hv v eq_refl) as (y & Hy & Hcast). destruct y; by simplify_eq/=.
  - assert (offline = false) as Hoff by (destruct Hfetch; congruence).
    eapply good_bind; [done|by apply getApiClient_ok|]. intros [client|e]; [|by apply ret_fact].
    apply (okf_weaken F); [by intros l [? _]|]. apply cancel_rule; [|by apply ret_rule].
    apply call_bind; [done..|]. intros pre. destruct (answer_version backend pre _) as [v|e] eqn:Er;
      [|apply clear_rule; [apply cached_remove|done]].
    apply put_rule; [apply cached_put; [done|]|].
    + intros l [_ Hl]. by eapply by_version.
    + intros l Hl v' [= <-]. by eapply by_version.
Qed.

(** The version of a layer is that of the layer versions of this catalog version. *)
Definition layer_version_of (layer : text) (n : Z) (r : Response Z) (l : list ApiCall) : Prop :=
  forall lv, r = Success lv -> exists versions,
    genuine l (LayerVersionsKey hrn n) (CachedLayerVersions versions) /\
    find_layer_version layer versions = Success lv.

Lemma layer_version_of_stable layer n r : stable (layer_version_of layer n r).
Proof.
  intros l l' Hl H1 lv Hr. destruct (H1 lv Hr) as (versions & ? & ?). exists versions.
  split; [by eapply genuine_mono|done].
Qed.

Lemma GetLayerVersion_ok client request version :
  offline = false ->
  yields (GetLayerVersion hrn_ backend is_cancelled client request version)
    (layer_version_of (pr_layer_id request) version).
Proof.
  intros Hoff. unfold GetLayerVersion. apply yields_cancel; [|done]. intros F HF.
  eapply triple_bind; [apply (cached_get as_layer_versions), fits_layer_versions|]. intros [v|].
  { apply triple_ret. intros w [Hw Hv]. split; [done|]. intros lv Hlv. exists v. split; [|done].
    destruct (Hv v eq_refl) as (y & Hy & Hcast). destruct y; by simplify_eq/=. }
  apply (triple_pre (okf F)); [by intros w [? _]|]. apply call_bind; [done..|]. intros pre.
  destruct (answer_layer_versions backend pre _) as [v|e] eqn:Er; [|by apply ret_fact].
  apply put_rule; [apply cached_put; [done|]|].
  - intros l [_ Hl]. by eapply by_layer_versions.
  - intros l Hl lv Hlv. exists v. split; [by eapply by_layer_versions|done].
Qed.

(** Storing the answer to a query of partitions. *)
Lemma store_partitions_ok F G request ids ps e allLayer :
  offline = false -> layer_ok (pr_layer_id request) -> (allLayer = true -> ids = None) ->
  (forall l k v, G l -> stored ids (pr_layer_id request) (pr_version request) ps k v -> genuine l k v) ->
  (forall l, G l -> fetched l ids (pr_layer_id request) (pr_version request) ps) ->
  triple (okf (fun l => F l /\ G l))
    (cached (Partitions_Put hrn request ps e allLayer) ;; st_ret (ByRequest (Success ps)))
    (good F (partitions_of ids (pr_layer_id request) (pr_version request))).
Proof.
  intros Hoff Hlay Hall Hg Hf. apply put_rule.
  - destruct allLayer; [apply cached_Partitions_Put; [done|..]|].
    + intros l [_ Hl] p Hp. apply Hg; [done|]. left. by exists p.
    + intros l [_ Hl]. apply Hg; [done|]. right. by split; [apply Hall|].
    + apply cached_bind. eapply triple_bind; [apply cached_put_partitions; [done|]|].
      * intros l [_ Hl] p Hp. apply Hg; [done|]. left. by exists p.
      * intros []. apply cached_ret.
  - intros l Hl ps' [= <-]. left. by apply Hf.
Qed.

Lemma getPartitionsInternal_ok F G client request expiry version :
  layer_ok (pr_layer_id request) -> offline = false -> stable F -> stable G ->
  (forall l ps k v, G l -> answered l None (pr_layer_id request) version ps ->
     stored None (pr_layer_id request) (pr_version request) ps k v -> genuine l k v) ->
  (forall l ps, G l -> answered l None (pr_layer_id request) version ps ->
     fetched l None (pr_layer_id request) (pr_version request) ps) ->
  triple (okf (fun l => F l /\ G l))
    (getPartitionsInternal hrn_ backend is_cancelled client request expiry version)
    (good F (partitions_of None (pr_layer_id request) (pr_version request))).
Proof.
  intros Hlay Hoff HF HG Hg Hf. unfold getPartitionsInternal. apply cancel_rule; [|by apply ret_fact].
  apply call_bind; [done|by apply stable_and|]. intros pre.
  eapply (okf_weaken (fun l => F l /\ (G l /\ made pre _ l))); [intros l [[? ?] ?]; by repeat split|].
  unfold cachePartitionsResponse.
  destruct (answer_partitions backend pre _) as [ps|e] eqn:Er; [|apply clear_rule; [apply cached_remove|done]].
  assert (forall l, made pre (MetadataApi_GetPartitions client (pr_layer_id request) version (pr_billing_tag request)) l ->
    answered l None (pr_layer_id request) version ps) as Ha by (intros l Hl; by eexists _, _).
  apply store_partitions_ok; [done..| |].
  - intros l k v [HGl Hl]. apply Hg; [done|by apply Ha].
  - intros l [HGl Hl]. apply Hf; [done|by apply Ha].
Qed.

(** What is read of the cache is there under the right keys. *)
Lemma genuine_cached l vw request ids ps :
  genuine_view l vw -> cached_under vw hrn request ids ps ->
  Forall2 (fun id p => genuine l (PartitionKey hrn (pr_layer_id request) id (pr_version request)) (CachedPartition p))
    ids ps.
Proof. intros Hg Hps. eapply Forall2_impl; [done|]. intros id p Hp. by apply Hg. Qed.

Lemma cached_Partitions_Get request F :
  layer_ok (pr_layer_id request) ->
  triple (okf F) (cached (Partitions_Get hrn request)) (fun r w => okf F w /\ forall ps, r = Some ps ->
    partitions_of None (pr_layer_id request) (pr_version request) (ByRequest (Success ps)) (calls w)).
Proof.
  intros Hlay. eapply triple_weaken; [apply (cached_shrinks _ (fun r vw => forall ps, r = Some ps -> exists all found,
    vw !! PartitionsKey hrn (pr_layer_id request) (pr_version request) = Some (CachedIds all) /\
    found `sublist_of` all /\ cached_under vw hrn request found ps) F)|done|].
  - intros w [[Hg _] _]. apply Partitions_Get_rule; intros; eapply genuine_castable; try done;
      [apply fits_partition|by apply fits_ids].
  - intros r w [Hw (vw & Hvw & Hps)]. split; [done|]. intros ps Hr ps' [= <-]. right.
    destruct (Hps ps Hr) as (all & found & Hall & Hs & Hf). exists all, found.
    split; [by apply Hvw|]. split; [done|]. by eapply genuine_cached.
Qed.

(** As many partitions as ids: one for each id. *)
Lemma cached_GetIds request ids F :
  triple (okf F) (cached (Partitions_GetIds hrn request ids)) (fun ps w => okf F w /\
    (length ps = length ids ->
     partitions_of (Some ids) (pr_layer_id request) (pr_version request) (ByRequest (Success ps)) (calls w))).
Proof.
  eapply triple_weaken; [apply (cached_shrinks _ (fun ps vw => exists found,
    found `sublist_of` ids /\ cached_under vw hrn request found ps) F)|done|].
  - intros w [[Hg _] _]. apply GetIds_rule. intros id. eapply genuine_castable; [apply fits_partition|done].
  - intros ps w [Hw (vw & Hvw & found & Hs & Hps)]. split; [done|]. intros Hlen ps' [= <-]. right.
    assert (found = ids) as ->.
    { apply sublist_same_length; [done|]. rewrite <- Hlen. by eapply Forall2_length. }
    by eapply genuine_cached.
Qed.

Lemma cached_ClearPartitions request ids F :
  triple (okf F) (cached (ClearPartitions hrn request ids)) (fun _ w => okf F w).
Proof.
  eapply triple_weaken; [apply (cached_shrinks _ (fun _ _ => True) F)|done|intros a w [Hw _]; exact Hw].
  intros w [[Hg _] _]. eapply triple_weaken; [apply ClearPartitions_rule|done|intros a c Hc; by split].
  intros id. eapply genuine_castable; [apply fits_partition|done].
Qed.

Lemma cached_Data_Get layer handle F :
  triple (okf F) (cached (Data_Get hrn layer handle)) (fun r w => okf F w /\ forall bytes, r = Some bytes ->
    genuine (calls w) (DataKey hrn layer handle) (CachedData (Some bytes))).
Proof.
  eapply triple_weaken; [apply (cached_shrinks _ (fun r vw => forall bytes, r = Some bytes ->
    vw !! DataKey hrn layer handle = Some (CachedData (Some bytes))) F)|done|].
  - intros w [[Hg _] _]. apply Data_Get_rule. eapply genuine_castable; [apply fits_data|done].
  - intros r w [Hw (vw & Hvw & Hps)]. split; [done|]. intros bytes Hr. by apply Hvw, Hps.
Qed.

Lemma fetchPartitions_ok fetch request expiry :
  layer_ok (pr_layer_id request) -> fetch = CacheOnly \/ offline = false ->
  yields (fetchPartitions hrn_ backend is_cancelled fetch request expiry)
    (partitions_of None (pr_layer_id request) (pr_version request)).
Proof.
  intros Hlay Hfetch. unfold fetchPartitions. set (query := let* response := getApiClient _ _ _ _ in _).
  apply yields_cancel; [|done].
  apply (through_cache fetch _ (fun partitions => ByRequest (Success partitions))); [done| | |done].
  - intros Hoff F HF. unfold query. eapply good_bind; [done|by apply getApiClient_ok|]. intros [client|e];
      [|by apply ret_fact].
    apply (okf_weaken F); [by intros l [? _]|].
    destruct (pr_version request) as [n|] eqn:Ev.
    + eapply good_bind; [done|by apply GetLayerVersion_ok|].
      intros [lv|e]; [|apply clear_rule; [apply cached_remove|done]]. rewrite <- Ev.
      apply getPartitionsInternal_ok; [done..|apply layer_version_of_stable| |]; rewrite Ev.
      * intros l ps k v HG Ha Hs. destruct (HG lv eq_refl) as (versions & ? & ?). by eapply by_layer_version.
      * intros l ps HG Ha. destruct (HG lv eq_refl) as (versions & ? & ?). by exists versions, lv.
    + rewrite <- Ev at 2. apply (okf_weaken (fun l => F l /\ True)); [by intros l ?|].
      apply getPartitionsInternal_ok; [done..| |]; rewrite Ev; [|done].
      intros l ps k v _ Ha Hs. by eapply by_partitions.
  - intros F. by apply cached_Partitions_Get.
Qed.

Lemma fetchPartitionsById_ok fetch ids request expiry :
  layer_ok (pr_layer_id request) -> fetch = CacheOnly \/ offline = false ->
  yields (fetchPartitionsById hrn_ backend is_cancelled fetch ids request expiry)
    (partitions_of (Some ids) (pr_layer_id request) (pr_version request)).
Proof.
  intros Hlay Hfetch. unfold fetchPartitionsById. set (query := let* response := getApiClient _ _ _ _ in _).
  assert (offline = false -> yields query (partitions_of (Some ids) (pr_layer_id request) (pr_version request)))
    as Hquery.
  { intros Hoff F HF. unfold query. eapply good_bind; [done|by apply getApiClient_ok|]. intros [client|e];
      [|by apply ret_fact].
    apply (okf_weaken F); [by intros l [? _]|]. apply cancel_rule; [|by apply ret_rule].
    apply call_bind; [done..|]. intros pre. destruct (answer_partitions backend pre _) as [ps|e] eqn:Er;
      [|apply clear_rule; [apply cached_ClearPartitions|done]].
    assert (forall l, made pre (QueryApi_GetPartitionsbyId client (pr_layer_id request) ids (pr_version request)
        (pr_billing_tag request)) l -> answered l (Some ids) (pr_layer_id request) (pr_version request) ps) as Ha
      by (intros l Hl; by eexists _, _).
    apply store_partitions_ok; [done..| |done].
    intros l k v Hl. by apply by_partitions; [|apply Ha]. }
  apply yields_cancel; [|done]. intros F HF. case_bool_decide as E1.
  - eapply triple_bind; [apply cached_GetIds|]. intros ps; cbn beta.
    destruct (Nat.eqb_spec (length ps) (length ids)) as [Hlen|_].
    + apply triple_ret. intros w [Hw Hps]. split; [done|by apply Hps].
    + apply (triple_pre (okf F)); [by intros w [? _]|]. case_bool_decide as E2; [by apply ret_rule|].
      apply Hquery; [|done]. destruct Hfetch; congruence.
  - apply Hquery; [|done]. destruct Hfetch; congruence.
Qed.

Lemma appendPartitionsRequest_ok ids request fetchPartitions :
  pr_fetch_option request = CacheOnly \/ offline = false ->
  (forall version expiry, yields (fetchPartitions (PartitionsRequest_WithVersion version request) expiry)
     (partitions_of ids (pr_layer_id request) version)) ->
  yields (appendPartitionsRequest hrn_ backend is_cancelled request fetchPartitions)
    (genuine_partitions ids (pr_layer_id request) (pr_version request)).
Proof.
  intros Hfetch Hf. unfold appendPartitionsRequest. apply yields_cancel; [|done]. intros F HF.
  eapply good_bind; [done|by apply getCatalog_ok|]. intros [catalog|e]; [|by apply ret_fact].
  destruct (find_layer (pr_layer_id request) catalog) as [layer|] eqn:El; [|by apply ret_fact].
  set (G l := forall c, Success catalog = Success c -> genuine l (CatalogKey hrn) (CachedCatalog c)).
  assert (stable G) as HG by (intros l l' Hl H1 c Hc; eapply genuine_mono; eauto).
  case_bool_decide as Et.
  { eapply good_last; [done..|apply Hf|]. intros r l HGl Hp ps Hps. exists None. split; [|by apply Hp].
    exists catalog, layer. split; [by apply HGl|]. split; [done|]. by rewrite bool_decide_false. }
  destruct (pr_version request) as [version|] eqn:Ev.
  { replace request with (PartitionsRequest_WithVersion (Some version) request) at 1
      by (destruct request; cbn in *; by subst).
    eapply good_last; [done..|apply Hf|]. intros r l HGl Hp ps Hps. exists (Some version). split; [|by apply Hp].
    exists catalog, layer. split; [by apply HGl|]. split; [done|]. case_bool_decide; [done|by destruct Et]. }
  apply cancel_rule; [|by apply ret_fact].
  eapply good_bind; [by apply stable_and|by apply getLatestCatalogVersion_ok|].
  intros [version|e].
  2:{ eapply okf_weaken; [|by apply (ret_fact F G)]. by intros l [? _]. }
  set (V l := forall v, Success version = Success v -> genuine l (VersionKey hrn) (CachedVersion v)).
  assert (stable V) as HV by (intros l l' Hl H1 c Hc; eapply genuine_mono; eauto).
  eapply (okf_weaken (fun l => F l /\ (G l /\ V l))); [intros l [[? ?] ?]; by repeat split|].
  eapply good_last; [done|by apply stable_and|apply Hf|]. intros r l [HGl HVl] Hp ps Hps.
  exists (Some version). split; [|by apply Hp]. exists catalog, layer. split; [by apply HGl|]. split; [done|].
  case_bool_decide; [|by destruct Et]. exists version. split; [done|by apply HVl].
Qed.

Lemma GetPartitions_ok request :
  layer_ok (pr_layer_id request) -> pr_fetch_option request = CacheOnly \/ offline = false ->
  yields (GetPartitions hrn_ backend is_cancelled request)
    (genuine_partitions None (pr_layer_id request) (pr_version request)).
Proof.
  intros Hlay Hfetch. apply appendPartitionsRequest_ok; [done|]. intros version expiry.
  by apply (fetchPartitions_ok _ (PartitionsRequest_WithVersion version request)).
Qed.

Lemma GetPartitionsById_ok request ids :
  layer_ok (pr_layer_id request) -> pr_fetch_option request = CacheOnly \/ offline = false ->
  yields (GetPartitionsById hrn_ backend is_cancelled request ids)
    (genuine_partitions (Some ids) (pr_layer_id request) (pr_version request)).
Proof.
  intros Hlay Hfetch. apply appendPartitionsRequest_ok; [done|]. intros version expiry.
  by apply (fetchPartitionsById_ok _ ids (PartitionsRequest_WithVersion version request)).
Qed.

Lemma GetDataInternal_ok layerType request :
  dr_fetch_option request = CacheOnly \/ offline = false ->
  yields (GetDataInternal hrn_ backend is_cancelled layerType request)
    (bytes_of_handle (dr_layer_id request) (default [] (dr_data_handle request))).
Proof.
  intros Hfetch. unfold GetDataInternal.
  destruct (data_service layerType) as [[service data_call]|] eqn:Es; [|intros F HF; by apply ret_rule].
  set (handle := default [] (dr_data_handle request)).
  assert (forall client b, asks_data (dr_layer_id request) handle (data_call client (dr_layer_id request) handle b)) as Hask.
  { intros client b. unfold data_service in Es.
    destruct (bool_decide _); [by simplify_eq|]. by destruct (bool_decide _); simplify_eq. }
  set (query := let* response := getApiClient _ _ _ _ in _).
  apply yields_cancel; [|done].
  apply (through_cache _ _ (fun bytes => Success (Some bytes))); [done| | |done].
  - intros Hoff F HF. unfold query. eapply good_bind; [done|by apply getApiClient_ok|]. intros [client|e];
      [|by apply ret_fact].
    apply (okf_weaken F); [by intros l [? _]|]. apply cancel_rule; [|by apply ret_rule].
    apply call_bind; [done..|]. intros pre. unfold cacheDataResponse.
    destruct (answer_data backend pre _) as [d|e] eqn:Er; [|apply clear_rule; [apply cached_remove|done]].
    apply put_rule; [apply cached_put; [done|]|].
    + intros l [_ Hl]. by eapply by_data.
    + intros l Hl bytes [= ->]. by eapply by_data.
  - intros F. eapply triple_weaken; [apply cached_Data_Get|done|].
    intros a w [Hw Hb]. split; [done|]. intros bytes Hx b [= <-]. by apply Hb.
Qed.

Lemma data_of_partitions_ok F layerType request partition reply :
  dr_data_handle request = None -> dr_partition_id request = Some partition ->
  dr_fetch_option request = CacheOnly \/ offline = false -> stable F ->
  triple (okf (fun l => F l /\ genuine_partitions (Some [partition]) (dr_layer_id request) (dr_version request) reply l))
    (data_of_partitions hrn_ backend is_cancelled layerType request partition (reply_response reply))
    (good F (genuine_data request)).
Proof.
  intros Hh Hpart Hfetch HF. unfold data_of_partitions.
  destruct (reply_response reply) as [[|p [|p' ps]]|e] eqn:Er; try by apply ret_fact.
  assert (stable (genuine_partitions (Some [partition]) (dr_layer_id request) (dr_version request) reply)) as HG
    by apply genuine_partitions_mono.
  destruct (IsInlineData (data_handle_ p)) eqn:Ei.
  - apply ret_fact. intros l Hl bytes [= <-]. rewrite Hh, Hpart.
    destruct (Hl _ Er) as (version & ? & ?). exists version, p. split; [done|]. split; [done|]. by rewrite Ei.
  - eapply good_bind; [by apply stable_and| |].
    { by apply (GetDataInternal_ok layerType (DataRequest_WithDataHandle (Some (data_handle_ p)) request)). }
    intros [d|e].
    + eapply okf_weaken; [|apply (ret_fact F)]; [intros l [[? Hl] Hd]; split; [done|exact (conj Hl Hd)]|].
      intros l [Hl Hd] bytes [= ->]. rewrite Hh, Hpart.
      destruct (Hl _ Er) as (version & ? & ?). exists version, p. split; [done|]. split; [done|]. rewrite Ei. by apply Hd.
    + eapply okf_weaken; [|apply (clear_rule F (fun _ => True)); [apply cached_ClearPartitions|done]].
      by intros l [[? _] _].
Qed.

Lemma GetData_ok request :
  layer_ok (dr_layer_id request) -> dr_fetch_option request = CacheOnly \/ offline = false ->
  yields (GetData hrn_ backend is_cancelled request) (fun r l => genuine_data request (reply_response r) l).
Proof.
  intros Hlay Hfetch.
  assert (forall layerType handle F G, dr_data_handle request = Some handle -> stable F -> stable G ->
    triple (okf (fun l => F l /\ G l))
    (let* response := GetDataInternal hrn_ backend is_cancelled layerType request in st_ret (ByRequest response))
    (good F (fun r l => genuine_data request (reply_response r) l))) as Hinternal.
  { intros layerType handle F G Eh HF HG. eapply good_bind; [by apply stable_and|by apply GetDataInternal_ok|].
    intros r. eapply okf_weaken; [|apply (ret_fact F)]; [intros l [[? _] Hd]; split; [done|exact Hd]|].
    intros l Hd bytes Hb. rewrite Eh in Hd |- *. by apply Hd. }
  unfold GetData. destruct (dr_data_handle request) as [handle|] eqn:Eh, (dr_partition_id request) as [partition|] eqn:Ep;
    [| | |intros F HF; by apply ret_rule].
  all: apply yields_cancel; [|done]; intros F HF.
  all: eapply good_bind; [done|by apply getCatalog_ok|]; intros [catalog|e]; [|by apply ret_fact].
  all: destruct (find_layer (dr_layer_id request) catalog) as [layer|]; [|by apply ret_fact].
  1,2: apply (Hinternal _ handle); [done..|]; intros l l' Hl H1 c Hc; eapply genuine_mono; eauto.
  apply (okf_weaken F); [by intros l [? _]|]. apply cancel_rule; [|by apply ret_rule].
  eapply good_bind; [done|by apply GetPartitionsById_ok|]. intros reply. cbn [pr_layer_id pr_version].
  eapply triple_bind; [by apply data_of_partitions_ok|]. intros r. apply triple_ret. by intros w ?.
Qed.

End offline.
End genuine.
End facts.
