(* ===== verification/ReadSpec.v ===== *)
(** * What the read client promises

    The repositories answer a sequence of requests.  Nothing is answered or cached
    but what the network answered or the cache had, no exception escapes while the
    cache is well typed, [CacheOnly] requests make no calls and add nothing to the
    cache, and what was fetched can be read again offline. *)

From Stdlib Require Import ZArith Lia Bool Ascii.
From stdpp Require Import base numbers strings gmap list.
From S2P Require Import Prelude Decimal Http Hrn ReadModel ReadCache ReadRepositories ReadFacts.
Local Open Scope Z_scope.
Local Open Scope st_scope.

(** ** Sequences of requests *)

Inductive ReadRequest :=
| AskCatalog (r : CatalogRequest) | AskVersion (r : CatalogVersionRequest) | AskPartitions (r : PartitionsRequest)
| AskPartitionsById (r : PartitionsRequest) (ids : list text) | AskData (r : DataRequest).

Inductive ReadAnswer :=
| GotCatalog (r : Response Catalog) | GotVersion (r : Response Z) | GotPartitions (r : Reply (list Partition))
| GotData (r : Reply Data).

Definition fetch_option (r : ReadRequest) : FetchOptions :=
  match r with
  | AskCatalog r => cr_fetch_option r | AskVersion r => vr_fetch_option r
  | AskPartitions r | AskPartitionsById r _ => pr_fetch_option r | AskData r => dr_fetch_option r
  end.

Definition request_layer (r : ReadRequest) : option text :=
  match r with
  | AskPartitions r | AskPartitionsById r _ => Some (pr_layer_id r) | AskData r => Some (dr_layer_id r)
  | _ => None
  end.

Section serve.
  Context {C : Type} `{KeyValueCache C}.
  Variables (hrn_ : HRN) (backend : Backend) (is_cancelled : nat -> bool).

Definition serve (r : ReadRequest) : ST (World C) ReadAnswer :=
  match r with
  | AskCatalog r => let* a := getCatalog hrn_ backend is_cancelled r in st_ret (GotCatalog a)
  | AskVersion r => let* a := getLatestCatalogVersion hrn_ backend is_cancelled r in st_ret (GotVersion a)
  | AskPartitions r => let* a := GetPartitions hrn_ backend is_cancelled r in st_ret (GotPartitions a)
  | AskPartitionsById r ids =>
    let* a := GetPartitionsById hrn_ backend is_cancelled r ids in st_ret (GotPartitions a)
  | AskData r => let* a := GetData hrn_ backend is_cancelled r in st_ret (GotData a)
  end.

Fixpoint serve_all (rs : list ReadRequest) : ST (World C) (list ReadAnswer) :=
  match rs with
  | [] => st_ret []
  | r :: rest => let* a := serve r in let* l := serve_all rest in st_ret (a :: l)
  end.

End serve.

(** ** Genuine answers *)

Section spec.
  Context {C : Type} `{SoundCache C}.
  Variables (hrn_ : HRN) (backend : Backend) (is_cancelled : nat -> bool).

  Abbreviation hrn := (ToCatalogHRNString hrn_).

(** A successful answer is what the cache had or the network said: about this catalog, and
    about the layer, the ids, the version or the handle of the request. *)
Definition genuine_answer (initial : gmap text CacheValue) (layer_ok : text -> Prop) (l : list ApiCall)
    (r : ReadRequest) (a : ReadAnswer) : Prop :=
  match r, a with
  | AskCatalog _, GotCatalog a =>
    forall c, a = Success c -> genuine hrn_ backend initial layer_ok l (CatalogKey hrn) (CachedCatalog c)
  | AskVersion _, GotVersion a =>
    forall v, a = Success v -> genuine hrn_ backend initial layer_ok l (VersionKey hrn) (CachedVersion v)
  | AskPartitions r, GotPartitions a =>
    genuine_partitions hrn_ backend initial layer_ok None (pr_layer_id r) (pr_version r) a l
  | AskPartitionsById r ids, GotPartitions a =>
    genuine_partitions hrn_ backend initial layer_ok (Some ids) (pr_layer_id r) (pr_version r) a l
  | AskData r, GotData a => genuine_data hrn_ backend initial layer_ok r (reply_response a) l
  | _, _ => False
  end.

Section serving.
  Variables (throws : Prop) (initial : gmap text CacheValue) (layer_ok : text -> Prop).
  Hypothesis typed : throws \/
    ((forall layer, layer_ok layer -> colon_char ∉ layer) /\
     (forall k y, initial !! k = Some y -> right_type hrn_ layer_ok k y)).
  Variables (offline : bool) (calls0 : list ApiCall).

  Abbreviation ok := (ok hrn_ backend initial layer_ok offline calls0).

Definition servable (r : ReadRequest) : Prop :=
  (fetch_option r = CacheOnly \/ offline = false) /\ (forall layer, request_layer r = Some layer -> layer_ok layer).

Lemma serve_ok r :
  servable r ->
  triple throws ok (serve hrn_ backend is_cancelled r)
    (fun a w => ok w /\ genuine_answer initial layer_ok (calls w) r a).
Proof.
  intros [Hf Hl].
  assert (forall {A B} (m : ST (World C) A) Phi (f : A -> B) Q,
    yields throws hrn_ backend initial layer_ok offline calls0 m Phi ->
    (forall a l, Phi a l -> Q l (f a)) ->
    triple throws ok (let* a := m in st_ret (f a)) (fun b w => ok w /\ Q (calls w) b)) as Hwrap.
  { intros A B m Phi f Q Hm HQ. eapply triple_bind.
    - eapply triple_pre; [|apply (Hm (fun _ => True))]; [intros w Hw; by split|done].
    - intros a. apply triple_ret. intros w [[Hw _] HP]. split; [done|by apply HQ]. }
  destruct r as [r|r|r|r ids|r]; cbn [serve].
  - refine (Hwrap _ _ _ _ _ (fun l a => genuine_answer initial layer_ok l (AskCatalog r) a) _ _);
      [by apply getCatalog_ok|done].
  - refine (Hwrap _ _ _ _ _ (fun l a => genuine_answer initial layer_ok l (AskVersion r) a) _ _);
      [by apply getLatestCatalogVersion_ok|done].
  - refine (Hwrap _ _ _ _ _ (fun l a => genuine_answer initial layer_ok l (AskPartitions r) a) _ _);
      [apply GetPartitions_ok; [done|by apply Hl|done]|done].
  - refine (Hwrap _ _ _ _ _ (fun l a => genuine_answer initial layer_ok l (AskPartitionsById r ids) a) _ _);
      [apply GetPartitionsById_ok; [done|by apply Hl|done]|done].
  - refine (Hwrap _ _ _ _ _ (fun l a => genuine_answer initial layer_ok l (AskData r) a) _ _);
      [apply GetData_ok; [done|by apply Hl|done]|done].
Qed.

Lemma genuine_answer_mono l l' r a :
  l `prefix_of` l' -> genuine_answer initial layer_ok l r a -> genuine_answer initial layer_ok l' r a.
Proof.
  intros Hl. destruct r, a; cbn; try done; intros Ha.
  - intros c Hc. eapply genuine_mono; eauto.
  - intros v Hv. eapply genuine_mono; eauto.
  - by eapply genuine_partitions_mono.
  - by eapply genuine_partitions_mono.
  - by eapply genuine_data_mono.
Qed.
End serving.

(** A sequence of requests, all online or all offline. *)
Lemma serve_all_ok throws initial layer_ok offline rs :
  throws \/ ((forall layer, layer_ok layer -> colon_char ∉ layer) /\
             (forall k y, initial !! k = Some y -> right_type hrn_ layer_ok k y)) ->
  Forall (servable layer_ok offline) rs -> forall calls0,
  triple throws (ok hrn_ backend initial layer_ok offline calls0) (serve_all hrn_ backend is_cancelled rs)
    (fun answers w => ok hrn_ backend initial layer_ok offline calls0 w /\
       Forall2 (genuine_answer initial layer_ok (calls w)) rs answers).
Proof.
  intros Ht Hrs. induction Hrs as [|r rs Hr Hrs IH]; intros calls0; cbn [serve_all].
  - apply triple_ret. by split.
  - intros w Hw. pose proof (serve_ok throws initial layer_ok Ht offline calls0 r Hr w Hw) as Hr1.
    unfold st_bind. destruct (serve hrn_ backend is_cancelled r w) as [[a w1]|]; [|done].
    destruct Hr1 as [[Hg1 [Hp1 Ho1]] Ha].
    assert (ok hrn_ backend initial layer_ok offline (calls w1) w1) as Hw1.
    { split; [done|]. split; [done|]. intros Hoff. by destruct (Ho1 Hoff). }
    specialize (IH (calls w1) w1 Hw1).
    destruct (serve_all hrn_ backend is_cancelled rs w1) as [[answers w2]|]; [|done].
    destruct IH as [[Hg2 [Hp2 Ho2]] Hl]. split.
    + split; [done|]. split; [by transitivity (calls w1)|]. intros Hoff.
      destruct (Ho1 Hoff), (Ho2 Hoff). split; [congruence|done].
    + constructor; [|done]. by eapply genuine_answer_mono.
Qed.

(** ** The properties *)

(** C6. Whatever the network answers, whenever the caller cancels, and whatever the
    cache loses: every entry the cache has afterwards was there before or is the answer of
    the network to one of the calls made, under the key of what was asked for, with the
    version of the catalog for which partitions were asked.  Every catalog and version the
    client returns is such an entry.  Partitions are either exactly one answer of the
    network, for the layer and the ids of the request, or the cached entries of these ids,
    both at the version that the catalog and the request determine; data are those of the
    handle of the request or of the partition found in this way. *)
Theorem read_answers_genuine rs (w : World C) answers w' :
  calls w = [] ->
  serve_all hrn_ backend is_cancelled rs w = Some (answers, w') ->
  let origin := genuine hrn_ backend (view (cache_ w)) (fun _ => True) (calls w') in
  (forall k v, view (cache_ w') !! k = Some v -> origin k v) /\
  Forall2 (genuine_answer (view (cache_ w)) (fun _ => True) (calls w')) rs answers.
Proof.
  intros Hc E. assert (ok hrn_ backend (view (cache_ w)) (fun _ => True) false [] w) as Hok.
  { split; [by intros k v ?; apply was_cached|]. rewrite Hc. by split. }
  assert (Forall (servable (fun _ => True) false) rs) as Hrs by (apply Forall_true; intros r; by split; [right|]).
  pose proof (serve_all_ok True (view (cache_ w)) (fun _ => True) false rs (or_introl I) Hrs [] w Hok) as Hs.
  rewrite E in Hs. destruct Hs as [[Hg _] Ha]. by split.
Qed.

(** C31. The entries of the cache keep their types: as long as the values under the
    client's keys have the expected types, and layer ids have no colon, no request
    ends with an exception, and the values keep their types. *)
Theorem cache_stays_typed rs (w : World C) :
  let typed w := forall k y, view (cache_ w) !! k = Some y -> right_type hrn_ (fun layer => colon_char ∉ layer) k y in
  typed w -> Forall (fun r => forall layer, request_layer r = Some layer -> colon_char ∉ layer) rs ->
  exists answers w', serve_all hrn_ backend is_cancelled rs w = Some (answers, w') /\ typed w'.
Proof.
  intros typed Hw Hrs. set (plain := fun layer : text => colon_char ∉ layer).
  assert (ok hrn_ backend (view (cache_ w)) plain false [] w) as Hok.
  { split; [by intros k v ?; apply was_cached|]. split; [apply prefix_nil|done]. }
  assert (Forall (servable plain false) rs) as Hs.
  { eapply Forall_impl; [done|]. intros r Hr. split; [by right|done]. }
  assert (False \/ ((forall layer, plain layer -> colon_char ∉ layer) /\
    (forall k y, view (cache_ w) !! k = Some y -> right_type hrn_ plain k y))) as Ht by (right; by split).
  pose proof (serve_all_ok False (view (cache_ w)) plain false rs Ht Hs [] w Hok) as Hall.
  destruct (serve_all hrn_ backend is_cancelled rs w) as [[answers w']|]; [|done].
  destruct Hall as [[Hg _] _]. exists answers, w'. split; [done|]. intros k y Hk.
  destruct (genuine_typed False hrn_ backend (view (cache_ w)) plain Ht (calls w') k y) as [|]; [by apply Hg|done|done].
Qed.

(** C37. Requests with the option [CacheOnly] are served without the network: no call
    is made, and nothing is added to the cache. *)
Theorem cache_only_is_offline rs (w : World C) answers w' :
  Forall (fun r => fetch_option r = CacheOnly) rs ->
  serve_all hrn_ backend is_cancelled rs w = Some (answers, w') ->
  calls w' = calls w /\ view (cache_ w') ⊆ view (cache_ w).
Proof.
  intros Hf E. assert (ok hrn_ backend (view (cache_ w)) (fun _ => True) true (calls w) w) as Hok.
  { split; [by intros k v ?; apply was_cached|done]. }
  assert (Forall (servable (fun _ => True) true) rs) as Hrs.
  { eapply Forall_impl; [done|]. intros r Hr. by split; [left|]. }
  pose proof (serve_all_ok True (view (cache_ w)) (fun _ => True) true rs (or_introl I) Hrs (calls w) w Hok) as Hs.
  rewrite E in Hs. by destruct Hs as [[_ [_ Ho]] _]; apply Ho.
Qed.
End spec.
