(* ===== verification/ReadPrefetch.v ===== *)
(** * Prefetching tiles

    [PrefetchTilesRepository.cpp] (quad tree queries) and
    [PrefetchTilesProvider.cpp], in the style of [ReadRepositories]: each function
    returns what its callback is called with.  The queries run in parallel threads
    whose results are collected in order; here they run one after the other.  A
    result [None] is an exception, or a selection of tiles that does not end. *)

From Stdlib Require Import ZArith Lia Bool Ascii.
From stdpp Require Import base numbers strings gmap sorting list.
From S2P Require Import Prelude Decimal TileKey DiskCache Http Hrn ReadModel ReadCache ReadRepositories PrefetchTiles.
Local Open Scope Z_scope.
Local Open Scope st_scope.

(** A [std::map] is iterated in the order of its keys. *)
Definition key_le (a b : text * TileKeyAndDepth) : Prop := text_leb a.1 b.1 = true.
#[global] Instance key_le_dec a b : Decision (key_le a b).
Proof. unfold key_le. apply _. Defined.
Definition iterate (request : SubQuadsRequest) : list (text * TileKeyAndDepth) :=
  merge_sort key_le (map_to_list request).

(** The result for one tile: no error, or the error of its data. *)
Record PrefetchTileResult := MkPrefetchTileResult { tile_key_ : TileKey; tile_error_ : option ApiError }.

(** Fuel for the selection of the tiles ([prefetch_covers_related_tiles]). *)
Definition prefetch_fuel : nat := 65.

Definition PartitionFromSubQuad (subQuad : SubQuad) (partition : text) : Partition :=
  MkPartition (sq_checksum subQuad) (sq_compressed_data_size subQuad) (sq_data_handle subQuad)
    (sq_data_size subQuad) partition (Some (sq_version subQuad)).

Section prefetch.
  Context {C : Type} `{KeyValueCache C}.
  Variables (hrn_ : HRN) (backend : Backend) (is_cancelled : nat -> bool).

  Abbreviation hrn := (ToCatalogHRNString hrn_).
  Abbreviation EOC := (ExecuteOrCancelled is_cancelled).

(** The answer to a quad tree query: the tiles with their data handles, and the
    partitions that are cached for them. *)
Definition subquads_result (tile : TileKey) (subquads : list SubQuad) : list (TileKey * text) :=
  (fun subquad => (AddedSubHereTile tile (sub_quad_key_ subquad), sq_data_handle subquad)) <$> subquads.
Definition subquads_partitions (tile : TileKey) (subquads : list SubQuad) : list Partition :=
  (fun subquad =>
     PartitionFromSubQuad subquad (ToHereTile (AddedSubHereTile tile (sub_quad_key_ subquad)))) <$> subquads.

Definition GetSubQuads (prefetchRequest : PrefetchTilesRequest) (tile : TileKey) (version : Z)
    (expiry : option Z) (depth : Z) : ST (World C) (Response (list (TileKey * text))) :=
  EOC
    (let* response := getApiClient hrn_ backend (str "query") (str "v1") in
     match response with
     | Failure e => st_ret (Failure e)
     | Success client =>
       EOC
         (let* indexResponse := call (answer_index backend)
            (QueryApi_QuadTreeIndex client (tr_layer_id prefetchRequest) version (ToHereTile tile) depth
               (tr_billing_tag prefetchRequest)) in
          match indexResponse with
          | Failure e => st_ret (Failure e)
          | Success subquads =>
            cached (Partitions_Put hrn
              (MkPartitionsRequest (tr_layer_id prefetchRequest) (Some version) None OnlineIfNotFound)
              (subquads_partitions tile subquads) expiry false) ;;
            st_ret (Success (subquads_result tile subquads))
          end)
         (st_ret cancelled_response)
     end)
    (st_ret cancelled_response).

(** The errors of the queries are dropped. *)
Fixpoint GetSubTiles (prefetchRequest : PrefetchTilesRequest) (version : Z) (expiry : option Z)
    (request : list (text * TileKeyAndDepth)) : ST (World C) (list (TileKey * text)) :=
  match request with
  | [] => st_ret []
  | (_, (tile, depth)) :: rest =>
    let* response := GetSubQuads prefetchRequest tile version expiry depth in
    let* results := GetSubTiles prefetchRequest version expiry rest in
    st_ret (match response with Success result => result ++ results | Failure _ => results end)
  end.

Fixpoint QueryDataForEachSubTile (request : PrefetchTilesRequest) (layerType : text)
    (subtiles : list (TileKey * text)) : ST (World C) (list PrefetchTileResult) :=
  match subtiles with
  | [] => st_ret []
  | (tile, handle) :: rest =>
    let* r :=
      (if IsInlineData handle then st_ret (MkPrefetchTileResult tile None)
       else
         let* response := GetDataInternal hrn_ backend is_cancelled layerType
           (MkDataRequest (tr_layer_id request) None None (Some handle) (tr_billing_tag request) OnlineIfNotFound) in
         st_ret (MkPrefetchTileResult tile
           (match response with Success _ => None | Failure e => Some e end))) in
    let* results := QueryDataForEachSubTile request layerType rest in
    st_ret (r :: results)
  end.

(** [PrefetchTilesProvider::PrefetchTiles] once the provider is not busy. *)
Definition prefetch (request : PrefetchTilesRequest) : ST (World C) (Response (list PrefetchTileResult)) :=
  EOC
    (let* catalogResponse := getCatalog hrn_ backend is_cancelled
       (MkCatalogRequest (tr_billing_tag request) OnlineIfNotFound) in
     match catalogResponse with
     | Failure e => st_ret (Failure e)
     | Success catalog =>
       match find_layer (tr_layer_id request) catalog with
       | None => st_ret no_layer
       | Some layer =>
         EOC
           (let* response := getLatestCatalogVersion hrn_ backend is_cancelled
              (MkCatalogVersionRequest (-1) (tr_billing_tag request) OnlineIfNotFound) in
            match response with
            | Failure e => st_ret (Failure e)
            | Success version =>
              match EffectiveTileKeys prefetch_fuel (tile_keys_ request) (min_level_ request) (max_level_ request) with
              | None => fun _ => None
              | Some calculatedTileKeys =>
                if (size calculatedTileKeys =? 0)%nat
                then st_ret (error InvalidArgument "TileKey and Levels mismatch.")
                else
                  let* subtiles := GetSubTiles request version (layer_expiry layer) (iterate calculatedTileKeys) in
                  let* results := QueryDataForEachSubTile request (layer_type_ layer) subtiles in
                  st_ret (Success results)
              end
            end)
           (st_ret cancelled_response)
       end
     end)
    (st_ret cancelled_response).

(** [PrefetchTiles] with the flag [prefetchProviderBusy_]. *)
Definition PrefetchTiles (busy : bool) (request : PrefetchTilesRequest)
    : ST (World C) (Response (list PrefetchTileResult)) :=
  if busy
  then st_ret (Failure (ApiError_of_code SlowDown (str "Busy prefetching at the moment.") true))
  else prefetch request.

End prefetch.
