(* ===== verification/PrefetchOffline.v ===== *)
(** * Every tile of a successful prefetch can be read offline

    The functions of the prefetch put what they fetch into a cache that loses
    nothing; the entries a tile needs, the catalog, the version, the partition and
    its data, are all there when it has ended without errors. *)

From Stdlib Require Import ZArith Lia Bool Ascii.
From stdpp Require Import base numbers strings gmap sorting list.
From S2P Require Import Prelude Decimal TileKey Http Hrn ReadModel ReadCache ReadRepositories PrefetchTiles ReadFacts.
From S2P Require Import ReadPrefetch ReadOffline.
Local Open Scope Z_scope.
Local Open Scope st_scope.

Section prefetch.
  Context {C : Type} `{LosslessCache C}.
  Variables (hrn_ : HRN) (backend : Backend) (is_cancelled : nat -> bool).

  Abbreviation hrn := (ToCatalogHRNString hrn_).
  Abbreviation triple := (ReadFacts.triple True).
  Abbreviation View := (gmap text CacheValue).

(** ** Rules about the entries *)

Definition has (P : View -> Prop) (w : World C) : Prop := P (view (cache_ w)).

Lemma has_put (P : View -> Prop) k v e :
  triple (has (fun V => P (<[k := v]> V))) (cached (put k v e)) (fun _ w => has P w).
Proof. intros w Hw. unfold cached, put, has in *. cbn. by rewrite put_keeps. Qed.

Lemma has_get {A : Type} (P : View -> Prop) (cast : CacheValue -> option A) k :
  triple (has P) (cached (let* v := get k in any_cast cast v))
    (fun a w => has P w /\ forall x, a = Some x -> exists y, view (cache_ w) !! k = Some y /\ cast y = Some x).
Proof.
  intros w Hw. pose proof (get_keeps k (cache_ w)) as Hk. pose proof (get_found k (cache_ w)) as Hf.
  unfold cached, st_bind, get, has in *. destruct (cache_Get k (cache_ w)) as [c [y|]]; cbn in *.
  - destruct (cast y) as [x|] eqn:E; [|done]. cbn. rewrite Hk. split; [done|]. intros x' [= <-]. by exists y.
  - rewrite Hk. by split.
Qed.

Lemma has_Data_Get (P : View -> Prop) layer h :
  triple (has P) (cached (Data_Get hrn layer h)) (fun a w => has P w /\
    forall bytes, a = Some bytes -> view (cache_ w) !! DataKey hrn layer h = Some (CachedData (Some bytes))).
Proof.
  intros w Hw. pose proof (get_keeps (DataKey hrn layer h) (cache_ w)) as Hk.
  pose proof (get_found (DataKey hrn layer h) (cache_ w)) as Hf.
  unfold cached, Data_Get, st_bind, get, has in *.
  destruct (cache_Get (DataKey hrn layer h) (cache_ w)) as [c0 [y|]]; cbn in *.
  - destruct (as_data y) as [d|] eqn:E; [|done]. cbn. rewrite Hk. split; [done|]. intros bytes Hb.
    rewrite <- Hf, (as_data_inv y d E). by destruct d; simplify_eq.
  - rewrite Hk. by split.
Qed.

Lemma has_call {A : Type} (P : View -> Prop) (answer : list ApiCall -> ApiCall -> A) api :
  triple (has P) (call answer api) (fun r w => has P w /\ exists pre, r = answer pre api).
Proof. intros w Hw. cbn. split; [done|]. by eexists. Qed.

Lemma has_run {A : Type} (P : View -> Prop) (m1 m2 : ST (World C) A) Q :
  triple (has P) m1 Q -> triple (has P) m2 Q -> triple (has P) (ExecuteOrCancelled is_cancelled m1 m2) Q.
Proof. intros H1' H2 w Hw. unfold ExecuteOrCancelled. destruct (is_cancelled (checks w)); [apply H2|apply H1']; done. Qed.

(** [P] survives new entries of lookups. *)
Definition lookup_stable (P : View -> Prop) : Prop :=
  forall V s v u, P V -> P (<[ApiKey hrn s v := CachedUrl u]> V).

Lemma has_getApiClient (P : View -> Prop) service version :
  lookup_stable P -> triple (has P) (getApiClient hrn_ backend service version) (fun _ w => has P w).
Proof.
  intros HP. unfold getApiClient. eapply triple_bind; [apply has_get|]. intros [url|].
  { apply triple_ret. by intros w [? _]. }
  apply (triple_pre _ (has P)); [by intros w [? _]|].
  eapply (triple_bind _ _ _ (fun _ w => has P w)).
  - unfold LookupApiClient, LookupApi. destruct (GetDatastoreServerUrl _); [intros w Hw; exact Hw|].
    intros w Hw. destruct (bool_decide _); exact Hw.
  - intros [url|e]; [|by apply triple_ret].
    eapply (triple_bind _ _ _ (fun _ w => has P w)); [|intros []; by apply triple_ret].
    eapply triple_pre; [|apply has_put]. intros w Hw. by apply HP.
Qed.

(** On success only, for the answers of a function. *)
Definition on_success {R} (Q : R -> World C -> Prop) (r : Response R) (w : World C) : Prop :=
  match r with Success x => Q x w | Failure _ => True end.

Definition has_catalog (c : Catalog) (V : View) : Prop := V !! CatalogKey hrn = Some (CachedCatalog c).
Definition has_version (v : Z) (V : View) : Prop := V !! VersionKey hrn = Some (CachedVersion v).

Ltac other_key :=
  intros E; apply (f_equal last_part) in E;
  rewrite ?last_part_Api, ?last_part_Catalog, ?last_part_Version, ?last_part_LayerVersions, ?last_part_Data,
    ?last_part_Partition, ?last_part_Partitions in E; discriminate E.
Ltac keep := rewrite lookup_insert_ne by other_key.

Lemma has_getCatalog request :
  triple (has (fun _ => True)) (getCatalog hrn_ backend is_cancelled request) (on_success (fun c => has (has_catalog c))).
Proof.
  unfold getCatalog. set (query := let* response := getApiClient _ _ _ _ in _).
  assert (triple (has (fun _ => True)) query (on_success (fun c => has (has_catalog c)))) as Hq.
  { unfold query. eapply triple_bind; [by apply has_getApiClient|]. intros [client|e]; [|by apply triple_ret].
    apply has_run; [|by apply triple_ret]. eapply triple_bind; [apply has_call|]. intros [c|e].
    - eapply triple_bind.
      + eapply triple_pre; [|apply (has_put (has_catalog c))]. intros w _. unfold has, has_catalog. apply lookup_insert_eq.
      + intros []. by apply triple_ret.
    - eapply (triple_bind _ _ _ (fun _ _ => True)); [by destruct (is_403 e)|]. intros []. by apply triple_ret. }
  apply has_run; [|by apply triple_ret]. apply triple_if; [|done].
  eapply triple_bind; [apply has_get|]. intros [c|].
  - apply triple_ret. intros w [_ Hc]. destruct (Hc c eq_refl) as (y & Hy & E). destruct y; by simplify_eq/=.
  - apply triple_if; [by apply triple_ret|]. apply (triple_pre _ (has (fun _ => True))); done.
Qed.

Lemma has_getVersion request c :
  vr_fetch_option request <> CacheOnly ->
  triple (has (has_catalog c)) (getLatestCatalogVersion hrn_ backend is_cancelled request)
    (on_success (fun v => has (fun V => has_catalog c V /\ has_version v V))).
Proof.
  intros Hf. unfold getLatestCatalogVersion. apply has_run; [|by apply triple_ret].
  rewrite bool_decide_false by congruence.
  eapply triple_bind; [apply has_getApiClient; intros V s v u ?; unfold has_catalog; by keep|].
  intros [client|e]; [|by apply triple_ret]. apply has_run; [|by apply triple_ret].
  eapply triple_bind; [apply has_call|]. intros [v|e].
  - eapply triple_bind.
    + eapply triple_pre; [|apply (has_put (fun V => has_catalog c V /\ has_version v V))].
      intros w [Hw _]. unfold has, has_catalog, has_version in *. split; [by keep|apply lookup_insert_eq].
    + intros []. by apply triple_ret.
  - eapply (triple_bind _ _ _ (fun _ _ => True)); [by destruct (is_403 e)|]. intros []. by apply triple_ret.
Qed.

(** ** The quad trees *)

Section tiles.
  Variables (request : PrefetchTilesRequest) (c : Catalog) (version : Z).

  Abbreviation layer := (tr_layer_id request).
  Abbreviation tile_entry t := (PartitionKey hrn layer t (Some version)).

(** The entries after a list of partitions was put. *)
Definition with_partitions (V : View) (ps : list Partition) : View :=
  foldl (fun V p => <[tile_entry (partition_ p) := CachedPartition p]> V) V ps.

Lemma with_partitions_lookup V ps k :
  (exists p, p ∈ ps /\ tile_entry (partition_ p) = k /\ with_partitions V ps !! k = Some (CachedPartition p)) \/
  (with_partitions V ps !! k = V !! k /\ forall p, p ∈ ps -> tile_entry (partition_ p) <> k).
Proof.
  induction ps as [|p ps IH] using rev_ind; [right; split; [done|by intros p ?%elem_of_nil]|].
  unfold with_partitions. rewrite foldl_app. cbn [foldl]. fold (with_partitions V ps).
  destruct (decide (tile_entry (partition_ p) = k)) as [<-|Hk].
  - left. exists p. rewrite lookup_insert_eq. split; [|done]. apply elem_of_app. right. by left.
  - rewrite lookup_insert_ne by done. destruct IH as [(q & Hq & ? & E)|[E Hne]]; [left|right].
    + exists q. split; [|done]. apply elem_of_app. by left.
    + split; [done|]. intros q [?| ->%list_elem_of_singleton]%elem_of_app; [by apply Hne|done].
Qed.

Lemma has_put_partitions (P : View -> Prop) e ps billing fetch :
  triple (has (fun V => P (with_partitions V ps)))
    (cached (put_partitions hrn (MkPartitionsRequest layer (Some version) billing fetch) e ps)) (fun _ w => has P w).
Proof.
  revert P. induction ps as [|p ps IH]; intros P; cbn [put_partitions].
  - intros w Hw. exact Hw.
  - apply cached_bind. eapply (triple_bind _ _ _ (fun _ => has (fun V => P (with_partitions V ps)))); [|intros []; apply IH].
    eapply triple_pre; [|apply has_put]. by intros w Hw.
Qed.

Definition fetched (l : list (TileKey * text)) (V : View) : Prop :=
  has_catalog c V /\ has_version version V /\
  forall t h, (t, h) ∈ l -> exists p t', V !! tile_entry (ToHereTile t) = Some (CachedPartition p) /\ (t', data_handle_ p) ∈ l.

Lemma fetched_lookup_stable l : lookup_stable (fetched l).
Proof.
  intros V s v u (Hc & Hv & Hl). unfold fetched, has_catalog, has_version in *.
  split_and!; [by keep|by keep|]. intros t h Ht. destruct (Hl t h Ht) as (p & t' & Hp & ?).
  exists p, t'. split; [by keep|done].
Qed.

Definition subquad_partition (tile : TileKey) (sq : SubQuad) : Partition :=
  PartitionFromSubQuad sq (ToHereTile (AddedSubHereTile tile (sub_quad_key_ sq))).

Lemma subquad_partition_id tile sq :
  partition_ (subquad_partition tile sq) = ToHereTile (AddedSubHereTile tile (sub_quad_key_ sq)).
Proof. reflexivity. Qed.

Lemma fetched_more tile subquads l V :
  fetched l V -> fetched (l ++ subquads_result tile subquads) (with_partitions V (subquads_partitions tile subquads)).
Proof.
  intros (Hc & Hv & Hl). set (ps := subquads_partitions tile subquads).
  assert (forall p, p ∈ ps -> exists t, (t, data_handle_ p) ∈ subquads_result tile subquads) as Hback.
  { intros p (sq & -> & Hsq)%list_elem_of_fmap. eexists. apply list_elem_of_fmap.
    exists sq. split; [reflexivity|exact Hsq]. }
  assert (forall k y, V !! k = Some y -> (forall p, tile_entry p <> k) -> with_partitions V ps !! k = Some y) as Hold.
  { intros k y Hk Hne. destruct (with_partitions_lookup V ps k) as [(p & _ & E & _)|[E _]]; [by destruct (Hne (partition_ p))|congruence]. }
  split_and!; [apply Hold; [done|intros p; other_key]..|].
  intros t h Ht. destruct (with_partitions_lookup V ps (tile_entry (ToHereTile t))) as [(p & Hp & _ & E)|[E Hne]].
  - destruct (Hback p Hp) as [t' ?]. exists p, t'. split; [done|]. apply elem_of_app. by right.
  - apply elem_of_app in Ht as [Ht|(sq & Et & Hsq)%list_elem_of_fmap].
    + destruct (Hl t h Ht) as (p & t' & Hp & ?). exists p, t'. rewrite E. split; [done|]. apply elem_of_app. by left.
    + exfalso. apply (f_equal fst) in Et. change (t = AddedSubHereTile tile (sub_quad_key_ sq)) in Et. subst t.
      apply (Hne (subquad_partition tile sq)); [|rewrite subquad_partition_id; reflexivity].
      apply list_elem_of_fmap. exists sq. split; [reflexivity|exact Hsq].
Qed.

Lemma fetched_none (l : list (TileKey * text)) w : has (fetched l) w -> has (fetched (l ++ [])) w.
Proof. rewrite app_nil_r. exact id. Qed.

Lemma has_GetSubQuads tile expiry depth l :
  triple (has (fetched l)) (GetSubQuads hrn_ backend is_cancelled request tile version expiry depth)
    (fun r w => has (fetched (l ++ match r with Success res => res | Failure _ => [] end)) w).
Proof.
  unfold GetSubQuads. apply has_run; [|apply triple_ret; apply fetched_none].
  eapply triple_bind; [apply has_getApiClient, fetched_lookup_stable|].
  intros [client|e]; [|apply triple_ret; apply fetched_none]. apply has_run; [|apply triple_ret; apply fetched_none].
  eapply triple_bind; [apply has_call|]. intros [subquads|e];
    (apply (triple_pre _ (has (fetched l))); [by intros w [? _]|]); [|apply triple_ret; apply fetched_none].
  eapply (triple_bind _ _ _ (fun _ w => has (fetched (l ++ subquads_result tile subquads)) w));
    [|intros []; apply triple_ret; intros w Hw; exact Hw].
  unfold Partitions_Put. apply cached_bind.
  eapply (triple_bind _ _ _ (fun _ => has (fetched (l ++ subquads_result tile subquads))));
    [|intros []; intros w Hw; exact Hw].
  eapply triple_pre; [|apply has_put_partitions]. intros w Hw. unfold has in *. apply fetched_more. exact Hw.
Qed.

Lemma has_GetSubTiles expiry tiles l :
  triple (has (fetched l)) (GetSubTiles hrn_ backend is_cancelled request version expiry tiles)
    (fun res w => has (fetched (l ++ res)) w).
Proof.
  revert l. induction tiles as [|[k [tile depth]] tiles IH]; intros l; cbn [GetSubTiles].
  - apply triple_ret. by rewrite app_nil_r.
  - eapply triple_bind; [apply has_GetSubQuads|]. intros r. eapply triple_bind; [apply IH|].
    intros results. apply triple_ret. intros w. destruct r; rewrite <- app_assoc; [done|by rewrite app_nil_l].
Qed.

(** ** The data *)

Definition has_data (h : text) (V : View) : Prop :=
  IsInlineData h = true \/ exists bytes, V !! DataKey hrn layer h = Some (CachedData (Some bytes)).

(** All tiles are fetched, and the data of the tiles [done]. *)
Definition loaded (all done : list (TileKey * text)) (V : View) : Prop :=
  fetched all V /\ forall t h, (t, h) ∈ done -> has_data h V.

Hypothesis no_null : forall l api d, answer_data backend l api = Success d -> is_Some d.

Lemma loaded_lookup_stable all done : lookup_stable (loaded all done).
Proof.
  intros V s v u [Hf Hd]. split; [by apply fetched_lookup_stable|]. intros t h Ht.
  destruct (Hd t h Ht) as [?|[bytes ?]]; [by left|right]. exists bytes. by keep.
Qed.

Lemma loaded_data all done V t h bytes :
  loaded all done V -> loaded all (done ++ [(t, h)]) (<[DataKey hrn layer h := CachedData (Some bytes)]> V).
Proof.
  intros [(Hc & Hv & Hl) Hd]. unfold loaded, fetched, has_catalog, has_version in *. split_and!; [by keep|by keep| |].
  - intros t1 h1 Ht. destruct (Hl t1 h1 Ht) as (p & t' & Hp & ?). exists p, t'. split; [by keep|done].
  - intros t1 h1 Ht. destruct (decide (DataKey hrn layer h = DataKey hrn layer h1)) as [E|Hne].
    + right. exists bytes. rewrite <- E. apply lookup_insert_eq.
    + apply elem_of_app in Ht as [Ht|[= -> ->]%list_elem_of_singleton]; [|done].
      destruct (Hd t1 h1 Ht) as [?|[b ?]]; [by left|right]. exists b. by rewrite lookup_insert_ne.
Qed.

Lemma has_GetDataInternal layerType r t h all done :
  dr_layer_id r = layer -> dr_data_handle r = Some h ->
  triple (has (loaded all done)) (GetDataInternal hrn_ backend is_cancelled layerType r)
    (on_success (fun _ => has (loaded all (done ++ [(t, h)])))).
Proof.
  intros Hlay Hh. unfold GetDataInternal. rewrite Hlay, Hh. cbn [default from_option].
  destruct (data_service layerType) as [[service data_call]|]; [|by apply triple_ret].
  set (query := let* response := getApiClient _ _ _ _ in _).
  assert (triple (has (loaded all done)) query (on_success (fun _ => has (loaded all (done ++ [(t, h)]))))) as Hq.
  { unfold query. eapply triple_bind; [apply has_getApiClient, loaded_lookup_stable|].
    intros [client|e]; [|by apply triple_ret]. apply has_run; [|by apply triple_ret].
    eapply triple_bind; [apply has_call|]. intros answer. unfold cacheDataResponse.
    destruct answer as [d|e].
    - intros w [Hw [pre Hpre]]. destruct (no_null _ _ d (eq_sym Hpre)) as [bytes ->].
      eapply (triple_bind _ (fun w => has (loaded all done) w) _ (fun _ => has (loaded all (done ++ [(t, h)]))));
        [|intros []; by apply triple_ret|done].
      rewrite Hlay, Hh. cbn [default from_option]. eapply triple_pre; [|apply has_put].
      intros w' Hw'. by apply loaded_data.
    - eapply (triple_bind _ _ _ (fun _ _ => True)); [by destruct (is_403 e)|]. intros []. by apply triple_ret. }
  apply has_run; [|by apply triple_ret]. apply triple_if; [|done].
  eapply triple_bind; [apply has_Data_Get|]. intros [bytes|]; cbn beta iota.
  - apply triple_ret. intros w [[Hf Hd] Hb]. split; [done|].
    intros t1 h1 [?|[= -> ->]%list_elem_of_singleton]%elem_of_app; [by eapply Hd|]. right. exists bytes. by apply Hb.
  - apply (triple_pre _ (has (loaded all done))); [by intros w [? _]|]. apply triple_if; [by apply triple_ret|done].
Qed.

(** The results keep the tiles in order. *)
Lemma Query_tiles layerType subtiles :
  triple (fun _ => True) (QueryDataForEachSubTile hrn_ backend is_cancelled request layerType subtiles)
    (fun results _ => tile_key_ <$> results = subtiles.*1).
Proof.
  induction subtiles as [|[t h] subtiles IH]; cbn [QueryDataForEachSubTile]; [by apply triple_ret|].
  eapply (triple_bind _ _ _ (fun r _ => tile_key_ r = t)).
  - apply triple_if; [by apply triple_ret|].
    eapply (triple_bind _ _ _ (fun _ _ => True)); [|intros a; by apply triple_ret].
    intros w _. by destruct (GetDataInternal _ _ _ _ _ w) as [[]|].
  - intros r. eapply (triple_bind _ _ _ (fun results _ => tile_key_ r = t /\ tile_key_ <$> results = subtiles.*1)).
    + intros w Hr. specialize (IH w I). by destruct (QueryDataForEachSubTile _ _ _ _ _ _ w) as [[]|].
    + intros results. apply triple_ret. intros w [Hr Hrs]. cbn. by rewrite Hr, <- Hrs.
Qed.

(** A condition on the side. *)
Lemma triple_when {W A} (phi : Prop) (P : W -> Prop) (m : ST W A) Q :
  triple P m Q -> triple (fun w => phi -> P w) m (fun a w => phi -> Q a w).
Proof.
  intros Hm w Hp. pose proof (Hm w) as Hw. destruct (m w) as [[a w']|]; [|done]. intros Hphi. by apply Hw, Hp.
Qed.

Definition no_error (r : PrefetchTileResult) : Prop := tile_error_ r = None.

Lemma has_QueryData layerType subtiles all (phi : Prop) done :
  triple (fun w => phi -> has (loaded all done) w)
    (QueryDataForEachSubTile hrn_ backend is_cancelled request layerType subtiles)
    (fun results w => phi -> Forall no_error results -> has (loaded all (done ++ subtiles)) w).
Proof.
  revert phi done. induction subtiles as [|[t h] subtiles IH]; intros phi done; cbn [QueryDataForEachSubTile].
  - apply triple_ret. intros w Hw Hphi _. rewrite app_nil_r. by apply Hw.
  - apply (triple_bind _ _ _ (fun r w => phi /\ no_error r -> has (loaded all (done ++ [(t, h)])) w)).
    + destruct (IsInlineData h) eqn:Ei.
      * apply triple_ret. intros w Hw [Hphi _]. destruct (Hw Hphi) as [Hf Hd]. split; [exact Hf|].
        intros t1 h1 [?|[= -> ->]%list_elem_of_singleton]%elem_of_app; [by eapply Hd|by left].
      * eapply triple_bind; [apply triple_when, has_GetDataInternal with (t := t) (h := h); reflexivity|].
        intros [d|e]; apply triple_ret; intros w Hw [Hphi Hno]; [by apply Hw|by unfold no_error in Hno].
    + intros r. eapply triple_bind; [apply (IH (phi /\ no_error r) (done ++ [(t, h)]))|].
      intros results. apply triple_ret. intros w Hw Hphi Hall. apply Forall_cons in Hall as [Hr Hrs].
      specialize (Hw (conj Hphi Hr) Hrs). by rewrite <- app_assoc in Hw.
Qed.
End tiles.

(** ** The prefetch *)

Lemma triple_and {W A} (P : W -> Prop) (m : ST W A) Q1 Q2 :
  triple P m Q1 -> triple P m Q2 -> triple P m (fun a w => Q1 a w /\ Q2 a w).
Proof. intros Hm1 Hm2 w Hw. specialize (Hm1 w Hw). specialize (Hm2 w Hw). by destruct (m w) as [[]|]. Qed.

(** What the cache has after a prefetch without errors. *)
Definition prefetched (request : PrefetchTilesRequest) (results : list PrefetchTileResult) (V : View) : Prop :=
  Forall no_error results ->
  exists c layer version all,
    find_layer (tr_layer_id request) c = Some layer /\ tile_key_ <$> results = all.*1 /\
    loaded request c version all all V.

Lemma has_prefetch request :
  (forall l api d, answer_data backend l api = Success d -> is_Some d) ->
  triple (has (fun _ => True)) (prefetch hrn_ backend is_cancelled request)
    (on_success (fun results => has (prefetched request results))).
Proof.
  intros Hnull. unfold prefetch. apply has_run; [|by apply triple_ret].
  eapply triple_bind; [apply has_getCatalog|]. intros [c|e]; [|by apply triple_ret].
  destruct (find_layer (tr_layer_id request) c) as [layer|] eqn:El; [|by apply triple_ret].
  apply has_run; [|by apply triple_ret].
  eapply triple_bind; [by apply has_getVersion|]. intros [v|e]; [|by apply triple_ret].
  destruct (EffectiveTileKeys _ _ _ _) as [tiles|]; [|done].
  apply triple_if; [by apply triple_ret|]. apply (triple_pre _ (has (fetched request c v []))).
  { intros w [Hc Hv]. split_and!; [exact Hc|exact Hv|]. by intros t h ?%elem_of_nil. }
  eapply triple_bind; [apply has_GetSubTiles|]. intros subtiles. cbn [app].
  apply (triple_pre _ (fun w => True -> has (loaded request c v subtiles []) w)).
  { intros w Hw _. split; [exact Hw|]. by intros t h ?%elem_of_nil. }
  eapply triple_bind.
  { apply triple_and; [by apply (has_QueryData request c v Hnull)|].
    eapply triple_pre; [|apply Query_tiles]. done. }
  intros results. apply triple_ret. intros w [Hw Ht] Hno. exists c, layer, v, subtiles.
  split_and!; [exact El|exact Ht|]. by apply Hw.
Qed.

(** C5. Every tile of a prefetch can be read offline: when a prefetch of a versioned
    layer ended without an error for any tile, with a cache that loses nothing and a
    network that never answers null data, then for each tile of its results a
    [CacheOnly] request for the data of the tile, whatever the network would answer,
    is answered with bytes, without a call and without a change of an entry. *)
Theorem prefetched_tiles_readable_offline request (w : World C) results w' :
  (forall l api d, answer_data backend l api = Success d -> is_Some d) ->
  prefetch hrn_ backend is_cancelled request w = Some (Success results, w') ->
  Forall no_error results ->
  exists c layer,
    view (cache_ w') !! CatalogKey hrn = Some (CachedCatalog c) /\
    find_layer (tr_layer_id request) c = Some layer /\
    (layer_type_ layer = str "versioned" ->
     forall r offline_backend billing, r ∈ results ->
     exists bytes w'',
       GetData hrn_ offline_backend never
         (MkDataRequest (tr_layer_id request) (Some (ToHereTile (tile_key_ r))) None None billing CacheOnly) w'
       = Some (ByRequest (Success (Some bytes)), w'') /\
       view (cache_ w'') = view (cache_ w') /\ calls w'' = calls w').
Proof.
  intros Hnull E Hno. pose proof (has_prefetch request Hnull w I) as Hp. rewrite E in Hp.
  destruct (Hp Hno) as (c & layer & v & all & Hl & Ht & (Hc & Hv & Hall) & Hd).
  exists c, layer. split_and!; [exact Hc|exact Hl|]. intros Htype r b billing Hr.
  assert (tile_key_ r ∈ all.*1) as ([t h] & Et & Hth)%list_elem_of_fmap by (rewrite <- Ht; by apply list_elem_of_fmap_2).
  destruct (Hall t h Hth) as (p & t' & Hentry & Hp'). cbn in Et. rewrite <- Et in Hentry.
  set (request' := MkDataRequest _ _ _ _ _ _).
  destruct (get_data_offline hrn_ b w' c layer request' (ToHereTile (tile_key_ r)) p (Some v))
    as (w'' & Ew & Hkeep & Hcalls); try done.
  - rewrite Htype. by eexists.
  - by intros v' [= <-].
  - unfold lookup_version. rewrite bool_decide_false by (by intros ?). exact Hentry.
  - intros Hi y Hy. destruct (Hd t' _ Hp') as [?|[bytes Hb]]; [congruence|]. cbn in Hy. exists (Some bytes). congruence.
  - rewrite Ew. unfold offline_data. destruct (Hd t' _ Hp') as [->|[bytes Hb]]; [by eauto|].
    cbn [dr_layer_id request']. rewrite Hb. destruct (IsInlineData _); by eauto.
Qed.
End prefetch.
