(* ===== verification/ReadExamples.v ===== *)
(** * The read client on concrete requests

    A catalog with one versioned layer, a network that always answers the same, and
    the simplest cache; the theorems about the read client applied to them. *)

From Stdlib Require Import ZArith Lia Bool Ascii.
From stdpp Require Import base numbers strings gmap list.
From S2P Require Import Prelude Decimal TileKey Http Hrn ReadModel ReadCache ReadRepositories ReadFacts ReadSpec.
From S2P Require Import ReadPrefetch ReadOffline PrefetchOffline.
Local Open Scope Z_scope.

Definition example_hrn : HRN := MkHRN (str "here") Hrn.Data [] [] (str "map") [] [] [] [] [].
Definition example_layer : Layer := MkLayer (str "roads") (str "versioned") None [].
Definition example_backend : Backend := {|
  answer_apis _ _ := Success [str "https://api"];
  answer_catalog _ _ := Success (MkCatalog [example_layer] []);
  answer_version _ _ := Success 3;
  answer_layer_versions _ _ := Success (MkLayerVersions [] 3);
  answer_partitions _ _ := Success [MkPartition None None (str "h1") None (str "5") (Some 3)];
  answer_index _ _ := Success [MkSubQuad None None (str "h1") None (str "1") 3];
  answer_data _ _ := Success (Some (str "bytes")) |}.
Definition empty_world : World (gmap text CacheValue) := MkWorld ∅ [] 0.

Definition example_requests (o : FetchOptions) : list ReadRequest :=
  [AskCatalog (MkCatalogRequest None o);
   AskVersion (MkCatalogVersionRequest (-1) None o);
   AskPartitionsById (MkPartitionsRequest (str "roads") (Some 3) None o) [str "5"];
   AskData (MkDataRequest (str "roads") (Some (str "5")) None None None o);
   AskData (MkDataRequest (str "rails") (Some (str "5")) None None None o)].

Definition example_run (o : FetchOptions) (w : World (gmap text CacheValue)) :=
  serve_all example_hrn example_backend never (example_requests o) w.

(** The world after the requests were answered online. *)
Definition filled_world : World (gmap text CacheValue) :=
  match example_run OnlineIfNotFound empty_world with Some (_, w) => w | None => empty_world end.

Definition succeeded (a : ReadAnswer) : bool :=
  match a with
  | GotCatalog (Success _) | GotVersion (Success _) | GotPartitions (ByRequest (Success _))
  | GotData (ByRequest (Success _)) => true
  | _ => false
  end.

(** Four requests succeed; there is no layer [rails].  Nine calls are made,
    those that look up the services included, and all can be repeated offline. *)
Example online_run :
  option_map (fun '(answers, w) => (succeeded <$> answers, length (calls w))) (example_run OnlineIfNotFound empty_world)
  = Some ([true; true; true; true; false], 9%nat).
Proof. vm_compute. reflexivity. Qed.

Example offline_run :
  option_map (fun '(answers, w) => (succeeded <$> answers, length (calls w))) (example_run CacheOnly filled_world)
  = Some ([true; true; true; true; false], 9%nat).
Proof. vm_compute. reflexivity. Qed.

Lemma read_answers_genuine_witness :
  exists answers w', example_run OnlineIfNotFound empty_world = Some (answers, w') /\
  Forall2 (genuine_answer example_hrn example_backend ∅ (fun _ => True) (calls w'))
    (example_requests OnlineIfNotFound) answers.
Proof.
  pose proof online_run as Hrun.
  destruct (example_run OnlineIfNotFound empty_world) as [[answers w']|] eqn:E; [clear Hrun|discriminate Hrun].
  exists answers, w'. split; [reflexivity|]. exact (proj2 (read_answers_genuine _ _ _ _ empty_world _ _ eq_refl E)).
Defined.

Lemma cache_stays_typed_witness :
  exists answers w', example_run OnlineIfNotFound empty_world = Some (answers, w') /\
  forall k y, cache_ w' !! k = Some y -> right_type example_hrn (fun layer => colon_char ∉ layer) k y.
Proof.
  refine (cache_stays_typed example_hrn example_backend never _ empty_world _ _).
  - intros k y Hk. cbn in Hk. rewrite lookup_empty in Hk. discriminate Hk.
  - assert (forall layer, layer = str "roads" \/ layer = str "rails" -> colon_char ∉ layer) as Hplain
      by (intros layer [->| ->]; apply (bool_decide_unpack _); vm_compute; exact I).
    repeat (apply Forall_cons; split; [intros layer E; apply Hplain; cbn in E; first [discriminate E|injection E as <-; auto]|]).
    apply Forall_nil. exact I.
Defined.

Lemma cache_only_is_offline_witness :
  exists answers w', example_run CacheOnly filled_world = Some (answers, w') /\
  calls w' = calls filled_world /\ view (cache_ w') ⊆ view (cache_ filled_world).
Proof.
  pose proof offline_run as Hrun.
  destruct (example_run CacheOnly filled_world) as [[answers w']|] eqn:E; [clear Hrun|discriminate Hrun].
  exists answers, w'. split; [reflexivity|].
  apply (cache_only_is_offline example_hrn example_backend never (example_requests CacheOnly) filled_world answers w').
  - unfold example_requests. repeat (apply Forall_cons; split; [reflexivity|]). apply Forall_nil. exact I.
  - exact E.
Defined.

(** One tile of level 1. *)
Definition example_prefetch : PrefetchTilesRequest :=
  MkPrefetchTilesRequest (str "roads") [MkTileKey 0 1 1] 1 1 None.

Definition fine_prefetch (r : Response (list PrefetchTileResult)) : option (list PrefetchTileResult) :=
  match r with
  | Success [MkPrefetchTileResult t None] => Some [MkPrefetchTileResult t None]
  | _ => None
  end.

Example prefetch_run :
  option_map (fun o => (fine_prefetch o.1, cache_ o.2 !! CatalogKey (ToCatalogHRNString example_hrn)))
    (prefetch example_hrn example_backend never example_prefetch empty_world)
  = Some (Some [MkPrefetchTileResult (MkTileKey 0 1 1) None], Some (CachedCatalog (MkCatalog [example_layer] []))).
Proof. vm_compute. reflexivity. Qed.

Lemma prefetched_tiles_readable_offline_witness :
  exists t w',
    prefetch example_hrn example_backend never example_prefetch empty_world
      = Some (Success [MkPrefetchTileResult t None], w') /\
    exists bytes w'',
      GetData example_hrn example_backend never
        (MkDataRequest (str "roads") (Some (ToHereTile t)) None None None CacheOnly) w'
      = Some (ByRequest (Success (Some bytes)), w'') /\ calls w'' = calls w'.
Proof.
  pose proof prefetch_run as Er.
  destruct (prefetch example_hrn example_backend never example_prefetch empty_world) as [[r w']|] eqn:E;
    [|discriminate Er].
  cbn [option_map fst snd] in Er. injection Er as Er Ec.
  assert (r = Success [MkPrefetchTileResult (MkTileKey 0 1 1) None]) as ->.
  { destruct r as [[|[t [e|]] [|]]|]; cbn in Er; try discriminate Er. injection Er as ->. reflexivity. }
  exists (MkTileKey 0 1 1), w'. split; [reflexivity|].
  destruct (prefetched_tiles_readable_offline example_hrn example_backend never example_prefetch empty_world
    [MkPrefetchTileResult (MkTileKey 0 1 1) None] w') as (c & layer & Hc & Hl & Hread).
  - intros l api d [= <-]. by eexists.
  - exact E.
  - repeat constructor.
  - change (cache_ w' !! CatalogKey (ToCatalogHRNString example_hrn) = Some (CachedCatalog c)) in Hc.
    rewrite Ec in Hc. injection Hc as <-. cbn in Hl. injection Hl as <-.
    destruct (Hread eq_refl (MkPrefetchTileResult (MkTileKey 0 1 1) None) example_backend None) as (b & w2 & Hb & _ & Hcalls).
    { left. }
    exists b, w2. split; [exact Hb|exact Hcalls].
Defined.
