(* ===== verification/CatalogClient.v ===== *)
(** * The catalog client and its pending requests

    [PendingRequests.cpp] and [CatalogClientImpl.cpp].  A call of the client takes the
    lock of the pending requests several times; each turn of a call does one of its
    operations on the shared state, so that calls of several threads, the answers of
    the repositories and cancellations interleave in every way.  The repositories are
    open: an operation may be answered during the call that starts it or later,
    never, or more than once. *)

From Stdlib Require Import ZArith Lia Bool.
From stdpp Require Import base numbers gmap list.
From S2P Require Import Prelude Decimal ReadModel.
Local Open Scope Z_scope.

(** ** [PendingRequests] *)

(** A cancellation token is the operation it cancels; the default token cancels
    nothing. *)
Record PendingRequests := MkPendingRequests { key_ : Z; requests_map_ : gmap Z (option nat) }.

Definition NewPendingRequests : PendingRequests := MkPendingRequests 0 ∅.

(** The operations that are cancelled. *)
Definition CancelPendingRequests (p : PendingRequests) : list nat :=
  omap snd (map_to_list (requests_map_ p)).

Definition GenerateRequestPlaceholder (p : PendingRequests) : Z * PendingRequests :=
  let key := key_ p + 1 in (key, MkPendingRequests key (<[key := None]> (requests_map_ p))).

Definition Insert (request : option nat) (key : Z) (p : PendingRequests) : bool * PendingRequests :=
  match requests_map_ p !! key with
  | None => (false, p)
  | Some _ => (true, MkPendingRequests (key_ p) (<[key := request]> (requests_map_ p)))
  end.

Definition Remove (key : Z) (p : PendingRequests) : bool * PendingRequests :=
  match requests_map_ p !! key with
  | Some _ => (true, MkPendingRequests (key_ p) (delete key (requests_map_ p)))
  | None => (false, p)
  end.

(** ** [CatalogClientImpl] *)

(** What a repository or the prefetch provider is asked for. *)
Inductive Operation :=
| RepoCatalog (r : CatalogRequest) | RepoVersion (r : CatalogVersionRequest)
| RepoPartitions (r : PartitionsRequest) | RepoData (r : DataRequest) | ProviderPrefetch (r : PrefetchTilesRequest).

(** The lambdas given to them; a caller is the number of its call. *)
Inductive Callback :=
| request_callback (request_key : Z) (caller : nat)
| online_callback (onlineKey : Z)
| caller_callback (caller : nat).

(** A call of the client: the operation for the caller and the one in the background. *)
Record Request := MkRequest { operation : Operation; background : option Operation }.

Definition GetCatalog (request : CatalogRequest) : Request :=
  if bool_decide (CacheWithUpdate = cr_fetch_option request) then
    MkRequest (RepoCatalog (CatalogRequest_WithFetchOption CacheOnly request))
      (Some (RepoCatalog (CatalogRequest_WithFetchOption OnlineIfNotFound request)))
  else MkRequest (RepoCatalog request) None.

Definition GetCatalogMetadataVersion (request : CatalogVersionRequest) : Request :=
  if bool_decide (CacheWithUpdate = vr_fetch_option request) then
    MkRequest (RepoVersion (CatalogVersionRequest_WithFetchOption CacheOnly request))
      (Some (RepoVersion (CatalogVersionRequest_WithFetchOption OnlineIfNotFound request)))
  else MkRequest (RepoVersion request) None.

Definition GetPartitions (request : PartitionsRequest) : Request :=
  if bool_decide (CacheWithUpdate = pr_fetch_option request) then
    MkRequest (RepoPartitions (PartitionsRequest_WithFetchOption CacheOnly request))
      (Some (RepoPartitions (PartitionsRequest_WithFetchOption OnlineIfNotFound request)))
  else MkRequest (RepoPartitions request) None.

Definition GetData (request : DataRequest) : Request :=
  if bool_decide (CacheWithUpdate = dr_fetch_option request) then
    MkRequest (RepoData (DataRequest_WithFetchOption CacheOnly request))
      (Some (RepoData (DataRequest_WithFetchOption OnlineIfNotFound request)))
  else MkRequest (RepoData request) None.

Definition PrefetchTiles (request : PrefetchTilesRequest) : Request :=
  MkRequest (ProviderPrefetch request) None.

(** The prefetch passes the callback of the caller on. *)
Definition callback_of (r : Request) (request_key : Z) (caller : nat) : Callback :=
  match operation r with
  | ProviderPrefetch _ => caller_callback caller
  | _ => request_callback request_key caller
  end.

(** How far a call is: nothing done; the placeholder taken; the operation started;
    the second placeholder taken; the background operation started and its token
    inserted or not; done. *)
Inductive Stage :=
| Entered
| HasKey (request_key : Z)
| HasToken (request_key : Z) (token : nat)
| HasOnlineKey (request_key : Z) (token : nat) (onlineKey : Z)
| HasOnlineToken (request_key : Z) (token : nat) (onlineKey : Z) (onlineToken : nat)
| OnlineInserted (request_key : Z) (token : nat)
| Done (request_key : Z) (token : nat).

Record Call := MkCall { request_ : Request; stage : Stage }.

(** The state of the client: the pending requests, the operations started with their
    callbacks, the calls, and a log of the callers called back. *)
Record Client := MkClient {
  pending_requests_ : PendingRequests;
  operations : list (Operation * Callback);
  client_calls : list Call;
  called : list nat }.

Definition NewClient : Client := MkClient NewPendingRequests [] [] [].

Definition with_pending (p : PendingRequests) (s : Client) : Client :=
  MkClient p (operations s) (client_calls s) (called s).
Definition start_operation (op : Operation) (cb : Callback) (s : Client) : nat * Client :=
  (length (operations s), MkClient (pending_requests_ s) (operations s ++ [(op, cb)]) (client_calls s) (called s)).

(** One turn of the call [caller] with the request [r]. *)
Definition call_turn (r : Request) (caller : nat) (st : Stage) (s : Client) : Stage * Client :=
  match st with
  | Entered =>
    let '(key, p) := GenerateRequestPlaceholder (pending_requests_ s) in (HasKey key, with_pending p s)
  | HasKey key =>
    let '(token, s') := start_operation (operation r) (callback_of r key caller) s in (HasToken key token, s')
  | HasToken key token =>
    match background r with
    | Some _ =>
      let '(onlineKey, p) := GenerateRequestPlaceholder (pending_requests_ s) in
      (HasOnlineKey key token onlineKey, with_pending p s)
    | None => (Done key token, with_pending (Insert (Some token) key (pending_requests_ s)).2 s)
    end
  | HasOnlineKey key token onlineKey =>
    match background r with
    | Some op =>
      let '(onlineToken, s') := start_operation op (online_callback onlineKey) s in
      (HasOnlineToken key token onlineKey onlineToken, s')
    | None => (st, s)
    end
  | HasOnlineToken key token onlineKey onlineToken =>
    (OnlineInserted key token, with_pending (Insert (Some onlineToken) onlineKey (pending_requests_ s)).2 s)
  | OnlineInserted key token => (Done key token, with_pending (Insert (Some token) key (pending_requests_ s)).2 s)
  | Done _ _ => (st, s)
  end.

(** An answer to an operation runs its callback. *)
Definition run_callback (cb : Callback) (s : Client) : Client :=
  match cb with
  | request_callback key caller =>
    let '(removed, p) := Remove key (pending_requests_ s) in
    let s' := with_pending p s in
    if removed then MkClient p (operations s) (client_calls s) (called s ++ [caller]) else s'
  | online_callback onlineKey => with_pending (Remove onlineKey (pending_requests_ s)).2 s
  | caller_callback caller =>
    MkClient (pending_requests_ s) (operations s) (client_calls s) (called s ++ [caller])
  end.

(** [ClientCancel] is a snapshot: what the repositories do with it shows as answers. *)
Inductive action := ClientEnter (r : Request) | ClientTurn (caller : nat) | ClientAnswer (op : nat) | ClientCancel.

Definition act (a : action) (s : Client) : Client :=
  match a with
  | ClientEnter r => MkClient (pending_requests_ s) (operations s) (client_calls s ++ [MkCall r Entered]) (called s)
  | ClientTurn i =>
    match client_calls s !! i with
    | Some (MkCall r st) =>
      let '(st', s') := call_turn r i st s in
      MkClient (pending_requests_ s') (operations s') (<[i := MkCall r st']> (client_calls s')) (called s')
    | None => s
    end
  | ClientAnswer op => match operations s !! op with Some (_, cb) => run_callback cb s | None => s end
  | ClientCancel => s
  end.

Definition run (l : list action) (s : Client) : Client := foldl (fun s a => act a s) s l.
