(* ===== verification/CatalogClientFacts.v ===== *)
(** * Every caller of the client is called back once

    The invariant of the client under every interleaving of its calls, of the answers
    of the repositories and of cancellations. *)

From Stdlib Require Import ZArith Lia Bool.
From stdpp Require Import base numbers gmap list.
From S2P Require Import Prelude Decimal Hrn ReadModel ReadCache ReadRepositories ReadOffline ReadExamples CatalogClient.
Local Open Scope Z_scope.

Abbreviation pending s := (requests_map_ (pending_requests_ s)).
Abbreviation last_key s := (key_ (pending_requests_ s)).

Definition request_key_of (st : Stage) : option Z :=
  match st with
  | Entered => None
  | HasKey k | HasToken k _ | HasOnlineKey k _ _ | HasOnlineToken k _ _ _ | OnlineInserted k _ | Done k _ => Some k
  end.
Definition online_key_of (st : Stage) : option Z :=
  match st with HasOnlineKey _ _ o | HasOnlineToken _ _ o _ => Some o | _ => None end.
Definition token_of (st : Stage) : option nat :=
  match st with
  | HasToken _ t | HasOnlineKey _ t _ | HasOnlineToken _ t _ _ | OnlineInserted _ t | Done _ t => Some t
  | _ => None
  end.
Definition is_prefetch (r : Request) : bool :=
  match operation r with ProviderPrefetch _ => true | _ => false end.

Definition times_called (i : nat) (s : Client) : nat := length (filter (fun c => c = i) (called s)).

(** What holds of a call. *)
Definition registered (s : Client) (i : nat) (r : Request) (k : Z) : Prop :=
  if is_prefetch r then is_Some (pending s !! k)
  else (is_Some (pending s !! k) /\ times_called i s = 0%nat) \/ (pending s !! k = None /\ times_called i s = 1%nat).

Definition call_ok (s : Client) (i : nat) (c : Call) : Prop :=
  match request_key_of (stage c) with
  | None => times_called i s = 0%nat
  | Some k =>
    k <= last_key s /\ registered s i (request_ c) k /\
    (forall t, token_of (stage c) = Some t ->
       operations s !! t = Some (operation (request_ c), callback_of (request_ c) k i)) /\
    (forall t x, stage c = Done k t -> pending s !! k = Some x -> x = Some t)
  end.

Definition operation_ok (s : Client) (cb : Callback) : Prop :=
  match cb with
  | request_callback k i =>
    exists c, client_calls s !! i = Some c /\ is_prefetch (request_ c) = false /\ request_key_of (stage c) = Some k
  | caller_callback i => exists c, client_calls s !! i = Some c /\ is_prefetch (request_ c) = true /\ stage c <> Entered
  | online_callback _ => True
  end.

(** A key of the background. *)
Definition online_used (s : Client) (k : Z) : Prop :=
  (exists o op, operations s !! o = Some (op, online_callback k)) \/
  (exists i c, client_calls s !! i = Some c /\ online_key_of (stage c) = Some k).

Definition uses_key (s : Client) (i : nat) (k : Z) : Prop :=
  exists c, client_calls s !! i = Some c /\ request_key_of (stage c) = Some k.

Record client_ok (s : Client) : Prop := {
  calls_ok i c : client_calls s !! i = Some c -> call_ok s i c;
  operations_ok o op cb : operations s !! o = Some (op, cb) -> operation_ok s cb;
  keys_distinct i j k : uses_key s i k -> uses_key s j k -> i = j;
  online_distinct k : online_used s k -> k <= last_key s /\ forall i, ~ uses_key s i k;
  callers_exist i : (length (client_calls s) <= i)%nat -> times_called i s = 0%nat }.

(** What is kept of a call that is not involved. *)
Lemma call_ok_frame s s' i c :
  call_ok s i c -> last_key s <= last_key s' -> operations s `prefix_of` operations s' ->
  times_called i s' = times_called i s ->
  (forall k, request_key_of (stage c) = Some k -> pending s' !! k = pending s !! k) -> call_ok s' i c.
Proof.
  unfold call_ok, registered. intros Hc Hk Hops Ht Hp. destruct (request_key_of (stage c)) as [k|]; [|congruence].
  rewrite (Hp k eq_refl), Ht. destruct Hc as (? & ? & Htok & ?). split_and!; [lia|done| |done].
  intros t Et. eapply prefix_lookup_Some; [by apply Htok|done].
Qed.

Lemma times_called_snoc i j s p : times_called i (MkClient p (operations s) (client_calls s) (called s ++ [j]))
  = (times_called i s + if decide (j = i) then 1 else 0)%nat.
Proof.
  unfold times_called; cbn. rewrite filter_app, length_app. f_equal. rewrite filter_cons. by case_decide.
Qed.

Lemma uses_key_le s i k : client_ok s -> uses_key s i k -> k <= last_key s.
Proof. intros Hs (c & Hc & Hk). pose proof (calls_ok s Hs i c Hc) as Hok. unfold call_ok in Hok. rewrite Hk in Hok. apply Hok. Qed.

(** A turn of a call keeps what holds of the callbacks. *)
Lemma operation_ok_moves s s' i c c' cb :
  operation_ok s cb -> client_calls s !! i = Some c -> client_calls s' = <[i := c']> (client_calls s) ->
  request_ c' = request_ c -> (forall k, request_key_of (stage c) = Some k -> request_key_of (stage c') = Some k) ->
  operation_ok s' cb.
Proof.
  intros Hok Hi Hcalls Hreq Hkeep.
  assert (forall j c1, client_calls s !! j = Some c1 -> exists c2, client_calls s' !! j = Some c2 /\
    request_ c2 = request_ c1 /\ forall k, request_key_of (stage c1) = Some k -> request_key_of (stage c2) = Some k) as Hmove.
  { intros j c1 Hj. rewrite Hcalls. destruct (decide (j = i)) as [->|Hne].
    - assert (c1 = c) as -> by congruence. exists c'. split_and!; [|done|done].
      apply list_lookup_insert_eq. by eapply lookup_lt_Some.
    - rewrite list_lookup_insert_ne by done. by exists c1. }
  destruct cb as [k j|k|j]; cbn in *; [|done|].
  - destruct Hok as (c1 & Hj & Hp & Hk). destruct (Hmove j c1 Hj) as (c2 & ? & E & Hm). exists c2.
    rewrite E. split_and!; [done|done|by apply Hm].
  - destruct Hok as (c1 & Hj & Hp & Hk). destruct (Hmove j c1 Hj) as (c2 & ? & E & Hm). exists c2.
    rewrite E. split_and!; [done|done|]. intros E2. rewrite E2 in Hm. cbn in Hm.
    destruct (stage c1); cbn in *; try done; by specialize (Hm _ eq_refl).
Qed.

(** A turn of one call. *)
Lemma turn_frame s s' i c c' :
  client_ok s -> client_calls s !! i = Some c -> client_calls s' = <[i := c']> (client_calls s) ->
  request_ c' = request_ c -> (forall k, request_key_of (stage c) = Some k -> request_key_of (stage c') = Some k) ->
  called s' = called s -> last_key s <= last_key s' ->
  operations s `prefix_of` operations s' ->
  (forall o op cb, operations s' !! o = Some (op, cb) -> operations s !! o = Some (op, cb) \/ operation_ok s' cb) ->
  call_ok s' i c' ->
  (forall j k, j <> i -> uses_key s j k -> pending s' !! k = pending s !! k) ->
  (forall k, request_key_of (stage c') = Some k -> request_key_of (stage c) = Some k \/ last_key s < k) ->
  (forall k, online_used s' k ->
     online_used s k \/ (last_key s < k <= last_key s' /\ request_key_of (stage c') <> Some k)) ->
  client_ok s'.
Proof.
  intros Hs Hi Hcalls Hreq Hkeep Hcalled Hlast Hops Hnew Hc' Hpend Hkey Honline.
  assert (i < length (client_calls s))%nat as Hlt by (by eapply lookup_lt_Some).
  assert (forall j k, uses_key s' j k -> uses_key s j k \/ (j = i /\ last_key s < k)) as Hback.
  { intros j k (c1 & Hj & Hk). rewrite Hcalls in Hj. destruct (decide (j = i)) as [->|Hne].
    - rewrite list_lookup_insert_eq in Hj by done. injection Hj as <-.
      destruct (Hkey k Hk) as [?|?]; [left; by exists c|by right].
    - rewrite list_lookup_insert_ne in Hj by done. left. by exists c1. }
  assert (forall j, times_called j s' = times_called j s) as Htimes by (intros j; unfold times_called; by rewrite Hcalled).
  split.
  - intros j c1 Hj. rewrite Hcalls in Hj. destruct (decide (j = i)) as [->|Hne].
    + rewrite list_lookup_insert_eq in Hj by done. by injection Hj as <-.
    + rewrite list_lookup_insert_ne in Hj by done. eapply call_ok_frame; [by apply (calls_ok s Hs)|done|done|done|].
      intros k Hk. apply (Hpend j); [done|by exists c1].
  - intros o op cb Ho. destruct (Hnew o op cb Ho) as [Hold|?]; [|done].
    eapply operation_ok_moves; [by apply (operations_ok s Hs o op cb Hold)|done|done|done|done].
  - intros j1 j2 k H1 H2. destruct (Hback j1 k H1) as [O1|[-> L1]], (Hback j2 k H2) as [O2|[-> L2]]; [|..|done].
    + by eapply (keys_distinct s Hs).
    + pose proof (uses_key_le s j1 k Hs O1). lia.
    + pose proof (uses_key_le s j2 k Hs O2). lia.
  - intros k Hk. destruct (Honline k Hk) as [Hold|[[Hl Hr] Hne]].
    + destruct (online_distinct s Hs k Hold) as [Hle Hno]. split; [lia|]. intros j Hj.
      destruct (Hback j k Hj) as [?|[-> ?]]; [by apply (Hno j)|lia].
    + split; [done|]. intros j (c1 & Hj & Hkj). rewrite Hcalls in Hj. destruct (decide (j = i)) as [->|Hji].
      * rewrite list_lookup_insert_eq in Hj by done. by injection Hj as <-.
      * rewrite list_lookup_insert_ne in Hj by done. assert (uses_key s j k) as Hu by (by exists c1).
        pose proof (uses_key_le s j k Hs Hu). lia.
  - intros j Hj. rewrite Htimes. apply (callers_exist s Hs). rewrite Hcalls, length_insert in Hj. done.
Qed.

(** An answer keeps the calls and the operations. *)
Lemma answer_frame s s' :
  client_ok s -> client_calls s' = client_calls s -> operations s' = operations s -> last_key s' = last_key s ->
  (forall i c, client_calls s !! i = Some c -> call_ok s' i c) ->
  (forall i, (length (client_calls s) <= i)%nat -> times_called i s' = times_called i s) -> client_ok s'.
Proof.
  intros Hs Ec Eo El Hc Ht.
  assert (forall i k, uses_key s' i k <-> uses_key s i k) as Hu by (intros i k; unfold uses_key; by rewrite Ec).
  split.
  - intros i c. rewrite Ec. apply Hc.
  - intros o op cb. rewrite Eo. intros Ho. pose proof (operations_ok s Hs o op cb Ho) as Hok.
    destruct cb; cbn in *; by rewrite ?Ec.
  - intros i j k. rewrite !Hu. apply (keys_distinct s Hs).
  - intros k Hk. unfold online_used in Hk. rewrite Eo, Ec in Hk. rewrite El.
    destruct (online_distinct s Hs k Hk) as [? Hno]. split; [done|]. intros i. rewrite Hu. apply Hno.
  - intros i. rewrite Ec. intros Hi. rewrite Ht by done. by apply (callers_exist s Hs).
Qed.

(** The three kinds of callbacks. *)
Lemma request_answer_ok s k i c :
  client_ok s -> client_calls s !! i = Some c -> is_prefetch (request_ c) = false ->
  request_key_of (stage c) = Some k -> client_ok (run_callback (request_callback k i) s).
Proof.
  intros Hs Hi Hp Hk. pose proof (calls_ok s Hs i c Hi) as Hc. assert (uses_key s i k) as Hu by (by exists c).
  cbn. unfold Remove. destruct (pending s !! k) as [x|] eqn:Ex; [|by destruct s as [[]]].
  assert (i < length (client_calls s))%nat as Hlt by (by eapply lookup_lt_Some).
  set (s' := MkClient _ _ _ _).
  assert (forall j, times_called j s' = times_called j s + if decide (i = j) then 1 else 0)%nat as Ht
    by (intros j; apply (times_called_snoc j i s)).
  apply (answer_frame s s' Hs); [done|done|done| |].
  - intros j c1 Hj. destruct (decide (i = j)) as [<-|Hne].
    + assert (c1 = c) as -> by congruence. unfold call_ok, registered in *. rewrite Hk, Hp in *.
      destruct Hc as (Hl & [[_ Hzero]|[? _]] & Htok & _); [|congruence]. rewrite Ht, decide_True, Hzero by done.
      cbn. rewrite lookup_delete_eq. split_and!; [done|by right|done|done].
    + eapply call_ok_frame; [by apply (calls_ok s Hs)|done|done|rewrite Ht, decide_False by done; lia|].
      intros k' Hk'. cbn. apply lookup_delete_ne. intros <-. apply Hne, (keys_distinct s Hs _ _ k); [done|by exists c1].
  - intros j Hj. rewrite Ht, decide_False by lia. lia.
Qed.

Lemma online_answer_ok s k : client_ok s -> online_used s k -> client_ok (run_callback (online_callback k) s).
Proof.
  intros Hs Hk. destruct (online_distinct s Hs k Hk) as [_ Hno].
  cbn. unfold Remove. destruct (pending s !! k) as [x|] eqn:Ex; [|by destruct s as [[]]]. cbn.
  apply (answer_frame s _ Hs); [done|done|done| |done].
  intros j c Hj. eapply call_ok_frame; [by apply (calls_ok s Hs)|done|done|done|].
  intros k' Hk'. cbn. apply lookup_delete_ne. intros <-. apply (Hno j). by exists c.
Qed.

Lemma prefetch_answer_ok s i c :
  client_ok s -> client_calls s !! i = Some c -> is_prefetch (request_ c) = true -> stage c <> Entered ->
  client_ok (run_callback (caller_callback i) s).
Proof.
  intros Hs Hi Hp Hst. pose proof (calls_ok s Hs i c Hi) as Hc. cbn.
  assert (i < length (client_calls s))%nat as Hlt by (by eapply lookup_lt_Some).
  apply (answer_frame s _ Hs); [done|done|done| |].
  - intros j c1 Hj. destruct (decide (i = j)) as [<-|Hne].
    + assert (c1 = c) as -> by congruence. unfold call_ok, registered in *. rewrite Hp in *. by destruct (stage c).
    + eapply call_ok_frame; [by apply (calls_ok s Hs)|done|done| |done]. rewrite times_called_snoc, decide_False by done. lia.
  - intros j Hj. rewrite times_called_snoc, decide_False by lia. lia.
Qed.

Lemma client_answer_ok op s : client_ok s -> client_ok (act (ClientAnswer op) s).
Proof.
  intros Hs. cbn [act]. destruct (operations s !! op) as [[o cb]|] eqn:Eo; [|done].
  pose proof (operations_ok s Hs op o cb Eo) as Hcb. destruct cb as [k i|k|i].
  - destruct Hcb as (c & Hi & Hp & Hk). by eapply request_answer_ok.
  - apply online_answer_ok; [done|]. left. by exists op, o.
  - destruct Hcb as (c & Hi & Hp & Hst). by eapply prefetch_answer_ok.
Qed.

Lemma online_used_inv s s' i c' k :
  client_calls s' = <[i := c']> (client_calls s) -> operations s `prefix_of` operations s' -> online_used s' k ->
  online_used s k \/ online_key_of (stage c') = Some k \/
  exists o op, operations s !! o = None /\ operations s' !! o = Some (op, online_callback k).
Proof.
  intros Hcalls Hops [(o & op & Ho)|(j & c & Hj & Hk)].
  - destruct (operations s !! o) as [y|] eqn:E; [|by eauto 6]. left. left.
    pose proof (prefix_lookup_Some _ _ _ _ E Hops). exists o, op. congruence.
  - rewrite Hcalls in Hj. apply list_lookup_insert_Some in Hj as [(<- & -> & _)|[_ Hj]]; [by auto|].
    left. right. by exists j, c.
Qed.

(** A turn that takes a new key or inserts a token changes only the pending requests. *)
Lemma pending_turn_ok s i r st st' p :
  client_ok s -> client_calls s !! i = Some (MkCall r st) ->
  (forall k, request_key_of st = Some k -> request_key_of st' = Some k) ->
  last_key s <= key_ p ->
  let s' := MkClient p (operations s) (<[i := MkCall r st']> (client_calls s)) (called s) in
  call_ok s' i (MkCall r st') ->
  (forall j k, j <> i -> uses_key s j k -> requests_map_ p !! k = pending s !! k) ->
  (forall k, request_key_of st' = Some k -> request_key_of st = Some k \/ last_key s < k) ->
  (forall k, online_key_of st' = Some k ->
     online_key_of st = Some k \/ (last_key s < k <= key_ p /\ request_key_of st' <> Some k)) ->
  client_ok s'.
Proof.
  intros Hs Hi Hkeep Hl s' Hc Hp Hkey Honline.
  apply (turn_frame s s' i (MkCall r st) (MkCall r st') Hs Hi); try done.
  - intros o op cb Ho. by left.
  - intros k Hk. destruct (online_used_inv s s' i _ k eq_refl (reflexivity _) Hk) as [?|[Hk'|(o & op & E1 & E2)]].
    + by left.
    + destruct (Honline k Hk') as [?|?]; [|by right]. left. right. by exists i, (MkCall r st).
    + cbn in E2. congruence.
Qed.

Lemma key_turn_ok s i r st :
  client_ok s -> client_calls s !! i = Some (MkCall r st) -> st = Entered \/ (exists k t, st = HasToken k t /\ is_Some (background r)) ->
  client_ok (act (ClientTurn i) s).
Proof.
  intros Hs Hi Hst. pose proof (calls_ok s Hs i _ Hi) as Hc.
  assert (forall j k, uses_key s j k -> <[last_key s + 1 := None]> (pending s) !! k = pending s !! k) as Hp.
  { intros j k Hu. pose proof (uses_key_le s j k Hs Hu). apply lookup_insert_ne. lia. }
  cbn. rewrite Hi. destruct Hst as [->|(k & t & -> & [op Hop])]; cbn; rewrite ?Hop; cbn.
  - refine (pending_turn_ok s i r Entered (HasKey (last_key s + 1)) _ Hs Hi _ _ _ _ _ _); cbn; try done; try lia.
    + unfold call_ok, registered in *; cbn in *. rewrite lookup_insert_eq. split_and!; [lia| |done|done].
      destruct (is_prefetch r); [by eexists|]. left. split; [by eexists|done].
    + intros j k _. apply Hp.
    + intros k [= <-]. right. lia.
  - assert (uses_key s i k) as Hu by (by exists (MkCall r (HasToken k t))). pose proof (uses_key_le s i k Hs Hu).
    refine (pending_turn_ok s i r (HasToken k t) (HasOnlineKey k t (last_key s + 1)) _ Hs Hi _ _ _ _ _ _); cbn; try done; try lia.
    + unfold call_ok, registered in *; cbn in *. rewrite (Hp i k Hu). destruct Hc as (? & ? & ? & _).
      split_and!; [lia|done|done|done].
    + intros j k' _. apply Hp.
    + intros k' [= <-]. by left.
    + intros k' [= <-]. right. split; [lia|]. intros [= E]. lia.
Qed.

Lemma insert_turn_ok s i r st st' key token :
  client_ok s -> client_calls s !! i = Some (MkCall r st) -> token_of st' = token_of st ->
  request_key_of st' = request_key_of st -> online_key_of st' = None ->
  (online_key_of st = Some key /\ (forall k t, st' <> Done k t)) \/
  (request_key_of st = Some key /\ token_of st = Some token) ->
  client_ok (MkClient (Insert (Some token) key (pending_requests_ s)).2 (operations s)
    (<[i := MkCall r st']> (client_calls s)) (called s)).
Proof.
  intros Hs Hi Ht Hk Ho Hst. pose proof (calls_ok s Hs i _ Hi) as Hc.
  set (p := (Insert (Some token) key (pending_requests_ s)).2).
  assert (key_ p = last_key s) as El by (unfold p, Insert; by destruct (pending s !! key)).
  assert (forall k, k <> key -> requests_map_ p !! k = pending s !! k) as Hother.
  { intros k Hne. unfold p, Insert. destruct (pending s !! key); [|done]. cbn. by rewrite lookup_insert_ne. }
  assert (forall x, requests_map_ p !! key = Some x -> x = Some token /\ is_Some (pending s !! key)) as Hkey.
  { intros x. unfold p, Insert. destruct (pending s !! key) eqn:E; cbn; [|congruence].
    rewrite lookup_insert_eq. intros [= <-]. split; [done|by eexists]. }
  assert (is_Some (pending s !! key) -> is_Some (requests_map_ p !! key)) as Hsome.
  { intros [y E]. unfold p, Insert. rewrite E. cbn. rewrite lookup_insert_eq. by eexists. }
  refine (pending_turn_ok s i r st st' p Hs Hi _ _ _ _ _ _); [by rewrite Hk|lia| | | |].
  - unfold call_ok, registered in *; cbn in *. rewrite Ht, Hk. destruct (request_key_of st) as [k|] eqn:Ek; [|done].
    destruct Hc as (Hl & Hreg & Htok & _). destruct Hst as [[Hon Hnd]|[[= ->] Et]].
    + assert (k <> key) as Hne.
      { intros ->. destruct (online_distinct s Hs key) as [_ Hno]; [right; by exists i, (MkCall r st)|].
        apply (Hno i). by exists (MkCall r st). }
      rewrite (Hother k Hne). split_and!; [lia|done|done|]. intros t x E. by destruct (Hnd k t).
    + split_and!; [lia| |done|].
      * destruct (is_prefetch r); [by apply Hsome|]. destruct Hreg as [[Hs1 ?]|[Hn ?]]; [left|right]; [by split; [apply Hsome|]|].
        split; [|done]. unfold p, Insert. by rewrite Hn.
      * intros t x E Hx. destruct (Hkey x Hx) as [-> _]. subst st'. cbn in Ht. congruence.
  - intros j k Hji Hu. apply Hother. intros ->. destruct Hst as [[Hon _]|[Hr _]].
    + destruct (online_distinct s Hs key) as [_ Hno]; [right; by exists i, (MkCall r st)|]. by apply (Hno j).
    + apply Hji, (keys_distinct s Hs _ _ key); [done|]. by exists (MkCall r st).
  - intros k E. left. congruence.
  - intros k E. congruence.
Qed.

(** A turn that starts an operation. *)
Lemma start_turn_ok s i r st st' op cb :
  client_ok s -> client_calls s !! i = Some (MkCall r st) ->
  request_key_of st' = request_key_of st -> is_Some (request_key_of st) -> (forall k t, st' <> Done k t) ->
  (forall k, online_key_of st' = Some k -> online_key_of st = Some k) ->
  (token_of st' = token_of st /\ exists k, cb = online_callback k /\ online_key_of st = Some k) \/
  (token_of st' = Some (length (operations s)) /\ op = operation r /\
   forall k, request_key_of st = Some k -> cb = callback_of r k i) ->
  client_ok (MkClient (pending_requests_ s) (operations s ++ [(op, cb)]) (<[i := MkCall r st']> (client_calls s)) (called s)).
Proof.
  intros Hs Hi Hk [k Ek] Hnd Hon Hcb. set (s' := MkClient _ _ _ _).
  pose proof (calls_ok s Hs i _ Hi) as Hc. assert (i < length (client_calls s))%nat as Hlt by (by eapply lookup_lt_Some).
  assert (forall o op' cb', operations s' !! o = Some (op', cb') -> operations s !! o = Some (op', cb') \/ cb' = cb) as Hlast.
  { cbn. intros o op' cb' [?|[_ Ho]]%lookup_app_Some; [by left|right].
    apply list_lookup_singleton_Some in Ho as [_ [= -> ->]]. done. }
  apply (turn_frame s s' i (MkCall r st) (MkCall r st') Hs Hi); cbn; try done.
  - intros k'. by rewrite Hk.
  - by eexists.
  - intros o op' cb' Ho. destruct (Hlast o op' cb' Ho) as [?| ->]; [by left|right].
    assert (client_calls s' !! i = Some (MkCall r st')) as Hi' by (by apply list_lookup_insert_eq).
    destruct Hcb as [(_ & k' & -> & _)|(_ & _ & Hcb)]; [done|]. rewrite (Hcb k Ek). unfold callback_of.
    destruct (is_prefetch r) eqn:Ep; unfold is_prefetch in Ep; destruct (operation r) eqn:Er; try done;
      (exists (MkCall r st'); split; [exact Hi'|]; cbn; unfold is_prefetch; rewrite Er; split; [done|]); [|congruence..].
    intros E. rewrite E in Hk. cbn in Hk. congruence.
  - unfold call_ok, registered in *; cbn in *. rewrite Hk, Ek in *. destruct Hc as (? & ? & Htok & _).
    split_and!; [done|done| |intros t x E; by destruct (Hnd k t)].
    intros t Et. destruct Hcb as [(Hold & _)|(Hnew & -> & Hcb)].
    + rewrite lookup_app_l_Some with (x := (operation r, callback_of r k i)); [done|]. apply Htok. congruence.
    + assert (t = length (operations s)) as -> by congruence. rewrite (Hcb k eq_refl). by rewrite list_lookup_middle.
  - intros k'. rewrite Hk. by left.
  - intros k' Hk'. left.
    assert (operations s `prefix_of` operations s ++ [(op, cb)]) as Hpre by by eexists.
    destruct (online_used_inv s s' i _ k' eq_refl Hpre Hk') as [?|[E|(o & op' & E1 & E2)]]; [done| |].
    + right. exists i, (MkCall r st). split; [done|]. by apply Hon.
    + destruct (Hlast o op' _ E2) as [E|E]; [congruence|].
      destruct Hcb as [(_ & k1 & -> & Hk1)|(_ & _ & Hcb)].
      * right. exists i, (MkCall r st). by injection E as ->.
      * rewrite (Hcb k Ek) in E. unfold callback_of in E. by destruct (operation r).
Qed.

Lemma turn_ok s i : client_ok s -> client_ok (act (ClientTurn i) s).
Proof.
  intros Hs. destruct (client_calls s !! i) as [[r st]|] eqn:Hi; [|cbn; by rewrite Hi].
  assert (forall st, client_calls s !! i = Some (MkCall r st) ->
    client_ok (MkClient (pending_requests_ s) (operations s) (<[i := MkCall r st]> (client_calls s)) (called s))) as Hsame.
  { intros st' Hi'. rewrite list_insert_id by done. by destruct s. }
  destruct st as [|k|k t|k t o|k t o ot|k t|k t].
  - apply (key_turn_ok s i r Entered Hs Hi). by left.
  - cbn. rewrite Hi. cbn. apply (start_turn_ok s i r (HasKey k) _ _ _ Hs Hi); try done.
    right. split; [done|]. split; [done|]. by intros k' [= <-].
  - destruct (background r) as [op|] eqn:Eb; [apply (key_turn_ok s i r _ Hs Hi); right; exists k, t; by rewrite Eb|].
    cbn. rewrite Hi. cbn. rewrite Eb. cbn.
    apply (insert_turn_ok s i r (HasToken k t) _ k t Hs Hi); try done. by right.
  - cbn. rewrite Hi. cbn. destruct (background r) as [op|] eqn:Eb; [|by apply Hsame].
    apply (start_turn_ok s i r (HasOnlineKey k t o) _ _ _ Hs Hi); try done. left. split; [done|]. by exists o.
  - cbn. rewrite Hi. cbn. apply (insert_turn_ok s i r (HasOnlineToken k t o ot) _ o ot Hs Hi); try done. by left.
  - cbn. rewrite Hi. cbn. apply (insert_turn_ok s i r (OnlineInserted k t) _ k t Hs Hi); try done. by right.
  - cbn. rewrite Hi. by apply Hsame.
Qed.

Lemma enter_ok r s : client_ok s -> client_ok (act (ClientEnter r) s).
Proof.
  intros Hs. assert (forall i c, (client_calls s ++ [MkCall r Entered]) !! i = Some c ->
    client_calls s !! i = Some c \/ (i = length (client_calls s) /\ c = MkCall r Entered)) as Hold.
  { intros i c [?|[Hl E]]%lookup_app_Some; [by left|right].
    apply list_lookup_singleton_Some in E as [? <-]. split; [lia|done]. }
  assert (forall i k, uses_key (act (ClientEnter r) s) i k -> uses_key s i k) as Hu.
  { intros i k (c & Hi & Hk). cbn in Hi. destruct (Hold i c Hi) as [?|[_ ->]]; [by exists c|done]. }
  split; cbn.
  - intros i c Hi. destruct (Hold i c Hi) as [Hi'|[-> ->]]; [exact (calls_ok s Hs i c Hi')|].
    apply (callers_exist s Hs). lia.
  - intros o op cb Ho. pose proof (operations_ok s Hs o op cb Ho) as Hcb.
    destruct cb; cbn in *; [|done|]; destruct Hcb as (c & Hi & Hc); exists c; by rewrite (lookup_app_l_Some _ _ _ _ Hi).
  - intros i j k Hi Hj. by apply (keys_distinct s Hs i j k); apply Hu.
  - intros k Hk. assert (online_used s k) as Hk'.
    { destruct Hk as [?|(i & c & Hi & Hc)]; [by left|right].
      destruct (Hold i c Hi) as [?|[_ ->]]; [by exists i, c|done]. }
    destruct (online_distinct s Hs k Hk') as [? Hno]. split; [done|]. intros i Hi. by apply (Hno i), Hu.
  - intros i Hi. apply (callers_exist s Hs). rewrite length_app in Hi. cbn in Hi. lia.
Qed.

Lemma act_ok_client a s : client_ok s -> client_ok (act a s).
Proof. intros Hs. destruct a; [by apply enter_ok|by apply turn_ok|by apply client_answer_ok|done]. Qed.

Lemma NewClient_ok : client_ok NewClient.
Proof.
  split; cbn; try done.
  - intros i j k (c & Hc & _). done.
  - intros k [(o & op & Ho)|(i & c & Hc & _)]; done.
Qed.

Lemma run_client_ok l : client_ok (run l NewClient).
Proof.
  unfold run. induction l as [|a l IH] using rev_ind; [apply NewClient_ok|].
  rewrite foldl_app. by apply act_ok_client.
Qed.

(** ** The properties *)

Definition cancelled_by_all (s : Client) (token : nat) : Prop := token ∈ CancelPendingRequests (pending_requests_ s).

Lemma inserted_token_cancelled s key token : pending s !! key = Some (Some token) -> cancelled_by_all s token.
Proof.
  intros Hk. unfold cancelled_by_all, CancelPendingRequests. apply list_elem_of_omap. exists (key, Some token).
  split; [|done]. by apply elem_of_map_to_list.
Qed.

(** C16. Under every interleaving of calls, answers and cancellations: the caller of a
    Get function is called back at most once, however often its repository answers,
    and has been called back as soon as the operation of its call is answered; until
    then its request is registered, and once its call has returned the cancellation
    of all requests cancels its operation; when it has been called back its request
    is no longer registered.  A prefetch stays registered forever. *)
Theorem client_callers_served_once l i r st k :
  let s := run l NewClient in
  client_calls s !! i = Some (MkCall r st) -> request_key_of st = Some k ->
  if is_prefetch r then
    is_Some (pending s !! k) /\ forall token, st = Done k token -> cancelled_by_all s token
  else
    (times_called i s <= 1)%nat /\
    (times_called i s = 1%nat <-> pending s !! k = None) /\
    (forall token, st = Done k token -> times_called i s = 0%nat -> cancelled_by_all s token) /\
    (forall token, token_of st = Some token -> times_called i (act (ClientAnswer token) s) = 1%nat).
Proof.
  intros s Hi Hk. pose proof (run_client_ok l) as Hs. fold s in Hs.
  assert (forall s', client_ok s' -> client_calls s' !! i = Some (MkCall r st) ->
    registered s' i r k /\
    (forall t, token_of st = Some t -> operations s' !! t = Some (operation r, callback_of r k i)) /\
    (forall t x, st = Done k t -> pending s' !! k = Some x -> x = Some t)) as Hcall.
  { intros s' Hs' Hi'. pose proof (calls_ok s' Hs' i _ Hi') as Hc. unfold call_ok in Hc. cbn in Hc. rewrite Hk in Hc. apply Hc. }
  destruct (Hcall s Hs Hi) as (Hreg & Htok & Hdone). unfold registered in Hreg. destruct (is_prefetch r) eqn:Ep.
  { split; [done|]. intros t E. destruct Hreg as [x Hx]. apply (inserted_token_cancelled s k). by rewrite <- (Hdone t x). }
  split_and!.
  - lia.
  - destruct Hreg as [[[x ->] ->]|[-> ->]]; split; done.
  - intros t E Ht. destruct Hreg as [[[x Hx] _]|[_ ?]]; [|lia]. apply (inserted_token_cancelled s k).
    by rewrite <- (Hdone t x).
  - intros t Et. assert (operations s !! t = Some (operation r, request_callback k i)) as Ho.
    { rewrite (Htok t Et). unfold is_prefetch in Ep. unfold callback_of. by destruct (operation r). }
    cbn [act]. rewrite Ho. cbn [run_callback]. unfold Remove.
    destruct Hreg as [[[x Hx] Ht]|[Hn Ht]]; [rewrite Hx|rewrite Hn].
    + etransitivity; [apply times_called_snoc|]. rewrite decide_True by done. lia.
    + exact Ht.
Qed.

(** ** Updates in the background *)

(** [CacheWithUpdate] does not update: when the catalog is cached, the operation for
    the caller and the one in the background, which has the option
    [OnlineIfNotFound], are both answered from the cache; neither makes a call, and
    the cached catalog stays as it is, whatever the network would answer. *)
Theorem cache_with_update_keeps_catalog {C : Type} `{LosslessCache C} hrn_ backend (w : World C) c request :
  view (cache_ w) !! CatalogKey (ToCatalogHRNString hrn_) = Some (CachedCatalog c) ->
  cr_fetch_option request = CacheWithUpdate ->
  exists request1 request2,
    GetCatalog request = MkRequest (RepoCatalog request1) (Some (RepoCatalog request2)) /\
    forall r, r = request1 \/ r = request2 -> exists w',
      getCatalog hrn_ backend never r w = Some (Success c, w') /\
      view (cache_ w') = view (cache_ w) /\ calls w' = calls w.
Proof.
  intros Hc Hf. unfold GetCatalog. rewrite bool_decide_true by done. eexists _, _. split; [done|].
  intros r [->| ->]; by apply catalog_cached.
Qed.

(** A catalog and a prefetch are asked for at the same time; the background operation
    answers first, then the others, that of the catalog twice. *)
Definition example_actions : list action :=
  [ClientEnter (GetCatalog (MkCatalogRequest None CacheWithUpdate)); ClientEnter (PrefetchTiles example_prefetch)]
  ++ mjoin (replicate 3 [ClientTurn 0; ClientTurn 1]) ++ [ClientTurn 0] ++ [ClientAnswer 2]
  ++ [ClientTurn 0; ClientTurn 0] ++ [ClientCancel; ClientAnswer 0; ClientAnswer 1; ClientAnswer 0].

Definition example_call : Request := GetCatalog (MkCatalogRequest None CacheWithUpdate).

Lemma client_callers_served_once_witness :
  client_calls (run example_actions NewClient)
    = [MkCall example_call (Done 1 0); MkCall (PrefetchTiles example_prefetch) (Done 2 1)] /\
  (times_called 0 (run example_actions NewClient) <= 1)%nat /\
  cancelled_by_all (run example_actions NewClient) 1.
Proof.
  split; [vm_compute; reflexivity|]. split.
  - apply (client_callers_served_once example_actions 0 example_call (Done 1 0) 1); vm_compute; reflexivity.
  - apply (client_callers_served_once example_actions 1 (PrefetchTiles example_prefetch) (Done 2 1) 2); vm_compute; reflexivity.
Defined.

(** The catalog of the filled world of [ReadExamples]. *)
Example filled_catalog :
  view (cache_ filled_world) !! CatalogKey (ToCatalogHRNString example_hrn) = Some (CachedCatalog (MkCatalog [example_layer] [])).
Proof. vm_compute. reflexivity. Qed.

Lemma cache_with_update_keeps_catalog_witness :
  exists request1 request2,
    GetCatalog (MkCatalogRequest None CacheWithUpdate) = MkRequest (RepoCatalog request1) (Some (RepoCatalog request2)) /\
    forall r, r = request1 \/ r = request2 -> exists w',
      getCatalog example_hrn example_backend never r filled_world
      = Some (Success (MkCatalog [example_layer] []), w') /\
      view (cache_ w') = view (cache_ filled_world) /\ calls w' = calls filled_world.
Proof.
  exact (cache_with_update_keeps_catalog example_hrn example_backend filled_world (MkCatalog [example_layer] [])
    (MkCatalogRequest None CacheWithUpdate) filled_catalog eq_refl).
Defined.
