(* ===== verification/ThreadPool.v ===== *)
(** * The task queue and the thread pool

    [olp/core/thread/SyncQueue.inl] and [ThreadPoolTaskScheduler.cpp]: a queue that
    can be closed, and workers that pull tasks from it until it is closed.  A state
    of the pool is the queue, the stage of each worker and the log of the tasks
    that were started; one action is a critical section of the queue, or a turn of
    a worker.  What a task does is not modelled, only how many turns it takes; a
    task that enqueues or cancels others shows as actions of its own. *)

From Stdlib Require Import ZArith Lia Bool.
From stdpp Require Import base numbers gmap list.
From S2P Require Import Prelude.

(** ** [SyncQueue] *)

Section sync_queue.
  Context {T : Type}.

Record SyncQueue := MkSyncQueue { queue_ : list T; closed_ : bool }.

Definition NewSyncQueue : SyncQueue := MkSyncQueue [] false.

Definition Empty (q : SyncQueue) : bool := match queue_ q with [] => true | _ => false end.

Definition Close (q : SyncQueue) : SyncQueue := MkSyncQueue [] true.

(** [Pull] waits (keeps its thread blocked), fails or returns an element. *)
Inductive PullResult := PullWaits | PullFails | Pulled (element : T) (q : SyncQueue).

(** The condition it waits for. *)
Definition pull_ready (q : SyncQueue) : bool := negb (Empty q) || closed_ q.

Definition Pull (q : SyncQueue) : PullResult :=
  if negb (pull_ready q) then PullWaits
  else if closed_ q then PullFails
  else match queue_ q with
       | [] => PullWaits
       | element :: rest => Pulled element (MkSyncQueue rest (closed_ q))
       end.

Definition Push (element : T) (q : SyncQueue) : SyncQueue :=
  if closed_ q then q else MkSyncQueue (queue_ q ++ [element]) (closed_ q).

End sync_queue.
Arguments SyncQueue : clear implicits.
Arguments PullResult : clear implicits.

(** ** The pool *)

(** A function is named by a number; [ScheduleTask] with a context wraps it in a
    task that looks at the context first. *)
Inductive Task := PlainTask (func : nat) | ContextTask (func context : nat).

Definition ScheduleTask (func : nat) (context : option nat) : Task :=
  match context with None => PlainTask func | Some c => ContextTask func c end.

(** A worker is in [Pull], runs a task that needs some more turns, or has left its
    loop. *)
Inductive Worker := Pulling | Running (turns : nat) | Returned.

Record ThreadPool := MkThreadPool {
  sync_queue_ : SyncQueue Task;
  thread_pool_ : list Worker;
  cancelled : gset nat;
  started : list Task;
  called : list nat }.

Definition NewThreadPool (thread_count : nat) : ThreadPool :=
  MkThreadPool NewSyncQueue (replicate thread_count Pulling) ∅ [] [].

Section pool.
  (** The turns a function needs. *)
  Variable duration : nat -> nat.

Definition set_queue q p := MkThreadPool q (thread_pool_ p) (cancelled p) (started p) (called p).
Definition set_worker i w p :=
  MkThreadPool (sync_queue_ p) (<[i := w]> (thread_pool_ p)) (cancelled p) (started p) (called p).

Definition EnqueueTask (func : Task) (p : ThreadPool) : ThreadPool :=
  set_queue (Push func (sync_queue_ p)) p.

(** The call [task()]: the functions it calls and the turns it takes. *)
Definition run_task (task : Task) (p : ThreadPool) : list nat * nat :=
  match task with
  | PlainTask func => ([func], duration func)
  | ContextTask func context =>
    if decide (context ∈ cancelled p) then ([], 0%nat) else ([func], duration func)
  end.

(** A turn of worker [i], in its loop. *)
Definition WorkerTurn (i : nat) (p : ThreadPool) : ThreadPool :=
  match thread_pool_ p !! i with
  | Some Pulling =>
    match Pull (sync_queue_ p) with
    | PullWaits => p
    | PullFails => set_worker i Returned p
    | Pulled task q =>
      let '(calls, turns) := run_task task p in
      MkThreadPool q (<[i := Running turns]> (thread_pool_ p)) (cancelled p)
        (started p ++ [task]) (called p ++ calls)
    end
  | Some (Running (S turns)) => set_worker i (Running turns) p
  | Some (Running O) => set_worker i Pulling p
  | Some Returned | None => p
  end.

(** The destructor closes the queue; its joins return once [joined]. *)
Definition CloseQueue (p : ThreadPool) : ThreadPool := set_queue (Close (sync_queue_ p)) p.

Definition returned (w : Worker) : bool := match w with Returned => true | _ => false end.
Definition joined (p : ThreadPool) : bool := forallb returned (thread_pool_ p).

Definition CancelContext (context : nat) (p : ThreadPool) : ThreadPool :=
  MkThreadPool (sync_queue_ p) (thread_pool_ p) ({[context]} ∪ cancelled p) (started p) (called p).

Inductive action := DoEnqueue (func : Task) | DoTurn (i : nat) | DoClose | DoCancel (context : nat).

#[global] Instance task_eq_dec : EqDecision Task.
Proof. solve_decision. Defined.
#[global] Instance action_eq_dec : EqDecision action.
Proof. solve_decision. Defined.

Definition act (a : action) (p : ThreadPool) : ThreadPool :=
  match a with
  | DoEnqueue func => EnqueueTask func p
  | DoTurn i => WorkerTurn i p
  | DoClose => CloseQueue p
  | DoCancel context => CancelContext context p
  end.

(** The pool after the first [n] actions of a schedule. *)
Fixpoint after (schedule : nat -> action) (p : ThreadPool) (n : nat) : ThreadPool :=
  match n with
  | O => p
  | S n => act (schedule n) (after schedule p n)
  end.

(** The tasks a prefix of the schedule enqueued before the queue was closed. *)
Fixpoint accepted (schedule : nat -> action) (p : ThreadPool) (n : nat) : list Task :=
  match n with
  | O => []
  | S n =>
    match schedule n with
    | DoEnqueue func =>
      if closed_ (sync_queue_ (after schedule p n)) then accepted schedule p n
      else accepted schedule p n ++ [func]
    | _ => accepted schedule p n
    end
  end.

(** Worker [i] gets a turn again and again. *)
Definition fair (schedule : nat -> action) (i : nat) : Prop :=
  forall n, exists m, n <= m /\ schedule m = DoTurn i.

End pool.
