(* ===== verification/ThreadPoolFacts.v ===== *)
(** * The thread pool starts its tasks in order, once, and eventually

    Every task accepted before the queue is closed is started exactly once, in the
    order of the calls; under a fair schedule a queued task is started unless the
    pool is destroyed first, and the destructor returns. *)

From Stdlib Require Import ZArith Lia Bool.
From stdpp Require Import base numbers gmap list.
From S2P Require Import Prelude ThreadPool.

Section facts.
  Context (duration : nat -> nat).

  Abbreviation after := (ThreadPool.after duration).
  Abbreviation act := (ThreadPool.act duration).
  Abbreviation accepted := (ThreadPool.accepted duration).
  Abbreviation is_closed p := (closed_ (sync_queue_ p)).

(** The tasks started and queued. *)
Definition taken (p : ThreadPool) : list Task := started p ++ queue_ (sync_queue_ p).

Definition newly_accepted (a : action) (p : ThreadPool) : list Task :=
  match a with DoEnqueue func => if is_closed p then [] else [func] | _ => [] end.

Lemma accepted_S sch p n :
  accepted sch p (S n) = accepted sch p n ++ newly_accepted (sch n) (after sch p n).
Proof.
  cbn. destruct (sch n); cbn; rewrite ?app_nil_r; try done.
  by destruct (is_closed (after sch p n)); rewrite ?app_nil_r.
Qed.

(** A step either appends at most one task, or closes the queue and empties it. *)
Lemma act_taken a p :
  taken (act a p) = taken p ++ newly_accepted a p
  \/ (a = DoClose /\ is_closed (act a p) = true /\ started (act a p) = started p).
Proof.
  destruct a as [func|i| |c]; [| | by right |].
  - left. unfold taken; cbn. unfold Push. destruct (is_closed p); cbn; [by rewrite app_nil_r|].
    by rewrite app_assoc.
  - left. rewrite app_nil_r. cbn. unfold WorkerTurn, Pull, pull_ready, Empty.
    destruct (thread_pool_ p !! i) as [[|[]|]|]; try done.
    destruct (queue_ (sync_queue_ p)) as [|t q] eqn:Eq, (is_closed p); cbn; try done.
    destruct (run_task duration t p). unfold taken. cbn. by rewrite Eq, <- app_assoc.
  - left. by rewrite app_nil_r.
Qed.

Lemma act_closed a p : is_closed p = true -> is_closed (act a p) = true.
Proof.
  intros Hc. destruct a as [func|i| |c]; cbn; try done.
  - unfold Push. by rewrite Hc.
  - unfold WorkerTurn, Pull, pull_ready.
    destruct (thread_pool_ p !! i) as [[|[]|]|]; try done. rewrite Hc, orb_true_r. done.
Qed.

(** A closed queue stays empty and no task is started any more. *)
Lemma act_started_closed a p :
  is_closed p = true -> started (act a p) = started p.
Proof.
  intros Hc. destruct a as [func|i| |c]; cbn; try done.
  unfold WorkerTurn, Pull, pull_ready.
  destruct (thread_pool_ p !! i) as [[|[]|]|]; try done. rewrite Hc, orb_true_r. done.
Qed.

Lemma after_closed sch p n m :
  n <= m -> is_closed (after sch p n) = true -> is_closed (after sch p m) = true.
Proof.
  induction 1 as [|m Hm IH]; [done|]. intros Hc. cbn. by apply act_closed, IH.
Qed.

Lemma after_open sch p n m :
  n <= m -> is_closed (after sch p m) = false -> is_closed (after sch p n) = false.
Proof.
  intros Hle Hm. destruct (is_closed (after sch p n)) eqn:E; [|done].
  by rewrite (after_closed sch p n m) in Hm.
Qed.

(** ** Order *)

(** Every accepted task is started at most once and in order; the tasks not yet
    started are the queue, until it is closed. *)
Lemma taken_accepted sch count n :
  let p := after sch (NewThreadPool count) n in
  started p `prefix_of` accepted sch (NewThreadPool count) n /\
  (is_closed p = false -> taken p = accepted sch (NewThreadPool count) n).
Proof.
  induction n as [|n [IHp IHq]]; [done|]. rewrite accepted_S. cbn [ThreadPool.after].
  set (p := after sch (NewThreadPool count) n) in *.
  destruct (is_closed p) eqn:Hc.
  - rewrite act_started_closed, (act_closed (sch n) p) by done.
    split; [|done]. by apply prefix_app_r.
  - specialize (IHq eq_refl). destruct (act_taken (sch n) p) as [Ht|(Ha & Hcl & Hs)].
    + rewrite IHq in Ht. split; [|done]. rewrite <- Ht. unfold taken.
      by exists (queue_ (sync_queue_ (act (sch n) p))).
    + rewrite Hs, Hcl. split; [|done]. by apply prefix_app_r.
Qed.

Lemma started_mono a q : length (started q) <= length (started (act a q)).
Proof.
  destruct a as [func|j| |c]; try done. cbn. unfold WorkerTurn.
  destruct (thread_pool_ q !! j) as [[|[]|]|]; try done.
  destruct (Pull (sync_queue_ q)) as [| |t l]; try done.
  destruct (run_task duration t q); cbn. rewrite length_app. lia.
Qed.

Lemma accepted_prefix sch p n m : n <= m -> accepted sch p n `prefix_of` accepted sch p m.
Proof.
  induction 1 as [|m _ IH]; [done|]. rewrite accepted_S. by apply prefix_app_r.
Qed.

Lemma started_mono_after sch p n m :
  n <= m -> length (started (after sch p n)) <= length (started (after sch p m)).
Proof.
  induction 1 as [|m _ IH]; [done|]. cbn. pose proof (started_mono (sch m) (after sch p m)). lia.
Qed.

(** The functions called are those of the started tasks, less cancelled ones. *)
Definition task_func (t : Task) : nat :=
  match t with PlainTask func | ContextTask func _ => func end.

Lemma called_sublist sch count n :
  let p := after sch (NewThreadPool count) n in
  called p `sublist_of` (task_func <$> started p).
Proof.
  induction n as [|n IH]; [done|]. cbn. set (p := after sch (NewThreadPool count) n) in *.
  destruct (sch n) as [func|i| |c]; cbn; try done.
  unfold WorkerTurn. destruct (thread_pool_ p !! i) as [[|[]|]|]; try done.
  destruct (Pull (sync_queue_ p)) as [| |t q]; try done.
  destruct t as [f|f c]; cbn.
  - rewrite fmap_app. by apply sublist_app.
  - case_decide; cbn; rewrite fmap_app; apply sublist_app; try done. apply sublist_nil_l.
Qed.

(** ** Progress *)

(** The turns worker [i] still needs before it pulls again. *)
Definition remaining (i : nat) (p : ThreadPool) : nat :=
  match thread_pool_ p !! i with Some (Running turns) => S turns | _ => 0 end.

(** Another action does not touch a worker. *)
Lemma act_other i a p :
  a <> DoTurn i -> thread_pool_ (act a p) !! i = thread_pool_ p !! i.
Proof.
  intros Ha. destruct a as [func|j| |c]; try done. assert (j <> i) by congruence.
  cbn. unfold WorkerTurn. destruct (thread_pool_ p !! j) as [[|[]|]|]; try done;
    cbn; try by rewrite list_lookup_insert_ne.
  destruct (Pull (sync_queue_ p)) as [| |t q]; cbn; try done; [by rewrite list_lookup_insert_ne|].
  destruct (run_task duration t p). cbn. by rewrite list_lookup_insert_ne.
Qed.

(** The workers only return when the queue is closed. *)
Definition workers_ok (p : ThreadPool) : Prop :=
  is_closed p = true \/ Forall (fun w => returned w = false) (thread_pool_ p).

Lemma act_workers a p : workers_ok p -> workers_ok (act a p).
Proof.
  intros [Hc|Hw]; [left; by apply act_closed|].
  destruct a as [func|i| |c]; cbn; [by right| |by left|by right].
  unfold WorkerTurn. destruct (thread_pool_ p !! i) as [[|[]|]|] eqn:Ei; try by right.
  - destruct (Pull (sync_queue_ p)) as [| |t q] eqn:Ep; [by right| |].
    + left. cbn. unfold Pull in Ep. destruct (negb (pull_ready _)); [done|].
      destruct (is_closed p); [done|]. by destruct (queue_ _).
    + right. destruct (run_task duration t p). by apply Forall_insert.
  - right. by apply Forall_insert.
  - right. by apply Forall_insert.
Qed.

Lemma act_length a p : length (thread_pool_ (act a p)) = length (thread_pool_ p).
Proof.
  destruct a as [func|i| |c]; try done. cbn. unfold WorkerTurn.
  destruct (thread_pool_ p !! i) as [[|[]|]|]; try done; cbn; rewrite ?length_insert; try done.
  destruct (Pull (sync_queue_ p)) as [| |t q]; cbn; rewrite ?length_insert; try done.
  destruct (run_task duration t p). cbn. by rewrite length_insert.
Qed.

Lemma after_workers sch p n :
  workers_ok p -> workers_ok (after sch p n) /\
  length (thread_pool_ (after sch p n)) = length (thread_pool_ p).
Proof.
  intros Hp. induction n as [|n [IHo IHl]]; [done|]. cbn. split; [by apply act_workers|].
  by rewrite act_length.
Qed.

Lemma new_workers count : workers_ok (NewThreadPool count).
Proof. right. by apply Forall_replicate. Qed.

(** A property that holds now and is kept by every action but a turn of [i] holds
    at the next turn of [i]. *)
Lemma next_turn sch i p n (P : ThreadPool -> Prop) :
  fair sch i -> P (after sch p n) ->
  (forall a q, a <> DoTurn i -> P q -> P (act a q)) ->
  exists m, n <= m /\ sch m = DoTurn i /\ P (after sch p m).
Proof.
  intros Hf HP Hkeep. destruct (Hf n) as (m & Hm & Et).
  remember (m - n) as d eqn:Ed. revert n Hm HP Ed. induction d as [|d IH]; intros n Hm HP Ed.
  - exists n. replace n with m by lia. split_and!; [done|done|]. by replace m with n by lia.
  - destruct (decide (sch n = DoTurn i)) as [E|E]; [by exists n|].
    destruct (IH (S n)) as (k & Hk & ? & ?); [lia| |lia|].
    + cbn. by apply Hkeep.
    + exists k. split_and!; [lia|done|done].
Qed.

(** What an action does to a queue with elements: it closes it, starts one, or
    leaves some in it. *)
Lemma act_progress a q :
  queue_ (sync_queue_ q) <> [] ->
  is_closed (act a q) = true \/ length (started q) < length (started (act a q)) \/
  (started (act a q) = started q /\ queue_ (sync_queue_ (act a q)) <> []).
Proof.
  intros Hq. destruct a as [func|i| |c]; cbn; [| |by left|by right; right].
  - unfold Push. destruct (is_closed q); right; right; cbn; [done|]. split; [done|].
    by destruct (queue_ (sync_queue_ q)).
  - unfold WorkerTurn, Pull, pull_ready, Empty.
    destruct (thread_pool_ q !! i) as [[|[]|]|]; try by right; right.
    destruct (queue_ (sync_queue_ q)) as [|t l] eqn:El; [done|].
    destruct (is_closed q) eqn:Ec; cbn; [by left|].
    destruct (run_task duration t q). cbn. rewrite length_app. cbn. right. left. lia.
Qed.

Lemma running_turn i p k :
  thread_pool_ p !! i = Some (Running k) ->
  let p' := WorkerTurn duration i p in
  sync_queue_ p' = sync_queue_ p /\ started p' = started p /\ remaining i p' = k.
Proof.
  intros Hi. apply lookup_lt_Some in Hi as Hl. cbn. unfold WorkerTurn, remaining. rewrite Hi.
  destruct k; cbn; by rewrite list_lookup_insert_eq.
Qed.

(** With elements in the queue a worker that gets its turns starts one. *)
Lemma worker_progress sch i p n :
  fair sch i -> workers_ok p -> i < length (thread_pool_ p) ->
  queue_ (sync_queue_ (after sch p n)) <> [] ->
  exists m, n <= m /\
    (is_closed (after sch p m) = true \/
     length (started (after sch p n)) < length (started (after sch p m))).
Proof.
  intros Hf Hp Hi. remember (remaining i (after sch p n)) as r eqn:Er. revert n Er.
  induction (lt_wf r) as [r _ IH]. intros n -> Hq.
  set (len := length (started (after sch p n))).
  set (P := fun q => is_closed q = true \/ len < length (started q) \/
    (length (started q) = len /\ queue_ (sync_queue_ q) <> [] /\
     remaining i q = remaining i (after sch p n))).
  destruct (next_turn sch i p n P) as (m & Hm & Et & HP); [done|by right; right| |].
  { intros a q Ha [Hc|[Hl|(Hl & Hne & Hr)]].
    - left. by apply act_closed.
    - right; left. pose proof (started_mono a q). lia.
    - destruct (act_progress a q Hne) as [?|[?|[Hs ?]]]; [by left|right; left; lia|].
      right; right. split_and!; [by rewrite Hs|done|]. rewrite <- Hr. unfold remaining.
      by rewrite act_other. }
  destruct HP as [Hc|[Hl|(Hl & Hne & Hr)]]; [exists m; auto|exists m; auto|].
  destruct (is_closed (after sch p m)) eqn:Hc; [exists m; auto|].
  destruct (after_workers sch p m Hp) as [[?|Hw] Hlen]; [congruence|].
  destruct (lookup_lt_is_Some_2 (thread_pool_ (after sch p m)) i) as [w Hwi]; [lia|].
  assert (after sch p (S m) = WorkerTurn duration i (after sch p m)) as Es by (cbn; by rewrite Et).
  destruct w as [|k|].
  - exists (S m). split; [lia|]. right. rewrite Es. unfold WorkerTurn, Pull, pull_ready, Empty.
    rewrite Hwi. destruct (queue_ (sync_queue_ (after sch p m))) as [|t l]; [done|].
    rewrite Hc. cbn. destruct (run_task duration t (after sch p m)). cbn. rewrite length_app. cbn. lia.
  - destruct (running_turn i (after sch p m) k Hwi) as (Hsq & Hst & Hrem). rewrite <- Es in *.
    destruct (IH k) with (n := S m) as (m' & Hm' & Hgoal); [|done|by rewrite Hsq|].
    { rewrite <- Hr. unfold remaining. rewrite Hwi. lia. }
    exists m'. split; [lia|]. destruct Hgoal as [?|Hlt]; [by left|right]. rewrite Hst in Hlt. lia.
  - rewrite Forall_lookup in Hw. by specialize (Hw i _ Hwi).
Qed.

(** As many tasks as were queued are started, one after the other. *)
Lemma queue_progress sch count i n k :
  let run := after sch (NewThreadPool count) in
  fair sch i -> i < count -> k <= length (queue_ (sync_queue_ (run n))) ->
  exists m, n <= m /\ (is_closed (run m) = true \/
    length (started (run n)) + k <= length (started (run m))).
Proof.
  intros run Hf Hi. induction k as [|k IH]; intros Hk; [exists n; split; [done|right; lia]|].
  destruct IH as (m & Hm & Hor); [lia|].
  destruct (is_closed (run m)) eqn:Hc; [by exists m; auto|]. destruct Hor as [?|Hl]; [done|].
  destruct (taken_accepted sch count m) as [_ Hmt]. specialize (Hmt Hc). fold run in Hmt.
  destruct (taken_accepted sch count n) as [_ Hnt].
  specialize (Hnt (after_open sch _ n m Hm Hc)). fold run in Hnt.
  pose proof (prefix_length _ _ (accepted_prefix sch (NewThreadPool count) n m Hm)) as Hpl.
  rewrite <- Hmt, <- Hnt in Hpl. unfold taken in Hpl. rewrite !length_app in Hpl.
  destruct (decide (length (started (run n)) + S k <= length (started (run m)))) as [|Hlt];
    [by exists m; auto|].
  destruct (worker_progress sch i (NewThreadPool count) m) as (m' & Hm' & Hor).
  - done.
  - apply new_workers.
  - cbn. by rewrite length_replicate.
  - fold run. intros E. rewrite E in Hpl. cbn in Hpl. lia.
  - exists m'. split; [lia|]. fold run in Hor. destruct Hor; [by left|right; lia].
Qed.

Lemma closed_turn i p :
  is_closed p = true -> thread_pool_ p !! i = Some Pulling ->
  thread_pool_ (WorkerTurn duration i p) !! i = Some Returned.
Proof.
  intros Hc Hi. apply lookup_lt_Some in Hi as Hl. unfold WorkerTurn, Pull, pull_ready.
  rewrite Hi, Hc, orb_true_r. cbn. by rewrite list_lookup_insert_eq.
Qed.

Lemma act_returned i a p :
  thread_pool_ p !! i = Some Returned -> thread_pool_ (act a p) !! i = Some Returned.
Proof.
  intros Hi. destruct (decide (a = DoTurn i)) as [->|Ha]; [|by rewrite act_other].
  cbn. unfold WorkerTurn. by rewrite Hi.
Qed.

Lemma after_returned sch p i n m :
  n <= m -> thread_pool_ (after sch p n) !! i = Some Returned ->
  thread_pool_ (after sch p m) !! i = Some Returned.
Proof. induction 1 as [|m _ IH]; [done|]. intros ?. cbn. by apply act_returned, IH. Qed.

(** Once the queue is closed, a worker returns when it has run its task. *)
Lemma worker_returns sch i p n w :
  fair sch i -> is_closed (after sch p n) = true -> thread_pool_ (after sch p n) !! i = Some w ->
  exists m, n <= m /\ thread_pool_ (after sch p m) !! i = Some Returned.
Proof.
  intros Hf. remember (remaining i (after sch p n)) as r eqn:Er. revert n w Er.
  induction (lt_wf r) as [r _ IH]. intros n w -> Hc Hw.
  destruct (next_turn sch i p n (fun q => is_closed q = true /\ thread_pool_ q !! i = Some w))
    as (m & Hm & Et & Hcm & Hwm); [done|done| |].
  { intros a q Ha [??]. split; [by apply act_closed|]. by rewrite act_other. }
  assert (after sch p (S m) = WorkerTurn duration i (after sch p m)) as Es by (cbn; by rewrite Et).
  destruct w as [|k|].
  - exists (S m). split; [lia|]. rewrite Es. by apply closed_turn.
  - destruct (running_turn i (after sch p m) k Hwm) as (Hsq & _ & Hrem).
    destruct (lookup_lt_is_Some_2 (thread_pool_ (after sch p (S m))) i) as [w' Hw'].
    { cbn. rewrite act_length. by apply lookup_lt_Some in Hwm. }
    destruct (IH k) with (n := S m) (w := w') as (m' & Hm' & ?); [|by rewrite Es| |done|].
    { unfold remaining. rewrite Hw. lia. }
    { by rewrite Es, Hsq. }
    exists m'. split; [lia|done].
  - by exists n.
Qed.

(** ** The properties *)

(** The pool is a first-in first-out queue of tasks: the tasks started are a
    prefix of those accepted, in the order of the calls and each once; until the
    queue is closed the rest is exactly the queue, and once it is closed nothing
    starts any more.  The functions called are those of the started tasks, in
    order, without those whose context was cancelled before the start. *)
Theorem pool_starts_in_order sch count n :
  let p := after sch (NewThreadPool count) n in
  started p `prefix_of` accepted sch (NewThreadPool count) n /\
  (is_closed p = false ->
   started p ++ queue_ (sync_queue_ p) = accepted sch (NewThreadPool count) n) /\
  (is_closed p = true -> forall m, n <= m -> started (after sch (NewThreadPool count) m) = started p) /\
  called p `sublist_of` (task_func <$> started p).
Proof.
  intros p. destruct (taken_accepted sch count n) as [Hp Hq].
  split_and!; [done|done| |apply called_sublist].
  intros Hc m Hm. induction Hm as [|m Hm IH]; [done|]. cbn. rewrite act_started_closed; [done|].
  by apply (after_closed _ _ n).
Qed.

(** C24. Under a schedule that gives one worker turns again and again, every queued
    task is eventually started, in its place in the order of the calls, unless the
    pool is destroyed before; it is enough that functions return, however long
    they take. *)
Theorem queued_task_starts sch count i n k t :
  fair sch i -> i < count ->
  queue_ (sync_queue_ (after sch (NewThreadPool count) n)) !! k = Some t ->
  exists m, n <= m /\
    (is_closed (after sch (NewThreadPool count) m) = true \/
     started (after sch (NewThreadPool count) m)
       !! (length (started (after sch (NewThreadPool count) n)) + k) = Some t).
Proof.
  intros Hf Hi Hk. apply lookup_lt_Some in Hk as Hlen.
  destruct (queue_progress sch count i n (S k)) as (m & Hm & Hor); [done|done|lia|].
  exists m. split; [done|]. destruct (is_closed (after sch _ m)) eqn:Hc; [by left|right].
  destruct Hor as [?|Hl]; [done|].
  destruct (taken_accepted sch count m) as [Hp _].
  destruct (taken_accepted sch count n) as [_ Hnt]. specialize (Hnt (after_open sch _ n m Hm Hc)).
  destruct (lookup_lt_is_Some_2 (started (after sch (NewThreadPool count) m))
    (length (started (after sch (NewThreadPool count) n)) + k)) as [t' Ht']; [lia|].
  rewrite Ht'. f_equal. eapply prefix_lookup_Some in Ht' as Ha; [|apply Hp].
  assert (taken (after sch (NewThreadPool count) n) !! (length (started (after sch (NewThreadPool count) n)) + k)
    = Some t) as Hb by (unfold taken; rewrite lookup_app_r by lia; by rewrite Nat.add_comm, Nat.add_sub).
  rewrite Hnt in Hb. eapply prefix_lookup_Some in Hb; [|apply (accepted_prefix sch _ n m Hm)].
  congruence.
Qed.

(** The destructor returns: once the queue is closed and every worker gets
    turns, all workers have left their loops at some point, so that every join
    ends, and until then no further task is started. *)
Theorem pool_destructor_returns sch count n :
  (forall i, i < count -> fair sch i) ->
  is_closed (after sch (NewThreadPool count) n) = true ->
  exists m, n <= m /\ joined (after sch (NewThreadPool count) m) = true /\
    started (after sch (NewThreadPool count) m) = started (after sch (NewThreadPool count) n).
Proof.
  intros Hf Hc. set (run := after sch (NewThreadPool count)) in *.
  assert (forall n, length (thread_pool_ (run n)) = count) as Hlen.
  { intros j. destruct (after_workers sch (NewThreadPool count) j (new_workers count)) as [_ E].
    unfold run. rewrite E. apply length_replicate. }
  assert (forall j, j <= count ->
    exists m, n <= m /\ forall i, i < j -> thread_pool_ (run m) !! i = Some Returned) as Hall.
  { induction j as [|j IH]; intros Hj; [exists n; split; [done|lia]|].
    destruct IH as (m & Hm & Hr); [lia|].
    destruct (lookup_lt_is_Some_2 (thread_pool_ (run m)) j) as [w Hw]; [by rewrite Hlen|].
    destruct (worker_returns sch j (NewThreadPool count) m w) as (m' & Hm' & Hj'); [auto| |done|].
    { by apply (after_closed _ _ n). }
    exists m'. split; [lia|]. intros i Hi. destruct (decide (i = j)) as [->|]; [done|].
    apply (after_returned _ _ _ m m'); [done|]. apply Hr. lia. }
  destruct (Hall count) as (m & Hm & Hr); [done|]. exists m. split_and!; [done| |].
  - unfold joined. apply forallb_forall. intros w Hw%list_elem_of_In.
    apply list_elem_of_lookup in Hw as [i Hi]. apply lookup_lt_Some in Hi as Hl.
    rewrite Hr in Hi by (by rewrite Hlen in Hl). by simplify_eq.
  - clear Hr Hall. induction Hm as [|m Hm IH]; [done|]. unfold run. cbn.
    rewrite act_started_closed; [done|]. by apply (after_closed _ _ n).
Qed.

End facts.

(** ** Witnesses *)

(** One worker, that gets every turn after two tasks were enqueued. *)
Definition example_schedule (n : nat) : action :=
  match n with
  | O => DoEnqueue (PlainTask 7)
  | 1 => DoEnqueue (ContextTask 8 0)
  | _ => DoTurn 0
  end.

Lemma example_fair : fair example_schedule 0.
Proof. intros n. exists (2 + n). split; [lia|done]. Qed.

Lemma queued_task_starts_witness :
  exists m, 2 <= m /\
    (closed_ (sync_queue_ (after (fun _ => 3) example_schedule (NewThreadPool 1) m)) = true \/
     started (after (fun _ => 3) example_schedule (NewThreadPool 1) m) !! 1 = Some (ContextTask 8 0)).
Proof.
  apply (queued_task_starts (fun _ => 3) example_schedule 1 0 2 1 (ContextTask 8 0) example_fair); [lia|reflexivity].
Defined.

Definition example_shutdown (n : nat) : action :=
  match n with
  | O => DoEnqueue (PlainTask 7)
  | 1 => DoTurn 0
  | 2 => DoEnqueue (PlainTask 9)
  | 3 => DoClose
  | _ => DoTurn 0
  end.

Lemma pool_destructor_returns_witness :
  exists m, 4 <= m /\
    joined (after (fun _ => 3) example_shutdown (NewThreadPool 1) m) = true /\
    started (after (fun _ => 3) example_shutdown (NewThreadPool 1) m) = [PlainTask 7].
Proof.
  apply (pool_destructor_returns (fun _ => 3) example_shutdown 1 4); [|reflexivity].
  intros i Hi n. exists (4 + n). split; [lia|]. replace i with 0 by lia. reflexivity.
Defined.
