(* ===== verification/ThreadSafeQueue.v ===== *)
(** * Queues and times of the stream writer

    [olp-cpp-sdk-dataservice-write/src/ThreadSafeQueue.cpp] (a vector behind a
    mutex, each operation atomic), [PartitionTimestampQueue.cpp] and
    [TimeUtils.cpp]. *)

From Stdlib Require Import ZArith Lia Bool.
From stdpp Require Import base numbers list.
From S2P Require Import Prelude.

Section queue.
  Context {T : Type}.
  Implicit Types m_vec : list T.

(** [std::rotate(begin, begin + n, end)]: the vector and the index returned. *)
Definition rotate (n : nat) m_vec : list T * nat := (drop n m_vec ++ take n m_vec, length m_vec - n).

(** [m_vec.erase(std::rotate(begin, begin + n, end), end)] *)
Definition erase_rotated (n : nat) m_vec : list T :=
  let '(v, pos) := rotate n m_vec in take pos v.

Definition empty m_vec : bool := (length m_vec =? 0)%nat.
Definition size m_vec : nat := length m_vec.
(** [front] and [back] of an empty vector are undefined. *)
Definition front m_vec : option T := head m_vec.
Definition back m_vec : option T := last m_vec.

Definition push (val : T) m_vec : list T := m_vec ++ [val].

(** [push(const value_type&, maxSize, bOverwrite)] *)
Definition push_copy (val : T) (maxSize : nat) (bOverwrite : bool) m_vec : list T :=
  if (maxSize =? 0)%nat then []
  else if (maxSize <=? length m_vec)%nat then
    if bOverwrite then erase_rotated (length m_vec - maxSize + 1) m_vec ++ [val] else m_vec
  else m_vec ++ [val].

(** [push(value_type&&, maxSize, bOverwrite)] *)
Definition push_move (val : T) (maxSize : nat) (bOverwrite : bool) m_vec : list T :=
  if (maxSize =? 0)%nat then if bOverwrite then [] else m_vec
  else if (maxSize <=? length m_vec)%nat then
    if bOverwrite then erase_rotated (length m_vec - maxSize + 1) m_vec ++ [val] else m_vec
  else m_vec ++ [val].

(** The loop of [emplace_count]. *)
Fixpoint emplace_count (num : nat) (val : T) m_vec : list T :=
  match num with
  | O => m_vec
  | S n => emplace_count n val (m_vec ++ [val])
  end.

Definition pop m_vec : list T :=
  if negb (empty m_vec) then erase_rotated 1 m_vec else m_vec.

Definition pop_n (num : nat) m_vec : list T * bool :=
  if negb (num =? 0)%nat && (num <=? length m_vec)%nat then (drop num m_vec, true) else (m_vec, false).

Definition swap m_vec (x : list T) : list T * list T := (x, m_vec).

(** [None] is a default-constructed value. *)
Definition top (offset : nat) m_vec : option T :=
  if (length m_vec <=? offset)%nat then None else m_vec !! offset.

Definition try_pop m_vec : list T * option T :=
  if negb (empty m_vec) then (erase_rotated 1 m_vec, front m_vec) else (m_vec, None).

Lemma erase_rotated_drop n m_vec : n <= length m_vec -> erase_rotated n m_vec = drop n m_vec.
Proof.
  intros Hn. unfold erase_rotated, rotate. rewrite take_app_le by (rewrite length_drop; lia).
  apply take_ge. rewrite length_drop. lia.
Qed.

Lemma emplace_count_app num val m_vec : emplace_count num val m_vec = m_vec ++ replicate num val.
Proof.
  revert m_vec. induction num as [|n IH]; intros v; simpl; [by rewrite app_nil_r|].
  by rewrite IH, <- app_assoc.
Qed.

Lemma pop_tail m_vec : pop m_vec = tail m_vec.
Proof. destruct m_vec as [|x v]; [done|]. unfold pop. simpl. by rewrite erase_rotated_drop by (simpl; lia). Qed.

(** A bounded push with overwriting keeps the newest elements, at most
    [maxSize]. *)
Lemma push_overwrite val maxSize m_vec :
  push_copy val maxSize true m_vec = push_move val maxSize true m_vec /\
  push_move val maxSize true m_vec = drop (S (length m_vec) - maxSize) (m_vec ++ [val]).
Proof.
  unfold push_copy, push_move. destruct (Nat.eqb_spec maxSize 0) as [->|Hne].
  - split; [done|]. rewrite drop_ge; [done|]. rewrite length_app. simpl. lia.
  - split; [done|]. destruct (Nat.leb_spec maxSize (length m_vec)) as [Hle|Hlt].
    + rewrite erase_rotated_drop by lia.
      replace (S (length m_vec) - maxSize)%nat with (length m_vec - maxSize + 1)%nat by lia.
      by rewrite drop_app_le by lia.
    + replace (S (length m_vec) - maxSize)%nat with 0%nat by lia. done.
Qed.

(** Without overwriting and with a bound of zero the two variants differ: the
    copying one empties the queue. *)
Lemma push_zero_differs val m_vec :
  push_copy val 0 false m_vec = [] /\ push_move val 0 false m_vec = m_vec.
Proof. done. Qed.
End queue.

(** ** Timestamps of the queued partitions *)

Local Open Scope Z_scope.

(** Time points and durations are milliseconds; [0] is a default-constructed time
    point. *)
Definition CalculateTimeSinceOldestPartition (now : Z) (queue : list Z) : Z :=
  let top_timestamp := default 0 (top 0 queue) in
  if top_timestamp =? 0 then 0 else now - top_timestamp.

Definition PushPartitionTimestamps (now : Z) (queue : list Z) (size : nat) : list Z :=
  emplace_count size now queue.

(** ** Time until the next hour, day or week *)

Definition kSecondsInMinute : Z := 60.
Definition kSecondsInHour : Z := 3600.
Definition kSecondsInDay : Z := 86400.

Definition getSecondsToNextHour (tm_min tm_sec : Z) : Z :=
  let timeToNextHour := kSecondsInMinute - tm_sec in
  timeToNextHour + kSecondsInMinute * (59 - tm_min).

Definition getSecondsToNextDay (tm_hour tm_min tm_sec : Z) : Z :=
  getSecondsToNextHour tm_min tm_sec + kSecondsInHour * (23 - tm_hour).

Definition getSecondsToNextWeek (tm_wday tm_hour tm_min tm_sec : Z) : Z :=
  getSecondsToNextDay tm_hour tm_min tm_sec + kSecondsInDay * (6 - tm_wday).

Inductive TimePeriod := Hourly | Daily | Weekly.

(** The fields of [std::tm] that are used; [tm_wday] counts from Sunday. *)
Record tm := MkTm { tm_wday : Z; tm_hour : Z; tm_min : Z; tm_sec : Z }.

(** [getDelayTillPeriod], in milliseconds, for the local time [currentTimePoint]. *)
Definition getDelayTillPeriod (period : TimePeriod) (currentTimePoint : tm) : Z :=
  let t := currentTimePoint in
  1000 * match period with
         | Weekly => getSecondsToNextWeek (tm_wday t) (tm_hour t) (tm_min t) (tm_sec t)
         | Daily => getSecondsToNextDay (tm_hour t) (tm_min t) (tm_sec t)
         | Hourly => getSecondsToNextHour (tm_min t) (tm_sec t)
         end.

(** A local time inside a week, a leap second included. *)
Definition tm_ok (t : tm) : Prop :=
  0 <= tm_wday t <= 6 /\ 0 <= tm_hour t <= 23 /\ 0 <= tm_min t <= 59 /\ 0 <= tm_sec t <= 60.

(** Seconds since Sunday 00:00:00. *)
Definition seconds_of_week (t : tm) : Z :=
  ((tm_wday t * 24 + tm_hour t) * 60 + tm_min t) * 60 + tm_sec t.

Definition period_seconds (period : TimePeriod) : Z :=
  match period with Hourly => 3600 | Daily => 86400 | Weekly => 604800 end.

(** The delay until a period leads exactly to the start of the next hour, day
    or week, is not negative, at most the period and, a leap second apart,
    positive; the week starts on Sunday. *)
Theorem delay_reaches_period period t :
  tm_ok t ->
  let delay := getDelayTillPeriod period t in
  (1000 * seconds_of_week t + delay) mod (1000 * period_seconds period) = 0 /\
  0 <= delay <= 1000 * period_seconds period /\ (tm_sec t <> 60 -> 0 < delay) /\
  (period = Weekly -> 1000 * seconds_of_week t + delay = 1000 * 604800).
Proof.
  intros (Hw & Hh & Hm & Hs). destruct t as [w h m s]; simpl in *.
  unfold getDelayTillPeriod, seconds_of_week, getSecondsToNextWeek, getSecondsToNextDay, getSecondsToNextHour,
    kSecondsInMinute, kSecondsInHour, kSecondsInDay; simpl.
  destruct period; simpl; (split; [|split; [lia|split; [lia|try done]]]).
  - apply Z.mod_divide; [lia|]. exists (w * 24 + h + 1). lia.
  - apply Z.mod_divide; [lia|]. exists (w + 1). lia.
  - apply Z.mod_divide; [lia|]. exists 1. lia.
  - intros _. lia.
Qed.

Lemma delay_reaches_period_witness :
  let t := MkTm 3 14 59 58 in
  let delay := getDelayTillPeriod Weekly t in
  (1000 * seconds_of_week t + delay) mod (1000 * period_seconds Weekly) = 0 /\
  0 <= delay <= 1000 * period_seconds Weekly /\ (tm_sec t <> 60 -> 0 < delay) /\
  (Weekly = Weekly -> 1000 * seconds_of_week t + delay = 1000 * 604800).
Proof. apply (delay_reaches_period Weekly (MkTm 3 14 59 58)). unfold tm_ok; simpl. lia. Defined.
