(* ===== verification/StreamQueue.v ===== *)
(** * The queue of the stream layer client

    [olp-cpp-sdk-dataservice-write/src/StreamLayerClientImpl.cpp]: requests queued
    in a key-value cache, under random keys that a comma-separated list in the
    same cache keeps in order, and the loop that flushes them.  The cache is used
    through the interface below ([cache::KeyValueCache]); publishing is a
    parameter. *)

From Stdlib Require Import ZArith Lia Bool Ascii.
From stdpp Require Import base numbers strings gmap list.
From S2P Require Import Prelude Decimal ThreadSafeQueue.
Local Open Scope Z_scope.

(** ** Data *)

Record PublishDataRequest := MkPublishDataRequest {
  data_ : option text;
  layer_id_ : text;
  trace_id_ : option text;
  billing_tag_ : option text;
  checksum_ : option text }.

Record FlushSettings := MkFlushSettings {
  auto_flush_num_events : Z;
  auto_flush_interval : Z;
  auto_flush_time_period : option TimePeriod;
  auto_flush_old_events_force_flush_interval : Z;
  events_per_single_flush : option Z;
  maximum_requests : option Z }.

Definition default_FlushSettings : FlushSettings := MkFlushSettings 20 0 None 0 None None.

(** What the client keeps in the cache ([boost::any]). *)
Inductive CacheValue := CachedText (s : text) | CachedRequest (r : PublishDataRequest).

(** [cache::KeyValueCache] *)
Class KeyValueCache (C : Type) := {
  cache_Put : text -> CacheValue -> C -> C * bool;
  cache_Get : text -> C -> C * option CacheValue;
  cache_Remove : text -> C -> C * bool }.

(** A cache that may refuse to store or to remove something, and then leaves it as it was;
    what it does not refuse it keeps. *)
Class RefusingCache (C : Type) `{KeyValueCache C} := {
  contents : C -> gmap text CacheValue;
  stores : text -> CacheValue -> C -> bool;
  removes : text -> C -> bool;
  put_contents k v c :
    contents (cache_Put k v c).1 = if stores k v c then <[k := v]> (contents c) else contents c;
  get_contents k c : contents (cache_Get k c).1 = contents c;
  get_value k c : (cache_Get k c).2 = contents c !! k;
  remove_contents k c :
    contents (cache_Remove k c).1 = if removes k c then delete k (contents c) else contents c }.

(** The simplest cache: it refuses nothing. *)
#[global] Instance map_cache : KeyValueCache (gmap text CacheValue) := {
  cache_Put k v c := (<[k := v]> c, true);
  cache_Get k c := (c, c !! k);
  cache_Remove k c := (delete k c, true) }.
#[global] Instance map_cache_refusing : RefusingCache (gmap text CacheValue).
Proof. by exists (fun c => c) (fun _ _ _ => true) (fun _ _ => true). Defined.

(** ** The client *)

Section client.
  Context {C : Type} `{KeyValueCache C}.

(** [timestamps] is the [PartitionTimestampQueue] of the enabled auto-flush
    controller, [None] if auto-flush is disabled; [flush_events] counts the
    background flushes it has started. *)
Record StreamLayerClientImpl := MkStreamLayerClientImpl {
  catalog_hrn : text; (* catalog_.ToCatalogHRNString() *)
  cache_ : option C;
  flush_settings_ : FlushSettings;
  timestamps : option (list Z);
  flush_events : nat }.

Definition set_cache (c : C) (s : StreamLayerClientImpl) : StreamLayerClientImpl :=
  MkStreamLayerClientImpl (catalog_hrn s) (Some c) (flush_settings_ s) (timestamps s) (flush_events s).
Definition set_timestamps t (s : StreamLayerClientImpl) : StreamLayerClientImpl :=
  MkStreamLayerClientImpl (catalog_hrn s) (cache_ s) (flush_settings_ s) t (flush_events s).
Definition start_flush (s : StreamLayerClientImpl) : StreamLayerClientImpl :=
  MkStreamLayerClientImpl (catalog_hrn s) (cache_ s) (flush_settings_ s) (timestamps s) (S (flush_events s)).

Definition GetUuidListKey (s : StreamLayerClientImpl) : text := catalog_hrn s ++ str "-stream-queue-cache".

Definition comma : ascii := ",".

Definition count_commas (l : text) : nat := length (filter (fun c => c = comma) l).

(** [boost::any_cast<std::string>] throws for another type. *)
Definition any_cast_text (v : CacheValue) : option text :=
  match v with CachedText l => Some l | CachedRequest _ => None end.
Definition any_cast_request (v : CacheValue) : option PublishDataRequest :=
  match v with CachedRequest r => Some r | CachedText _ => None end.

(** The list of keys, [None] inside if the cache has none; a missing cache is
    dereferenced. *)
Definition get_uuid_list (s : StreamLayerClientImpl) : option (StreamLayerClientImpl * option text) :=
  c ← cache_ s;
  let '(c1, uuid_list_any) := cache_Get (GetUuidListKey s) c in
  match uuid_list_any with
  | None => Some (set_cache c1 s, None)
  | Some v => l ← any_cast_text v; Some (set_cache c1 s, Some l)
  end.

Definition QueueSize (s : StreamLayerClientImpl) : option (StreamLayerClientImpl * nat) :=
  '(s1, uuid_list) ← get_uuid_list s;
  Some (s1, match uuid_list with Some l => count_commas l | None => 0%nat end).

(** The enabled controller's reactions ([AutoFlushController.cpp]). *)
Definition NotifyQueueEventStart (now : Z) (s : StreamLayerClientImpl) : StreamLayerClientImpl :=
  match timestamps s with
  | Some t =>
    if auto_flush_old_events_force_flush_interval (flush_settings_ s) >? 0
    then set_timestamps (Some (PushPartitionTimestamps now t 1)) s else s
  | None => s
  end.

Definition NotifyFlushEvent (s : StreamLayerClientImpl) : StreamLayerClientImpl :=
  match timestamps s with
  | Some t =>
    if auto_flush_old_events_force_flush_interval (flush_settings_ s) >? 0
    then set_timestamps (Some (pop t)) s else s
  | None => s
  end.

(** The comparison converts the setting to [size_t]. *)
Definition NotifyQueueEventComplete (s : StreamLayerClientImpl) : option StreamLayerClientImpl :=
  match timestamps s with
  | Some _ =>
    '(s1, n) ← QueueSize s;
    if Z.of_nat n >=? wrap 64 (auto_flush_num_events (flush_settings_ s1)) then Some (start_flush s1) else Some s1
  | None => Some s
  end.

(** [Enable]: an enabled controller stays; a new one has the time now for each
    queued request.  Its periodic threads are not modelled. *)
Definition Enable (now : Z) (s : StreamLayerClientImpl) : option StreamLayerClientImpl :=
  match timestamps s with
  | Some _ => Some s
  | None =>
    '(s1, n) ← (if auto_flush_old_events_force_flush_interval (flush_settings_ s) >? 0
                then QueueSize s else Some (s, 0%nat));
    NotifyQueueEventComplete (set_timestamps (Some (PushPartitionTimestamps now [] n)) s1)
  end.

Definition Disable (s : StreamLayerClientImpl) : StreamLayerClientImpl := set_timestamps None s.

(** The part of [Queue] before it stores the request. *)
Definition check_queue (request : PublishDataRequest) (s : StreamLayerClientImpl)
    : option (StreamLayerClientImpl * option text) :=
  match cache_ s with
  | None => Some (s, Some (str "No cache provided to StreamLayerClient"))
  | Some _ =>
    match data_ request with
    | None => Some (s, Some (str "PublishDataRequest does not contain any Data"))
    | Some _ =>
      if bool_decide (layer_id_ request = []) then
        Some (s, Some (str "PublishDataRequest does not contain a Layer ID"))
      else
        match maximum_requests (flush_settings_ s) with
        | Some maximum =>
          '(s1, n) ← QueueSize s;
          if negb (Z.of_nat n <? maximum) then
            Some (s1, Some (str "Maximum number of requests has reached"))
          else Some (s1, None)
        | None => Some (s, None)
        end
    end
  end.

(** The part under the lock of the cache; [publish_data_key] is the new uuid. *)
Definition store_request (publish_data_key : text) (request : PublishDataRequest)
    (s : StreamLayerClientImpl) : option StreamLayerClientImpl :=
  c ← cache_ s;
  let '(c1, _) := cache_Put publish_data_key (CachedRequest request) c in
  '(s2, uuid_list_any) ← get_uuid_list (set_cache c1 s);
  let uuid_list := default [] uuid_list_any ++ publish_data_key ++ [comma] in
  c2 ← cache_ s2;
  let '(c3, _) := cache_Put (GetUuidListKey s2) (CachedText uuid_list) c2 in
  Some (set_cache c3 s2).

(** [Queue]: the error, if any. *)
Definition Queue (now : Z) (publish_data_key : text) (request : PublishDataRequest)
    (s : StreamLayerClientImpl) : option (StreamLayerClientImpl * option text) :=
  '(s1, error) ← check_queue request s;
  match error with
  | Some e => Some (s1, Some e)
  | None =>
    s2 ← store_request publish_data_key request (NotifyQueueEventStart now s1);
    s3 ← NotifyQueueEventComplete s2;
    Some (s3, None)
  end.

(** The text before the first comma and the text behind it. *)
Fixpoint split_comma (l : text) : option (text * text) :=
  match l with
  | [] => None
  | c :: rest =>
    if decide (c = comma) then Some ([], rest)
    else '(first, rest') ← split_comma rest; Some (c :: first, rest')
  end.

Definition PopFromQueue (s : StreamLayerClientImpl)
    : option (StreamLayerClientImpl * option PublishDataRequest) :=
  '(s1, uuid_list_any) ← get_uuid_list s;
  match uuid_list_any with
  | None => Some (s1, None)
  | Some uuid_list =>
    match split_comma uuid_list with
    | None => Some (s1, None)
    | Some (publish_data_key, rest) =>
      c1 ← cache_ s1;
      let '(c2, publish_data_any) := cache_Get publish_data_key c1 in
      let '(c3, _) := cache_Remove publish_data_key c2 in
      let '(c4, _) := cache_Put (GetUuidListKey s1) (CachedText rest) c3 in
      match publish_data_any with
      | None => Some (set_cache c4 s1, None)
      | Some v => r ← any_cast_request v; Some (set_cache c4 s1, Some r)
      end
    end
  end.

(** ** Flushing *)

Context {Response : Type}.
(** What publishing the [n]th popped request gives ([None] if the context was
    cancelled before), and whether the context is cancelled afterwards; the time
    and the key of the request queued again. *)
Variables (publish : nat -> PublishDataRequest -> option Response * bool) (now : Z) (new_key : text).

Definition more_events (maximum_events_number : option Z) (counter : Z) : bool :=
  match maximum_events_number with Some m => counter <? m | None => true end.

(** The loop of [Flush]; [None] also stands for fuel that has run out. *)
Fixpoint flush_loop (fuel : nat) (counter : nat) (response : list Response)
    (s : StreamLayerClientImpl) : option (StreamLayerClientImpl * list Response) :=
  match fuel with
  | O => None
  | S fuel =>
    if negb (more_events (events_per_single_flush (flush_settings_ s)) (Z.of_nat counter)) then
      Some (s, response)
    else
      '(s1, n) ← QueueSize s;
      if negb (0 <? n)%nat then Some (s1, response)
      else
        '(s2, publish_data_request) ← PopFromQueue s1;
        match publish_data_request with
        | None => flush_loop fuel counter response s2
        | Some r =>
          let s3 := NotifyFlushEvent s2 in
          let '(published, is_cancelled) := publish counter r in
          let response' := response ++ option_list published in
          if (is_cancelled : bool) then
            '(s4, _) ← Queue now new_key r s3;
            Some (s4, response')
          else flush_loop fuel (S counter) response' s3
        end
  end.

Definition Flush (fuel : nat) (s : StreamLayerClientImpl) : option (StreamLayerClientImpl * list Response) :=
  match events_per_single_flush (flush_settings_ s) with
  | Some m => if m <=? 0 then Some (s, []) else flush_loop fuel 0 [] s
  | None => flush_loop fuel 0 [] s
  end.

End client.
Arguments StreamLayerClientImpl : clear implicits.
