(* ===== verification/StreamQueueFacts.v ===== *)
(** * Correctness of the stream layer client's queue

    The cache-backed queue refines a first-in first-out list of requests, exactly so as
    long as the cache refuses nothing; what a refusal does to the list is stated too.  A
    flush publishes the head of the list. *)

From Stdlib Require Import ZArith Lia Bool Ascii.
From stdpp Require Import base numbers strings gmap list.
From S2P Require Import Prelude Decimal ThreadSafeQueue StreamQueue.
Local Open Scope Z_scope.

Section facts.
  Context {C : Type} `{RefusingCache C}.
  Implicit Types s : StreamLayerClientImpl C.

(** ** The list of requests a state stands for *)

Definition join_keys (keys : list text) : text := mjoin ((fun k => k ++ [comma]) <$> keys).

Definition valid_request (r : PublishDataRequest) : Prop := data_ r <> None /\ layer_id_ r <> [].

(** The queue: each request under its key, [None] if the cache refused to store it or lost
    it from an interrupted [PopFromQueue]. *)
Abbreviation Queued := (list (text * option PublishDataRequest)).

(** The cache contents [m] hold the requests [q] under their keys. *)
Record holds_queue (list_key : text) (m : gmap text CacheValue) (q : Queued) : Prop := {
  holds_list : m !! list_key = Some (CachedText (join_keys q.*1)) \/ m !! list_key = None /\ q = [];
  holds_request : forall k x, (k, x) ∈ q -> m !! k = CachedRequest <$> x;
  holds_distinct : NoDup q.*1;
  holds_list_key : list_key ∉ q.*1;
  holds_no_comma : Forall (fun k => comma ∉ k) q.*1;
  holds_valid : forall k r, (k, Some r) ∈ q -> valid_request r }.

(** With an old-events interval the enabled controller has a timestamp for each
    request. *)
Definition timestamps_ok s (n : nat) : Prop :=
  match timestamps s with
  | Some t => 0 < auto_flush_old_events_force_flush_interval (flush_settings_ s) -> length t = n
  | None => True
  end.

Definition represents s (q : Queued) : Prop :=
  exists c, cache_ s = Some c /\ holds_queue (GetUuidListKey s) (contents c) q.

(** A cache with the contents [m] that is asked to store [v] under [k] does so, or refuses. *)
Definition put_answers (m : gmap text CacheValue) (k : text) (v : CacheValue) (b : bool) : Prop :=
  exists c, contents c = m /\ stores k v c = b.

(** The cache has nothing under the key. *)
Definition unused (key : text) s : Prop := forall c, cache_ s = Some c -> contents c !! key = None.

Definition never_refuses : Prop := forall k v (c : C), stores k v c = true.
Definition always_refuses : Prop := forall k v (c : C), stores k v c = false.

(** States that differ in the cache at most. *)
Definition same_client s s' : Prop :=
  catalog_hrn s' = catalog_hrn s /\ flush_settings_ s' = flush_settings_ s.

Lemma join_cons k keys : join_keys (k :: keys) = k ++ comma :: join_keys keys.
Proof. unfold join_keys. cbn. by rewrite <- app_assoc. Qed.

Lemma count_join keys : Forall (fun k => comma ∉ k) keys -> count_commas (join_keys keys) = length keys.
Proof.
  unfold count_commas. induction 1 as [|k keys Hk _ IH]; [done|].
  rewrite join_cons, filter_app, filter_cons_True by done. rewrite length_app. simpl. rewrite IH.
  assert (filter (fun c => c = comma) k = []) as ->; [|done].
  destruct (filter (fun c => c = comma) k) as [|c l] eqn:E; [done|]. exfalso. apply Hk.
  assert (c ∈ filter (fun c => c = comma) k) as Hc by (rewrite E; by left).
  apply list_elem_of_filter in Hc as [-> Hc]. done.
Qed.

Lemma split_join k keys :
  comma ∉ k -> split_comma (join_keys (k :: keys)) = Some (k, join_keys keys).
Proof.
  rewrite join_cons. induction k as [|c k IH]; intros Hk; cbn [app split_comma].
  - by rewrite decide_True.
  - apply not_elem_of_cons in Hk as [Hc Hk]. rewrite decide_False by done. by rewrite (IH Hk).
Qed.

Lemma join_snoc keys k : join_keys (keys ++ [k]) = join_keys keys ++ k ++ [comma].
Proof. unfold join_keys. rewrite fmap_app, join_app. cbn. by rewrite app_nil_r. Qed.

(** ** Reading the queue *)

Lemma get_uuid_list_spec s c q :
  cache_ s = Some c -> holds_queue (GetUuidListKey s) (contents c) q ->
  exists c1 l, get_uuid_list s = Some (set_cache c1 s, l) /\ contents c1 = contents c /\
    contents c !! GetUuidListKey s = CachedText <$> l /\ default [] l = join_keys q.*1.
Proof.
  intros Hc [Hl _ _ _ _ _]. unfold get_uuid_list. rewrite Hc. cbn [mbind option_bind].
  pose proof (get_value (GetUuidListKey s) c) as Hv. pose proof (get_contents (GetUuidListKey s) c) as Hk.
  destruct (cache_Get (GetUuidListKey s) c) as [c1 v]. simpl in *. subst v.
  destruct Hl as [Hl|[Hl ->]]; rewrite Hl; cbn [any_cast_text mbind option_bind].
  - by eexists _, (Some _).
  - by exists c1, None.
Qed.

Lemma set_cache_represents s c c1 q :
  cache_ s = Some c -> contents c1 = contents c -> represents s q -> represents (set_cache c1 s) q.
Proof. intros Hc Hk (c' & Hc' & Hh). exists c1. split; [done|]. rewrite Hk. by simplify_eq. Qed.

Lemma QueueSize_spec s q :
  represents s q ->
  exists s', QueueSize s = Some (s', length q) /\ represents s' q /\ same_client s s' /\
    timestamps s' = timestamps s /\ forall key, unused key s -> unused key s'.
Proof.
  intros Hr. pose proof Hr as (c & Hc & Hh). unfold QueueSize.
  destruct (get_uuid_list_spec s c q Hc Hh) as (c1 & l & -> & Hk & _ & Hl). cbn [mbind option_bind].
  exists (set_cache c1 s). split; [|split; [by eapply set_cache_represents|]].
  2:{ split_and!; [done..|]. intros key Hu c2 [= <-]. rewrite Hk. by apply Hu. }
  do 2 f_equal. pose proof (count_join q.*1 (holds_no_comma _ _ _ Hh)) as Hn.
  rewrite length_fmap in Hn. rewrite <- Hn, <- Hl. by destruct l.
Qed.

Lemma elem_key {A} (q : list (text * A)) k x : (k, x) ∈ q -> k ∈ q.*1.
Proof. intros Hin. apply list_elem_of_fmap. by exists (k, x). Qed.

(** The oldest request is taken: removed from the cache and from the list, unless the
    cache refuses that. *)
Lemma holds_tail list_key m k x q (removed listed : bool) :
  holds_queue list_key m ((k, x) :: q) ->
  let m1 := if removed then delete k m else m in
  holds_queue list_key (if listed then <[list_key := CachedText (join_keys q.*1)]> m1 else m1)
    (if listed then q else (k, if removed then None else x) :: q).
Proof.
  intros [Hl Hr Hd Hk Hc Hv] m1. simpl in *. apply NoDup_cons in Hd as [Hnk Hd].
  apply not_elem_of_cons in Hk as [Hne Hk]. apply Forall_cons in Hc as [Hck Hc].
  assert (forall k' x', (k', x') ∈ q -> m1 !! k' = CachedRequest <$> x') as Hm1.
  { intros k' x' Hin. rewrite <- (Hr k' x') by (by right). unfold m1. destruct removed; [|done].
    apply lookup_delete_ne. intros ->. by apply elem_key in Hin. }
  destruct listed.
  - split; [left; by rewrite lookup_insert_eq| |done|done|done|intros; eapply Hv; by right].
    intros k' x' Hin. rewrite lookup_insert_ne by (intros ->; by apply elem_key in Hin). by apply Hm1.
  - split; cbn [fmap list_fmap fst]; [| |by apply NoDup_cons|by apply not_elem_of_cons|by constructor|].
    + left. unfold m1. destruct Hl as [Hl|[_ Hl]]; [|done].
      destruct removed; [|done]. by rewrite lookup_delete_ne.
    + intros k' x' [[= -> ->]|Hin]%elem_of_cons; [|by apply Hm1].
      unfold m1. destruct removed; [by rewrite lookup_delete_eq|]. apply Hr. left.
    + intros k' r [[= -> E]|Hin]%elem_of_cons; [|eapply Hv; by right].
      destruct removed; [done|]. subst x. eapply Hv. left.
Qed.

(** After [PopFromQueue] the head is gone, or it stays with its request or without it. *)
Definition popped (q : Queued) (removed listed : bool) : Queued :=
  match q with
  | [] => []
  | (k, x) :: rest => if listed then rest else (k, if removed then None else x) :: rest
  end.

Lemma PopFromQueue_spec s c q :
  cache_ s = Some c -> holds_queue (GetUuidListKey s) (contents c) q ->
  exists s' removed listed, PopFromQueue s = Some (s', head q ≫= snd) /\ same_client s s' /\
    timestamps s' = timestamps s /\ flush_events s' = flush_events s /\
    represents s' (popped q removed listed) /\
    (forall key, key <> GetUuidListKey s -> unused key s -> unused key s') /\
    forall k rest, q.*1 = k :: rest ->
      put_answers (if removed then delete k (contents c) else contents c)
        (GetUuidListKey s) (CachedText (join_keys rest)) listed.
Proof.
  intros Hc Hh. unfold PopFromQueue.
  destruct (get_uuid_list_spec s c q Hc Hh) as (c1 & l & -> & Hk & Hv & Hl). cbn [mbind option_bind].
  destruct q as [|[k x] q].
  - exists (set_cache c1 s), true, true. split; [by destruct l as [l|]; [simpl in Hl; subst l|]|].
    split_and!; [done..| | |done].
    + exists c1. split; [done|]. change (GetUuidListKey (set_cache c1 s)) with (GetUuidListKey s). by rewrite Hk.
    + intros key _ Hu c2 [= <-]. rewrite Hk. by apply Hu.
  - destruct l as [l|]; [|exfalso; destruct Hh as [[Hx|[_ Hx]] _ _ _ _ _]; [simpl in Hv; congruence|done]].
    cbn [default from_option id] in Hl. subst l. simpl fmap.
    assert (comma ∉ k) as Hnc by apply (Forall_cons_1 _ _ _ (holds_no_comma _ _ _ Hh)).
    rewrite split_join by exact Hnc.
    cbn [cache_ set_cache mbind option_bind].
    pose proof (get_value k c1) as Hg. pose proof (get_contents k c1) as Hgc.
    destruct (cache_Get k c1) as [c2 v]. simpl in Hg, Hgc. subst v.
    pose proof (remove_contents k c2) as Hrm. destruct (cache_Remove k c2) as [c3 b3]. simpl in Hrm.
    set (removed := removes k c2) in *. clearbody removed.
    change (GetUuidListKey (set_cache c1 s)) with (GetUuidListKey s).
    pose proof (put_contents (GetUuidListKey s) (CachedText (join_keys q.*1)) c3) as Hp.
    assert (put_answers (contents c3) (GetUuidListKey s) (CachedText (join_keys q.*1))
      (stores (GetUuidListKey s) (CachedText (join_keys q.*1)) c3)) as Hans by (by exists c3).
    set (listed := stores _ _ c3) in *. clearbody listed.
    destruct (cache_Put _ _ c3) as [c4 b4]. simpl in Hp.
    rewrite Hrm, Hgc, Hk in Hp, Hans.
    rewrite Hk, (holds_request _ _ _ Hh k x) by (by left).
    exists (set_cache c4 (set_cache c1 s)), removed, listed. cbn [head mbind option_bind snd].
    split; [by destruct x|]. split_and!; [done..| | |by intros k' rest [= <- <-]].
    + exists c4. split; [done|]. change (GetUuidListKey (set_cache c4 (set_cache c1 s))) with (GetUuidListKey s).
      rewrite Hp. cbn [popped]. by apply holds_tail.
    + intros key Hne Hu c5 [= <-]. specialize (Hu c Hc). rewrite Hp.
      assert ((if removed then delete k (contents c) else contents c) !! key = None) as Hd.
      { destruct removed; [|done]. destruct (decide (key = k)) as [->|?]; [apply lookup_delete_eq|].
        by rewrite lookup_delete_ne. }
      destruct listed; [by rewrite lookup_insert_ne|done].
Qed.

(** ** Queuing *)

(** A key that can be given to a new request. *)
Definition fresh_key (key : text) s (q : Queued) : Prop :=
  (comma ∉ key) /\ (key ∉ q.*1) /\ key <> GetUuidListKey s /\ unused key s.

(** After [Queue]: the request is appended if its key is put into the list, with nothing
    under the key if it was not stored itself. *)
Definition queued (q : Queued) (key : text) (r : PublishDataRequest) (stored listed : bool) : Queued :=
  if listed then q ++ [(key, if stored then Some r else None)] else q.

Lemma holds_snoc list_key m key r q (stored listed : bool) :
  holds_queue list_key m q -> comma ∉ key -> key ∉ q.*1 -> key <> list_key -> m !! key = None ->
  valid_request r ->
  let m1 := if stored then <[key := CachedRequest r]> m else m in
  holds_queue list_key m1 q /\
  holds_queue list_key (if listed then <[list_key := CachedText (join_keys (q.*1 ++ [key]))]> m1 else m1)
    (queued q key r stored listed).
Proof.
  intros [Hl Hr Hd Hk Hc Hv] H1 H2 H3 H4 Hvr m1.
  assert (m1 !! list_key = m !! list_key) as Hml by (unfold m1; destruct stored; [by rewrite lookup_insert_ne|done]).
  assert (forall k x, (k, x) ∈ q -> m1 !! k = CachedRequest <$> x) as Hm1.
  { intros k x Hin. rewrite <- (Hr k x Hin). unfold m1. destruct stored; [|done].
    apply lookup_insert_ne. intros ->. by apply elem_key in Hin. }
  assert (holds_queue list_key m1 q) as Hq by (by split; [rewrite Hml|..]).
  split; [done|]. destruct listed; [|done]. unfold queued. split; rewrite ?fmap_app; cbn [fmap list_fmap fst].
  - left. by rewrite lookup_insert_eq.
  - intros k x [Hin|[= -> ->]%list_elem_of_singleton]%elem_of_app.
    + rewrite lookup_insert_ne by (intros ->; by apply elem_key in Hin). by apply Hm1.
    + rewrite lookup_insert_ne by done. unfold m1. destruct stored; [by rewrite lookup_insert_eq|done].
  - apply NoDup_app. split_and!; [done| |apply NoDup_singleton]. by intros k Hin ->%list_elem_of_singleton.
  - intros [Hin|Hin%list_elem_of_singleton]%elem_of_app; [done|congruence].
  - apply Forall_app. split; [done|]. by constructor.
  - intros k x [Hin|[= -> E]%list_elem_of_singleton]%elem_of_app; [by eapply Hv|].
    destruct stored; [by injection E as ->|done].
Qed.

(** The two [Put]s of [Queue] were answered with [stored] and [listed]. *)
Definition queue_answers s (q : Queued) (key : text) (r : PublishDataRequest) (stored listed : bool) : Prop :=
  forall c, cache_ s = Some c ->
    put_answers (contents c) key (CachedRequest r) stored /\
    put_answers (if stored then <[key := CachedRequest r]> (contents c) else contents c)
      (GetUuidListKey s) (CachedText (join_keys (q.*1 ++ [key]))) listed.

Lemma store_request_spec key r s q :
  represents s q -> fresh_key key s q -> valid_request r ->
  exists s' stored listed, store_request key r s = Some s' /\ same_client s s' /\ timestamps s' = timestamps s /\
    flush_events s' = flush_events s /\ represents s' (queued q key r stored listed) /\
    queue_answers s q key r stored listed.
Proof.
  intros (c & Hc & Hh) (Hcomma & Hnew & Hlk & Hnone) Hv. unfold store_request. rewrite Hc. cbn [mbind option_bind].
  specialize (Hnone c Hc).
  pose proof (put_contents key (CachedRequest r) c) as Hp.
  assert (put_answers (contents c) key (CachedRequest r) (stores key (CachedRequest r) c)) as Ha by (by exists c).
  set (stored := stores _ _ c) in *. clearbody stored.
  destruct (cache_Put _ _ c) as [c1 b1]. simpl in Hp.
  destruct (holds_snoc _ _ key r q stored true Hh Hcomma Hnew Hlk Hnone Hv) as [Hh1 _]. rewrite <- Hp in Hh1.
  destruct (get_uuid_list_spec (set_cache c1 s) c1 q eq_refl Hh1) as (c2 & l & -> & Hk & _ & Hl).
  cbn [mbind option_bind cache_ set_cache]. rewrite Hl, <- join_snoc.
  change (GetUuidListKey (set_cache c2 (set_cache c1 s))) with (GetUuidListKey s).
  set (v := CachedText (join_keys (q.*1 ++ [key]))).
  assert (put_answers (contents c2) (GetUuidListKey s) v (stores (GetUuidListKey s) v c2)) as Ha2 by (by exists c2).
  pose proof (put_contents (GetUuidListKey s) v c2) as Hp2.
  set (listed := stores _ _ c2) in *. clearbody listed.
  destruct (cache_Put (GetUuidListKey s) v c2) as [c3 b3]. simpl in Hp2.
  rewrite Hk, Hp in Hp2, Ha2.
  exists (set_cache c3 (set_cache c2 (set_cache c1 s))), stored, listed. split; [done|]. split_and!; [done..| |].
  - exists c3. split; [done|].
    change (GetUuidListKey (set_cache c3 _)) with (GetUuidListKey s). rewrite Hp2.
    by apply (holds_snoc _ _ key r q stored listed Hh).
  - intros c' Hc'. replace c' with c by congruence. done.
Qed.

Lemma notify_complete_spec s q :
  represents s q ->
  exists s', NotifyQueueEventComplete s = Some s' /\ represents s' q /\ same_client s s' /\
    timestamps s' = timestamps s.
Proof.
  intros Hr. unfold NotifyQueueEventComplete. destruct (timestamps s) as [t|] eqn:Et; [|by exists s].
  destruct (QueueSize_spec s q Hr) as (s1 & -> & Hr1 & [Hc Hf] & Ht & Hn). cbn [mbind option_bind].
  rewrite Hf. destruct (_ >=? _).
  - exists (start_flush s1). split_and!; [done|done|done|simpl; congruence].
  - exists s1. split_and!; [done|done|done|congruence].
Qed.

Lemma notify_start_spec now s q :
  represents s q ->
  same_client s (NotifyQueueEventStart now s) /\ cache_ (NotifyQueueEventStart now s) = cache_ s /\
  represents (NotifyQueueEventStart now s) q /\
  (timestamps_ok s (length q) -> timestamps_ok (NotifyQueueEventStart now s) (S (length q))).
Proof.
  intros Hr. unfold NotifyQueueEventStart, timestamps_ok.
  destruct (timestamps s) as [t|] eqn:Et; [|by rewrite Et].
  destruct (Z.gtb_spec (auto_flush_old_events_force_flush_interval (flush_settings_ s)) 0) as [Hpos|Hneg].
  - split_and!; try done. simpl. intros Ht _. rewrite length_app, Ht by lia. simpl. lia.
  - split_and!; try done. rewrite Et. lia.
Qed.

(** The checks of [Queue]. *)
Definition refused (r : PublishDataRequest) s (n : nat) : option text :=
  match data_ r with
  | None => Some (str "PublishDataRequest does not contain any Data")
  | Some _ =>
    if bool_decide (layer_id_ r = []) then Some (str "PublishDataRequest does not contain a Layer ID")
    else match maximum_requests (flush_settings_ s) with
         | Some maximum =>
           if maximum <=? Z.of_nat n then Some (str "Maximum number of requests has reached") else None
         | None => None
         end
  end.

Lemma check_queue_spec r s q :
  represents s q ->
  exists s', check_queue r s = Some (s', refused r s (length q)) /\ represents s' q /\ same_client s s' /\
    timestamps s' = timestamps s /\
    exists c c', cache_ s = Some c /\ cache_ s' = Some c' /\ contents c' = contents c.
Proof.
  intros Hr. pose proof Hr as (c & Hc & Hh). unfold check_queue, refused. rewrite Hc.
  destruct (data_ r); [|exists s; by split_and!; eauto]. destruct (bool_decide _); [exists s; by split_and!; eauto|].
  destruct (maximum_requests _) as [maximum|]; [|exists s; by split_and!; eauto].
  unfold QueueSize. destruct (get_uuid_list_spec s c q Hc Hh) as (c1 & uuids & -> & Hk & _ & Hl). cbn [mbind option_bind].
  exists (set_cache c1 s). pose proof (count_join q.*1 (holds_no_comma _ _ _ Hh)) as Hn.
  rewrite length_fmap, <- Hl in Hn.
  split; [|split_and!; [by eapply set_cache_represents|done|done|by exists c, c1]].
  assert (match uuids with Some l => count_commas l | None => 0%nat end = length q) as -> by (by destruct uuids).
  destruct (Z.ltb_spec (Z.of_nat (length q)) maximum), (Z.leb_spec maximum (Z.of_nat (length q)));
    try lia; done.
Qed.

Lemma refused_valid r s n : refused r s n = None -> valid_request r.
Proof.
  unfold refused, valid_request. destruct (data_ r); [|done]. case_bool_decide; [done|]. by intros _.
Qed.

Lemma Queue_spec now key r s q :
  represents s q -> fresh_key key s q ->
  exists s', Queue now key r s = Some (s', refused r s (length q)) /\ same_client s s' /\
    match refused r s (length q) with
    | Some _ => represents s' q /\ timestamps s' = timestamps s
    | None => exists stored listed, represents s' (queued q key r stored listed) /\
        queue_answers s q key r stored listed /\
        (timestamps_ok s (length q) -> timestamps_ok s' (S (length q)))
    end.
Proof.
  intros Hr Hfresh. unfold Queue.
  destruct (check_queue_spec r s q Hr) as (s1 & -> & Hr1 & [Hcat1 Hset1] & Ht1 & c0 & c1 & Hc0 & Hc1 & Hcc).
  cbn [mbind option_bind].
  destruct (refused r s (length q)) as [e|] eqn:Href; [by exists s1|].
  destruct (notify_start_spec now s1 q Hr1) as ([Hcat Hset] & Hcache & Hr2 & Hts).
  set (s2 := NotifyQueueEventStart now s1) in *.
  assert (GetUuidListKey s2 = GetUuidListKey s) as Elk by (unfold GetUuidListKey; congruence).
  destruct (store_request_spec key r s2 q) as (s3 & stored & listed & -> & [Hcat3 Hset3] & Ht3 & _ & Hr3 & Ha3).
  - done.
  - destruct Hfresh as (H1 & H2 & H3 & H4). split_and!; [done|done|by rewrite Elk|].
    intros c Hc. replace c with c1 by congruence. rewrite Hcc. by apply H4.
  - by eapply refused_valid.
  - cbn [mbind option_bind]. destruct (notify_complete_spec s3 _ Hr3) as (s4 & -> & Hr4 & [Hcat4 Hset4] & Ht4).
    cbn [mbind option_bind]. exists s4. split; [done|]. split; [split; congruence|].
    exists stored, listed. split; [done|]. split.
    + intros c Hc. replace c with c0 by congruence. rewrite <- Hcc, <- Elk. apply Ha3. congruence.
    + intros Hok. unfold timestamps_ok in *. rewrite Ht4, Ht3, Hset4, Hset3. apply Hts. by rewrite Ht1, Hset1.
Qed.

Lemma Enable_spec now s q :
  represents s q -> timestamps_ok s (length q) ->
  exists s', Enable now s = Some s' /\ represents s' q /\ timestamps_ok s' (length q).
Proof.
  intros Hr Hok. unfold Enable. destruct (timestamps s) as [t|] eqn:Et; [by exists s|].
  assert (forall s1 n, represents s1 q -> same_client s s1 ->
    (0 < auto_flush_old_events_force_flush_interval (flush_settings_ s) -> n = length q) ->
    exists s', NotifyQueueEventComplete (set_timestamps (Some (PushPartitionTimestamps now [] n)) s1) = Some s' /\
      represents s' q /\ timestamps_ok s' (length q)) as Hfin.
  { intros s1 n Hrep [Hc Hf] Hn. destruct (notify_complete_spec
      (set_timestamps (Some (PushPartitionTimestamps now [] n)) s1) q Hrep) as (s' & -> & Hr' & [Hc' Hf'] & Ht').
    exists s'. split; [done|]. split; [done|]. unfold timestamps_ok. rewrite Ht', Hf'. simpl. rewrite Hf. intros Hpos.
    unfold PushPartitionTimestamps. rewrite emplace_count_app. simpl. rewrite length_replicate. by apply Hn. }
  destruct (Z.gtb_spec (auto_flush_old_events_force_flush_interval (flush_settings_ s)) 0).
  - destruct (QueueSize_spec s q Hr) as (s1 & -> & Hr1 & Hs1 & _). cbn [mbind option_bind]. by apply Hfin.
  - cbn [mbind option_bind]. apply Hfin; [done|done|lia].
Qed.

(** ** Flushing *)

(** A flush tells the auto-flush controller of each request it has taken. *)
Lemma notify_flush_spec s q n :
  represents s q -> represents (NotifyFlushEvent s) q /\ same_client s (NotifyFlushEvent s) /\
    cache_ (NotifyFlushEvent s) = cache_ s /\
    (timestamps_ok s (S n) -> timestamps_ok (NotifyFlushEvent s) n).
Proof.
  intros Hr. unfold NotifyFlushEvent, timestamps_ok. destruct (timestamps s) as [t|] eqn:Et; [|by rewrite Et].
  destruct (Z.gtb_spec (auto_flush_old_events_force_flush_interval (flush_settings_ s)) 0) as [Hpos|Hneg].
  - split_and!; [done..|]. simpl. intros Ht _. rewrite pop_tail. specialize (Ht ltac:(lia)). destruct t; simpl in *; lia.
  - split_and!; [done..|]. rewrite Et. lia.
Qed.

(** *** Queues without gaps *)

(** All requests are there. *)
Definition full (l : list (text * PublishDataRequest)) : Queued := (fun x => (x.1, Some x.2)) <$> l.

Lemma full_keys l : (full l).*1 = l.*1.
Proof. unfold full. rewrite <- list_fmap_compose. done. Qed.
Lemma full_length l : length (full l) = length l.
Proof. apply length_fmap. Qed.

Lemma same_client_trans s1 s2 s3 : same_client s1 s2 -> same_client s2 s3 -> same_client s1 s3.
Proof. intros [] []. split; congruence. Qed.

Lemma fresh_kept key s s1 q :
  fresh_key key s q -> same_client s s1 -> (key <> GetUuidListKey s -> unused key s -> unused key s1) ->
  fresh_key key s1 q.
Proof.
  intros (H1 & H2 & H3 & H4) [Hc _] Hun. split_and!; [done|done| |by apply Hun].
  unfold GetUuidListKey in *. by rewrite Hc.
Qed.

Lemma pop_step s k r q :
  never_refuses -> represents s (full ((k, r) :: q)) ->
  exists s', PopFromQueue s = Some (s', Some r) /\ represents (NotifyFlushEvent s') (full q) /\
    same_client s (NotifyFlushEvent s') /\
    forall key, key <> GetUuidListKey s -> unused key s -> unused key (NotifyFlushEvent s').
Proof.
  intros Hnever (c & Hc & Hh).
  destruct (PopFromQueue_spec s c _ Hc Hh) as (s1 & removed & listed & E & [Hc1 Hf1] & _ & _ & Hr & Hun & Ha).
  exists s1. split; [exact E|]. destruct (Ha k (full q).*1 eq_refl) as (c' & _ & Hb). rewrite Hnever in Hb. subst listed.
  destruct (notify_flush_spec s1 _ 0 Hr) as (Hr' & [Hc2 Hf2] & Hcache & _). split; [exact Hr'|].
  split; [split; congruence|]. intros key Hk Hu. unfold unused in *. rewrite Hcache. by apply Hun.
Qed.

Lemma queue_step now key r s q :
  never_refuses -> represents s (full q) -> fresh_key key s (full q) -> refused r s (length q) = None ->
  exists s', Queue now key r s = Some (s', None) /\ represents s' (full (q ++ [(key, r)])) /\ same_client s s'.
Proof.
  intros Hnever Hr Hfresh Href. destruct (Queue_spec now key r s _ Hr Hfresh) as (s' & E & Hs & Hq).
  rewrite full_length, Href in E, Hq. destruct Hq as (stored & listed & Hq & Ha & _). exists s'. split; [done|].
  split; [|done]. destruct Hr as (c & Hc & _). destruct (Ha c Hc) as [(c1 & _ & H1) (c2 & _ & H2)].
  rewrite Hnever in H1, H2. subst stored listed. unfold queued, full in *. by rewrite fmap_app.
Qed.

Context {Response : Type} (publish : nat -> PublishDataRequest -> option Response * bool).
Context (now : Z) (new_key : text).

(** The responses to the requests [l], the first of which is the [n]th. *)
Fixpoint published (n : nat) (l : list PublishDataRequest) : list Response :=
  match l with
  | [] => []
  | r :: rest => option_list (publish n r).1 ++ published (S n) rest
  end.

(** How many of [size] requests a flush takes after [counter] ones. *)
Definition flush_count (settings : FlushSettings) (counter size : nat) : nat :=
  match events_per_single_flush settings with
  | Some m => Nat.min (Z.to_nat m - counter) size
  | None => size
  end.

Lemma more_events_count settings counter size :
  more_events (events_per_single_flush settings) (Z.of_nat counter) = true ->
  flush_count settings counter (S size) = S (flush_count settings (S counter) size).
Proof.
  unfold more_events, flush_count. destruct (events_per_single_flush settings) as [m|]; [|done].
  intros ?%Z.ltb_lt. lia.
Qed.

Lemma no_more_events_count settings counter size :
  more_events (events_per_single_flush settings) (Z.of_nat counter) = false ->
  flush_count settings counter size = 0%nat.
Proof.
  unfold more_events, flush_count. destruct (events_per_single_flush settings) as [m|]; [|done].
  intros ?%Z.ltb_ge. lia.
Qed.

(** One round of the loop that publishes a request. *)
Lemma flush_round fuel counter response s k r q :
  never_refuses -> represents s (full ((k, r) :: q)) ->
  more_events (events_per_single_flush (flush_settings_ s)) (Z.of_nat counter) = true ->
  exists s1, represents s1 (full q) /\ same_client s s1 /\
    (forall key, key <> GetUuidListKey s -> unused key s -> unused key s1) /\
    flush_loop publish now new_key (S fuel) counter response s =
    let response' := response ++ option_list (publish counter r).1 in
    if (publish counter r).2 then '(s4, _) ← Queue now new_key r s1; Some (s4, response')
    else flush_loop publish now new_key fuel (S counter) response' s1.
Proof.
  intros Hnever Hr Hmore. cbn [flush_loop]. rewrite Hmore. cbn [negb].
  destruct (QueueSize_spec s _ Hr) as (s0 & -> & Hr0 & Hs0 & _ & Hun0). cbn [mbind option_bind]. simpl.
  destruct (pop_step s0 k r q Hnever Hr0) as (s1 & -> & Hr1 & Hs1 & Hun1). cbn [mbind option_bind].
  exists (NotifyFlushEvent s1). split; [done|]. split; [by eapply same_client_trans|]. split.
  { intros key Hk Hu. apply Hun1; [|by apply Hun0]. unfold GetUuidListKey in *. by rewrite (proj1 Hs0). }
  by destruct (publish counter r) as [pub []].
Qed.

Lemma flush_loop_plain q fuel counter response s :
  never_refuses -> represents s (full q) -> (length q < fuel)%nat -> (forall n r, (publish n r).2 = false) ->
  let k := flush_count (flush_settings_ s) counter (length q) in
  exists s', flush_loop publish now new_key fuel counter response s =
      Some (s', response ++ published counter (take k q.*2)) /\
    represents s' (full (drop k q)) /\ same_client s s'.
Proof.
  intros Hnever.
  revert fuel counter response s. induction q as [|[key r] q IH]; intros fuel counter response s Hr Hfuel Hno k;
    (destruct fuel as [|fuel]; [simpl in Hfuel; lia|]).
  - cbn [flush_loop]. destruct (more_events _ _); cbn [negb].
    + destruct (QueueSize_spec s [] Hr) as (s0 & -> & Hr0 & Hs0 & _). cbn [mbind option_bind]. simpl.
      exists s0. rewrite take_nil, drop_nil, app_nil_r. done.
    + exists s. simpl. by rewrite take_nil, drop_nil, app_nil_r.
  - destruct (more_events (events_per_single_flush (flush_settings_ s)) (Z.of_nat counter)) eqn:Em.
    + destruct (flush_round fuel counter response s key r q Hnever Hr Em) as (s1 & Hr1 & [Hc1 Hf1] & _ & ->).
      rewrite Hno. simpl in Hfuel. unfold k. simpl length. rewrite (more_events_count _ _ _ Em). cbn [take drop fmap list_fmap].
      destruct (IH fuel (S counter) (response ++ option_list (publish counter r).1) s1 Hr1 ltac:(lia) Hno)
        as (s' & E & Hrep & [Hc' Hf']).
      rewrite Hf1 in E, Hrep. exists s'. split; [|split; [done|split; congruence]].
      cbv zeta. rewrite E. cbn [published]. by rewrite app_assoc.
    + unfold k. rewrite (no_more_events_count _ _ _ Em). cbn [flush_loop]. rewrite Em.
      exists s. simpl. by rewrite app_nil_r.
Qed.

Lemma flush_loop_cancel q1 key r q2 fuel counter response s :
  never_refuses -> represents s (full (q1 ++ (key, r) :: q2)) -> (length q1 < fuel)%nat ->
  (forall i x, (i < length q1)%nat -> (publish (counter + i) x).2 = false) ->
  (publish (counter + length q1) r).2 = true ->
  (length q1 < flush_count (flush_settings_ s) counter (length (q1 ++ (key, r) :: q2)))%nat ->
  fresh_key new_key s (full q2) -> refused r s (length q2) = None ->
  exists s', flush_loop publish now new_key fuel counter response s =
      Some (s', response ++ published counter (q1.*2 ++ [r])) /\
    represents s' (full (q2 ++ [(new_key, r)])) /\ same_client s s'.
Proof.
  intros Hnever. revert fuel counter response s. induction q1 as [|[key1 r1] q1 IH];
    intros fuel counter response s Hr Hfuel Hno Hyes Hcount Hfresh Href;
    (destruct fuel as [|fuel]; [simpl in Hfuel; lia|]);
    (destruct (more_events (events_per_single_flush (flush_settings_ s)) (Z.of_nat counter)) eqn:Em;
     [|rewrite (no_more_events_count _ _ _ Em) in Hcount; simpl in Hcount; lia]).
  - destruct (flush_round fuel counter response s key r q2 Hnever Hr Em) as (s1 & Hr1 & Hs1 & Hun & ->).
    rewrite Nat.add_0_r in Hyes. rewrite Hyes.
    assert (refused r s1 (length q2) = None) as Href1 by (unfold refused in *; by rewrite (proj2 Hs1)).
    destruct (queue_step now new_key r s1 q2 Hnever Hr1) as (s2 & -> & Hr2 & Hs2); [|done|].
    { eapply fresh_kept; [exact Hfresh|exact Hs1|apply Hun]. }
    cbn [mbind option_bind]. exists s2.
    split; [|split; [done|by eapply same_client_trans]]. cbn [fmap list_fmap app published]. by rewrite app_nil_r.
  - destruct (flush_round fuel counter response s key1 r1 _ Hnever Hr Em) as (s1 & Hr1 & Hs1 & Hun & ->).
    pose proof Hs1 as [Hc1 Hf1].
    specialize (Hno 0%nat) as Hno0. rewrite Nat.add_0_r in Hno0. rewrite Hno0 by (simpl; lia).
    cbn [app length] in Hcount. rewrite (more_events_count _ _ _ Em) in Hcount.
    simpl in Hfuel. destruct (IH fuel (S counter) (response ++ option_list (publish counter r1).1) s1)
      as (s' & E & Hrep & Hs'); [done|lia| | | | | |].
    + intros i x Hi. replace (S counter + i)%nat with (counter + S i)%nat by lia. apply Hno. simpl. lia.
    + replace (S counter + length q1)%nat with (counter + S (length q1))%nat by lia. done.
    + rewrite Hf1. lia.
    + eapply fresh_kept; [exact Hfresh|exact Hs1|apply Hun].
    + unfold refused in *. by rewrite Hf1.
    + exists s'. split; [|split; [done|by eapply same_client_trans]]. cbv zeta. rewrite E.
      cbn [app fmap list_fmap published]. by rewrite app_assoc.
Qed.

(** Over a cache that stores nothing any more the list of keys stays, and with it the loop. *)
Lemma flush_loop_stuck fuel counter response s q :
  always_refuses -> represents s q -> q <> [] -> events_per_single_flush (flush_settings_ s) = None ->
  (forall n r, (publish n r).2 = false) ->
  flush_loop publish now new_key fuel counter response s = None.
Proof.
  intros Hnone. revert counter response s q. induction fuel as [|fuel IH]; intros counter response s q Hr Hq He Hno; [done|].
  cbn [flush_loop]. rewrite He. cbn [more_events negb].
  destruct (QueueSize_spec s q Hr) as (s0 & -> & Hr0 & [Hc0 Hf0] & _). cbn [mbind option_bind].
  destruct q as [|[k x] q]; [done|]. cbn [length Nat.ltb Nat.leb negb].
  destruct Hr0 as (c & Hc & Hh).
  destruct (PopFromQueue_spec s0 c _ Hc Hh) as (s1 & removed & listed & -> & [Hc1 Hf1] & _ & _ & Hr1 & _ & Ha).
  destruct (Ha k q.*1 eq_refl) as (c' & _ & Hb). rewrite Hnone in Hb. subst listed.
  cbn [head mbind option_bind snd popped] in *. destruct x as [r|].
  - destruct (notify_flush_spec s1 _ 0 Hr1) as (Hr2 & [Hc2 Hf2] & _ & _).
    pose proof (Hno counter r) as Hp. destruct (publish counter r) as [pub b]. simpl in Hp. subst b.
    eapply IH; [exact Hr2|done|congruence|done].
  - eapply IH; [exact Hr1|done|congruence|done].
Qed.
End facts.

(** ** The properties *)

(** C33.  The queue is a first-in first-out list of requests over any cache that stores what
    it does not refuse and keeps it: [QueueSize] is its length; [Queue] refuses a request without data
    or layer, or one above the maximum, and leaves the list alone, and otherwise appends
    it; [PopFromQueue] yields the oldest and removes it; [Enable] keeps the list.  This
    needs that the cache refuses none of the [Put]s, since [Queue] and [PopFromQueue] do not look at
    their results: a request that was not stored leaves a gap, for which [PopFromQueue]
    yields nothing; if the list of keys was not stored, [Queue] has no effect but reports
    success, and [PopFromQueue] leaves a gap in front, or the request itself if the cache
    did not remove it either.  A cache that drops
    entries later is not such a cache.  Without refusals the auto-flush controller has a timestamp
    for each queued request. *)
Theorem stream_queue_fifo {C : Type} `{RefusingCache C} (s : StreamLayerClientImpl C) (q : list (text * option PublishDataRequest)) :
  represents s q ->
  (exists s', QueueSize s = Some (s', length q) /\ represents s' q) /\
  (forall now key r, fresh_key key s q ->
     exists s', Queue now key r s = Some (s', refused r s (length q)) /\
       match refused r s (length q) with
       | Some _ => represents s' q
       | None => exists stored listed : bool, queue_answers s q key r stored listed /\
           represents s' (if listed then q ++ [(key, if stored then Some r else None)] else q) /\
           (never_refuses (C := C) -> stored = true /\ listed = true) /\
           (timestamps_ok s (length q) -> timestamps_ok s' (S (length q)))
       end) /\
  (exists s', PopFromQueue s = Some (s', head q ≫= snd) /\
     match q with
     | [] => represents s' []
     | (k, x) :: rest => exists removed listed : bool,
         represents s' (if listed then rest else (k, if removed then None else x) :: rest) /\
         (never_refuses (C := C) -> listed = true) /\
         (timestamps_ok s (length q) -> timestamps_ok (NotifyFlushEvent s') (length rest))
     end) /\
  (forall now, timestamps_ok s (length q) ->
     exists s', Enable now s = Some s' /\ represents s' q /\ timestamps_ok s' (length q)).
Proof.
  intros Hr. split_and!.
  - destruct (QueueSize_spec s q Hr) as (s' & E & Hr' & _). by exists s'.
  - intros now key r Hf. destruct (Queue_spec now key r s q Hr Hf) as (s' & E & _ & Hq). exists s'. split; [done|].
    destruct (refused r s (length q)) as [e|]; [apply Hq|]. destruct Hq as (stored & listed & Hq & Ha & Ht).
    exists stored, listed. split; [done|]. split; [done|]. split; [|done]. intros Hnever.
    destruct Hr as (c & Hc & _). destruct (Ha c Hc) as [(c1 & _ & H1) (c2 & _ & H2)].
    by rewrite Hnever in H1, H2.
  - destruct Hr as (c & Hc & Hh).
    destruct (PopFromQueue_spec s c q Hc Hh) as (s' & removed & listed & E & [Hc' Hf] & Ht & _ & Hr' & _ & Ha).
    exists s'. split; [done|]. destruct q as [|[k x] q]; [done|]. exists removed, listed. split; [done|]. split.
    + intros Hnever. destruct (Ha k q.*1 eq_refl) as (c' & _ & Hb). by rewrite Hnever in Hb.
    + intros Hts. apply (notify_flush_spec s' _ (length q) Hr'). unfold timestamps_ok in *. by rewrite Ht, Hf.
  - intros now Ht. by apply Enable_spec.
Qed.

(** C34.  A flush over a cache that refuses no [Put] and keeps what it stores ends: it
    publishes the oldest requests in order, all of them or [events_per_single_flush] many (none, if that is not
    positive), and leaves the rest.  When it is cancelled while it publishes a request, the
    requests before have been published, and that request goes back to the end of the
    queue, behind requests that were queued after it.  Over a cache that refuses every
    [Put] a flush of a queue that is not empty, without a maximal number of events and
    without a cancellation, never ends. *)
Theorem flush_publishes_in_order {C : Type} `{RefusingCache C} {Response : Type}
    (publish : nat -> PublishDataRequest -> option Response * bool) now new_key
    (s : StreamLayerClientImpl C) q :
  represents s (full q) ->
  (never_refuses (C := C) -> (forall n r, (publish n r).2 = false) ->
   let k := flush_count (flush_settings_ s) 0 (length q) in
   exists s', Flush publish now new_key (S (length q)) s = Some (s', published publish 0 (take k q.*2)) /\
     represents s' (full (drop k q))) /\
  (never_refuses (C := C) -> forall q1 key r q2, q = q1 ++ (key, r) :: q2 ->
   (forall i x, (i < length q1)%nat -> (publish i x).2 = false) -> (publish (length q1) r).2 = true ->
   (length q1 < flush_count (flush_settings_ s) 0 (length q))%nat ->
   fresh_key new_key s (full q2) -> refused r s (length q2) = None ->
   exists s', Flush publish now new_key (S (length q)) s = Some (s', published publish 0 (q1.*2 ++ [r])) /\
     represents s' (full (q2 ++ [(new_key, r)]))) /\
  (always_refuses (C := C) -> (forall n r, (publish n r).2 = false) -> q <> [] ->
   events_per_single_flush (flush_settings_ s) = None ->
   forall fuel, Flush publish now new_key fuel s = None).
Proof.
  intros Hr. split_and!.
  - intros Hnever Hno k.
    destruct (flush_loop_plain publish now new_key q (S (length q)) 0 [] s Hnever Hr ltac:(lia) Hno) as (s' & E & Hr' & _).
    unfold Flush. fold k in E, Hr'. destruct (events_per_single_flush (flush_settings_ s)) as [m|] eqn:Em; [|by exists s'].
    destruct (Z.leb_spec m 0); [|by exists s']. exists s.
    assert (k = 0%nat) as -> by (unfold k, flush_count; rewrite Em; lia). done.
  - intros Hnever q1 key r q2 -> Hno Hyes Hcount Hfresh Href.
    destruct (flush_loop_cancel publish now new_key q1 key r q2 (S (length (q1 ++ (key, r) :: q2))) 0 [] s)
      as (s' & E & Hr' & _); [done|done|rewrite length_app; lia|done|done|done|done|done|].
    unfold Flush. destruct (events_per_single_flush (flush_settings_ s)) as [m|] eqn:Em; [|by exists s'].
    destruct (Z.leb_spec m 0); [|by exists s']. unfold flush_count in Hcount. rewrite Em in Hcount. lia.
  - intros Hnone Hno Hq He fuel. unfold Flush. rewrite He.
    apply (flush_loop_stuck publish now new_key fuel 0 [] s (full q)); [done|done|by destruct q|done|done].
Qed.

(** ** Examples *)

Definition example_request (layer : text) : PublishDataRequest :=
  MkPublishDataRequest (Some (str "data")) layer None None None.
Definition example_queue : list (text * PublishDataRequest) :=
  [(str "a", example_request (str "l1")); (str "b", example_request (str "l2"))].
Definition example_map : gmap text CacheValue :=
  <[str "h-stream-queue-cache" := CachedText (str "a,b,")]>
    (<[str "a" := CachedRequest (example_request (str "l1"))]>
       {[str "b" := CachedRequest (example_request (str "l2"))]}).
Definition example_client : StreamLayerClientImpl (gmap text CacheValue) :=
  MkStreamLayerClientImpl (str "h") (Some example_map) (MkFlushSettings 20 0 None 60 None (Some 3))
    (Some [100; 200]) 0.

Lemma example_represents : represents example_client (full example_queue).
Proof.
  exists example_map. split; [done|]. split.
  - left. vm_compute. reflexivity.
  - intros k x [[= -> ->]|[[= -> ->]|Hn%elem_of_nil]%elem_of_cons]%elem_of_cons; [done|done|done].
  - simpl. apply (bool_decide_eq_true_1 _). vm_compute. reflexivity.
  - simpl. apply (bool_decide_eq_true_1 _). vm_compute. reflexivity.
  - simpl. apply (bool_decide_eq_true_1 _). vm_compute. reflexivity.
  - intros k r [[= -> ->]|[[= -> ->]|Hn%elem_of_nil]%elem_of_cons]%elem_of_cons; done.
Qed.

Lemma map_cache_never_refuses : never_refuses (C := gmap text CacheValue).
Proof. done. Qed.

(** A third request is queued, and the first one is taken. *)
Lemma stream_queue_fifo_witness :
  (exists s', Queue 300 (str "c") (example_request (str "l3")) example_client = Some (s', None) /\
     represents s' (full example_queue ++ [(str "c", Some (example_request (str "l3")))])) /\
  (exists s', PopFromQueue example_client = Some (s', Some (example_request (str "l1"))) /\
     represents s' [(str "b", Some (example_request (str "l2")))]).
Proof.
  destruct (stream_queue_fifo example_client (full example_queue) example_represents) as (_ & Hqueue & Hpop & _).
  split.
  - destruct (Hqueue 300 (str "c") (example_request (str "l3"))) as (s' & E & stored & listed & _ & Hr & Hn & _).
    { split_and!; try (apply (bool_decide_eq_true_1 _); vm_compute; reflexivity).
      intros c [= <-]. vm_compute. reflexivity. }
    destruct (Hn map_cache_never_refuses) as [Hst Hli]. rewrite Hst, Hli in Hr. exists s'. by split.
  - destruct Hpop as (s' & E & removed & listed & Hr & Hn & _). rewrite (Hn map_cache_never_refuses) in Hr.
    exists s'. by split.
Defined.

Lemma flush_publishes_in_order_witness :
  let publish (n : nat) (r : PublishDataRequest) := (Some (layer_id_ r), false) in
  exists s', Flush publish 300 (str "c") 3 example_client = Some (s', [str "l1"; str "l2"]) /\ represents s' [].
Proof.
  intros publish.
  apply (proj1 (flush_publishes_in_order publish 300 (str "c") example_client example_queue example_represents)
    map_cache_never_refuses).
  reflexivity.
Defined.

(** The queue publishes "l1" and "l2"; cancelled during the first, it keeps "l2" and
    then "l1". *)
Example example_flush :
  snd <$> Flush (fun n r => (Some (layer_id_ r), false)) 300 (str "c") 3 example_client =
  Some [str "l1"; str "l2"].
Proof. vm_compute. reflexivity. Qed.

Example example_flush_cancelled :
  (fun p => (p.2, cache_ p.1 ≫= fun c => c !! str "h-stream-queue-cache")) <$>
    Flush (fun n r => (Some (layer_id_ r), true)) 300 (str "c") 3 example_client =
  Some ([str "l1"], Some (CachedText (str "b,c,"))).
Proof. vm_compute. reflexivity. Qed.

(** Without a cache, which [Queue] reports, [Flush] dereferences a null pointer. *)
Lemma flush_without_cache {C Response} `{KeyValueCache C} (publish : nat -> PublishDataRequest -> option Response * bool)
    now new_key fuel (s : StreamLayerClientImpl C) :
  cache_ s = None -> events_per_single_flush (flush_settings_ s) = None ->
  Flush publish now new_key fuel s = None.
Proof.
  intros Hc He. unfold Flush. rewrite He. destruct fuel as [|fuel]; [done|]. cbn [flush_loop].
  unfold QueueSize, get_uuid_list. by rewrite He, Hc.
Qed.

(** A cache that stores nothing any more but still answers and removes, as a full
    one: the list of keys cannot be shortened, and the flush goes round for ever. *)
Definition full_cache : KeyValueCache (gmap text CacheValue) := {|
  cache_Put k v c := (c, false);
  cache_Get k c := (c, c !! k);
  cache_Remove k c := (delete k c, true) |}.

Lemma flush_of_full_cache {Response} (publish : nat -> PublishDataRequest -> option Response * bool)
    now new_key fuel response counter :
  let s := MkStreamLayerClientImpl (str "h")
             (Some {[str "h-stream-queue-cache" := CachedText (str "a,")]} : option (gmap text CacheValue))
             default_FlushSettings None 0 in
  flush_loop (H := full_cache) publish now new_key fuel counter response s = None.
Proof.
  intros s. induction fuel as [|fuel IH]; [done|]. cbn [flush_loop].
  assert (QueueSize (H := full_cache) s = Some (s, 1%nat)) as -> by (vm_compute; reflexivity).
  cbn [mbind option_bind]. change (negb (0 <? 1)%nat) with false.
  assert (PopFromQueue (H := full_cache) s = Some (s, None)) as -> by (vm_compute; reflexivity).
  exact IH.
Qed.
