(* ===== verification/TaskLists.v ===== *)
(** * Task and token lists of the writer

    [olp-cpp-sdk-dataservice-write/src/CancellationTokenList.cpp], a vector of ids and
    tokens kept in the order of the ids, and [BackgroundTaskCollection.cpp].  A token is
    named by a number; what its cancellation does to the list, through the callbacks of
    the operation, is a parameter. *)

From Stdlib Require Import ZArith Lia Bool.
From stdpp Require Import base numbers sorting list.
From S2P Require Import Prelude.
Local Open Scope Z_scope.
Local Open Scope olp_scope.

(** ** [CancellationTokenList] *)

Abbreviation TokenList := (list (Z * nat)).

(** The positions [std::upper_bound] and [std::lower_bound] find in a vector that is
    partitioned by their test. *)
Fixpoint upper_bound (tokens : TokenList) (id : Z) : nat :=
  match tokens with
  | [] => 0
  | t :: rest => if id <? t.1 then 0 else S (upper_bound rest id)
  end.
Fixpoint lower_bound (tokens : TokenList) (id : Z) : nat :=
  match tokens with
  | [] => 0
  | t :: rest => if t.1 <? id then S (lower_bound rest id) else 0
  end.

Definition AddTask (id : Z) (token : nat) (tokens : TokenList) : TokenList :=
  let it := upper_bound tokens id in take it tokens ++ [(id, token)] ++ drop it tokens.

(** The task of an id, where the searches of the code find it. *)
Definition find_task (id : Z) (tokens : TokenList) : option nat :=
  match tokens !! lower_bound tokens id with
  | Some (id', token) => if id' =? id then Some token else None
  | None => None
  end.

(** [tokenList_.erase(std::rotate(it, it + 1, end))] takes the element at [it] out. *)
Definition RemoveTask (id : Z) (tokens : TokenList) : TokenList :=
  match find_task id tokens with
  | None => tokens
  | Some _ =>
    let it := lower_bound tokens id in
    let rotated := take it tokens ++ drop (it + 1) tokens ++ take 1 (drop it tokens) in
    take (length tokens - 1) rotated
  end.

Definition GetTaskIdList (tokens : TokenList) : list Z := tokens.*1.

(** [requestId++] of a static [std::atomic<int>]. *)
Definition GetNextId (requestId : Z) : Z * Z := (requestId, s32 (requestId + 1)).

Section cancel.
  (** What happens to the list when a token is cancelled. *)
  Variable on_cancel : nat -> TokenList -> TokenList.

(** The cancelled tokens, in order, and the list afterwards. *)
Fixpoint cancel_ids (idList : list Z) (tokens : TokenList) : list nat * TokenList :=
  match idList with
  | [] => ([], tokens)
  | id :: rest =>
    match find_task id tokens with
    | None => cancel_ids rest tokens
    | Some token =>
      let '(cancelled, tokens') := cancel_ids rest (on_cancel token tokens) in (token :: cancelled, tokens')
    end
  end.

Definition remove_ids (idList : list Z) (tokens : TokenList) : TokenList :=
  filter (fun t => t.1 ∉ idList) tokens.

(** [CancelAll]; [None] when the fuel does not suffice. *)
Fixpoint CancelAll (fuel : nat) (tokens : TokenList) : option (list nat * TokenList) :=
  match fuel with
  | O => None
  | S n =>
    let idList := GetTaskIdList tokens in
    match idList with
    | [] => Some ([], tokens)
    | _ =>
      let '(cancelled, tokens') := cancel_ids idList tokens in
      '(later, final) ← CancelAll n (remove_ids idList tokens');
      Some (cancelled ++ later, final)
    end
  end.
End cancel.

(** ** [BackgroundTaskCollection<size_t>] *)

(** The ids of the tasks and the static counter they are taken from. *)
Record BackgroundTaskCollection := MkBackgroundTaskCollection {
  background_tasks_ids_ : list Z; background_next_id : Z }.

Definition BackgroundAddTask (c : BackgroundTaskCollection) : Z * BackgroundTaskCollection :=
  let myId := background_next_id c in
  (myId, MkBackgroundTaskCollection (background_tasks_ids_ c ++ [myId]) ((myId + 1) mod 2 ^ 64)).
Definition ReleaseTask (id : Z) (c : BackgroundTaskCollection) : BackgroundTaskCollection :=
  MkBackgroundTaskCollection (filter (fun taskId => taskId <> id) (background_tasks_ids_ c)) (background_next_id c).
Definition background_size (c : BackgroundTaskCollection) : nat := length (background_tasks_ids_ c).
(** The condition [WaitForBackgroundTaskCompletion] waits for. *)
Definition background_done (c : BackgroundTaskCollection) : bool :=
  match background_tasks_ids_ c with [] => true | _ => false end.

(** ** Correctness of the token list *)

(** Sorted by id, every id once: what [GetNextId] makes of its ids before it wraps. *)
Definition ordered (tokens : TokenList) : Prop := StronglySorted Z.lt tokens.*1.

Lemma ordered_cons t tokens : ordered (t :: tokens) <-> ordered tokens /\ Forall (fun u => t.1 < u.1) tokens.
Proof.
  unfold ordered. rewrite fmap_cons. split.
  - intros H. apply StronglySorted_inv in H as [? H]. split; [done|]. by apply (Forall_fmap fst) in H.
  - intros [? H]. constructor; [done|]. by apply (Forall_fmap fst).
Qed.

Lemma find_task_cons id t tokens :
  ordered (t :: tokens) ->
  find_task id (t :: tokens) = if t.1 =? id then Some t.2 else find_task id tokens.
Proof.
  intros [_ Hgt]%ordered_cons. unfold find_task. cbn. destruct t as [i n]; cbn in *. destruct (Z.ltb_spec i id).
  - cbn. by replace (i =? id) with false by lia.
  - cbn. destruct (Z.eqb_spec i id) as [->|]; [done|]. destruct (tokens !! lower_bound tokens id) as [[j m]|] eqn:E; [|done].
    replace (j =? id) with false; [done|].
    rewrite Forall_forall in Hgt. specialize (Hgt (j, m) (list_elem_of_lookup_2 _ _ _ E)). cbn in Hgt. lia.
Qed.

(** The searches find a task iff it is in the list. *)
Lemma find_task_spec id tokens token : ordered tokens -> find_task id tokens = Some token <-> (id, token) ∈ tokens.
Proof.
  induction tokens as [|[i n] tokens IH]; intros Ho; [by split; [|intros ?%elem_of_nil]|].
  rewrite find_task_cons by done. apply ordered_cons in Ho as [Ho Hgt]. rewrite elem_of_cons, <- IH by done. cbn.
  destruct (Z.eqb_spec i id) as [->|Hne].
  - split; [intros [= ->]; by left|]. intros [[= ->]|Hf]; [done|]. apply IH in Hf; [|done].
    rewrite Forall_forall in Hgt. specialize (Hgt _ Hf). cbn in Hgt. lia.
  - split; [by right|]. by intros [[= -> ->]|?].
Qed.

Lemma RemoveTask_filter id tokens : ordered tokens -> RemoveTask id tokens = filter (fun t => t.1 <> id) tokens.
Proof.
  intros Ho. assert (RemoveTask id tokens = match find_task id tokens with
    | None => tokens | Some _ => take (lower_bound tokens id) tokens ++ drop (S (lower_bound tokens id)) tokens end) as ->.
  { unfold RemoveTask. destruct (find_task id tokens) eqn:E; [|done]. unfold find_task in E.
    destruct (tokens !! lower_bound tokens id) as [t|] eqn:El; [|done].
    pose proof (lookup_lt_Some _ _ _ El). rewrite Nat.add_1_r, app_assoc. apply take_app_length'.
    rewrite length_app, length_take, length_drop. lia. }
  induction tokens as [|[i n] tokens IH]; [done|]. rewrite find_task_cons by done.
  apply ordered_cons in Ho as [Ho Hgt]. specialize (IH Ho). cbn [fst lower_bound].
  rewrite filter_cons. cbn. destruct (Z.eqb_spec i id) as [->|Hne].
  - replace (id <? id) with false by lia. cbn. rewrite decide_False by naive_solver.
    symmetry. rewrite drop_0. clear IH. induction tokens as [|u tokens IH]; [done|]. apply Forall_cons in Hgt as [Hu Hgt]. cbn in Hu.
    rewrite filter_cons_True by lia. f_equal. apply IH; [|done]. by apply ordered_cons in Ho as [? _].
  - rewrite decide_True by done. rewrite <- IH. destruct (find_task id tokens) eqn:E; [|done].
    apply find_task_spec in E; [|done]. rewrite Forall_forall in Hgt. specialize (Hgt _ E). cbn in Hgt.
    replace (i <? id) with true by lia. done.
Qed.

Lemma ordered_filter (P : Z * nat -> Prop) `{!forall t, Decision (P t)} tokens : ordered tokens -> ordered (filter P tokens).
Proof.
  induction tokens as [|t tokens IH]; [done|]. intros [Ho Hgt]%ordered_cons. rewrite filter_cons.
  case_decide; [|by apply IH]. apply ordered_cons. split; [by apply IH|].
  rewrite Forall_forall in *. intros u [_ Hu]%list_elem_of_filter. by apply Hgt.
Qed.

Lemma AddTask_spec id token tokens :
  ordered tokens -> id ∉ tokens.*1 ->
  ordered (AddTask id token tokens) /\ AddTask id token tokens ≡ₚ (id, token) :: tokens.
Proof.
  intros Ho Hid. split; [|unfold AddTask; rewrite app_assoc, (Permutation_app_comm (take _ _)); cbn; by rewrite take_drop].
  induction tokens as [|[i n] tokens IH]; [by apply ordered_cons|].
  rewrite fmap_cons, not_elem_of_cons in Hid. destruct Hid as [Hne Hid]. cbn in Hne. pose proof Ho as Ho'.
  apply ordered_cons in Ho as [Ho Hgt]. specialize (IH Ho Hid). unfold AddTask in *. cbn. destruct (Z.ltb_spec id i).
  - cbn. apply ordered_cons. split; [done|]. constructor; [done|]. eapply Forall_impl; [done|]. cbn. lia.
  - cbn. apply ordered_cons. split; [done|]. cbn in *. rewrite <- (take_drop (upper_bound tokens id) tokens) in Hgt.
    apply Forall_app in Hgt as [? ?]. apply Forall_app. split; [done|]. constructor; [cbn; lia|done].
Qed.

Lemma RemoveTask_free id tokens : ordered tokens -> id ∉ tokens.*1 -> RemoveTask id tokens = tokens.
Proof.
  intros Ho Hid. rewrite RemoveTask_filter by done. clear Ho. induction tokens as [|t l IH]; [done|].
  rewrite fmap_cons, not_elem_of_cons in Hid. destruct Hid as [? ?].
  rewrite filter_cons_True by congruence. by rewrite IH.
Qed.

Lemma RemoveTask_AddTask id token tokens :
  ordered tokens -> id ∉ tokens.*1 -> RemoveTask id (AddTask id token tokens) = tokens.
Proof.
  intros Ho Hid. destruct (AddTask_spec id token tokens Ho Hid) as [Ho' _]. rewrite RemoveTask_filter by done.
  unfold AddTask. rewrite !filter_app, (filter_cons_False _ (id, token)) by (cbn; naive_solver). cbn.
  rewrite <- filter_app, take_drop, <- RemoveTask_filter by done. by apply RemoveTask_free.
Qed.

(** ** [CancelAll] *)

Section cancel_all.
  Variable on_cancel : nat -> TokenList -> TokenList.
  (** Cancelling a token adds no task. *)
  Hypothesis only_removes : forall token tokens, on_cancel token tokens `sublist_of` tokens.

Lemma ordered_sublist l k : l `sublist_of` k -> ordered k -> ordered l.
Proof.
  unfold ordered. intros Hs. induction Hs as [|x l k Hs IH|x l k Hs IH]; [done| |].
  - intros [Ho Hgt]%ordered_cons. apply ordered_cons. split; [by apply IH|].
    rewrite Forall_forall in *. intros u Hu. apply Hgt. by eapply sublist_subseteq.
  - intros [Ho _]%ordered_cons. by apply IH.
Qed.

Lemma cancel_ids_spec idList tokens cancelled tokens' :
  ordered tokens -> cancel_ids on_cancel idList tokens = (cancelled, tokens') ->
  tokens' `sublist_of` tokens /\
  forall id token, id ∈ idList -> (id, token) ∈ tokens' -> token ∈ cancelled.
Proof.
  revert tokens cancelled. induction idList as [|i idList IH]; intros tokens cancelled Ho E; cbn in E.
  { injection E as <- <-. split; [done|]. by intros id token ?%elem_of_nil. }
  destruct (find_task i tokens) as [t|] eqn:Ef.
  - destruct (cancel_ids on_cancel idList (on_cancel t tokens)) as [c ts] eqn:Ec. injection E as <- <-.
    assert (ordered (on_cancel t tokens)) as Ho' by (eapply ordered_sublist; [apply only_removes|done]).
    destruct (IH _ _ Ho' Ec) as [Hs Hc]. split; [etransitivity; [exact Hs|apply only_removes]|].
    intros id token [->|Hid]%elem_of_cons Hin; [|right; by eapply Hc].
    assert ((i, token) ∈ tokens) as Hin' by (eapply sublist_subseteq; [|done]; etransitivity; [exact Hs|apply only_removes]).
    apply find_task_spec in Hin'; [|done]. replace t with token by congruence. by left.
  - destruct (IH _ _ Ho E) as [Hs Hc]. split; [done|]. intros id token [->|Hid]%elem_of_cons Hin; [|by eapply Hc].
    assert ((i, token) ∈ tokens) as Hin' by (by eapply sublist_subseteq).
    apply find_task_spec in Hin'; [|done]. congruence.
Qed.

(** Every token is cancelled, when a cancellation takes out no other task. *)
Lemma cancel_ids_all tokens :
  ordered tokens -> NoDup tokens.*2 ->
  (forall token ts t, t ∈ ts -> t.2 <> token -> t ∈ on_cancel token ts) ->
  forall rest ts, rest `suffix_of` tokens -> ordered ts -> (forall t, t ∈ rest -> t ∈ ts) ->
  (cancel_ids on_cancel (GetTaskIdList rest) ts).1 = rest.*2.
Proof.
  intros Ho Hnd Hkeep. induction rest as [|[i n] rest IH]; intros ts Hsuf Hts Hin; [done|]. cbn.
  assert ((i, n) ∈ ts) as Hi by (apply Hin; left). apply find_task_spec in Hi; [|done]. rewrite Hi.
  assert (NoDup ((i, n) :: rest).*2) as Hnd'.
  { destruct Hsuf as [pre ->]. rewrite fmap_app in Hnd. by apply NoDup_app in Hnd as (_ & _ & ?). }
  apply NoDup_cons in Hnd' as [Hn _]. specialize (IH (on_cancel n ts)).
  destruct (cancel_ids on_cancel (GetTaskIdList rest) (on_cancel n ts)) as [c ts'] eqn:E.
  unfold GetTaskIdList in *. rewrite E. cbn in *. f_equal. apply IH.
  - by eapply suffix_cons_l.
  - eapply ordered_sublist; [apply only_removes|done].
  - intros [j m] Hj. apply Hkeep; [apply Hin; by right|]. cbn. intros ->. apply Hn.
    change n with (j, n).2. by apply list_elem_of_fmap_2.
Qed.

Lemma remove_ids_all tokens ts : ts `sublist_of` tokens -> remove_ids (GetTaskIdList tokens) ts = [].
Proof.
  intros Hs. unfold remove_ids. apply elem_of_nil_inv. intros t [Hn Ht]%list_elem_of_filter. apply Hn.
  apply list_elem_of_fmap_2. by eapply sublist_subseteq.
Qed.

(** The token list keeps its tasks in order of their ids, whatever is added and
    removed, its searches find exactly the tasks in it, and [CancelAll] ends after at
    most two rounds with an empty list when cancelled operations add no tasks; when
    a cancellation takes out no task but its own, it cancels every token, once, in the
    order of the ids. *)
Theorem token_list_cancels_all fuel tokens :
  ordered tokens ->
  (forall id token, find_task id tokens = Some token <-> (id, token) ∈ tokens) /\
  (forall id token, id ∉ tokens.*1 ->
     ordered (AddTask id token tokens) /\ AddTask id token tokens ≡ₚ (id, token) :: tokens /\
     RemoveTask id (AddTask id token tokens) = tokens) /\
  exists cancelled, CancelAll on_cancel (S (S fuel)) tokens = Some (cancelled, []) /\
    (NoDup tokens.*2 -> (forall token ts t, t ∈ ts -> t.2 <> token -> t ∈ on_cancel token ts) ->
     cancelled = tokens.*2).
Proof.
  intros Ho. split_and!.
  - intros id token. by apply find_task_spec.
  - intros id token Hid. destruct (AddTask_spec id token tokens Ho Hid). split_and!; [done|done|].
    by apply RemoveTask_AddTask.
  - cbn [CancelAll]. destruct (GetTaskIdList tokens) as [|i ids] eqn:Ei.
    { destruct tokens; [|done]. by exists []. }
    rewrite <- Ei. clear i ids Ei. destruct (cancel_ids on_cancel (GetTaskIdList tokens) tokens) as [cancelled ts] eqn:Ec.
    destruct (cancel_ids_spec _ _ _ _ Ho Ec) as [Hs _]. rewrite (remove_ids_all tokens ts Hs). cbn.
    exists cancelled. rewrite app_nil_r. split; [done|]. intros Hnd Hkeep.
    pose proof (cancel_ids_all tokens Ho Hnd Hkeep tokens tokens) as Hall. rewrite Ec in Hall. by apply Hall.
Qed.
End cancel_all.

(** Three tasks; a cancelled task removes itself. *)
Definition cancel_removes (token : nat) (tokens : TokenList) : TokenList := filter (fun t => t.2 <> token) tokens.

Lemma token_list_cancels_all_witness :
  ordered [(1, 10%nat); (4, 11%nat); (7, 12%nat)] /\
  exists cancelled, CancelAll cancel_removes 2 [(1, 10%nat); (4, 11%nat); (7, 12%nat)] = Some (cancelled, []).
Proof.
  assert (ordered [(1, 10%nat); (4, 11%nat); (7, 12%nat)]) as Ho by (unfold ordered; cbn; repeat constructor; lia).
  split; [exact Ho|].
  assert (forall token tokens, cancel_removes token tokens `sublist_of` tokens) as Hs
    by (intros token tokens; apply sublist_filter).
  destruct (token_list_cancels_all cancel_removes Hs 0 _ Ho) as (_ & _ & cancelled & E & _).
  exists cancelled. exact E.
Defined.
