(* ===== verification/AutoFlush.v ===== *)
(** * The automatic flush of the stream layer client

    [olp-cpp-sdk-dataservice-write/src/AutoFlushController.cpp]: timers that sleep, wake
    and start flushes in threads of their own, and the registration, cancellation and
    reporting of these flushes.  The state is that of an enabled controller and its
    threads; an action is one critical section of one of them, or a call of the client.
    The result [None] says that there is no such action in the state. *)

From Stdlib Require Import ZArith Lia Bool.
From stdpp Require Import base numbers gmap list.
From S2P Require Import Prelude ThreadSafeQueue StreamQueue TaskLists.
Local Open Scope Z_scope.

(** ** Timers *)

Inductive TimerKind := TimerInterval | TimerOldPartition | TimerPeriod.
(** A timer sleeps for some milliseconds, or has read that it is not cancelled. *)
Inductive TimerStage := Sleeping (ms : Z) | Awake.
Record Timer := MkTimer { timer_kind : TimerKind; timer_stage : TimerStage }.

(** ** Flushes *)

(** The thread that starts a flush. *)
Inductive Starter := Spawned | Registered | FlushCalled | TokenAdded.
(** The callback of the flush. *)
Inductive CallbackStage := Running | Released | TokenRemoved | Notified.
Record FlushTask := MkFlushTask {
  flush_id : Z; starter : Starter; callback_stage : CallbackStage; flush_cancelled : bool }.

Definition new_flush : FlushTask := MkFlushTask 0 Spawned Running false.
Definition with_starter (t : Starter) (f : FlushTask) : FlushTask :=
  MkFlushTask (flush_id f) t (callback_stage f) (flush_cancelled f).
Definition with_callback (c : CallbackStage) (f : FlushTask) : FlushTask :=
  MkFlushTask (flush_id f) (starter f) c (flush_cancelled f).
Definition cancel_flush (f : FlushTask) : FlushTask :=
  MkFlushTask (flush_id f) (starter f) (callback_stage f) true.

(** What the listener is told. *)
Inductive FlushNotification := FlushEventStarted | FlushEventResults (n : nat).

(** ** The controller *)

(** A token is named by the position of its flush in [flushes]. *)
Record EnabledController := MkEnabledController {
  client_alive : bool;
  partition_timestamp_queue_ : list Z;
  background_task_col_ : BackgroundTaskCollection;
  cancel_token_map_ : gmap Z nat;
  is_cancelled_ : bool;
  timers : list Timer;
  flushes : list FlushTask;
  notifications : list FlushNotification }.

Definition with_alive b (s : EnabledController) : EnabledController :=
  MkEnabledController b (partition_timestamp_queue_ s) (background_task_col_ s) (cancel_token_map_ s) (is_cancelled_ s) (timers s) (flushes s) (notifications s).
Definition with_timestamps q (s : EnabledController) : EnabledController :=
  MkEnabledController (client_alive s) q (background_task_col_ s) (cancel_token_map_ s) (is_cancelled_ s) (timers s) (flushes s) (notifications s).
Definition with_collection c (s : EnabledController) : EnabledController :=
  MkEnabledController (client_alive s) (partition_timestamp_queue_ s) c (cancel_token_map_ s) (is_cancelled_ s) (timers s) (flushes s) (notifications s).
Definition with_token_map m (s : EnabledController) : EnabledController :=
  MkEnabledController (client_alive s) (partition_timestamp_queue_ s) (background_task_col_ s) m (is_cancelled_ s) (timers s) (flushes s) (notifications s).
Definition with_cancelled b (s : EnabledController) : EnabledController :=
  MkEnabledController (client_alive s) (partition_timestamp_queue_ s) (background_task_col_ s) (cancel_token_map_ s) b (timers s) (flushes s) (notifications s).
Definition with_timers l (s : EnabledController) : EnabledController :=
  MkEnabledController (client_alive s) (partition_timestamp_queue_ s) (background_task_col_ s) (cancel_token_map_ s) (is_cancelled_ s) l (flushes s) (notifications s).
Definition with_flushes l (s : EnabledController) : EnabledController :=
  MkEnabledController (client_alive s) (partition_timestamp_queue_ s) (background_task_col_ s) (cancel_token_map_ s) (is_cancelled_ s) (timers s) l (notifications s).
Definition notify e (s : EnabledController) : EnabledController :=
  MkEnabledController (client_alive s) (partition_timestamp_queue_ s) (background_task_col_ s) (cancel_token_map_ s) (is_cancelled_ s) (timers s) (flushes s) (notifications s ++ [e]).

(** The static counter of the ids starts with [next_id]. *)
Definition NewController (next_id : Z) : EnabledController :=
  MkEnabledController true [] (MkBackgroundTaskCollection [] next_id) ∅ false [] [] [].

(** Durations in milliseconds; the division of the library rounds towards zero. *)
Definition IsCloseEnough (req curr percentage : Z) : bool := req - Z.quot (req * percentage) 100 <? curr.

Section controller.
  Variable flush_settings_ : FlushSettings.

  Abbreviation force_interval := (auto_flush_old_events_force_flush_interval flush_settings_).

(** [NotifyFlushEventStart] and a new thread; [false] when the client is gone. *)
Definition AddBackgroundFlushTask (s : EnabledController) : EnabledController * bool :=
  if client_alive s
  then (with_flushes (flushes s ++ [new_flush]) (notify FlushEventStarted s), true)
  else (s, false).

(** [size] is the size of the queue, read when the client is there. *)
Definition IsAutoFlushNumEventsRequired (size : Z) (s : EnabledController) : bool :=
  client_alive s && (u64 (auto_flush_num_events flush_settings_) <=? size)%olp.

Definition AutoFlushNumEvents (size : Z) (s : EnabledController) : EnabledController :=
  if IsAutoFlushNumEventsRequired size s then (AddBackgroundFlushTask s).1 else s.

Definition add_timer (k : TimerKind) (ms : Z) (s : EnabledController) : EnabledController :=
  with_timers (timers s ++ [MkTimer k (Sleeping ms)]) s.

Definition TriggerAutoFlushInterval (s : EnabledController) : EnabledController :=
  add_timer TimerInterval (1000 * auto_flush_interval flush_settings_) s.
Definition TriggerAutoFlushOldPartitionInterval (ms : Z) (s : EnabledController) : EnabledController :=
  add_timer TimerOldPartition ms s.
Definition TriggerAutoFlushPeriod (local : tm) (s : EnabledController) : EnabledController :=
  match auto_flush_time_period flush_settings_ with
  | Some period => add_timer TimerPeriod (getDelayTillPeriod period local) s
  | None => s
  end.

Definition InitialiseAutoFlushInterval (s : EnabledController) : EnabledController :=
  if 0 <? auto_flush_interval flush_settings_ then TriggerAutoFlushInterval s else s.
Definition InitialiseAutoFlushOldPartitionInterval (now : Z) (size : nat) (s : EnabledController) : EnabledController :=
  if client_alive s && (0 <? force_interval) then
    let q := PushPartitionTimestamps now (partition_timestamp_queue_ s) size in
    TriggerAutoFlushOldPartitionInterval (1000 * force_interval - CalculateTimeSinceOldestPartition now q)
      (with_timestamps q s)
  else s.
Definition InitialiseAutoFlushPeriod (local : tm) (s : EnabledController) : EnabledController :=
  if bool_decide (is_Some (auto_flush_time_period flush_settings_)) then TriggerAutoFlushPeriod local s else s.

(** [Enable], at the time [now], which is [local] on the clock. *)
Definition EnableController (now : Z) (local : tm) (size : nat) (s : EnabledController) : EnabledController :=
  AutoFlushNumEvents (Z.of_nat size)
    (InitialiseAutoFlushPeriod local
      (InitialiseAutoFlushOldPartitionInterval now size
        (InitialiseAutoFlushInterval s))).

Definition HandleNotifyFlushEvent (s : EnabledController) : EnabledController :=
  if 0 <? force_interval then with_timestamps (pop (partition_timestamp_queue_ s)) s else s.
Definition HandleNotifyQueueEventStart (now : Z) (s : EnabledController) : EnabledController :=
  if 0 <? force_interval then with_timestamps (PushPartitionTimestamps now (partition_timestamp_queue_ s) 1) s else s.

(** [Cancel]: every token of the map is cancelled. *)
Definition Cancel (s : EnabledController) : EnabledController :=
  with_cancelled true
    (with_flushes
      (imap (fun n f => if bool_decide (cancel_token_map_ s !! flush_id f = Some n) then cancel_flush f else f) (flushes s)) s).

(** ** The threads *)

(** The sleep of a timer ends; [IsCancelled] is read. *)
Definition wake_timer (i : nat) (s : EnabledController) : option EnabledController :=
  t ← timers s !! i;
  match timer_stage t with
  | Sleeping _ =>
    Some (with_timers (if is_cancelled_ s then delete i (timers s) else <[i := MkTimer (timer_kind t) Awake]> (timers s)) s)
  | Awake => None
  end.

(** The rest of the function: the thread ends, maybe with another thread of its kind. *)
Definition fire_timer (i : nat) (now : Z) (local : tm) (s : EnabledController) : option EnabledController :=
  t ← timers s !! i;
  match timer_stage t with
  | Sleeping _ => None
  | Awake =>
    let s0 := with_timers (delete i (timers s)) s in
    Some
      match timer_kind t with
      | TimerInterval =>
        let '(s1, added) := AddBackgroundFlushTask s0 in if added then TriggerAutoFlushInterval s1 else s1
      | TimerPeriod =>
        let '(s1, added) := AddBackgroundFlushTask s0 in if added then TriggerAutoFlushPeriod local s1 else s1
      | TimerOldPartition =>
        let time_since := CalculateTimeSinceOldestPartition now (partition_timestamp_queue_ s0) in
        let interval := 1000 * force_interval in
        if IsCloseEnough interval time_since 1 then
          let '(s1, added) := AddBackgroundFlushTask s0 in
          if added then TriggerAutoFlushOldPartitionInterval interval s1 else s1
        else TriggerAutoFlushOldPartitionInterval (interval - time_since) s0
      end
  end.

Definition set_flush (n : nat) (f : FlushTask) (s : EnabledController) : EnabledController :=
  with_flushes (<[n := f]> (flushes s)) s.

(** The thread of a flush: it registers, calls [Flush] and keeps the token. *)
Definition start_step (n : nat) (s : EnabledController) : option EnabledController :=
  f ← flushes s !! n;
  match starter f with
  | Spawned =>
    let '(id, c) := BackgroundAddTask (background_task_col_ s) in
    Some (set_flush n (MkFlushTask id Registered (callback_stage f) (flush_cancelled f)) (with_collection c s))
  | Registered => Some (set_flush n (with_starter FlushCalled f) s)
  | FlushCalled =>
    let m := cancel_token_map_ s in
    (* [insert] of a map leaves an entry that is there *)
    let m' := match m !! flush_id f with Some _ => m | None => <[flush_id f := n]> m end in
    Some (set_flush n (with_starter TokenAdded f) (with_token_map m' s))
  | TokenAdded => None
  end.

(** The callback, some time after [Flush] has been called. *)
Definition callback_step (n : nat) (s : EnabledController) : option EnabledController :=
  f ← flushes s !! n;
  match starter f, callback_stage f with
  | Spawned, _ | Registered, _ | _, Notified => None
  | _, Running =>
    Some (set_flush n (with_callback Released f)
      (with_collection (ReleaseTask (flush_id f) (background_task_col_ s)) s))
  | _, Released =>
    Some (set_flush n (with_callback TokenRemoved f) (with_token_map (delete (flush_id f) (cancel_token_map_ s)) s))
  | _, TokenRemoved => Some (set_flush n (with_callback Notified f) (notify (FlushEventResults n) s))
  end.

(** ** Runs *)

Inductive AutoAction :=
| QueueEventStart (now : Z) | QueueEventComplete (size : Z) | FlushEvent
| TimerWakes (i : nat) | TimerFires (i : nat) (now : Z) (local : tm)
| FlushStarts (n : nat) | FlushCallback (n : nat)
| CancelController | ClientGone.

Definition auto_step (s : EnabledController) (a : AutoAction) : option EnabledController :=
  match a with
  | QueueEventStart now => Some (HandleNotifyQueueEventStart now s)
  | QueueEventComplete size => Some (AutoFlushNumEvents size s)
  | FlushEvent => Some (HandleNotifyFlushEvent s)
  | TimerWakes i => wake_timer i s
  | TimerFires i now local => fire_timer i now local s
  | FlushStarts n => start_step n s
  | FlushCallback n => callback_step n s
  | CancelController => Some (Cancel s)
  | ClientGone => Some (with_alive false s)
  end.

Fixpoint auto_run (s : EnabledController) (l : list AutoAction) : option EnabledController :=
  match l with
  | [] => Some s
  | a :: rest => s' ← auto_step s a; auto_run s' rest
  end.

End controller.

(** [Disable] has finished when no task is registered. *)
Definition disable_finished (s : EnabledController) : bool := background_done (background_task_col_ s).
