(* ===== verification/AutoFlushFacts.v ===== *)
(** * The automatic flush: accounting of flushes, and the end of its timers *)

From Stdlib Require Import ZArith Lia Bool.
From stdpp Require Import base numbers gmap list.
From S2P Require Import Prelude ThreadSafeQueue StreamQueue TaskLists AutoFlush.
Local Open Scope Z_scope.

Section facts.
  Variable flush_settings_ : FlushSettings.
  Abbreviation run := (auto_run flush_settings_).
  Abbreviation step := (auto_step flush_settings_).

(** ** Lists with one element exchanged *)

Lemma insert_perm {A} (l : list A) n x y : l !! n = Some x -> <[n := y]> l ≡ₚ y :: delete n l.
Proof.
  intros Hn. rewrite delete_take_drop, insert_take_drop by (by eapply lookup_lt_Some). by rewrite Permutation_middle.
Qed.

Lemma filter_insert {A} (P : A -> Prop) `{!forall a, Decision (P a)} (l : list A) n x y :
  l !! n = Some x -> P x -> P y -> filter P (<[n := y]> l) ≡ₚ y :: filter P (delete n l) /\
  filter P l ≡ₚ x :: filter P (delete n l).
Proof.
  intros Hn Hx Hy. split.
  - rewrite (insert_perm l n x y Hn). by rewrite filter_cons_True.
  - rewrite (delete_Permutation l n x Hn) at 1. by rewrite filter_cons_True.
Qed.

(** An induction rule for runs. *)
Lemma run_invariant (P : EnabledController -> Prop) s acts s' :
  (forall s a s', P s -> step s a = Some s' -> P s') -> P s -> run s acts = Some s' -> P s'.
Proof.
  intros Hstep. revert s. induction acts as [|a acts IH]; intros s Hs E; cbn in E; [by injection E as <-|].
  destruct (step s a) as [s1|] eqn:E1; [|done]. cbn in E. eapply IH; [|exact E]. by eapply Hstep.
Qed.

(** ** Timers end when the controller is cancelled *)

Definition awake (t : Timer) : Prop := timer_stage t = Awake.
#[global] Instance awake_dec t : Decision (awake t).
Proof. unfold awake. destruct (timer_stage t); [right; discriminate|left; reflexivity]. Defined.

(** A sleeping timer wakes, a timer awake goes on. *)
Definition timer_weight (l : list Timer) : nat := (length l + length (filter awake l))%nat.

Definition is_timer_action (a : AutoAction) : Prop :=
  match a with TimerWakes _ | TimerFires _ _ _ => True | _ => False end.
#[global] Instance is_timer_action_dec a : Decision (is_timer_action a).
Proof. destruct a; first [left; exact I|right; intros []]. Defined.
Definition is_queue_event (a : AutoAction) : Prop := match a with QueueEventComplete _ => True | _ => False end.
#[global] Instance is_queue_event_dec a : Decision (is_queue_event a).
Proof. destruct a; first [left; exact I|right; intros []]. Defined.

Lemma delete_timer l i t :
  l !! i = Some t -> length l = S (length (delete i l)) /\
  length (filter awake l) = (length (filter awake (delete i l)) + if decide (awake t) then 1 else 0)%nat.
Proof.
  intros Hi. split; [by rewrite (delete_Permutation l i t Hi) at 1|].
  rewrite (delete_Permutation l i t Hi) at 1. rewrite filter_cons. case_decide; cbn; lia.
Qed.

(** [AddBackgroundFlushTask] and a new sleeping timer, or neither. *)
Definition grows_by (flushed timed : nat) (s s' : EnabledController) : Prop :=
  length (flushes s') = (length (flushes s) + flushed)%nat /\
  length (timers s') = (length (timers s) + timed)%nat /\
  length (filter awake (timers s')) = length (filter awake (timers s)) /\ is_cancelled_ s' = is_cancelled_ s.

Lemma add_timer_grows k ms s : grows_by 0 1 s (add_timer k ms s).
Proof.
  unfold grows_by, add_timer. cbn [timers flushes is_cancelled_ with_timers].
  rewrite filter_app, (filter_cons_False awake) by done. rewrite !length_app. cbn. split_and!; lia || done.
Qed.

Lemma flush_grows s s' added : AddBackgroundFlushTask s = (s', added) -> exists n, (n <= 1)%nat /\ grows_by n 0 s s'.
Proof.
  unfold AddBackgroundFlushTask. destruct (client_alive s); intros [= <- <-]; [exists 1%nat|exists 0%nat];
    (split; [lia|]); unfold grows_by; cbn; rewrite ?length_app; cbn; split_and!; lia || done.
Qed.

Lemma grows_trans a b c d s1 s2 s3 : grows_by a b s1 s2 -> grows_by c d s2 s3 -> grows_by (a + c) (b + d) s1 s3.
Proof. unfold grows_by. intros (? & ? & ? & ?) (? & ? & ? & ?). split_and!; [lia..|congruence]. Qed.

Lemma grows_refl s : grows_by 0 0 s s.
Proof. unfold grows_by. split_and!; lia || done. Qed.

(** A flush, and a timer if it was started. *)
Definition flush_then (g : EnabledController -> EnabledController) (s : EnabledController) : EnabledController :=
  let '(s1, added) := AddBackgroundFlushTask s in if added then g s1 else s1.

Lemma flush_then_grows g s :
  (forall s1, exists m, (m <= 1)%nat /\ grows_by 0 m s1 (g s1)) ->
  exists n m, (n <= 1)%nat /\ (m <= 1)%nat /\ grows_by n m s (flush_then g s).
Proof.
  intros Hg. unfold flush_then. destruct (AddBackgroundFlushTask s) as [s1 added] eqn:E.
  destruct (flush_grows s s1 added E) as (n & Hn & Hs). destruct added; [|by exists n, 0%nat; split_and!; try lia].
  destruct (Hg s1) as (m & Hm & Hs1). exists n, m. split_and!; [done|done|].
  pose proof (grows_trans _ _ _ _ _ _ _ Hs Hs1) as Ht. by rewrite Nat.add_0_r in Ht.
Qed.

Lemma adds_one k ms s : exists m, (m <= 1)%nat /\ grows_by 0 m s (add_timer k ms s).
Proof. exists 1%nat. split; [done|apply add_timer_grows]. Qed.

(** After a timer has fired: at most one flush and one timer, which sleeps. *)
Lemma fire_grows i now local s s' :
  fire_timer flush_settings_ i now local s = Some s' ->
  exists t n m, timers s !! i = Some t /\ awake t /\ (n <= 1)%nat /\ (m <= 1)%nat /\
    grows_by n m (with_timers (delete i (timers s)) s) s'.
Proof.
  unfold fire_timer. destruct (timers s !! i) as [t|] eqn:Et; [|done]. cbn. destruct (timer_stage t) eqn:Es; [done|].
  set (s0 := with_timers (delete i (timers s)) s). intros [= <-]. exists t.
  assert (exists n m, (n <= 1)%nat /\ (m <= 1)%nat /\ grows_by n m s0
    (match timer_kind t with
     | TimerInterval => flush_then (TriggerAutoFlushInterval flush_settings_) s0
     | TimerPeriod => flush_then (TriggerAutoFlushPeriod flush_settings_ local) s0
     | TimerOldPartition =>
       let time_since := CalculateTimeSinceOldestPartition now (partition_timestamp_queue_ s0) in
       let interval := 1000 * auto_flush_old_events_force_flush_interval flush_settings_ in
       if IsCloseEnough interval time_since 1 then flush_then (TriggerAutoFlushOldPartitionInterval interval) s0
       else TriggerAutoFlushOldPartitionInterval (interval - time_since) s0
     end)) as (n & m & Hn & Hm & Hg).
  { destruct (timer_kind t).
    - apply flush_then_grows. intros s1. apply adds_one.
    - cbn zeta. destruct (IsCloseEnough _ _ _).
      + apply flush_then_grows. intros s1. apply adds_one.
      + exists 0%nat, 1%nat. split_and!; [lia|done|apply add_timer_grows].
    - apply flush_then_grows. intros s1. unfold TriggerAutoFlushPeriod.
      destruct (auto_flush_time_period flush_settings_); [apply adds_one|]. exists 0%nat. split; [lia|apply grows_refl]. }
  exists n, m. by split_and!.
Qed.

Lemma set_flush_grows n f s : grows_by 0 0 s (set_flush n f s).
Proof. unfold grows_by. cbn. rewrite length_insert. split_and!; lia || done. Qed.

(** The other actions of a cancelled controller. *)
Lemma start_grows n s s' : start_step n s = Some s' -> grows_by 0 0 s s'.
Proof.
  unfold start_step. destruct (flushes s !! n) as [f|]; [|done]. cbn. destruct (starter f); [|..|done]; intros [= <-];
    unfold grows_by; cbn; rewrite length_insert; split_and!; lia || done.
Qed.

Lemma callback_grows n s s' : callback_step n s = Some s' -> grows_by 0 0 s s'.
Proof.
  unfold callback_step. destruct (flushes s !! n) as [f|]; [|done]. cbn.
  destruct (starter f), (callback_stage f); try done; intros [= <-]; unfold grows_by; cbn; rewrite length_insert; split_and!; lia || done.
Qed.

(** One step of a cancelled controller. *)
Lemma cancelled_step s a s' :
  is_cancelled_ s = true -> step s a = Some s' ->
  is_cancelled_ s' = true /\ (length (timers s') <= length (timers s))%nat /\
  (timer_weight (timers s') + (if decide (is_timer_action a) then 1 else 0) <= timer_weight (timers s))%nat /\
  (length (flushes s') + length (filter awake (timers s')) <=
   length (flushes s) + length (filter awake (timers s)) + if decide (is_queue_event a) then 1 else 0)%nat.
Proof.
  intros Hc E. assert (forall n, (n <= if decide (is_queue_event a) then 1 else 0)%nat -> ~ is_timer_action a ->
    grows_by n 0 s s' -> is_cancelled_ s' = true /\ (length (timers s') <= length (timers s))%nat /\
    (timer_weight (timers s') + (if decide (is_timer_action a) then 1 else 0) <= timer_weight (timers s))%nat /\
    (length (flushes s') + length (filter awake (timers s')) <=
     length (flushes s) + length (filter awake (timers s)) + if decide (is_queue_event a) then 1 else 0)%nat) as Hplain.
  { intros n Hn Ha (Hf & Ht & Hw & Hc'). unfold timer_weight. rewrite (decide_False (P := is_timer_action a)) by exact Ha.
    split_and!; [congruence|lia..]. }
  destruct a as [now|size| |i|i now local|n|n| |]; cbn [auto_step] in E.
  - injection E as <-. apply (Hplain 0%nat); [lia|intros []|]. unfold HandleNotifyQueueEventStart. destruct (0 <? _); unfold grows_by; cbn; split_and!; lia || done.
  - unfold AutoFlushNumEvents in E. destruct (IsAutoFlushNumEventsRequired _ _ _); injection E as <-.
    + destruct (AddBackgroundFlushTask s) as [s1 added] eqn:E1. destruct (flush_grows s s1 added E1) as (n & Hn & Hg).
      apply (Hplain n); [by rewrite decide_True|intros []|done].
    + apply (Hplain 0%nat); [lia|intros []|apply grows_refl].
  - injection E as <-. apply (Hplain 0%nat); [lia|intros []|]. unfold HandleNotifyFlushEvent. destruct (0 <? _); unfold grows_by; cbn; split_and!; lia || done.
  - unfold wake_timer in E. destruct (timers s !! i) as [t|] eqn:Et; [|done]. cbn in E. destruct (timer_stage t) eqn:Es; [|done].
    rewrite Hc in E. injection E as <-. destruct (delete_timer _ _ _ Et) as [Hl Hw]. unfold timer_weight.
    cbn [timers flushes is_cancelled_ with_timers].
    rewrite (decide_False (P := awake t)) in Hw by (unfold awake; congruence).
    rewrite (decide_True (P := is_timer_action _)) by exact I. rewrite (decide_False (P := is_queue_event _)) by (intros []).
    split_and!; [done|lia..].
  - destruct (fire_grows i now local s s' E) as (t & n & m & Et & Haw & Hn & Hm & Hf & Ht & Hw & Hc').
    destruct (delete_timer _ _ _ Et) as [Hl Hd]. rewrite decide_True in Hd by done. cbn in Hf, Ht, Hw, Hc'. unfold timer_weight.
    rewrite (decide_True (P := is_timer_action _)) by exact I. rewrite (decide_False (P := is_queue_event _)) by (intros []).
    split_and!; [congruence|lia..].
  - apply (Hplain 0%nat); [lia|intros []|]. by eapply start_grows.
  - apply (Hplain 0%nat); [lia|intros []|]. by eapply callback_grows.
  - injection E as <-. apply (Hplain 0%nat); [lia|intros []|]. unfold grows_by, Cancel. cbn. rewrite length_imap.
    split_and!; [lia|lia|done|by rewrite Hc].
  - injection E as <-. apply (Hplain 0%nat); [lia|intros []|unfold grows_by; cbn; split_and!; lia || done].
Qed.

(** C26. When the controller has been cancelled its timers end: no timer is added, and the
    timers that are left act at most twice as often as there are of them; flushes are
    started only by timers that had looked at the flag before, one each, and by queue
    events that are still on their way. *)
Theorem cancelled_timers_end s acts s' :
  is_cancelled_ s = true -> run s acts = Some s' ->
  is_cancelled_ s' = true /\ (length (timers s') <= length (timers s))%nat /\
  (length (filter is_timer_action acts) <= timer_weight (timers s))%nat /\
  (length (flushes s') <= length (flushes s) + length (filter awake (timers s)) + length (filter is_queue_event acts))%nat.
Proof.
  intros Hc E. cut (is_cancelled_ s' = true /\ (length (timers s') <= length (timers s))%nat /\
    (timer_weight (timers s') + length (filter is_timer_action acts) <= timer_weight (timers s))%nat /\
    (length (flushes s') + length (filter awake (timers s')) <=
     length (flushes s) + length (filter awake (timers s)) + length (filter is_queue_event acts))%nat).
  { intros (? & ? & ? & ?). split_and!; [done|lia..]. }
  revert s Hc E. induction acts as [|a acts IH]; intros s Hc E; cbn [auto_run] in E; [injection E as <-; cbn; split_and!; [done|lia..]|].
  destruct (step s a) as [s1|] eqn:E1; [|done]. destruct (cancelled_step s a s1 Hc E1) as (Hc1 & Ht & Hw & Hf).
  destruct (IH s1 Hc1 E) as (? & ? & ? & ?). rewrite !filter_cons. split_and!; [done|lia|..].
  - destruct (decide (is_timer_action a)); cbn; lia.
  - destruct (decide (is_queue_event a)); cbn; lia.
Qed.

(** ** No timer spins *)

Definition clock_ok (t : tm) : Prop := tm_ok t /\ tm_sec t <> 60.
Definition action_clock_ok (a : AutoAction) : Prop := match a with TimerFires _ _ local => clock_ok local | _ => True end.

(** A timer of a kind that is asked for, asleep for at least 10 ms. *)
Definition timer_ok (t : Timer) : Prop :=
  match timer_kind t with
  | TimerInterval => 0 < auto_flush_interval flush_settings_
  | TimerOldPartition => 0 < auto_flush_old_events_force_flush_interval flush_settings_
  | TimerPeriod => True
  end /\ match timer_stage t with Sleeping ms => 10 <= ms | Awake => True end.
Definition timers_ok (s : EnabledController) : Prop := Forall timer_ok (timers s).

Lemma add_timer_ok k ms s : timer_ok (MkTimer k (Sleeping ms)) -> timers_ok s -> timers_ok (add_timer k ms s).
Proof. intros Ht Hs. unfold timers_ok, add_timer. cbn. apply Forall_app. split; [done|]. by constructor. Qed.

Lemma flush_timers s : timers (AddBackgroundFlushTask s).1 = timers s.
Proof. unfold AddBackgroundFlushTask. by destruct (client_alive s). Qed.

Lemma flush_then_ok g s : (forall s1, timers_ok s1 -> timers_ok (g s1)) -> timers_ok s -> timers_ok (flush_then g s).
Proof.
  intros Hg Hs. unfold flush_then. pose proof (flush_timers s) as Ht. destruct (AddBackgroundFlushTask s) as [s1 added].
  cbn in Ht. assert (timers_ok s1) by (unfold timers_ok; by rewrite Ht). destruct added; [by apply Hg|done].
Qed.

Lemma period_ok local s : clock_ok local -> timers_ok s -> timers_ok (TriggerAutoFlushPeriod flush_settings_ local s).
Proof.
  intros [(Hw & Hh & Hm & Hs) Hsec] Ht. unfold TriggerAutoFlushPeriod.
  destruct (auto_flush_time_period flush_settings_) as [period|]; [|done]. apply add_timer_ok; [|done]. split; [done|]. cbn.
  unfold getDelayTillPeriod, getSecondsToNextWeek, getSecondsToNextDay, getSecondsToNextHour,
    kSecondsInMinute, kSecondsInHour, kSecondsInDay. destruct period; lia.
Qed.

Lemma interval_ok s : 0 < auto_flush_interval flush_settings_ -> timers_ok s -> timers_ok (TriggerAutoFlushInterval flush_settings_ s).
Proof. intros Hi. apply add_timer_ok. split; [done|cbn; lia]. Qed.

Lemma old_ok ms s :
  0 < auto_flush_old_events_force_flush_interval flush_settings_ -> 10 <= ms -> timers_ok s ->
  timers_ok (TriggerAutoFlushOldPartitionInterval ms s).
Proof. intros Hi Hms. by apply add_timer_ok. Qed.

(** What is left of an interval that is not close to its end. *)
Lemma not_close_delay interval time_since :
  0 < interval -> IsCloseEnough (1000 * interval) time_since 1 = false -> 10 <= 1000 * interval - time_since.
Proof.
  unfold IsCloseEnough. intros Hi Hc. apply Z.ltb_ge in Hc.
  replace (Z.quot (1000 * interval * 1) 100) with (10 * interval) in Hc; [lia|].
  replace (1000 * interval * 1) with (10 * interval * 100) by lia. symmetry. by apply Z.quot_mul.
Qed.

Lemma timers_ok_step s a s' : action_clock_ok a -> timers_ok s -> step s a = Some s' -> timers_ok s'.
Proof.
  intros Ha Hs E. destruct a as [now|size| |i|i now local|n|n| |]; cbn [auto_step] in E.
  - injection E as <-. unfold HandleNotifyQueueEventStart. by destruct (0 <? _).
  - injection E as <-. unfold AutoFlushNumEvents. destruct (IsAutoFlushNumEventsRequired _ _ _); [|done].
    unfold timers_ok. by rewrite flush_timers.
  - injection E as <-. unfold HandleNotifyFlushEvent. by destruct (0 <? _).
  - unfold wake_timer in E. destruct (timers s !! i) as [t|] eqn:Et; [|done]. cbn in E. destruct (timer_stage t); [|done].
    unfold timers_ok in *. injection E as <-. cbn. destruct (is_cancelled_ s); [by apply Forall_delete|].
    apply Forall_insert; [done|]. rewrite Forall_lookup in Hs. by destruct (Hs i t Et).
  - unfold fire_timer in E. destruct (timers s !! i) as [t|] eqn:Et; [|done]. cbn in E. destruct (timer_stage t); [done|].
    assert (timers_ok (with_timers (delete i (timers s)) s)) as Hd by (by apply Forall_delete).
    unfold timers_ok in Hs. rewrite Forall_lookup in Hs. destruct (Hs i t Et) as [Hk _]. injection E as <-.
    destruct (timer_kind t).
    + apply flush_then_ok; [|exact Hd]. intros s1. by apply interval_ok.
    + destruct (IsCloseEnough _ _ _) eqn:Ec; [|apply old_ok; [done|by apply not_close_delay|exact Hd]].
      apply (flush_then_ok (TriggerAutoFlushOldPartitionInterval _)); [|exact Hd]. intros s1. apply old_ok; [done|lia].
    + apply flush_then_ok; [|exact Hd]. intros s1. by apply period_ok.
  - unfold start_step in E. destruct (flushes s !! n) as [f|]; [|done]. cbn in E.
    destruct (starter f); first [discriminate E|by injection E as <-].
  - unfold callback_step in E. destruct (flushes s !! n) as [f|]; [|done]. cbn in E.
    destruct (starter f), (callback_stage f); first [discriminate E|by injection E as <-].
  - by injection E as <-.
  - by injection E as <-.
Qed.

Lemma enable_ok now local size n0 : clock_ok local -> timers_ok (EnableController flush_settings_ now local size (NewController n0)).
Proof.
  intros Hl. assert (forall z s, timers_ok s -> timers_ok (AutoFlushNumEvents flush_settings_ z s)) as Hnum.
  { intros z s Hs. unfold AutoFlushNumEvents. destruct (IsAutoFlushNumEventsRequired _ _ _); [|done].
    unfold timers_ok. by rewrite flush_timers. }
  apply Hnum. unfold InitialiseAutoFlushPeriod.
  assert (forall s, timers_ok s -> partition_timestamp_queue_ s = [] ->
    timers_ok (InitialiseAutoFlushOldPartitionInterval flush_settings_ now size s)) as Hold.
  { intros s Hs Hq. unfold InitialiseAutoFlushOldPartitionInterval. destruct (client_alive s); [|done].
    destruct (Z.ltb_spec 0 (auto_flush_old_events_force_flush_interval flush_settings_)); [|done]. cbn [andb].
    apply old_ok; [done| |done]. rewrite Hq. unfold CalculateTimeSinceOldestPartition, PushPartitionTimestamps.
    assert (default 0 (top 0 (emplace_count size now [])) = now \/ default 0 (top 0 (emplace_count size now [])) = 0) as Hd.
    { rewrite emplace_count_app. destruct size; cbn; auto. }
    destruct Hd as [->| ->]; cbn; [destruct (now =? 0); lia|lia]. }
  assert (timers_ok (InitialiseAutoFlushOldPartitionInterval flush_settings_ now size
    (InitialiseAutoFlushInterval flush_settings_ (NewController n0)))) as H0.
  { unfold InitialiseAutoFlushInterval. destruct (Z.ltb_spec 0 (auto_flush_interval flush_settings_)); [|by apply Hold; [constructor|]].
    apply Hold; [apply interval_ok; [done|constructor]|done]. }
  destruct (bool_decide _); [by apply period_ok|exact H0].
Qed.

(** No timer of an enabled controller spins: whatever happens, each one sleeps for at
    least 10 ms before it does anything, when the clock shows no leap second. *)
Theorem timers_never_spin now local size n0 acts s' :
  clock_ok local -> Forall action_clock_ok acts ->
  run (EnableController flush_settings_ now local size (NewController n0)) acts = Some s' ->
  forall t ms, t ∈ timers s' -> timer_stage t = Sleeping ms -> 10 <= ms.
Proof.
  intros Hl Hacts E t ms Ht Hms. cut (timers_ok s').
  { intros Hs. unfold timers_ok in Hs. rewrite Forall_forall in Hs. destruct (Hs t Ht) as [_ H]. by rewrite Hms in H. }
  clear t ms Ht Hms. revert E. generalize (enable_ok now local size n0 Hl). generalize (EnableController flush_settings_ now local size (NewController n0)).
  induction Hacts as [|a acts Ha Hacts IH]; intros s Hs E; cbn in E; [by injection E as <-|].
  destruct (step s a) as [s1|] eqn:E1; [|done]. apply (IH s1); [by eapply timers_ok_step|exact E].
Qed.

(** ** What a step does to the flushes *)

Definition core : Type := list FlushTask * list FlushNotification * BackgroundTaskCollection * bool.
Definition core_of (s : EnabledController) : core := (flushes s, notifications s, background_task_col_ s, is_cancelled_ s).

Inductive effect : core -> core -> Prop :=
| no_effect c : effect c c
| flush_added l e c b : effect (l, e, c, b) (l ++ [new_flush], e ++ [FlushEventStarted], c, b)
| flush_registered l e c b n f :
    l !! n = Some f -> starter f = Spawned ->
    effect (l, e, c, b)
      (<[n := MkFlushTask (background_next_id c) Registered (callback_stage f) (flush_cancelled f)]> l, e,
       (BackgroundAddTask c).2, b)
| flush_started l e c b n f t :
    l !! n = Some f -> starter f <> Spawned -> t <> Spawned -> (starter f = Registered -> t = FlushCalled) -> t <> Registered ->
    effect (l, e, c, b) (<[n := with_starter t f]> l, e, c, b)
| flush_released l e c b n f :
    l !! n = Some f -> starter f <> Spawned -> starter f <> Registered -> callback_stage f = Running ->
    effect (l, e, c, b) (<[n := with_callback Released f]> l, e, ReleaseTask (flush_id f) c, b)
| flush_unlisted l e c b n f :
    l !! n = Some f -> callback_stage f = Released -> effect (l, e, c, b) (<[n := with_callback TokenRemoved f]> l, e, c, b)
| flush_notified l e c b n f :
    l !! n = Some f -> callback_stage f = TokenRemoved ->
    effect (l, e, c, b) (<[n := with_callback Notified f]> l, e ++ [FlushEventResults n], c, b)
| flushes_cancelled l e c b (P : nat -> FlushTask -> bool) :
    effect (l, e, c, b) (imap (fun n f => if P n f then cancel_flush f else f) l, e, c, true).

Lemma flush_effect s : effect (core_of s) (core_of (AddBackgroundFlushTask s).1).
Proof. unfold AddBackgroundFlushTask. destruct (client_alive s); constructor. Qed.

Lemma flush_then_effect g s :
  (forall s1, core_of (g s1) = core_of s1) -> effect (core_of s) (core_of (flush_then g s)).
Proof.
  intros Hg. unfold flush_then. pose proof (flush_effect s) as He. destruct (AddBackgroundFlushTask s) as [s1 added].
  destruct added; [rewrite Hg|]; exact He.
Qed.

Lemma step_effect s a s' : step s a = Some s' -> effect (core_of s) (core_of s').
Proof.
  intros E. destruct a as [now|size| |i|i now local|n|n| |]; cbn [auto_step] in E.
  - injection E as <-. unfold HandleNotifyQueueEventStart. destruct (0 <? _); constructor.
  - injection E as <-. unfold AutoFlushNumEvents. destruct (IsAutoFlushNumEventsRequired _ _ _); [apply flush_effect|constructor].
  - injection E as <-. unfold HandleNotifyFlushEvent. destruct (0 <? _); constructor.
  - unfold wake_timer in E. destruct (timers s !! i) as [t|]; [|done]. cbn in E. destruct (timer_stage t); [|done].
    injection E as <-. constructor.
  - unfold fire_timer in E. destruct (timers s !! i) as [t|]; [|done]. cbn in E. destruct (timer_stage t); [done|].
    change (core_of s) with (core_of (with_timers (delete i (timers s)) s)). injection E as <-. destruct (timer_kind t).
    + by apply flush_then_effect.
    + destruct (IsCloseEnough _ _ _); [|constructor]. by apply (flush_then_effect (TriggerAutoFlushOldPartitionInterval _)).
    + apply flush_then_effect. intros s1. unfold TriggerAutoFlushPeriod. by destruct (auto_flush_time_period _).
  - unfold start_step in E. destruct (flushes s !! n) as [f|] eqn:Ef; [|done]. cbn in E.
    destruct (starter f) eqn:Es; try discriminate E; injection E as <-.
    + by apply (flush_registered _ _ _ _ n f).
    + by apply (flush_started _ _ _ _ n f FlushCalled); rewrite ?Es.
    + by apply (flush_started _ _ _ _ n f TokenAdded); rewrite ?Es.
  - unfold callback_step in E. destruct (flushes s !! n) as [f|] eqn:Ef; [|done]. cbn in E.
    destruct (starter f) eqn:Es, (callback_stage f) eqn:Ec; try discriminate E; injection E as <-;
      first [ by apply (flush_released _ _ _ _ n f); rewrite ?Es | by apply (flush_unlisted _ _ _ _ n f)
            | by apply (flush_notified _ _ _ _ n f) ].
  - injection E as <-. apply flushes_cancelled.
  - injection E as <-. constructor.
Qed.

(** ** Notifications *)

Definition is_started (e : FlushNotification) : Prop := e = FlushEventStarted.
#[global] Instance is_started_dec e : Decision (is_started e).
Proof. unfold is_started. destruct e; [left; reflexivity|right; discriminate]. Defined.
Definition result_of (e : FlushNotification) : option nat := match e with FlushEventResults n => Some n | _ => None end.
Definition results (e : list FlushNotification) : list nat := omap result_of e.

Lemma results_app e e' : results (e ++ e') = results e ++ results e'.
Proof. unfold results. induction e as [|[|n] e IH]; [done|exact IH|]. cbn. by f_equal. Qed.

(** Every flush is announced when it is added, and its results are told once, at the
    end of its callback. *)
Definition notes_ok (x : core) : Prop :=
  let '(l, e, _, _) := x in
  length (filter is_started e) = length l /\ NoDup (results e) /\
  forall n, n ∈ results e <-> exists f, l !! n = Some f /\ callback_stage f = Notified.

(** A change of one flush that does not end its callback. *)
Lemma notes_update (l : list FlushTask) (n : nat) f f' :
  l !! n = Some f -> callback_stage f <> Notified -> callback_stage f' <> Notified ->
  forall m, (exists g, l !! m = Some g /\ callback_stage g = Notified) <->
            (exists g, <[n := f']> l !! m = Some g /\ callback_stage g = Notified).
Proof.
  intros Hn Hf Hf' m. destruct (decide (n = m)) as [<-|Hne].
  - rewrite list_lookup_insert_eq by (by eapply lookup_lt_Some). rewrite Hn. naive_solver.
  - by rewrite list_lookup_insert_ne.
Qed.

Lemma notes_effect x y : effect x y -> notes_ok x -> notes_ok y.
Proof.
  intros He Hx. destruct He as [c|l e c b|l e c b n f Hn Hs|l e c b n f t Hn Hs Ht Ht' Ht''|l e c b n f Hn Hs Hs' Hc|l e c b n f Hn Hc|l e c b n f Hn Hc|l e c b P];
    [done|destruct Hx as (Hst & Hnd & Hr)..].
  - split_and!.
    + by rewrite filter_app, !length_app, Hst, (filter_cons_True is_started).
    + by rewrite results_app, app_nil_r.
    + intros n. rewrite results_app, app_nil_r, Hr. split.
      * intros (f & Hf & ?). exists f. split; [by apply lookup_app_l_Some|done].
      * intros (f & [[? Hf]|[-> <-]]%lookup_snoc_Some & Hf'); [by exists f|done].
  - split_and!; [by rewrite length_insert|done|]. intros m. rewrite Hr.
    destruct (decide (n = m)) as [<-|Hne]; [|by rewrite list_lookup_insert_ne].
    rewrite list_lookup_insert_eq by (by eapply lookup_lt_Some). rewrite Hn. naive_solver.
  - split_and!; [by rewrite length_insert|done|]. intros m. rewrite Hr.
    destruct (decide (n = m)) as [<-|Hne]; [|by rewrite list_lookup_insert_ne].
    rewrite list_lookup_insert_eq by (by eapply lookup_lt_Some). rewrite Hn. naive_solver.
  - split_and!; [by rewrite length_insert|done|]. intros m. rewrite Hr. apply (notes_update l n f); [done|congruence|done].
  - split_and!; [by rewrite length_insert|done|]. intros m. rewrite Hr. apply (notes_update l n f); [done|congruence|done].
  - assert (n ∉ results e) as Hnew.
    { rewrite Hr. intros (g & Hg & Hd). replace g with f in Hd by congruence. congruence. }
    split_and!.
    + rewrite filter_app, length_app, length_insert, (filter_cons_False is_started), Hst by done. cbn. lia.
    + rewrite results_app. apply NoDup_app. split_and!; [done| |cbn; apply NoDup_singleton].
      cbn. intros m Hm ->%list_elem_of_singleton. by apply Hnew.
    + intros m. rewrite results_app, elem_of_app, Hr. cbn. rewrite list_elem_of_singleton.
      destruct (decide (n = m)) as [<-|Hne].
      * rewrite list_lookup_insert_eq by (by eapply lookup_lt_Some). split; [|by right]. intros _. by eexists.
      * rewrite list_lookup_insert_ne by done. naive_solver.
  - split_and!; [by rewrite length_imap|done|]. intros m. rewrite Hr, list_lookup_imap.
    destruct (l !! m) as [f|]; cbn; [|naive_solver]. destruct (P m f); split; intros (g & [= <-] & ?); by eexists.
Qed.

(** ** Registration *)

Definition registered (f : FlushTask) : Prop := starter f <> Spawned.
(** Registered, and its callback has not been called. *)
Definition active (f : FlushTask) : Prop := starter f <> Spawned /\ callback_stage f = Running.
#[global] Instance active_dec f : Decision (active f).
Proof. unfold active. destruct (starter f), (callback_stage f); first [left; split; congruence|right; intros [? ?]; congruence]. Defined.

Lemma delete_elem {A} (l : list A) n x : x ∈ delete n l -> exists m, m <> n /\ l !! m = Some x.
Proof.
  rewrite delete_take_drop, elem_of_app. intros [(m & Hm)%list_elem_of_lookup|(m & Hm)%list_elem_of_lookup].
  - apply lookup_take_Some in Hm as [Hm ?]. exists m. split; [lia|done].
  - rewrite lookup_drop in Hm. exists (S n + m)%nat. split; [lia|done].
Qed.

Definition active_ids (l : list FlushTask) : list Z := flush_id <$> filter active l.

Lemma active_ids_cons f l : active_ids (f :: l) = if decide (active f) then flush_id f :: active_ids l else active_ids l.
Proof. unfold active_ids. rewrite filter_cons. by case_decide. Qed.

#[local] Instance active_ids_proper : Proper ((≡ₚ) ==> (≡ₚ)) active_ids.
Proof. intros l l' Hl. unfold active_ids. by rewrite Hl. Qed.

Lemma active_ids_split l n f : l !! n = Some f -> active_ids l ≡ₚ active_ids (f :: delete n l).
Proof. intros Hn. by apply active_ids_proper, delete_Permutation. Qed.

Lemma active_ids_insert l n f f' : l !! n = Some f -> active_ids (<[n := f']> l) ≡ₚ active_ids (f' :: delete n l).
Proof. intros Hn. apply active_ids_proper. by apply (insert_perm l n f). Qed.

Definition next_id (x : core) : Z := background_next_id x.1.2.

(** The registered tasks are the active flushes, and ids are not used twice. *)
Definition ids_ok (n0 : Z) (x : core) : Prop :=
  let '(l, _, c, b) := x in
  background_tasks_ids_ c ≡ₚ active_ids l /\
  (forall n m f g, l !! n = Some f -> l !! m = Some g -> registered f -> registered g -> flush_id f = flush_id g -> n = m) /\
  (forall n f, l !! n = Some f -> (registered f -> n0 <= flush_id f < background_next_id c) /\
     (callback_stage f <> Running -> registered f) /\ (flush_cancelled f = true -> b = true)).

(** A change of one flush that keeps its id and whether it is active. *)
Lemma ids_update n0 (l : list FlushTask) e e' c b n f f' :
  l !! n = Some f -> flush_id f' = flush_id f -> (registered f' <-> registered f) -> (active f' <-> active f) ->
  (callback_stage f' <> Running -> registered f') -> flush_cancelled f' = flush_cancelled f ->
  ids_ok n0 (l, e, c, b) -> ids_ok n0 (<[n := f']> l, e', c, b).
Proof.
  intros Hn Hid Hreg Hact Hrun Hcan (Hp & Hinj & Hall). split_and!.
  - rewrite Hp, (active_ids_split l n f Hn), (active_ids_insert l n f f' Hn), !active_ids_cons.
    destruct (decide (active f)), (decide (active f')); try tauto; [|done]. by rewrite Hid.
  - intros i j g h Hi Hj Hg Hh E.
    assert (forall k x, <[n := f']> l !! k = Some x -> registered x -> exists x0, l !! k = Some x0 /\ registered x0 /\ flush_id x0 = flush_id x) as Hback.
    { intros k x Hk Hx. apply list_lookup_insert_Some in Hk as [(<- & <- & _)|[_ Hk]]; [exists f; split_and!; [done|by apply Hreg|done]|by exists x]. }
    destruct (Hback i g Hi Hg) as (g0 & ? & ? & ?), (Hback j h Hj Hh) as (h0 & ? & ? & ?). eapply Hinj; try done. congruence.
  - intros k x Hk. apply list_lookup_insert_Some in Hk as [(<- & <- & _)|[_ Hk]]; [|by apply (Hall k)].
    destruct (Hall n f Hn) as (? & ? & ?). rewrite Hid, Hcan. split_and!; [intros Hr%Hreg; auto|done|done].
Qed.

Lemma ids_effect n0 x y :
  effect x y -> 0 <= next_id x -> next_id x + 1 < 2 ^ 64 -> n0 <= next_id x -> ids_ok n0 x ->
  ids_ok n0 y /\ next_id x <= next_id y <= next_id x + 1.
Proof.
  intros He H0 Hnext Hle Hx. destruct He as [c|l e c b|l e c b n f Hn Hs|l e c b n f t Hn Hs Ht Ht' Ht''|l e c b n f Hn Hs Hs' Hc|l e c b n f Hn Hc|l e c b n f Hn Hc|l e c b P];
    unfold next_id in *; cbn in Hnext, Hle, H0 |- *.
  - split; [done|lia].
  - split; [|lia]. destruct Hx as (Hp & Hinj & Hall). split_and!.
    + rewrite <- Permutation_cons_append, active_ids_cons. rewrite decide_False; [done|]. by intros [H _].
    + intros i j g h Hi Hj Hg Hh E. apply lookup_snoc_Some in Hi as [[? Hi]|[-> <-]]; [|by destruct Hg].
      apply lookup_snoc_Some in Hj as [[? Hj]|[-> <-]]; [|by destruct Hh]. by eapply Hinj.
    + intros k x Hk. apply lookup_snoc_Some in Hk as [[? Hk]|[-> <-]]; [by apply (Hall k)|]. cbn.
      split_and!; [intros []; done|done|done].
  - rewrite Z.mod_small by lia. split; [|lia]. destruct Hx as (Hp & Hinj & Hall).
    destruct (Hall n f Hn) as (Hf1 & Hf2 & Hf3).
    assert (callback_stage f = Running) as Hrun.
    { destruct (callback_stage f); [done|..]; exfalso; apply (Hf2 ltac:(done)); exact Hs. }
    set (f' := MkFlushTask (background_next_id c) Registered (callback_stage f) (flush_cancelled f)). split_and!.
    + cbn. rewrite (active_ids_insert l n f f' Hn), active_ids_cons, decide_True by (split; [done|exact Hrun]).
      rewrite <- Permutation_cons_append. cbn. f_equiv. rewrite Hp, (active_ids_split l n f Hn), active_ids_cons.
      rewrite decide_False; [done|]. by intros [H _].
    + intros i j g h Hi Hj Hg Hh E. apply list_lookup_insert_Some in Hi as [(<- & <- & _)|[Hni Hi]];
        apply list_lookup_insert_Some in Hj as [(<- & <- & _)|[Hnj Hj]].
      * done.
      * destruct (Hall j h Hj) as (Hj1 & _). specialize (Hj1 Hh). cbn in E. lia.
      * destruct (Hall i g Hi) as (Hi1 & _). specialize (Hi1 Hg). cbn in E. lia.
      * by eapply Hinj.
    + cbn. intros k x Hk. apply list_lookup_insert_Some in Hk as [(<- & <- & _)|[_ Hk]].
      * cbn. split_and!; [lia|done|done].
      * destruct (Hall k x Hk) as (Hk1 & Hk2 & Hk3). split_and!; [intros Hr; specialize (Hk1 Hr); lia|done|done].
  - split; [|lia]. eapply (ids_update n0 l e e c b n f); try done. unfold active. cbn. tauto.
  - split; [|lia]. destruct Hx as (Hp & Hinj & Hall).
    assert (Forall (fun i => i <> flush_id f) (active_ids (delete n l))) as Hother.
    { rewrite Forall_forall. intros i (g & -> & [[Hg _] (m & Hm & Hl)%delete_elem]%list_elem_of_filter)%list_elem_of_fmap E.
      apply Hm. by eapply Hinj. }
    assert (active_ids (<[n := with_callback Released f]> l) ≡ₚ active_ids (delete n l)) as Hrest.
    { rewrite (active_ids_insert l n f _ Hn), active_ids_cons. rewrite decide_False; [done|]. by intros [_ H]. }
    split_and!.
    + cbn. rewrite Hp, Hrest, (active_ids_split l n f Hn), active_ids_cons, decide_True by done.
      rewrite filter_cons_False by (intros H; by apply H). revert Hother. generalize (active_ids (delete n l)).
      intros k0 Hother. induction Hother as [|i k Hi Hk IH]; [done|]. rewrite filter_cons_True by done. by rewrite IH.
    + intros i j g h Hi Hj Hg Hh E.
      assert (forall k x, <[n := with_callback Released f]> l !! k = Some x -> registered x ->
        exists x0, l !! k = Some x0 /\ registered x0 /\ flush_id x0 = flush_id x) as Hback.
      { intros k x Hk Hx. apply list_lookup_insert_Some in Hk as [(<- & <- & _)|[_ Hk]]; [by exists f|by exists x]. }
      destruct (Hback i g Hi Hg) as (g0 & ? & ? & ?), (Hback j h Hj Hh) as (h0 & ? & ? & ?). eapply Hinj; try done. congruence.
    + intros k x Hk. apply list_lookup_insert_Some in Hk as [(<- & <- & _)|[_ Hk]]; [|by apply (Hall k)].
      destruct (Hall n f Hn) as (? & ? & ?). by split_and!.
  - split; [|lia]. pose proof Hx as (_ & _ & Hall). destruct (Hall n f Hn) as (_ & Hr & _).
    eapply (ids_update n0 l e e c b n f); try done; [unfold active; cbn; rewrite Hc; naive_solver|]. intros _. apply Hr. by rewrite Hc.
  - split; [|lia]. pose proof Hx as (_ & _ & Hall). destruct (Hall n f Hn) as (_ & Hr & _).
    eapply (ids_update n0 l e e c b n f); try done; [unfold active; cbn; rewrite Hc; naive_solver|]. intros _. apply Hr. by rewrite Hc.
  - split; [|lia]. destruct Hx as (Hp & Hinj & Hall).
    assert (forall k x, imap (fun n f => if P n f then cancel_flush f else f) l !! k = Some x ->
      exists x0, l !! k = Some x0 /\ (x = x0 \/ x = cancel_flush x0)) as Hback.
    { intros k x Hk. rewrite list_lookup_imap in Hk. destruct (l !! k) as [x0|]; [|done]. exists x0. cbn in Hk.
      injection Hk as <-. destruct (P k x0); auto. }
    split_and!.
    + rewrite Hp. clear. revert P. induction l as [|f l IH]; intros P; [done|]. rewrite imap_cons, !active_ids_cons.
      assert (active (if P 0%nat f then cancel_flush f else f) <-> active f) as Ha by (by destruct (P 0%nat f)).
      assert (flush_id (if P 0%nat f then cancel_flush f else f) = flush_id f) as Hid by (by destruct (P 0%nat f)).
      destruct (decide (active f)), (decide (active (if P 0%nat f then cancel_flush f else f))); try tauto; cbn; rewrite ?Hid;
        [f_equiv|]; apply (IH (fun n => P (S n))).
    + intros i j g h (g0 & ? & Hg0)%Hback (h0 & ? & Hh0)%Hback Hg Hh E. eapply Hinj; try done;
        destruct Hg0 as [->| ->], Hh0 as [->| ->]; done.
    + intros k x (x0 & Hk & Hx0)%Hback. destruct (Hall k x0 Hk) as (? & ? & ?). by destruct Hx0 as [->| ->].
Qed.

Definition accounted (n0 : Z) (x : core) : Prop := notes_ok x /\ ids_ok n0 x.

Lemma accounted_run n0 acts s s' :
  0 <= n0 <= next_id (core_of s) -> next_id (core_of s) + Z.of_nat (length acts) < 2 ^ 64 ->
  accounted n0 (core_of s) -> run s acts = Some s' -> accounted n0 (core_of s').
Proof.
  revert s. induction acts as [|a acts IH]; intros s Hle Hlt Hs E; cbn in E; [by injection E as <-|].
  destruct (step s a) as [s1|] eqn:E1; [|done]. apply step_effect in E1. destruct Hs as [Hnotes Hids].
  cbn [length] in Hlt. destruct (ids_effect n0 _ _ E1) as [Hids' Hnext]; [lia..|done|].
  apply (IH s1); [lia|lia|split; [by eapply notes_effect|done]|exact E].
Qed.

Lemma enable_effect now local size n0 :
  effect (core_of (NewController n0)) (core_of (EnableController flush_settings_ now local size (NewController n0))).
Proof.
  set (s := InitialiseAutoFlushPeriod flush_settings_ local (InitialiseAutoFlushOldPartitionInterval flush_settings_ now size
    (InitialiseAutoFlushInterval flush_settings_ (NewController n0)))).
  assert (core_of s = core_of (NewController n0)) as <-.
  { unfold s, InitialiseAutoFlushPeriod, InitialiseAutoFlushOldPartitionInterval, InitialiseAutoFlushInterval, TriggerAutoFlushPeriod.
    destruct (bool_decide _), (auto_flush_time_period flush_settings_), (0 <? auto_flush_interval _); cbn;
      by destruct (0 <? _). }
  unfold EnableController, AutoFlushNumEvents. fold s. destruct (IsAutoFlushNumEventsRequired _ _ _); [apply flush_effect|constructor].
Qed.

(** C25. The flushes of an enabled controller, whatever its threads do in whatever order:
    the listener is told of the start of every flush, and of its results exactly when
    its callback has ended, once; [Disable] has finished exactly when every flush that
    has registered itself has been released; and no flush is cancelled before the
    controller is. *)
Theorem flushes_accounted now local size n0 acts s' :
  0 <= n0 -> n0 + Z.of_nat (length acts) + 1 < 2 ^ 64 ->
  run (EnableController flush_settings_ now local size (NewController n0)) acts = Some s' ->
  length (filter is_started (notifications s')) = length (flushes s') /\
  NoDup (results (notifications s')) /\
  (forall n, n ∈ results (notifications s') <-> exists f, flushes s' !! n = Some f /\ callback_stage f = Notified) /\
  (disable_finished s' = true <->
   forall f, f ∈ flushes s' -> starter f <> Spawned -> callback_stage f <> Running) /\
  (forall f, f ∈ flushes s' -> flush_cancelled f = true -> is_cancelled_ s' = true).
Proof.
  intros H0 Hlt E.
  assert (accounted n0 (core_of (NewController n0))) as Hnew.
  { split; [split_and!; [done|constructor|]|split_and!; [done|by intros n m f g Hn|by intros n f Hn]].
    intros n. split; [by intros Hn%elem_of_nil|by intros (f & Hn & _)]. }
  pose proof (enable_effect now local size n0) as Henable. destruct Hnew as [Hnotes Hids].
  destruct (ids_effect n0 _ _ Henable) as [Hids' Hnext]; [unfold next_id; cbn; lia..|done|].
  change (next_id (core_of (NewController n0))) with n0 in Hnext.
  apply (accounted_run n0) in E; [|lia|lia|split; [by eapply notes_effect|done]].
  destruct E as [(Hst & Hnd & Hr) (Hp & _ & Hall)]. split_and!; [done|done|done| |].
  - unfold disable_finished, background_done. split.
    + intros Hdone f Hf Hreg Hrun. destruct (background_tasks_ids_ _) as [|i ids]; [|done].
      apply Permutation_nil_l in Hp. assert (flush_id f ∈ active_ids (flushes s')) as Hin.
      { apply list_elem_of_fmap. exists f. split; [done|]. by apply list_elem_of_filter. }
      cbn in Hp. first [rewrite Hp in Hin|rewrite <- Hp in Hin]. by apply elem_of_nil in Hin.
    + intros Hno. destruct (active_ids (flushes s')) as [|i ids] eqn:Ea.
      * apply Permutation_nil_r in Hp. by rewrite Hp.
      * assert (i ∈ active_ids (flushes s')) as Hi by (rewrite Ea; left).
        apply list_elem_of_fmap in Hi as (f & -> & [[Hreg Hrun] Hf]%list_elem_of_filter). by destruct (Hno f Hf Hreg).
  - intros f [n Hn]%list_elem_of_lookup. apply (Hall n f Hn).
Qed.
End facts.

(** ** A concrete controller *)

(** Flushes at two queued requests, every 10 s, after 60 s in the queue, and hourly. *)
Definition example_settings : FlushSettings := MkFlushSettings 2 10 (Some Hourly) 60 None None.
Definition example_clock : tm := MkTm 3 14 59 30.
Abbreviation enabled := (EnableController example_settings 1000 example_clock 2 (NewController 0)).

Example enabled_timers :
  map (fun t => (timer_kind t, timer_stage t)) (timers enabled) =
  [(TimerInterval, Sleeping 10000); (TimerOldPartition, Sleeping 60000); (TimerPeriod, Sleeping 30000)] /\
  notifications enabled = [FlushEventStarted].
Proof. split; reflexivity. Qed.

(** The flush of an interval, reported in full. *)
Definition interval_flush : list AutoAction :=
  [TimerWakes 0; TimerFires 0 11000 example_clock; FlushStarts 1; FlushStarts 1; FlushCallback 1; FlushCallback 1; FlushCallback 1].

Example interval_flush_run :
  option_map (fun s => (length (timers s), notifications s, disable_finished s)) (auto_run example_settings enabled interval_flush)
  = Some (3%nat, [FlushEventStarted; FlushEventStarted; FlushEventResults 1], true).
Proof. vm_compute. reflexivity. Qed.

(** [Disable] does not wait for a flush whose thread has not registered it yet, and does not
    cancel it: it runs, and reports, afterwards. *)
Example disable_misses_flush :
  option_map disable_finished (auto_run example_settings enabled [CancelController]) = Some true /\
  option_map (fun s => (map flush_cancelled (flushes s), notifications s))
    (auto_run example_settings enabled
      [CancelController; FlushStarts 0; FlushStarts 0; FlushStarts 0; FlushCallback 0; FlushCallback 0; FlushCallback 0])
  = Some ([false], [FlushEventStarted; FlushEventResults 0]).
Proof. split; vm_compute; reflexivity. Qed.

(** A flush that is over before its token is added leaves it in the map. *)
Example token_left_behind :
  option_map (fun s => map_to_list (cancel_token_map_ s))
    (auto_run example_settings enabled
      [FlushStarts 0; FlushStarts 0; FlushCallback 0; FlushCallback 0; FlushCallback 0; FlushStarts 0])
  = Some [(0, 0%nat)].
Proof. vm_compute. reflexivity. Qed.

Lemma flushes_accounted_witness :
  exists s', auto_run example_settings enabled interval_flush = Some s' /\
    length (filter is_started (notifications s')) = length (flushes s') /\ NoDup (results (notifications s')).
Proof.
  destruct (auto_run example_settings enabled interval_flush) as [s'|] eqn:E; [|discriminate E].
  exists s'. split; [reflexivity|].
  destruct (flushes_accounted example_settings 1000 example_clock 2 0 interval_flush s') as (H1 & H2 & _).
  - lia.
  - cbn. lia.
  - exact E.
  - split; [exact H1|exact H2].
Defined.

Lemma timers_never_spin_witness :
  clock_ok example_clock /\
  exists s', auto_run example_settings enabled interval_flush = Some s' /\
    forall t ms, t ∈ timers s' -> timer_stage t = Sleeping ms -> 10 <= ms.
Proof.
  assert (clock_ok example_clock) as Hc by (split; [unfold tm_ok; cbn; lia|discriminate]).
  split; [exact Hc|]. destruct (auto_run example_settings enabled interval_flush) as [s'|] eqn:E; [|discriminate E].
  exists s'. split; [reflexivity|]. apply (timers_never_spin example_settings 1000 example_clock 2 0 interval_flush s').
  - exact Hc.
  - repeat constructor; cbn; lia || discriminate.
  - exact E.
Defined.

(** Cancelled with one timer awake. *)
Definition cancelled_controller : EnabledController :=
  default (NewController 0) (auto_run example_settings enabled [TimerWakes 1; CancelController]).

Lemma cancelled_timers_end_witness :
  is_cancelled_ cancelled_controller = true /\
  exists s', auto_run example_settings cancelled_controller [TimerFires 1 1000 example_clock; TimerWakes 0; TimerWakes 0; TimerWakes 0] = Some s' /\
    (length (timers s') <= 3)%nat.
Proof.
  split; [reflexivity|].
  destruct (auto_run example_settings cancelled_controller [TimerFires 1 1000 example_clock; TimerWakes 0; TimerWakes 0; TimerWakes 0])
    as [s'|] eqn:E; [|discriminate E].
  exists s'. split; [reflexivity|].
  destruct (cancelled_timers_end example_settings cancelled_controller
    [TimerFires 1 1000 example_clock; TimerWakes 0; TimerWakes 0; TimerWakes 0] s' eq_refl E) as (_ & Ht & _).
  exact Ht.
Defined.
