(* ===== verification/LayerClients.v ===== *)
(** * The layer clients of the writer: state, lookups and tasks

    What [VersionedLayerClientImpl.cpp], [VolatileLayerClientImpl.cpp] and
    [IndexLayerClientImpl.cpp] (in [olp-cpp-sdk-dataservice-write/src]) share: the web
    API clients and how they are initialised, the catalog model, the tasks, and the
    web calls.  As in [ReadRepositories] a function returns what its callback is
    called with, the web API is a backend with any answers, and a context is
    cancelled or not at every [ExecuteOrCancelled].  With an asynchronous network a
    function returns at its first web call and its callback comes later; with a
    synchronous one, and when no call is made, the callback comes first.

    The result [None] is an exception or an undefined operation: a null client is
    dereferenced, [at(0)] of an empty list, or a wait on a lock that is not held. *)

From Stdlib Require Import ZArith Lia Bool Ascii.
From stdpp Require Import base numbers strings gmap list.
From S2P Require Import Prelude Decimal Http Hrn ReadModel TaskLists.
Local Open Scope Z_scope.
Local Open Scope st_scope.

(** ** Data *)

Record VersionDependency := MkVersionDependency { dep_direct : bool; dep_hrn : text; dep_version : Z }.
Record Publication := MkPublication {
  publication_id : option text; pub_layer_ids : option (list text); pub_catalog_version : option Z;
  pub_dependencies : option (list VersionDependency) }.
Record StartBatchRequest := MkStartBatchRequest {
  sb_layers : option (list text); sb_dependencies : option (list VersionDependency); sb_billing_tag : option text }.
Record PublishPartitionDataRequest := MkPublishPartitionDataRequest {
  pp_data : option text; pp_layer_id : text; pp_partition_id : option text; pp_billing_tag : option text;
  pp_checksum : option text }.
(** [model::Index], the fields but the id as one text. *)
Record Index := MkIndex { index_id : text; index_fields : text }.
Record PublishIndexRequest := MkPublishIndexRequest {
  pi_data : option text; pi_layer_id : text; pi_billing_tag : option text; pi_index : Index }.
Record DeleteIndexDataRequest := MkDeleteIndexDataRequest { di_layer_id : text; di_index_id : text }.
Record UpdateIndexRequest := MkUpdateIndexRequest {
  ui_layer_id : text; ui_billing_tag : option text; ui_additions : list Index; ui_removals : list text }.
Record CheckDataExistsRequest := MkCheckDataExistsRequest { cd_layer_id : text; cd_data_handle : text }.

(** The parts of the catalog the clients look at: its id, and the content types of its
    layers. *)
Record CatalogModel := MkCatalogModel { catalog_id : text; content_types : list (text * text) }.

(** A partition of a publication: its id and its data handle. *)
Record PublishPartition := MkPublishPartition { published_partition : text; published_handle : text }.

(** ** The web API *)

Inductive ApiClientName := ApiBlob | ApiConfig | ApiMetadata | ApiPublish | ApiQuery | ApiIndex | ApiIngest.
#[global] Instance ApiClientName_eq_dec : EqDecision ApiClientName.
Proof. solve_decision. Defined.

(** Each call has the base URL of its client first. *)
Inductive WebCall :=
| WebPlatformApis (base_url service service_version : text)
| WebResourcesApis (base_url hrn service service_version : text)
| WebGetCatalog (base_url hrn : text) (billing_tag : option text)
| WebLatestVersion (base_url : text)
| WebInitPublication (base_url : text) (pub : Publication) (billing_tag : option text)
| WebGetPublication (base_url publication : text)
| WebSubmitPublication (base_url publication : text) (billing_tag : option text)
| WebCancelPublication (base_url publication : text)
| WebUploadPartitions (base_url : text) (partitions : list PublishPartition) (publication layer : text)
    (billing_tag : option text)
| WebPutBlob (base_url layer content_type data_handle : text) (data : option text) (billing_tag : option text)
| WebCheckBlob (base_url layer data_handle : text)
| WebPartitionsById (base_url layer : text) (partitions : list text) (version : option Z)
    (fields : option (list text)) (billing_tag : option text)
| WebInsertIndexes (base_url : text) (index : Index) (layer : text) (billing_tag : option text)
| WebDeleteBlob (base_url layer index : text)
| WebPerformUpdate (base_url : text) (request : UpdateIndexRequest)
| WebIngestData (base_url layer content_type : text) (data trace_id billing_tag checksum : option text)
| WebIngestSdii (base_url layer : text) (sdii_message_list trace_id billing_tag checksum : option text).

(** What the network answers to a call, after the calls made before it, and whether it
    answers only when the functions of the client have returned. *)
Record WebBackend := MkWebBackend {
  web_asynchronous : bool;
  web_apis : list WebCall -> WebCall -> Response (list text); (* base URLs *)
  web_catalog : list WebCall -> WebCall -> Response CatalogModel;
  web_version : list WebCall -> WebCall -> Response Z;
  web_publication : list WebCall -> WebCall -> Response Publication;
  web_status : list WebCall -> WebCall -> Response Z;
  web_partitions : list WebCall -> WebCall -> Response (list (text * text)); (* ids and handles *)
  web_ingest : list WebCall -> WebCall -> Response text; (* trace ids *)
  web_done : list WebCall -> WebCall -> Response unit }.

(** ** The state of a client *)

(** The web clients ([None]: null; else the base URL), the flag of the
    initialisation, the catalog model and the tasks of the client, the tasks whose
    functions have not returned yet (the innermost first), and the calls, the checks for
    cancellation, the ids and the uuids used so far. *)
Record ClientWorld := MkClientWorld {
  apiclients : ApiClientName -> option text;
  init_in_progress_ : bool;
  catalog_model_ : CatalogModel;
  tokenList_ : TokenList;
  starting : list Z;
  requestId : Z;
  uuids : nat;
  web_calls : list WebCall;
  web_checks : nat }.

Definition with_apiclients f (w : ClientWorld) : ClientWorld :=
  MkClientWorld f (init_in_progress_ w) (catalog_model_ w) (tokenList_ w) (starting w) (requestId w) (uuids w) (web_calls w) (web_checks w).
Definition with_init b (w : ClientWorld) : ClientWorld :=
  MkClientWorld (apiclients w) b (catalog_model_ w) (tokenList_ w) (starting w) (requestId w) (uuids w) (web_calls w) (web_checks w).
Definition with_catalog c (w : ClientWorld) : ClientWorld :=
  MkClientWorld (apiclients w) (init_in_progress_ w) c (tokenList_ w) (starting w) (requestId w) (uuids w) (web_calls w) (web_checks w).
Definition with_tokens l (w : ClientWorld) : ClientWorld :=
  MkClientWorld (apiclients w) (init_in_progress_ w) (catalog_model_ w) l (starting w) (requestId w) (uuids w) (web_calls w) (web_checks w).
Definition with_starting s (w : ClientWorld) : ClientWorld :=
  MkClientWorld (apiclients w) (init_in_progress_ w) (catalog_model_ w) (tokenList_ w) s (requestId w) (uuids w) (web_calls w) (web_checks w).
Definition with_requestId i (w : ClientWorld) : ClientWorld :=
  MkClientWorld (apiclients w) (init_in_progress_ w) (catalog_model_ w) (tokenList_ w) (starting w) i (uuids w) (web_calls w) (web_checks w).
Definition with_uuids n (w : ClientWorld) : ClientWorld :=
  MkClientWorld (apiclients w) (init_in_progress_ w) (catalog_model_ w) (tokenList_ w) (starting w) (requestId w) n (web_calls w) (web_checks w).
Definition with_calls l (w : ClientWorld) : ClientWorld :=
  MkClientWorld (apiclients w) (init_in_progress_ w) (catalog_model_ w) (tokenList_ w) (starting w) (requestId w) (uuids w) l (web_checks w).
Definition with_checks n (w : ClientWorld) : ClientWorld :=
  MkClientWorld (apiclients w) (init_in_progress_ w) (catalog_model_ w) (tokenList_ w) (starting w) (requestId w) (uuids w) (web_calls w) n.

Definition empty_catalog : CatalogModel := MkCatalogModel [] [].

(** A client after its construction. *)
Definition NewLayerClient : ClientWorld := MkClientWorld (fun _ => None) false empty_catalog [] [] 0 0 [] 0.

Definition client_error (code : ErrorCode) (message : String.string) (retryable : bool) : ApiError :=
  ApiError_of_code code (str message) retryable.
Definition operation_cancelled : ApiError := client_error Cancelled "Operation cancelled." true.

Definition modify (f : ClientWorld -> ClientWorld) : ST ClientWorld unit := fun w => Some (tt, f w).
Definition undefined {A} : ST ClientWorld A := fun _ => None.

(** The base URL of a client that is dereferenced. *)
Definition deref (n : ApiClientName) : ST ClientWorld text := fun w =>
  match apiclients w n with Some url => Some (url, w) | None => None end.
Definition SetBaseUrl (n : ApiClientName) (url : text) : ST ClientWorld unit :=
  modify (fun w => with_apiclients (fun n' => if decide (n' = n) then Some url else apiclients w n') w).

(** The functions that are running return, and add the tokens of their tasks. *)
Definition return_functions (w : ClientWorld) : ClientWorld :=
  with_starting [] (with_tokens (foldr (fun id l => AddTask id (Z.to_nat id) l) (tokenList_ w) (starting w)) w).

(** A call; an asynchronous answer finds the functions returned. *)
Definition web {A} (backend : WebBackend) (answer : WebBackend -> list WebCall -> WebCall -> A) (c : WebCall)
    : ST ClientWorld A := fun w =>
  let w' := if web_asynchronous backend then return_functions w else w in
  Some (answer backend (web_calls w) c, with_calls (web_calls w ++ [c]) w').

(** [ApiClientLookup.cpp] of the writer *)
Definition WriteServerUrls : list (text * text) :=
  [(str "here", str "data.api.platform.here.com");
   (str "here-dev", str "data.api.platform.in.here.com");
   (str "here-cn", str "data.api.platform.hereolp.cn");
   (str "here-cn-dev", str "data.api.platform.in.hereolp.cn")].

Definition WriteServerUrl (partition : text) : text :=
  match list_find (fun entry => entry.1 = partition) WriteServerUrls with
  | Some (_, (_, server_url)) => str "https://api-lookup." ++ server_url ++ str "/lookup/v1"
  | None => []
  end.

Section client.
  Variables (catalog_ : HRN) (backend : WebBackend) (is_cancelled : nat -> bool) (uuid : nat -> text).

(** Nobody can cancel the context of a function that has not returned. *)
Definition ExecuteOrCancelled {A} (execute_fn cancel_fn : ST ClientWorld A) : ST ClientWorld A := fun w =>
  let w' := with_checks (S (web_checks w)) w in
  if is_cancelled (web_checks w) && bool_decide (starting w = []) then cancel_fn w' else execute_fn w'.

Definition GenerateUuid : ST ClientWorld text := fun w => Some (uuid (uuids w), with_uuids (S (uuids w)) w).

Definition LookupApi (client : ApiClientName) (service service_version : text)
    : ST ClientWorld (Response (list text)) :=
  let base_url := WriteServerUrl (partition catalog_) in
  match base_url with
  | [] => st_ret (Failure (client_error NotFound "Invalid or broken HRN" false))
  | _ =>
    SetBaseUrl client base_url ;;
    if bool_decide (service = str "config")
    then web backend web_apis (WebPlatformApis base_url service service_version)
    else web backend web_apis (WebResourcesApis base_url (ToCatalogHRNString catalog_) service service_version)
  end.

(** The chain of lookups, one callback after the other; the last one is the same for
    all clients but for its service. *)
Fixpoint lookup_chain (services : list (ApiClientName * text * text)) : ST ClientWorld (option ApiError) :=
  match services with
  | [] => st_ret None
  | (client, service, version) :: rest =>
    let* apis := LookupApi client service version in
    match rest with
    | [] =>
      modify (with_init false) ;;
      match apis with
      | Failure e => st_ret (Some e)
      | Success (url :: _) => SetBaseUrl client url ;; st_ret None
      | Success [] => undefined
      end
    | _ =>
      match apis with
      | Failure e => modify (with_init false) ;; st_ret (Some e)
      | Success (url :: _) =>
        SetBaseUrl client url ;; ExecuteOrCancelled (lookup_chain rest) (st_ret (Some operation_cancelled))
      | Success [] => undefined
      end
    end
  end.

(** What differs between the clients: the web clients they create, the lookups, and
    the client whose base URL says that they are done. *)
Record ClientKind := MkClientKind {
  created : list ApiClientName; services : list (ApiClientName * text * text); main_client : ApiClientName }.

Definition create_clients (names : list ApiClientName) : ST ClientWorld unit :=
  modify (fun w => with_apiclients (fun n => if decide (n ∈ names) then Some [] else apiclients w n) w).

(** While another initialisation is in progress the code unlocks and waits on a lock it
    may not hold. *)
Definition InitApiClients (k : ClientKind) : ST ClientWorld (option ApiError) := fun w =>
  if init_in_progress_ w then None
  else
    match apiclients w (main_client k) with
    | Some (_ :: _) => Some (None, w)
    | _ =>
      (modify (with_init true) ;; create_clients (created k) ;; lookup_chain (services k)) w
    end.

(** ** Tasks *)

Definition task_id : ST ClientWorld Z := fun w =>
  let '(id, next) := GetNextId (requestId w) in Some (id, with_requestId next w).
Definition add_task (id : Z) : ST ClientWorld unit :=
  modify (fun w => with_tokens (AddTask id (Z.to_nat id) (tokenList_ w)) w).
Definition remove_task (id : Z) : ST ClientWorld unit :=
  modify (fun w => with_tokens (RemoveTask id (tokenList_ w)) w).

Definition begin_task (id : Z) : ST ClientWorld unit := modify (fun w => with_starting (id :: starting w) w).
(** The token is added, unless the function has returned before. *)
Definition end_task (id : Z) : ST ClientWorld unit := fun w =>
  if bool_decide (id ∈ starting w)
  then (modify (with_starting (filter (fun i => i <> id) (starting w))) ;; add_task id) w
  else Some (tt, w).

(** A function with a task: its token is added when everything has been started. *)
Definition with_task {A} (body : Z -> ST ClientWorld A) : ST ClientWorld A :=
  let* id := task_id in
  begin_task id ;;
  let* r := body id in
  end_task id ;;
  st_ret r.

(** [cancel_function] and the error path of most functions. *)
Definition fail_task {A} (id : Z) (e : ApiError) : ST ClientWorld (Response A) :=
  remove_task id ;; st_ret (Failure e).

(** The clients are initialised, then the function goes on, unless it is cancelled. *)
Definition when_ready {A} (k : ClientKind) (on_error on_cancel : ApiError -> ST ClientWorld A)
    (go_on : ST ClientWorld A) : ST ClientWorld A :=
  ExecuteOrCancelled
    (let* err := InitApiClients k in
     match err with Some e => on_error e | None => go_on end)
    (on_cancel operation_cancelled).

(** The usual case: it goes on with one more check for cancellation. *)
Definition with_clients {A} (k : ClientKind) (on_error on_cancel : ApiError -> ST ClientWorld A)
    (function : ST ClientWorld A) : ST ClientWorld A :=
  when_ready k on_error on_cancel (ExecuteOrCancelled function (on_cancel operation_cancelled)).

(** The callback of the last call of a function. *)
Definition finish_task {A} (id : Z) (response : Response A) : ST ClientWorld (Response A) :=
  remove_task id ;; st_ret response.

(** [FindContentTypeForLayerId]: empty when there is no such layer. *)
Definition FindContentTypeForLayerId (layer_id : text) (c : CatalogModel) : text :=
  match list_find (fun layer => layer.1 = layer_id) (content_types c) with
  | Some (_, (_, content_type)) => content_type
  | None => []
  end.

Definition get_world : ST ClientWorld ClientWorld := fun w => Some (w, w).

End client.
