(* ===== verification/VersionedClient.v ===== *)
(** * The versioned layer client

    The operations of [VersionedLayerClientImpl.cpp]. *)

From Stdlib Require Import ZArith Lia Bool Ascii.
From stdpp Require Import base numbers strings gmap list.
From S2P Require Import Prelude Decimal Http Hrn ReadModel TaskLists LayerClients.
Local Open Scope Z_scope.
Local Open Scope st_scope.

Definition versioned_kind : ClientKind :=
  MkClientKind [ApiBlob; ApiConfig; ApiMetadata; ApiPublish; ApiQuery]
    [(ApiMetadata, str "metadata", str "v1"); (ApiConfig, str "config", str "v1");
     (ApiBlob, str "blob", str "v1"); (ApiPublish, str "publish", str "v2")]
    ApiPublish.

(** [message.find(s) != npos] *)
Fixpoint contains (s message : text) : bool :=
  bool_decide (s `prefix_of` message) || match message with [] => false | _ :: rest => contains s rest end.

Section versioned.
  Variables (catalog_ : HRN) (backend : WebBackend) (is_cancelled : nat -> bool) (uuid : nat -> text).

  Abbreviation EOC := (ExecuteOrCancelled is_cancelled).
  Abbreviation clients := (with_clients catalog_ backend is_cancelled).

(** A function with one web call behind the initialisation. *)
Definition simple_operation {A} (k : ClientKind) (call_and_finish : Z -> ST ClientWorld (Response A))
    : ST ClientWorld (Response A) :=
  with_task (fun id => clients k (fail_task id) (fail_task id) (call_and_finish id)).

Definition init_publication (request : StartBatchRequest) (id : Z) : ST ClientWorld (Response Publication) :=
  let* publish := deref ApiPublish in
  let* response := web backend web_publication
    (WebInitPublication publish
       (MkPublication None (Some (default [] (sb_layers request))) None (Some (default [] (sb_dependencies request))))
       (sb_billing_tag request)) in
  finish_task id
    (match response with
     | Failure e => Failure e
     | Success pub => match publication_id pub with Some _ => Success pub | None => Failure default_ApiError end
     end).

Definition StartBatch (request : StartBatchRequest) : ST ClientWorld (Response Publication) :=
  match sb_layers request with
  | None | Some [] => st_ret (Failure (client_error InvalidArgument "Invalid layer" true))
  | _ => simple_operation versioned_kind (init_publication request)
  end.

Definition base_version (id : Z) : ST ClientWorld (Response Z) :=
  let* metadata := deref ApiMetadata in
  let* response := web backend web_version (WebLatestVersion metadata) in
  finish_task id
    (match response with
     | Failure e =>
       if (http_status_code_ e =? 404) && contains (str "Catalog has no versions") (message_ e)
       then Success 0 else Failure e
     | Success v => Success v
     end).

Definition GetBaseVersion : ST ClientWorld (Response Z) := simple_operation versioned_kind base_version.

(** The guard of the functions on a publication. *)
Definition on_publication {A} (pub : Publication) (f : text -> ST ClientWorld (Response A))
    : ST ClientWorld (Response A) :=
  match default [] (publication_id pub) with
  | [] => st_ret (Failure (client_error InvalidArgument "Invalid publication" true))
  | publicationId => f publicationId
  end.

Definition GetBatch (pub : Publication) : ST ClientWorld (Response Publication) :=
  on_publication pub (fun publicationId =>
    simple_operation versioned_kind (fun id =>
      let* publish := deref ApiPublish in
      let* response := web backend web_publication (WebGetPublication publish publicationId) in
      finish_task id response)).

Definition CompleteBatch (pub : Publication) : ST ClientWorld (Response unit) :=
  on_publication pub (fun publicationId =>
    simple_operation versioned_kind (fun id =>
      let* publish := deref ApiPublish in
      let* response := web backend web_done (WebSubmitPublication publish publicationId None) in
      finish_task id response)).

Definition CancelBatch (pub : Publication) : ST ClientWorld (Response unit) :=
  on_publication pub (fun publicationId =>
    simple_operation versioned_kind (fun id =>
      let* publish := deref ApiPublish in
      let* response := web backend web_done (WebCancelPublication publish publicationId) in
      finish_task id response)).

(** [CancelAll], given what the cancelled operations do to the tasks. *)
Definition CancelAllTasks (on_cancel : nat -> TokenList -> TokenList) (fuel : nat) (w : ClientWorld)
    : option (list nat * ClientWorld) :=
  match CancelAll on_cancel fuel (tokenList_ w) with
  | Some (cancelled, tokens) => Some (cancelled, with_tokens tokens w)
  | None => None
  end.

(** ** Publishing *)

Definition some_error {A} (e : ApiError) : ST ClientWorld (Response A) := st_ret (Failure e).

Definition get_catalog : ST ClientWorld (Response unit) :=
  let* config := deref ApiConfig in
  let* response := web backend web_catalog (WebGetCatalog config (ToString catalog_) None) in
  match response with
  | Failure e => st_ret (Failure e)
  | Success c => modify (with_catalog c) ;; st_ret (Success tt)
  end.

(** [boost::none] is [Success tt]. *)
Definition InitCatalogModel : ST ClientWorld (Response unit) :=
  when_ready catalog_ backend is_cancelled versioned_kind some_error some_error
    (let* w := get_world in
     match catalog_id (catalog_model_ w) with
     | [] => EOC get_catalog (some_error operation_cancelled)
     | _ => st_ret (Success tt)
     end).

Definition unknown_layer (layer_id : text) (client : String.string) : ApiError :=
  ApiError_of_code InvalidArgument
    (str "Unable to find the Layer ID (" ++ layer_id ++
     str ") provided in the request in the Catalog specified when creating this " ++ str client ++ str " instance.")
    false.

Definition UploadBlob (partition_data : option text) (data_handle layer_id : text)
    : ST ClientWorld (Response unit) :=
  let* w := get_world in
  match FindContentTypeForLayerId layer_id (catalog_model_ w) with
  | [] => st_ret (Failure (unknown_layer layer_id "VersionedLayerClient"))
  | content_type =>
    clients versioned_kind some_error some_error
      (let* blob := deref ApiBlob in
       web backend web_done (WebPutBlob blob layer_id content_type data_handle partition_data None))
  end.

Definition UploadPartition (publication_id : text) (partition : PublishPartition) (layer_id : text)
    : ST ClientWorld (Response unit) :=
  clients versioned_kind some_error some_error
    (let* publish := deref ApiPublish in
     web backend web_done (WebUploadPartitions publish [partition] publication_id layer_id None)).

(** On success the answer has the partition id as its trace id. *)
Definition PublishToBatch (pub : Publication) (request : PublishPartitionDataRequest)
    : ST ClientWorld (Response text) :=
  on_publication pub (fun publication_id =>
    match pp_layer_id request with
    | [] => st_ret (Failure (client_error InvalidArgument "Invalid request" true))
    | layer_id =>
      let* data_handle := GenerateUuid uuid in
      let partition := MkPublishPartition (default [] (pp_partition_id request)) data_handle in
      with_task (fun id =>
        let* catalog_model := InitCatalogModel in
        match catalog_model with
        | Failure e => fail_task id e
        | Success _ =>
          let* uploadBlob := UploadBlob (pp_data request) data_handle layer_id in
          match uploadBlob with
          | Failure e => fail_task id e
          | Success _ =>
            let* uploadPartition := UploadPartition publication_id partition layer_id in
            finish_task id
              (match uploadPartition with
               | Failure e => Failure e
               | Success _ => Success (published_partition partition)
               end)
          end
        end)
    end).

(** The error and cancel paths leave the task in the list. *)
Definition CheckDataExists (request : CheckDataExistsRequest) : ST ClientWorld (Response Z) :=
  match cd_layer_id request with
  | [] => st_ret (Failure (client_error InvalidArgument "Invalid layer" true))
  | layer_id =>
    with_task (fun id =>
      clients versioned_kind some_error some_error
        (let* blob := deref ApiBlob in
         let* response := web backend web_status (WebCheckBlob blob layer_id (cd_data_handle request)) in
         finish_task id response))
  end.

End versioned.
