(* ===== verification/VolatileClient.v ===== *)
(** * The volatile layer client

    The operations of [VolatileLayerClientImpl.cpp]. *)

From Stdlib Require Import ZArith Lia Bool Ascii.
From stdpp Require Import base numbers strings gmap sorting list.
From S2P Require Import Prelude Decimal DiskCache Http Hrn ReadModel TaskLists LayerClients VersionedClient.
Local Open Scope Z_scope.
Local Open Scope st_scope.

Definition volatile_kind : ClientKind :=
  MkClientKind [ApiBlob; ApiConfig; ApiMetadata; ApiPublish; ApiQuery]
    [(ApiConfig, str "config", str "v1"); (ApiMetadata, str "metadata", str "v1");
     (ApiBlob, str "volatile-blob", str "v1"); (ApiQuery, str "query", str "v1");
     (ApiPublish, str "publish", str "v2")]
    ApiPublish.

(** The entries of a [std::map] in the order of the keys. *)
Definition entry_le (a b : text * text) : Prop := text_leb a.1 b.1 = true.
#[global] Instance entry_le_dec a b : Decision (entry_le a b).
Proof. unfold entry_le. apply _. Defined.
Definition entries (m : gmap text text) : list (text * text) := merge_sort entry_le (map_to_list m).

(** The data handles of the requested partitions among those of an answer. *)
Definition dataHandleMap (partitionIds : list text) (partitions : list (text * text)) : gmap text text :=
  foldl (fun m p => if bool_decide (p.1 ∈ partitionIds) then <[p.1 := p.2]> m else m) ∅ partitions.

Section volatile.
  Variables (catalog_ : HRN) (backend : WebBackend) (is_cancelled : nat -> bool) (uuid : nat -> text).

  Abbreviation EOC := (ExecuteOrCancelled is_cancelled).
  Abbreviation simple k := (simple_operation catalog_ backend is_cancelled k).

Definition VolatileGetBaseVersion : ST ClientWorld (Response Z) := simple volatile_kind (base_version backend).

(** No layers are required. *)
Definition VolatileStartBatch (request : StartBatchRequest) : ST ClientWorld (Response Publication) :=
  simple volatile_kind (init_publication backend request).

Definition VolatileGetBatch (pub : Publication) : ST ClientWorld (Response Publication) :=
  on_publication pub (fun publicationId =>
    simple volatile_kind (fun id =>
      let* publish := deref ApiPublish in
      let* response := web backend web_publication (WebGetPublication publish publicationId) in
      finish_task id response)).

Definition VolatileCompleteBatch (pub : Publication) : ST ClientWorld (Response unit) :=
  on_publication pub (fun publicationId =>
    simple volatile_kind (fun id =>
      let* publish := deref ApiPublish in
      let* response := web backend web_done (WebSubmitPublication publish publicationId None) in
      finish_task id response)).

(** No initialisation and no checks here. *)
Definition VolatileInitCatalogModel : ST ClientWorld (Response unit) :=
  let* w := get_world in
  match catalog_id (catalog_model_ w) with
  | [] => get_catalog catalog_ backend
  | _ => st_ret (Success tt)
  end.

Definition GetDataHandleMap (layerId : text) (partitionIds : list text) (version : option Z)
    (additionalFields : option (list text)) (billingTag : option text) : ST ClientWorld (Response (gmap text text)) :=
  if match partitionIds, layerId with [], _ | _, [] => true | _, _ => false end
  then st_ret (Failure (client_error InvalidArgument "Empty partition ids or layer id" true))
  else if (100 <? length partitionIds)%nat
  then st_ret (Failure (client_error InvalidArgument
         "Exceeds the maximum allowed number of partition per call" true))
  else
    simple volatile_kind (fun id =>
      let* query := deref ApiQuery in
      let* response := web backend web_partitions
        (WebPartitionsById query layerId partitionIds version additionalFields billingTag) in
      finish_task id
        (match response with
         | Failure e => Failure e
         | Success partitions => Success (dataHandleMap partitionIds partitions)
         end)).

Definition unknown_publish_layer (layer_id : text) (request client : String.string) : ApiError :=
  ApiError_of_code InvalidArgument
    (str "Unable to find the Layer ID (" ++ layer_id ++ str ") provided in the " ++ str request ++
     str " in the Catalog specified when creating this " ++ str client ++ str " instance.") false.

(** [putBlob_function] with its callback. *)
Definition put_blob (request : PublishPartitionDataRequest) (partition_id : text) (id : Z) (data_handle : text)
    : ST ClientWorld (Response text) :=
  let* w := get_world in
  match FindContentTypeForLayerId (pp_layer_id request) (catalog_model_ w) with
  | [] => fail_task id (unknown_publish_layer (pp_layer_id request) "PublishPartitionDataRequest" "VolatileLayerClient")
  | content_type =>
    let* blob := deref ApiBlob in
    let* response := web backend web_done
      (WebPutBlob blob (pp_layer_id request) content_type data_handle (pp_data request) (pp_billing_tag request)) in
    finish_task id (match response with Failure e => Failure e | Success _ => Success partition_id end)
  end.

(** The loop over the data handles calls the callback once for each of them. *)
Fixpoint put_blobs (request : PublishPartitionDataRequest) (partition_id : text) (id : Z) (l : list (text * text))
    : ST ClientWorld (list (Response text)) :=
  match l with
  | [] => st_ret []
  | (_, data_handle) :: rest =>
    let* r := EOC (put_blob request partition_id id data_handle) (fail_task id operation_cancelled) in
    let* rs := put_blobs request partition_id id rest in
    st_ret (r :: rs)
  end.

Definition no_metadata : ApiError :=
  client_error InvalidArgument
    "Unable to find requested partition,the partition metadata has to exist in OLP before invoking this API." false.

(** What the callback is called with, call by call. *)
Definition PublishPartitionData (request : PublishPartitionDataRequest) : ST ClientWorld (list (Response text)) :=
  match pp_data request, pp_partition_id request with
  | Some _, Some partition_id =>
    let failed (id : Z) (e : ApiError) : ST ClientWorld (list (Response text)) :=
      let* r := fail_task id e in st_ret [r] in
    with_task (fun id =>
      with_clients catalog_ backend is_cancelled volatile_kind (failed id) (failed id)
        (let* init := VolatileInitCatalogModel in
         match init with
         | Failure e => failed id e
         | Success _ =>
           EOC
             (let* handles := GetDataHandleMap (pp_layer_id request) [partition_id] None None None in
              match handles with
              | Failure e => failed id e
              | Success m =>
                match entries m with
                | [] => failed id no_metadata
                | l => put_blobs request partition_id id l
                end
              end)
             (failed id operation_cancelled)
         end))
  | _, _ => st_ret [Failure (client_error InvalidArgument "Request data or partition id is not defined." false)]
  end.

(** ** [PublishToBatch] *)

(** The checks of the loop, in order. *)
Fixpoint check_partitions (first_layer_id : text) (partitions : list PublishPartitionDataRequest) : option ApiError :=
  match partitions with
  | [] => None
  | p :: rest =>
    if bool_decide (pp_layer_id p = []) || bool_decide (pp_layer_id p <> first_layer_id)
    then Some (client_error InvalidArgument
      "A PublishPartitionDataRequest provided does not specify a layer, or it is different from other layers in the list."
      true)
    else if bool_decide (is_Some (pp_data p))
    then Some (client_error InvalidArgument
      "PublishPartitionDataRequest contains data. This request is for publishing metadata only, please see the documentation."
      true)
    else if bool_decide (default [] (pp_partition_id p) = [])
    then Some (client_error InvalidArgument
      "A PublishPartitionDataRequest in the list does not specify a PartitionId" true)
    else check_partitions first_layer_id rest
  end.

(** A uuid is generated for every partition, but a checksum is its data handle. *)
Fixpoint pub_partition_list (partitions : list PublishPartitionDataRequest) : ST ClientWorld (list PublishPartition) :=
  match partitions with
  | [] => st_ret []
  | p :: rest =>
    let* handle := GenerateUuid uuid in
    let* l := pub_partition_list rest in
    st_ret (MkPublishPartition (default [] (pp_partition_id p)) (default handle (pp_checksum p)) :: l)
  end.

Definition VolatilePublishToBatch (pub : Publication) (partitions : list PublishPartitionDataRequest)
    : ST ClientWorld (Response unit) :=
  match default [] (publication_id pub) with
  | [] => st_ret (Failure (client_error InvalidArgument "Invalid publication - missing ID" true))
  | publication_id =>
    match partitions with
    | [] => st_ret (Failure (client_error InvalidArgument "PublishPartitionDataRequest list provided is empty" true))
    | first :: _ =>
      match check_partitions (pp_layer_id first) partitions with
      | Some e => st_ret (Failure e)
      | None =>
        simple volatile_kind (fun id =>
          let* l := pub_partition_list partitions in
          let* publish := deref ApiPublish in
          let* response := web backend web_done
            (WebUploadPartitions publish l publication_id (pp_layer_id first) (pp_billing_tag first)) in
          finish_task id response)
      end
    end
  end.

End volatile.
