(* ===== verification/IndexClient.v ===== *)
(** * The index layer client

    The operations of [IndexLayerClientImpl.cpp]. *)

From Stdlib Require Import ZArith Lia Bool Ascii.
From stdpp Require Import base numbers strings gmap list.
From S2P Require Import Prelude Decimal Http Hrn ReadModel TaskLists LayerClients VersionedClient VolatileClient.
Local Open Scope Z_scope.
Local Open Scope st_scope.

Definition index_kind : ClientKind :=
  MkClientKind [ApiBlob; ApiConfig; ApiIndex]
    [(ApiConfig, str "config", str "v1"); (ApiBlob, str "blob", str "v1"); (ApiIndex, str "index", str "v1")]
    ApiIndex.

Section index.
  Variables (catalog_ : HRN) (backend : WebBackend) (is_cancelled : nat -> bool) (uuid : nat -> text).

  Abbreviation EOC := (ExecuteOrCancelled is_cancelled).
  Abbreviation clients := (with_clients catalog_ backend is_cancelled index_kind).

Definition SetId (id : text) (i : Index) : Index := MkIndex id (index_fields i).

(** [insert_indexes_function] with its callback; the trace id is the data handle. *)
Definition insert_indexes (request : PublishIndexRequest) (data_handle : text) (op_id : Z)
    : ST ClientWorld (Response text) :=
  let* index := deref ApiIndex in
  let* response := web backend web_done
    (WebInsertIndexes index (SetId data_handle (pi_index request)) (pi_layer_id request) (pi_billing_tag request)) in
  finish_task op_id (match response with Failure e => Failure e | Success _ => Success data_handle end).

(** [put_blob_function] with its callback *)
Definition put_index_blob (request : PublishIndexRequest) (data_handle content_type : text) (op_id : Z)
    : ST ClientWorld (Response text) :=
  let* blob := deref ApiBlob in
  let* response := web backend web_done
    (WebPutBlob blob (pi_layer_id request) content_type data_handle (pi_data request) (pi_billing_tag request)) in
  match response with
  | Failure e => fail_task op_id e
  | Success _ => EOC (insert_indexes request data_handle op_id) (fail_task op_id operation_cancelled)
  end.

(** A layer that is not in the catalog leaves the task in the list. *)
Definition PublishIndex (request : PublishIndexRequest) : ST ClientWorld (Response text) :=
  match pi_data request, pi_layer_id request with
  | None, _ => st_ret (Failure (client_error InvalidArgument "Request data empty." false))
  | _, [] => st_ret (Failure (client_error InvalidArgument "Request layer Id empty." false))
  | _, layer_id =>
    with_task (fun op_id =>
      let* data_handle := GenerateUuid uuid in
      clients (fail_task op_id) (fail_task op_id)
        (let* init := VolatileInitCatalogModel catalog_ backend in
         match init with
         | Failure e => fail_task op_id e
         | Success _ =>
           let* w := get_world in
           match FindContentTypeForLayerId layer_id (catalog_model_ w) with
           | [] => st_ret (Failure (unknown_publish_layer layer_id "PublishIndexRequest" "IndexLayerClient"))
           | content_type =>
             EOC (put_index_blob request data_handle content_type op_id) (fail_task op_id operation_cancelled)
           end
         end))
  end.

Definition DeleteIndexData (request : DeleteIndexDataRequest) : ST ClientWorld (Response unit) :=
  match di_layer_id request, di_index_id request with
  | [], _ | _, [] =>
    st_ret (Failure (client_error InvalidArgument "Request layer ID or Index Id is not defined." false))
  | layer_id, index_id =>
    simple_operation catalog_ backend is_cancelled index_kind (fun op_id =>
      let* blob := deref ApiBlob in
      let* response := web backend web_done (WebDeleteBlob blob layer_id index_id) in
      finish_task op_id response)
  end.

Definition UpdateIndex (request : UpdateIndexRequest) : ST ClientWorld (Response unit) :=
  simple_operation catalog_ backend is_cancelled index_kind (fun op_id =>
    let* index := deref ApiIndex in
    let* response := web backend web_done (WebPerformUpdate index request) in
    finish_task op_id response).

End index.
