(* ===== verification/StreamPublish.v ===== *)
(** * Publishing to a stream layer

    The functions of [StreamLayerClientImpl.cpp] that talk to the network:
    [PublishData], in one call or, beyond 20 MiB, as a publication of its own, and
    [PublishSdii].  The initialisation is guarded by a flag ([AquireInitLock]); the
    token a function returns cancels its context and then clears the flag
    ([NotifyInitAborted]).  A function that would wait for the flag has the result
    [None].  A context may be cancelled at every check, the first one included. *)

From Stdlib Require Import ZArith Lia Bool Ascii.
From stdpp Require Import base numbers strings gmap list.
From S2P Require Import Prelude Decimal Http Hrn ReadModel ThreadSafeQueue StreamQueue TaskLists LayerClients.
From S2P Require Import VersionedClient VolatileClient.
Local Open Scope Z_scope.
Local Open Scope st_scope.

Definition kTwentyMib : Z := 20971520.

Record PublishSdiiRequest := MkPublishSdiiRequest {
  sdii_message_list_ : option text; sdii_layer_id_ : text; sdii_trace_id_ : option text;
  sdii_billing_tag_ : option text; sdii_checksum_ : option text }.

Section stream.
  Variables (catalog_ : HRN) (backend : WebBackend) (is_cancelled : nat -> bool) (uuid : nat -> text).

(** [NotifyInitAborted] and [NotifyInitCompleted] *)
Definition release_init : ST ClientWorld unit := modify (with_init false).
Definition AquireInitLock : ST ClientWorld unit := fun w =>
  if init_in_progress_ w then None else Some (tt, with_init true w).

(** A context cancelled by the token of a function. *)
Definition or_cancelled {A} (f : ST ClientWorld (Response A)) : ST ClientWorld (Response A) :=
  ExecuteOrCancelled is_cancelled f (release_init ;; st_ret (Failure operation_cancelled)).

(** Is the client null or without a base URL? *)
Definition unset (n : ApiClientName) (w : ClientWorld) : bool :=
  match apiclients w n with Some (_ :: _) => false | _ => true end.
Definition no_catalog (w : ClientWorld) : bool := bool_decide (catalog_id (catalog_model_ w) = []).

(** One lookup; what follows it is its callback. *)
Definition lookup_one (n : ApiClientName) (service version : text) (callback : ST ClientWorld (Response unit))
    : ST ClientWorld (Response unit) :=
  create_clients [n] ;;
  let* apis := LookupApi catalog_ backend n service version in
  match apis with
  | Failure e => st_ret (Failure e)
  | Success (url :: _) => SetBaseUrl n url ;; callback
  | Success [] => undefined
  end.

Definition StreamInitApiClients : ST ClientWorld (Response unit) :=
  let* w := get_world in
  if unset ApiConfig w then
    lookup_one ApiIngest (str "ingest") (str "v1")
      (or_cancelled (lookup_one ApiConfig (str "config") (str "v1") (st_ret (Success tt))))
  else st_ret (Success tt).

Definition InitApiClientsGreaterThanTwentyMib : ST ClientWorld (Response unit) :=
  let* w := get_world in
  if unset ApiBlob w then
    lookup_one ApiPublish (str "publish") (str "v2")
      (or_cancelled (lookup_one ApiBlob (str "blob") (str "v1") (st_ret (Success tt))))
  else st_ret (Success tt).

Definition StreamInitCatalogModel (billing_tag : option text) : ST ClientWorld (Response unit) :=
  let* w := get_world in
  if no_catalog w then
    let* config := deref ApiConfig in
    let* response := web backend web_catalog (WebGetCatalog config (ToString catalog_) billing_tag) in
    match response with
    | Failure e => st_ret (Failure e)
    | Success c => modify (with_catalog c) ;; st_ret (Success tt)
    end
  else st_ret (Success tt).

(** A step of the initialisation: an error gives the flag back. *)
Definition init_step {A} (step : ST ClientWorld (Response unit)) (next : ST ClientWorld (Response A))
    : ST ClientWorld (Response A) :=
  let* r := step in
  match r with
  | Failure e => release_init ;; st_ret (Failure e)
  | Success _ => next
  end.

(** [AquireInitLock] unless the initialisation is complete. *)
Definition lock_unless (complete : ClientWorld -> bool) : ST ClientWorld unit :=
  let* w := get_world in if complete w then st_ret tt else AquireInitLock.

Definition stream_layer_unknown : ApiError :=
  client_error InvalidArgument
    "Unable to find the Layer ID provided in the PublishDataRequest in the Catalog specified when creating this StreamLayerClient instance."
    false.

Definition PublishDataLessThanTwentyMib (request : PublishDataRequest) : ST ClientWorld (Response text) :=
  lock_unless (fun w => negb (no_catalog w)) ;;
  or_cancelled
    (init_step StreamInitApiClients
      (or_cancelled
        (init_step (StreamInitCatalogModel (billing_tag_ request))
          (release_init ;;
           let* w := get_world in
           match FindContentTypeForLayerId (layer_id_ request) (catalog_model_ w) with
           | [] => st_ret (Failure stream_layer_unknown)
           | content_type =>
             or_cancelled
               (let* ingest := deref ApiIngest in
                web backend web_ingest
                  (WebIngestData ingest (layer_id_ request) content_type (data_ request) (trace_id_ request)
                     (billing_tag_ request) (checksum_ request)))
           end)))).

Definition InitPublishDataGreaterThanTwentyMib (request : PublishDataRequest) : ST ClientWorld (Response unit) :=
  lock_unless (fun w => negb (no_catalog w || unset ApiBlob w)) ;;
  or_cancelled
    (init_step StreamInitApiClients
      (or_cancelled
        (init_step InitApiClientsGreaterThanTwentyMib
          (or_cancelled
            (init_step (StreamInitCatalogModel (billing_tag_ request))
              (release_init ;; st_ret (Success tt))))))).

(** The steps of a publication, in the order they are called. *)
Definition submit_publication (request : PublishDataRequest) (publication_id partition_id : text)
    : ST ClientWorld (Response text) :=
  let* publish := deref ApiPublish in
  let* response := web backend web_done (WebSubmitPublication publish publication_id (billing_tag_ request)) in
  st_ret (match response with Failure e => Failure e | Success _ => Success partition_id end).

Definition upload_partitions (request : PublishDataRequest) (publication_id : text) (partition : PublishPartition)
    : ST ClientWorld (Response text) :=
  let* publish := deref ApiPublish in
  let* response := web backend web_done
    (WebUploadPartitions publish [partition] publication_id (layer_id_ request) (billing_tag_ request)) in
  match response with
  | Failure e => st_ret (Failure e)
  | Success _ => or_cancelled (submit_publication request publication_id (published_partition partition))
  end.

Definition put_stream_blob (request : PublishDataRequest) (publication_id content_type data_handle : text)
    : ST ClientWorld (Response text) :=
  let* blob := deref ApiBlob in
  let* response := web backend web_done
    (WebPutBlob blob (layer_id_ request) content_type data_handle (data_ request) (billing_tag_ request)) in
  match response with
  | Failure e => st_ret (Failure e)
  | Success _ =>
    let* partition_id := GenerateUuid uuid in
    or_cancelled (upload_partitions request publication_id (MkPublishPartition partition_id data_handle))
  end.

(** A publication without an id is answered with the error of a successful response. *)
Definition init_stream_publication (request : PublishDataRequest) : ST ClientWorld (Response text) :=
  let* publish := deref ApiPublish in
  let* response := web backend web_publication
    (WebInitPublication publish (MkPublication None (Some [layer_id_ request]) None None) (billing_tag_ request)) in
  match response with
  | Failure e => st_ret (Failure e)
  | Success pub =>
    match publication_id pub with
    | None => st_ret (Failure default_ApiError)
    | Some publication_id =>
      let* w := get_world in
      match FindContentTypeForLayerId (layer_id_ request) (catalog_model_ w) with
      | [] => st_ret (Failure (unknown_publish_layer (layer_id_ request) "PublishDataRequest" "StreamLayerClient"))
      | content_type =>
        let* data_handle := GenerateUuid uuid in
        or_cancelled (put_stream_blob request publication_id content_type data_handle)
      end
    end
  end.

Definition PublishDataGreaterThanTwentyMib (request : PublishDataRequest) : ST ClientWorld (Response text) :=
  let* init := InitPublishDataGreaterThanTwentyMib request in
  match init with
  | Failure e => st_ret (Failure e)
  | Success _ => or_cancelled (init_stream_publication request)
  end.

Definition PublishData (request : PublishDataRequest) : ST ClientWorld (Response text) :=
  match data_ request with
  | None => st_ret (Failure (client_error InvalidArgument "Request data null." false))
  | Some data =>
    if Z.of_nat (length data) <=? kTwentyMib
    then PublishDataLessThanTwentyMib request
    else PublishDataGreaterThanTwentyMib request
  end.

Definition PublishSdii (request : PublishSdiiRequest) : ST ClientWorld (Response text) :=
  match sdii_message_list_ request, sdii_layer_id_ request with
  | None, _ => st_ret (Failure (client_error InvalidArgument "Request sdii message list null." false))
  | _, [] => st_ret (Failure (client_error InvalidArgument "Request layer id empty." false))
  | _, layer_id =>
    lock_unless (fun w => negb (unset ApiConfig w)) ;;
    or_cancelled
      (init_step StreamInitApiClients
        (release_init ;;
         or_cancelled
           (let* ingest := deref ApiIngest in
            web backend web_ingest
              (WebIngestSdii ingest layer_id (sdii_message_list_ request) (sdii_trace_id_ request)
                 (sdii_billing_tag_ request) (sdii_checksum_ request)))))
  end.

End stream.
