(* ===== verification/LayerClientsFacts.v ===== *)
(** * The layer clients of the writer release their tasks

    What the functions of the layer clients do to the task list, over all answers of
    an asynchronous network and all moments of cancellation. *)

From Stdlib Require Import ZArith Lia Bool Ascii.
From stdpp Require Import base numbers strings gmap list.
From S2P Require Import Prelude Decimal Http Hrn ReadModel ReadFacts TaskLists LayerClients.
From S2P Require Import VersionedClient VolatileClient IndexClient StreamQueue StreamPublish.
Local Open Scope Z_scope.
Local Open Scope olp_scope.
Local Open Scope st_scope.

Abbreviation triple := (ReadFacts.triple True).

Create HintDb keeps discriminated.

Section facts.
  Variables (catalog_ : HRN) (backend : WebBackend) (is_cancelled : nat -> bool) (uuid : nat -> text).
  Hypothesis asynchronous : web_asynchronous backend = true.

  Abbreviation EOC := (ExecuteOrCancelled is_cancelled).

(** ** Functions that keep the tasks *)

Definition with_own (l : TokenList) (id : Z) : TokenList := AddTask id (Z.to_nat id) l.
(** [l] with the tokens of [s]. *)
Abbreviation all_tokens l s := (foldr (fun id l => with_own l id) l s).

(** The tasks are [l], the functions of [s] run, [n] calls have been made, and [r] is
    the next id. *)
Definition before (l : TokenList) (s : list Z) (n : nat) (r : Z) (w : ClientWorld) : Prop :=
  tokenList_ w = l /\ starting w = s /\ length (web_calls w) = n /\ requestId w = r.
(** They have returned, with more calls. *)
Definition after (l : TokenList) (n : nat) (r : Z) (w : ClientWorld) : Prop :=
  tokenList_ w = l /\ starting w = [] /\ (n < length (web_calls w))%nat /\ requestId w = r.

(** One or the other; [phi] says whether the former is possible. *)
Definition own (phi : Prop) l s n r w : Prop := phi /\ before l s n r w \/ after (all_tokens l s) n r w.
Definition keeps {A} (m : ST ClientWorld A) : Prop :=
  forall phi l s n r, triple (own phi l s n r) m (fun _ => own phi l s n r).

Lemma keeps_ret {A} (a : A) : keeps (st_ret a).
Proof. intros phi l s n r. by apply triple_ret. Qed.

Lemma keeps_bind {A B} (m : ST ClientWorld A) (f : A -> ST ClientWorld B) :
  keeps m -> (forall a, keeps (f a)) -> keeps (st_bind m f).
Proof. intros Hm Hf phi l s n r. eapply triple_bind; [apply Hm|]. intros a. apply Hf. Qed.

(** A rule for all predicates that do not look at the checks. *)
Lemma EOC_rule {A} (P : ClientWorld -> Prop) (m1 m2 : ST ClientWorld A) Q :
  (forall w n, P w -> P (with_checks n w)) -> triple P m1 Q -> triple (fun w => P w /\ starting w = []) m2 Q ->
  triple P (EOC m1 m2) Q.
Proof.
  intros HP H1 H2 w Hw. unfold ExecuteOrCancelled. destruct (is_cancelled (web_checks w) && _) eqn:E.
  - apply andb_prop in E as [_ E]. apply bool_decide_eq_true in E. apply H2. split; [by apply HP|exact E].
  - by apply H1, HP.
Qed.

Lemma EOC_both {A} (P : ClientWorld -> Prop) (m1 m2 : ST ClientWorld A) Q :
  (forall w n, P w -> P (with_checks n w)) -> triple P m1 Q -> triple P m2 Q -> triple P (EOC m1 m2) Q.
Proof. intros HP H1 H2. apply EOC_rule; [exact HP|exact H1|]. eapply triple_pre; [|exact H2]. by intros w [? _]. Qed.

Lemma keeps_EOC {A} (m1 m2 : ST ClientWorld A) : keeps m1 -> keeps m2 -> keeps (EOC m1 m2).
Proof. intros H1 H2 phi l s n r. by apply EOC_both. Qed.

(** A call makes the functions return. *)
Lemma web_rule {A} (answer : WebBackend -> list WebCall -> WebCall -> A) c phi l s n r :
  triple (own phi l s n r) (web backend answer c) (fun _ => after (all_tokens l s) n r).
Proof.
  intros w Hw. unfold web. rewrite asynchronous. cbn.
  destruct Hw as [(_ & <- & <- & <- & <-)|(<- & Hs & Hn & <-)]; split_and!; cbn; rewrite ?length_app; cbn; try done; [lia| |lia].
  by rewrite Hs.
Qed.

Lemma keeps_web {A} (answer : WebBackend -> list WebCall -> WebCall -> A) c : keeps (web backend answer c).
Proof. intros phi l s n r. eapply triple_weaken; [apply web_rule|done|]. intros a w Hw. by right. Qed.

Lemma keeps_deref k : keeps (deref k).
Proof. intros phi l s n r w Hw. unfold deref. by destruct (apiclients w k). Qed.

Lemma keeps_undefined {A} : keeps (@undefined A).
Proof. by intros phi l s n r w Hw. Qed.

Lemma keeps_modify f :
  (forall w, (tokenList_ (f w), starting (f w), web_calls (f w), requestId (f w)) = (tokenList_ w, starting w, web_calls w, requestId w)) ->
  keeps (modify f).
Proof. intros Hf phi l s n r w Hw. specialize (Hf w). injection Hf as E1 E2 E3 E4. unfold own, before, after in *. cbn. by rewrite E1, E2, E3, E4. Qed.

Lemma keeps_world : keeps get_world.
Proof. by intros phi l s n r w Hw. Qed.

Lemma keeps_uuid : keeps (GenerateUuid uuid).
Proof. by intros phi l s n r w Hw. Qed.

Hint Resolve keeps_ret keeps_web keeps_deref keeps_undefined keeps_world keeps_uuid : keeps.

Ltac keeps := repeat first
  [ progress eauto 1 with keeps nocore | apply keeps_bind; [|intros ?] | apply keeps_EOC
  | apply keeps_modify; done | case_match ].

Lemma keeps_lookup n service version : keeps (LookupApi catalog_ backend n service version).
Proof. unfold LookupApi, SetBaseUrl. keeps. Qed.

Lemma keeps_chain services : keeps (lookup_chain catalog_ backend is_cancelled services).
Proof.
  induction services as [|[[n service] version] rest IH]; cbn [lookup_chain]; [apply keeps_ret|].
  apply keeps_bind; [apply keeps_lookup|]. intros apis. unfold SetBaseUrl. destruct rest; keeps.
Qed.

Lemma keeps_init k : keeps (InitApiClients catalog_ backend is_cancelled k).
Proof.
  intros phi l s n r w Hw. unfold InitApiClients. destruct (init_in_progress_ w); [done|].
  assert (keeps (modify (with_init true) ;; create_clients (created k) ;;
                 lookup_chain catalog_ backend is_cancelled (services k))) as Hk.
  { unfold create_clients. repeat (apply keeps_bind; [by apply keeps_modify|intros _]). apply keeps_chain. }
  pose proof (Hk phi l s n r w Hw). destruct (apiclients w (main_client k)) as [[|]|]; done.
Qed.

(** ** Functions that release their task *)

Definition free (l : TokenList) (id : Z) : Prop := ordered l /\ id ∉ l.*1.
(** The task [id] starts, or has been released from the tasks [l]. *)
Definition gone (phi : Prop) l l' s id n r w : Prop := phi /\ before l (id :: s) n r w \/ after l' n r w.
Definition held (phi : Prop) l l' s id n r w : Prop := own phi l (id :: s) n r w \/ after l' n r w.
Definition releases {A} (id : Z) (m : ST ClientWorld A) : Prop :=
  forall phi l s n r, free l id -> free (all_tokens l s) id ->
  triple (held phi l (all_tokens l s) s id n r) m (fun _ => gone phi l (all_tokens l s) s id n r).

(** What keeps any tasks keeps them after a release as well. *)
Lemma keeps_after {A} (m : ST ClientWorld A) l n r : keeps m -> triple (after l n r) m (fun _ => after l n r).
Proof.
  intros Hm. eapply triple_weaken; [apply (Hm False l [] n r)| |].
  - intros w Hw. by right.
  - by intros a w [[[] _]|Hw].
Qed.

Lemma keeps_before {A} (m : ST ClientWorld A) phi l l' s id n r :
  keeps m -> triple (held phi l l' s id n r) m (fun _ => held phi l l' s id n r).
Proof.
  intros Hm w [Hw|Hw].
  - specialize (Hm phi l (id :: s) n r w Hw). destruct (m w) as [[a w']|]; [by left|done].
  - pose proof (keeps_after m l' n r Hm w Hw). destruct (m w) as [[a w']|]; [by right|done].
Qed.

Lemma releases_bind {A B} id (m : ST ClientWorld A) (f : A -> ST ClientWorld B) :
  keeps m -> (forall a, releases id (f a)) -> releases id (st_bind m f).
Proof. intros Hm Hf phi l s n r Hl Hl'. eapply triple_bind; [by apply keeps_before|]. intros a. by apply Hf. Qed.

Lemma releases_map {A B} id (m : ST ClientWorld A) (f : A -> B) :
  releases id m -> releases id (let* a := m in st_ret (f a)).
Proof. intros Hm phi l s n r Hl Hl'. eapply triple_bind; [by apply Hm|]. intros a. by apply triple_ret. Qed.

(** Two functions with the same task. *)
Lemma releases_again {A B} id (m : ST ClientWorld A) (f : A -> ST ClientWorld B) :
  releases id m -> (forall a, releases id (f a)) -> releases id (st_bind m f).
Proof.
  intros Hm Hf phi l s n r Hl Hl'. eapply triple_bind; [by apply Hm|]. intros a.
  eapply triple_pre; [|by apply Hf]. intros w [Hw|Hw]; [by left; left|by right].
Qed.

Lemma releases_EOC {A} id (m1 m2 : ST ClientWorld A) : releases id m1 -> releases id m2 -> releases id (EOC m1 m2).
Proof. intros H1 H2 phi l s n r Hl Hl'. apply EOC_both; [done|by apply H1|by apply H2]. Qed.

Lemma releases_remove id : releases id (remove_task id).
Proof.
  intros phi l s n r [Ho Hid] [Ho' Hid'] w Hw. unfold remove_task, modify.
  destruct Hw as [[(? & Hl & Hs & Hn & Hr)|(Hl & Hs & Hn & Hr)]|(Hl & Hs & Hn & Hr)]; [left; split; [done|]|right|right];
    split_and!; try done; cbn; rewrite Hl; [by apply RemoveTask_free|by apply RemoveTask_AddTask|by apply RemoveTask_free].
Qed.

Lemma releases_fail {A} id e : releases id (@fail_task A id e).
Proof. apply (releases_map id _ (fun _ => Failure e)), releases_remove. Qed.

Lemma releases_finish {A} id (x : Response A) : releases id (finish_task id x).
Proof. apply (releases_map id _ (fun _ => x)), releases_remove. Qed.

Lemma releases_when_ready {A} id k (on_error on_cancel : ApiError -> ST ClientWorld A) go_on :
  (forall e, releases id (on_error e)) -> (forall e, releases id (on_cancel e)) -> releases id go_on ->
  releases id (when_ready catalog_ backend is_cancelled k on_error on_cancel go_on).
Proof.
  intros He Hc Hg. unfold when_ready. apply releases_EOC; [|apply Hc].
  apply releases_bind; [apply keeps_init|]. by intros [e|].
Qed.

Lemma releases_clients {A} id k (on_error on_cancel : ApiError -> ST ClientWorld A) function :
  (forall e, releases id (on_error e)) -> (forall e, releases id (on_cancel e)) -> releases id function ->
  releases id (with_clients catalog_ backend is_cancelled k on_error on_cancel function).
Proof. intros He Hc Hg. unfold with_clients. apply releases_when_ready; [done|done|]. by apply releases_EOC. Qed.

Lemma keeps_when_ready {A} k (on_error on_cancel : ApiError -> ST ClientWorld A) go_on :
  (forall e, keeps (on_error e)) -> (forall e, keeps (on_cancel e)) -> keeps go_on ->
  keeps (when_ready catalog_ backend is_cancelled k on_error on_cancel go_on).
Proof.
  intros He Hc Hg. unfold when_ready. apply keeps_EOC; [|apply Hc]. apply keeps_bind; [apply keeps_init|]. by intros [e|].
Qed.

Lemma keeps_clients {A} k (on_error on_cancel : ApiError -> ST ClientWorld A) function :
  (forall e, keeps (on_error e)) -> (forall e, keeps (on_cancel e)) -> keeps function ->
  keeps (with_clients catalog_ backend is_cancelled k on_error on_cancel function).
Proof. intros He Hc Hg. unfold with_clients. apply keeps_when_ready; [done|done|]. by apply keeps_EOC. Qed.

(** ** Whole functions *)

(** The tasks lie below the next id, and the next [m] ids do not wrap. *)
Definition ready (m : Z) (l : TokenList) (s : list Z) (r : Z) : Prop :=
  ordered l /\ Forall (fun t => t.1 < r) l /\ ordered (all_tokens l s) /\ Forall (fun t => t.1 < r) (all_tokens l s) /\
  Forall (fun i => i < r) s /\ 0 <= r < 2 ^ 31 - m /\ 1 <= m.

(** How a function ends: it took no task and made no call, or it made calls and
    released its task, or it made none and left its task. *)
Definition outcome (l : TokenList) (s : list Z) (n : nat) (r : Z) (w : ClientWorld) : Prop :=
  before l s n r w \/ (exists r', after (all_tokens l s) n r' w) \/ before (with_own l r) s n (r + 1) w.
Definition restores {A} (m : Z) (f : ST ClientWorld A) : Prop :=
  forall l s n r, ready m l s r -> triple (before l s n r) f (fun _ => outcome l s n r).

Lemma below_free l r : ordered l -> Forall (fun t => t.1 < r) l -> free l r.
Proof.
  intros Ho Hlt. split; [done|]. intros (t & -> & Ht)%list_elem_of_fmap.
  rewrite Forall_forall in Hlt. specialize (Hlt t Ht). cbn in Hlt. lia.
Qed.

Lemma ready_free m l s r : ready m l s r -> free l r /\ free (all_tokens l s) r.
Proof. intros (? & ? & ? & ? & _). split; by apply below_free. Qed.

(** The task of a running function is one more. *)
Lemma ready_start m l s r : ready (m + 1) l s r -> 1 <= m -> ready m l (r :: s) (r + 1).
Proof.
  intros Hr Hm. destruct (ready_free _ _ _ _ Hr) as [_ [Ho Hid]]. destruct Hr as (? & Hl & ? & Ha & Hs & ? & ?).
  destruct (AddTask_spec r (Z.to_nat r) _ Ho Hid) as [Ho' Hperm]. cbn.
  assert (forall k : TokenList, Forall (fun t => t.1 < r) k -> Forall (fun t => t.1 < r + 1) k) as Hmono
    by (intros k Hk; eapply Forall_impl; [exact Hk|]; cbn; lia).
  split_and!; [done|by apply Hmono|done| | |lia|lia|done].
  - unfold with_own. rewrite Hperm. constructor; [cbn; lia|]. by apply Hmono.
  - constructor; [lia|]. eapply Forall_impl; [exact Hs|]. cbn. lia.
Qed.

Lemma ready_added m l s r : ready m l s r -> ready m (all_tokens l s) [] r.
Proof. intros (? & ? & ? & ? & ? & ? & ?). split_and!; done || lia || constructor. Qed.

Lemma ret_restores {A} m (a : A) : restores m (st_ret a).
Proof. intros l s n r Hr. apply triple_ret. by left. Qed.

Lemma uuid_restores {A} m (f : text -> ST ClientWorld A) :
  (forall h, restores m (f h)) -> restores m (st_bind (GenerateUuid uuid) f).
Proof. intros Hf l s n r Hr. eapply (triple_bind _ _ _ (fun _ => before l s n r)); [by intros w Hw|]. intros h. by apply Hf. Qed.

Lemma restores_if {A} m (b : bool) (f g : ST ClientWorld A) : restores m f -> restores m g -> restores m (if b then f else g).
Proof. by destruct b. Qed.

(** The body of a function with a task. *)
Definition body_end l s n id w : Prop := before l (id :: s) n (id + 1) w \/ exists r', after (all_tokens l s) n r' w.
Definition runs {A} (m id : Z) (f : ST ClientWorld A) : Prop :=
  forall l s n, ready m l s id -> triple (own True l (id :: s) n (id + 1)) f (fun _ => body_end l s n id).

Lemma with_task_rule {A} m l s n r (body : Z -> ST ClientWorld A) (E Q : ClientWorld -> Prop) :
  ready m l s r -> triple (before l (r :: s) n (r + 1)) (body r) (fun _ => E) -> triple E (end_task r) (fun _ => Q) ->
  triple (before l s n r) (with_task body) (fun _ => Q).
Proof.
  intros Hr Hb He. unfold with_task.
  eapply (triple_bind _ _ _ (fun id w => before l s n (r + 1) w /\ id = r)).
  { intros w (Hl & Hs & Hn & <-). cbn. split; [|done]. split_and!; try done. cbn. apply swrap_small; [lia|].
    destruct Hr as (_ & _ & _ & _ & _ & ? & ?). lia. }
  intros id. apply triple_pre with (P := fun w => id = r /\ before l s n (r + 1) w); [by intros w [? ->]|].
  intros w [-> Hw]. revert w Hw. eapply (triple_bind _ _ _ (fun _ => before l (r :: s) n (r + 1))).
  { intros w (Hl & Hs & Hn & Hq). cbn. split_and!; try done. cbn. by rewrite Hs. }
  intros []. eapply triple_bind; [exact Hb|]. intros a. eapply triple_bind; [exact He|]. intros []. by apply triple_ret.
Qed.

(** A function that has returned before adds nothing. *)
Lemma end_after l n r id : triple (after l n r) (end_task id) (fun _ => after l n r).
Proof.
  intros w (Hl & Hs & Hn & Hq). unfold end_task. rewrite bool_decide_false; [done|]. rewrite Hs. apply not_elem_of_nil.
Qed.

Lemma end_before l s n id :
  Forall (fun i => i < id) s -> triple (before l (id :: s) n (id + 1)) (end_task id) (fun _ => before (with_own l id) s n (id + 1)).
Proof.
  intros Hlt w (Hl & Hs & Hn & Hq). unfold end_task. rewrite bool_decide_true by (rewrite Hs; by left). cbn.
  split_and!; cbn; try done; [by rewrite Hl|]. rewrite Hs, filter_cons_False by auto.
  clear Hs. induction Hlt as [|i s Hi Hlt IH]; [done|]. rewrite filter_cons_True by lia. by rewrite IH.
Qed.

Lemma restores_with_task {A} m (body : Z -> ST ClientWorld A) :
  (forall id, runs m id (body id)) -> restores m (with_task body).
Proof.
  intros Hb l s n r Hr. eapply with_task_rule; [done|eapply triple_pre; [|by apply (Hb r l s n Hr)]; intros w Hw; by left; split|]. intros w [Hw|[r' Hw]].
  - destruct Hr as (_ & _ & _ & _ & Hlt & _). pose proof (end_before l s n r Hlt w Hw).
    destruct (end_task r w) as [[a w']|]; [by right; right|done].
  - pose proof (end_after _ _ _ r w Hw). destruct (end_task r w) as [[a w']|]; [right; left; by exists r'|done].
Qed.

Lemma releases_runs {A} m id (f : ST ClientWorld A) : releases id f -> runs m id f.
Proof.
  intros Hf l s n Hr. destruct (ready_free _ _ _ _ Hr) as [Hl Hl']. eapply triple_weaken; [by apply (Hf True l s n (id + 1))| |].
  - intros w Hw. by left.
  - intros a w [[_ Hw]|Hw]; [by left|right]. by exists (id + 1).
Qed.

Lemma runs_bind {A B} m id (f : ST ClientWorld A) (g : A -> ST ClientWorld B) :
  keeps f -> (forall a, runs m id (g a)) -> runs m id (st_bind f g).
Proof. intros Hf Hg l s n Hr. eapply triple_bind; [apply Hf|]. intros a. by apply Hg. Qed.

Lemma runs_EOC {A} m id (f g : ST ClientWorld A) : runs m id f -> runs m id g -> runs m id (EOC f g).
Proof. intros Hf Hg l s n Hr. apply EOC_both; [done|by apply Hf|by apply Hg]. Qed.

Lemma runs_clients {A} m id k (on_error on_cancel : ApiError -> ST ClientWorld A) function :
  (forall e, runs m id (on_error e)) -> (forall e, runs m id (on_cancel e)) -> runs m id function ->
  runs m id (with_clients catalog_ backend is_cancelled k on_error on_cancel function).
Proof.
  intros He Hc Hg. unfold with_clients, when_ready. apply runs_EOC; [|apply Hc].
  apply runs_bind; [apply keeps_init|]. intros [e|]; [apply He|]. apply runs_EOC; [exact Hg|apply Hc].
Qed.

(** ** Functions that make a call for sure *)

(** For a catalog in a known partition, whose lookup URL is not empty. *)
Section known.
  Hypothesis known_partition : WriteServerUrl (partition catalog_) <> [].

Definition calls {A} (f : ST ClientWorld A) : Prop :=
  forall phi l s n r, triple (own phi l s n r) f (fun _ => after (all_tokens l s) n r).

Lemma calls_first {A B} (f : ST ClientWorld A) (g : A -> ST ClientWorld B) :
  calls f -> (forall a, keeps (g a)) -> calls (st_bind f g).
Proof. intros Hf Hg phi l s n r. eapply triple_bind; [apply Hf|]. intros a. apply keeps_after, Hg. Qed.

Lemma lookup_calls n service version : calls (LookupApi catalog_ backend n service version).
Proof.
  intros phi l s k r. unfold LookupApi. destruct (WriteServerUrl (partition catalog_)); [done|]. unfold SetBaseUrl.
  eapply triple_bind; [by apply keeps_modify|]. intros []. case_match; apply web_rule.
Qed.

Lemma chain_calls entry services : calls (lookup_chain catalog_ backend is_cancelled (entry :: services)).
Proof.
  destruct entry as [[name service] version]. cbn [lookup_chain]. apply calls_first; [apply lookup_calls|]. intros apis.
  pose proof (keeps_chain services). unfold SetBaseUrl. destruct services; keeps.
Qed.

(** The initialisation fails only after a call. *)
Lemma init_rule k phi l s n r :
  services k <> [] ->
  triple (own phi l s n r) (InitApiClients catalog_ backend is_cancelled k)
    (fun e w => own phi l s n r w /\ (e <> None -> after (all_tokens l s) n r w)).
Proof.
  intros Hk w Hw. unfold InitApiClients. destruct (init_in_progress_ w); [done|].
  assert (calls (modify (with_init true) ;; create_clients (created k) ;;
                 lookup_chain catalog_ backend is_cancelled (services k))) as Hc.
  { unfold create_clients. destruct (services k) as [|e es]; [done|].
    intros phi' l' s' n' r'. do 2 (eapply triple_bind; [by apply keeps_modify|intros []]). apply chain_calls. }
  assert (triple (own phi l s n r) (modify (with_init true) ;; create_clients (created k) ;;
                 lookup_chain catalog_ backend is_cancelled (services k))
    (fun e w => own phi l s n r w /\ (e <> None -> after (all_tokens l s) n r w))) as Hc'.
  { eapply triple_weaken; [apply Hc|done|]. intros e w' Hw'. split; [by right|done]. }
  specialize (Hc' w Hw). by destruct (apiclients w (main_client k)) as [[|]|].
Qed.

(** With a running function, whose context cannot be cancelled. *)
Lemma clients_run {A} k id (function : ST ClientWorld (Response A)) l s n r :
  services k <> [] -> free (all_tokens l s) id ->
  triple (own True l (id :: s) n r) function (fun _ => after (all_tokens l s) n r) ->
  triple (before l (id :: s) n r)
    (with_clients catalog_ backend is_cancelled k (fail_task id) (fail_task id) function)
    (fun _ => after (all_tokens l s) n r).
Proof.
  intros Hk Hid Hf.
  assert (forall e, triple (after (all_tokens l (id :: s)) n r) (@fail_task A id e) (fun _ => after (all_tokens l s) n r)) as Hfail.
  { intros e w (Hl & ? & ? & ?). cbn. split_and!; try done. cbn. rewrite Hl. by apply RemoveTask_AddTask; destruct Hid. }
  unfold with_clients, when_ready. apply EOC_rule; [done| |by intros w [(_ & -> & _) [=]]].
  eapply triple_bind; [eapply triple_pre; [|by apply (init_rule k True)]; intros w Hw; by left; split|]. intros [e|].
  - eapply triple_pre; [|apply Hfail]. intros w [_ Hw]. by apply Hw.
  - eapply triple_pre; [intros w [Hw _]; exact Hw|]. apply EOC_rule; [done|exact Hf|].
    eapply triple_pre; [|apply Hfail]. by intros w [[(_ & _ & -> & _)|Hw] Hs].
Qed.

Lemma simple_calls {A} k l s n r (f : Z -> ST ClientWorld (Response A)) :
  services k <> [] -> ready 1 l s r ->
  triple (own True l (r :: s) n (r + 1)) (f r) (fun _ => after (all_tokens l s) n (r + 1)) ->
  triple (before l s n r) (simple_operation catalog_ backend is_cancelled k f) (fun _ => after (all_tokens l s) n (r + 1)).
Proof.
  intros Hk Hr Hf. eapply with_task_rule; [exact Hr| |apply end_after]. destruct (ready_free _ _ _ _ Hr) as [_ Hid].
  by apply clients_run.
Qed.

Lemma finish_after {A} l id n r (x : Response A) :
  free l id -> triple (after (with_own l id) n r) (finish_task id x) (fun _ => after l n r).
Proof. intros [Ho Hid] w (Hl & ? & ? & ?). cbn. split_and!; try done. cbn. rewrite Hl. by apply RemoveTask_AddTask. Qed.

Lemma GetDataHandleMap_calls layer ids v fields billing l s n r :
  ready 1 l s r ->
  triple (before l s n r) (GetDataHandleMap catalog_ backend is_cancelled layer ids v fields billing)
    (fun _ w => before l s n r w \/ exists r', after (all_tokens l s) n r' w).
Proof.
  intros Hr. unfold GetDataHandleMap.
  apply triple_if; [apply triple_ret; by left|]. apply triple_if; [apply triple_ret; by left|].
  eapply triple_weaken; [apply simple_calls; [done|exact Hr|]|done|intros a w Hw; right; by exists (r + 1)].
  eapply triple_bind; [apply keeps_deref|]. intros query. eapply triple_bind; [apply web_rule|]. intros x.
  apply finish_after. by destruct (ready_free _ _ _ _ Hr).
Qed.

(** A running function starts [GetDataHandleMap], and releases its own task later. *)
Lemma nested_runs {B} (id : Z) (layer : text) (ids : list text) (v : option Z) (fields : option (list text)) (billing : option text) (f : Response (gmap text text) -> ST ClientWorld B) :
  (forall a, releases id (f a)) ->
  runs 2 id (st_bind (GetDataHandleMap catalog_ backend is_cancelled layer ids v fields billing) f).
Proof.
  intros Hf l s n Hr. pose proof (ready_start 1 l s id Hr ltac:(lia)) as Hstart. destruct (ready_free _ _ _ _ Hr) as [Hl Hl'].
  eapply (triple_bind _ _ _ (fun _ w => own True l (id :: s) n (id + 1) w \/ exists r', after (all_tokens l (id :: s)) n r' w)).
  - intros w [[_ Hw]|Hw].
    + pose proof (GetDataHandleMap_calls layer ids v fields billing l (id :: s) n (id + 1) Hstart w Hw) as Hc.
      destruct (GetDataHandleMap _ _ _ _ _ _ _ _ w) as [[a w']|]; [|done]. destruct Hc; [by left; left|by right].
    + pose proof (GetDataHandleMap_calls layer ids v fields billing _ [] (length (web_calls w)) (id + 1)
        (ready_added _ _ _ _ Hstart) w) as Hc.
      destruct (GetDataHandleMap _ _ _ _ _ _ _ _ w) as [[a w']|]; [|done]. right. destruct Hw as (? & ? & ? & ?).
      destruct Hc as [(? & ? & ? & ?)|(r' & ? & ? & ? & ?)]; [done|exists (id + 1)|exists r']; split_and!; try done; lia.
  - intros a w [Hw|[r' Hw]].
    + apply (releases_runs 2 id (f a) (Hf a) l s n Hr w Hw).
    + pose proof (Hf a False l s n r' Hl Hl' w (or_introl (or_intror Hw))) as Hg. destruct (f a w) as [[b w']|]; [|done].
      destruct Hg as [[[] _]|?]. right. by exists r'.
Qed.
End known.

(** ** The functions of the clients *)

Abbreviation simple k := (simple_operation catalog_ backend is_cancelled k).

Ltac releases := repeat first
  [ apply releases_fail | apply releases_finish | apply releases_EOC
  | apply releases_clients; [intros ?|intros ?|] | apply releases_bind; [keeps|intros ?] | case_match ].

Lemma simple_restores {A} n k (f : Z -> ST ClientWorld (Response A)) :
  (forall id, releases id (f id)) -> restores n (simple k f).
Proof. intros Hf. apply restores_with_task. intros id. apply releases_runs, releases_clients; [apply releases_fail..|apply Hf]. Qed.

Lemma on_publication_restores {A} n pub (f : text -> ST ClientWorld (Response A)) :
  (forall p, restores n (f p)) -> restores n (on_publication pub f).
Proof. intros Hf. unfold on_publication. case_match; [apply ret_restores|apply Hf]. Qed.

Lemma keeps_get_catalog : keeps (get_catalog catalog_ backend).
Proof. unfold get_catalog. keeps. Qed.

Lemma keeps_some_error {A} e : keeps (@some_error A e).
Proof. apply keeps_ret. Qed.

Lemma keeps_InitCatalogModel : keeps (InitCatalogModel catalog_ backend is_cancelled).
Proof.
  unfold InitCatalogModel. apply keeps_when_ready; [apply keeps_some_error..|].
  apply keeps_bind; [apply keeps_world|]. intros w. case_match; [|apply keeps_ret].
  apply keeps_EOC; [apply keeps_get_catalog|apply keeps_some_error].
Qed.

Lemma keeps_UploadBlob data h layer : keeps (UploadBlob catalog_ backend is_cancelled data h layer).
Proof.
  unfold UploadBlob. apply keeps_bind; [apply keeps_world|]. intros w. case_match; [apply keeps_ret|].
  apply keeps_clients; [apply keeps_some_error..|]. keeps.
Qed.

Lemma keeps_UploadPartition pub p layer : keeps (UploadPartition catalog_ backend is_cancelled pub p layer).
Proof. unfold UploadPartition. apply keeps_clients; [apply keeps_some_error..|]. keeps. Qed.

Lemma keeps_VolatileInit : keeps (VolatileInitCatalogModel catalog_ backend).
Proof.
  unfold VolatileInitCatalogModel. apply keeps_bind; [apply keeps_world|]. intros w.
  case_match; [apply keeps_get_catalog|apply keeps_ret].
Qed.

Lemma keeps_partition_list ps : keeps (pub_partition_list uuid ps).
Proof.
  induction ps as [|p ps IH]; cbn [pub_partition_list]; [apply keeps_ret|].
  apply keeps_bind; [apply keeps_uuid|]. intros h. apply keeps_bind; [apply IH|]. intros l. apply keeps_ret.
Qed.

Lemma StartBatch_restores n r : restores n (StartBatch catalog_ backend is_cancelled r).
Proof.
  assert (forall id, releases id (init_publication backend r id)) as Hi by (intros id; unfold init_publication; releases).
  unfold StartBatch. repeat case_match; by first [apply ret_restores|apply simple_restores].
Qed.

Lemma base_version_releases id : releases id (base_version backend id).
Proof. unfold base_version. releases. Qed.

Lemma PublishToBatch_restores n pub r : restores n (PublishToBatch catalog_ backend is_cancelled uuid pub r).
Proof.
  unfold PublishToBatch. apply on_publication_restores. intros p. case_match; [apply ret_restores|].
  apply uuid_restores. intros h. apply restores_with_task. intros id. apply releases_runs.
  apply releases_bind; [apply keeps_InitCatalogModel|]. intros [u|e]; [|apply releases_fail].
  apply releases_bind; [apply keeps_UploadBlob|]. intros [u'|e]; [|apply releases_fail].
  apply releases_bind; [apply keeps_UploadPartition|]. intros [u''|e]; apply releases_finish.
Qed.

Lemma GetDataHandleMap_restores n layer ids v fields billing :
  restores n (GetDataHandleMap catalog_ backend is_cancelled layer ids v fields billing).
Proof.
  unfold GetDataHandleMap. apply restores_if; [apply ret_restores|].
  apply restores_if; [apply ret_restores|]. apply simple_restores. intros id. releases.
Qed.

Lemma put_blob_releases r p id h : releases id (put_blob backend r p id h).
Proof.
  unfold put_blob. apply releases_bind; [apply keeps_world|]. intros w. case_match; [apply releases_fail|]. releases.
Qed.

Lemma put_blobs_releases r p id l : l <> [] -> releases id (put_blobs backend is_cancelled r p id l).
Proof.
  induction l as [|[q h] l IH]; [done|]. intros _. cbn [put_blobs].
  assert (releases id (EOC (put_blob backend r p id h) (fail_task id operation_cancelled))) as Hb
    by (apply releases_EOC; [apply put_blob_releases|apply releases_fail]).
  destruct l as [|e l]; [exact (releases_map id _ (fun a => [a]) Hb)|].
  apply releases_again; [exact Hb|]. intros a. by apply releases_map, IH.
Qed.

Lemma PublishPartitionData_restores r :
  WriteServerUrl (partition catalog_) <> [] -> restores 2 (PublishPartitionData catalog_ backend is_cancelled r).
Proof.
  intros Hknown. unfold PublishPartitionData. destruct (pp_data r); [|apply ret_restores].
  destruct (pp_partition_id r) as [p|]; [|apply ret_restores].
  set (failed := fun (id : Z) (e : ApiError) => let* r := @fail_task text id e in st_ret [r]).
  assert (forall id e, releases id (failed id e)) as Hfail.
  { intros id e. apply (releases_map id _ (fun a => [a])), releases_fail. }
  assert (forall id e, runs 2 id (failed id e)) as Hfail' by (intros id e; by apply releases_runs).
  apply restores_with_task. intros id. apply runs_clients; [exact (Hfail' id)|exact (Hfail' id)|].
  apply runs_bind; [apply keeps_VolatileInit|]. intros [u|e]; [|apply Hfail']. apply runs_EOC; [|apply Hfail'].
  apply nested_runs; [exact Hknown|]. intros [m|e]; [|apply Hfail].
  case_match; [apply Hfail|]. by apply put_blobs_releases.
Qed.

Lemma VolatilePublishToBatch_restores n pub ps :
  restores n (VolatilePublishToBatch catalog_ backend is_cancelled uuid pub ps).
Proof.
  unfold VolatilePublishToBatch. repeat (case_match; try (apply ret_restores)).
  apply simple_restores. intros id. apply releases_bind; [apply keeps_partition_list|]. intros l'. releases.
Qed.

Lemma DeleteIndexData_restores n r : restores n (DeleteIndexData catalog_ backend is_cancelled r).
Proof.
  unfold DeleteIndexData. repeat (case_match; try (apply ret_restores)).
  apply simple_restores. intros id. releases.
Qed.

(** The functions of the stream client take no tasks. *)
Lemma keeps_restores {A} m (f : ST ClientWorld A) : keeps f -> restores m f.
Proof.
  intros Hf l s n r Hr. eapply triple_weaken; [apply (Hf True l s n r)|intros w Hw; by left|].
  intros a w [[_ Hw]|Hw]; [by left|right; left]. by exists r.
Qed.

Lemma keeps_or_cancelled {A} (f : ST ClientWorld (Response A)) : keeps f -> keeps (or_cancelled is_cancelled f).
Proof. intros Hf. unfold or_cancelled, release_init. apply keeps_EOC; [exact Hf|keeps]. Qed.

Lemma keeps_init_step {A} f (g : ST ClientWorld (Response A)) : keeps f -> keeps g -> keeps (init_step f g).
Proof. intros Hf Hg. unfold init_step, release_init. keeps. Qed.

Lemma keeps_lock_unless c : keeps (lock_unless c).
Proof.
  unfold lock_unless. apply keeps_bind; [apply keeps_world|]. intros w. destruct (c w); [apply keeps_ret|].
  intros phi l s n r w' Hw. unfold AquireInitLock. by destruct (init_in_progress_ w').
Qed.

Lemma keeps_lookup_one n service version callback :
  keeps callback -> keeps (lookup_one catalog_ backend n service version callback).
Proof.
  intros Hc. unfold lookup_one, create_clients, SetBaseUrl. apply keeps_bind; [by apply keeps_modify|]. intros [].
  apply keeps_bind; [apply keeps_lookup|]. intros apis. keeps.
Qed.

Ltac keeps_stream := repeat first
  [ progress eauto 1 with keeps nocore | apply keeps_or_cancelled | apply keeps_init_step | apply keeps_lock_unless
  | apply keeps_lookup_one | apply keeps_bind; [|intros ?] | apply keeps_modify; done | case_match ].

Lemma keeps_stream_init : keeps (StreamInitApiClients catalog_ backend is_cancelled).
Proof. unfold StreamInitApiClients. keeps_stream. Qed.

Lemma keeps_stream_init_large : keeps (InitApiClientsGreaterThanTwentyMib catalog_ backend is_cancelled).
Proof. unfold InitApiClientsGreaterThanTwentyMib. keeps_stream. Qed.

Lemma keeps_stream_catalog billing : keeps (StreamInitCatalogModel catalog_ backend billing).
Proof. unfold StreamInitCatalogModel. keeps_stream. Qed.

Hint Resolve keeps_stream_init keeps_stream_init_large keeps_stream_catalog : keeps.

Lemma keeps_PublishData r : keeps (PublishData catalog_ backend is_cancelled uuid r).
Proof.
  unfold PublishData, PublishDataLessThanTwentyMib, PublishDataGreaterThanTwentyMib, InitPublishDataGreaterThanTwentyMib,
    init_stream_publication, put_stream_blob, upload_partitions, submit_publication, release_init. keeps_stream.
Qed.

Lemma keeps_PublishSdii r : keeps (PublishSdii catalog_ backend is_cancelled r).
Proof. unfold PublishSdii, release_init. keeps_stream. Qed.

Lemma restores_then {A B} n (m : ST ClientWorld A) (f : A -> B) : restores n m -> restores n (let* a := m in st_ret (f a)).
Proof.
  intros Hm l s k r Hr. eapply triple_bind; [by apply Hm|]. intros a. by apply triple_ret.
Qed.

(** ** The property *)

(** The functions of the four clients; the results do not matter here. *)
Inductive LayerOperation :=
| OpStartBatch (r : StartBatchRequest) | OpBaseVersion | OpGetBatch (p : Publication)
| OpCompleteBatch (p : Publication) | OpCancelBatch (p : Publication)
| OpPublishToBatch (p : Publication) (r : PublishPartitionDataRequest)
| OpVolatileBaseVersion | OpVolatileStartBatch (r : StartBatchRequest) | OpVolatileGetBatch (p : Publication)
| OpVolatileCompleteBatch (p : Publication) | OpPublishPartitionData (r : PublishPartitionDataRequest)
| OpDataHandleMap (layer : text) (ids : list text)
| OpVolatilePublishToBatch (p : Publication) (l : list PublishPartitionDataRequest)
| OpDeleteIndexData (r : DeleteIndexDataRequest) | OpUpdateIndex (r : UpdateIndexRequest)
| OpCheckDataExists (r : CheckDataExistsRequest) | OpPublishIndex (r : PublishIndexRequest)
| OpPublishData (r : PublishDataRequest) | OpPublishSdii (r : PublishSdiiRequest).

Definition forget {A} (m : ST ClientWorld A) : ST ClientWorld unit := let* _ := m in st_ret tt.

Definition perform (op : LayerOperation) : ST ClientWorld unit :=
  match op with
  | OpStartBatch r => forget (StartBatch catalog_ backend is_cancelled r)
  | OpBaseVersion => forget (GetBaseVersion catalog_ backend is_cancelled)
  | OpGetBatch p => forget (GetBatch catalog_ backend is_cancelled p)
  | OpCompleteBatch p => forget (CompleteBatch catalog_ backend is_cancelled p)
  | OpCancelBatch p => forget (CancelBatch catalog_ backend is_cancelled p)
  | OpPublishToBatch p r => forget (PublishToBatch catalog_ backend is_cancelled uuid p r)
  | OpVolatileBaseVersion => forget (VolatileGetBaseVersion catalog_ backend is_cancelled)
  | OpVolatileStartBatch r => forget (VolatileStartBatch catalog_ backend is_cancelled r)
  | OpVolatileGetBatch p => forget (VolatileGetBatch catalog_ backend is_cancelled p)
  | OpVolatileCompleteBatch p => forget (VolatileCompleteBatch catalog_ backend is_cancelled p)
  | OpPublishPartitionData r => forget (PublishPartitionData catalog_ backend is_cancelled r)
  | OpDataHandleMap layer ids =>
    forget (GetDataHandleMap catalog_ backend is_cancelled layer ids None None None)
  | OpVolatilePublishToBatch p l => forget (VolatilePublishToBatch catalog_ backend is_cancelled uuid p l)
  | OpDeleteIndexData r => forget (DeleteIndexData catalog_ backend is_cancelled r)
  | OpUpdateIndex r => forget (UpdateIndex catalog_ backend is_cancelled r)
  | OpCheckDataExists r => forget (CheckDataExists catalog_ backend is_cancelled r)
  | OpPublishIndex r => forget (PublishIndex catalog_ backend is_cancelled uuid r)
  | OpPublishData r => forget (PublishData catalog_ backend is_cancelled uuid r)
  | OpPublishSdii r => forget (PublishSdii catalog_ backend is_cancelled r)
  end.

(** The two functions with a path that does not release the task. *)
Definition may_leak (op : LayerOperation) : bool :=
  match op with OpCheckDataExists _ | OpPublishIndex _ => true | _ => false end.

Lemma perform_restores op :
  WriteServerUrl (partition catalog_) <> [] -> may_leak op = false -> restores 2 (perform op).
Proof.
  intros Hknown Hop. destruct op; try discriminate Hop; cbn [perform]; apply restores_then.
  - apply StartBatch_restores.
  - apply simple_restores. intros id. apply base_version_releases.
  - apply on_publication_restores. intros q. apply simple_restores. intros id. releases.
  - apply on_publication_restores. intros q. apply simple_restores. intros id. releases.
  - apply on_publication_restores. intros q. apply simple_restores. intros id. releases.
  - apply PublishToBatch_restores.
  - apply simple_restores. intros id. apply base_version_releases.
  - apply simple_restores. intros id. unfold init_publication. releases.
  - apply on_publication_restores. intros q. apply simple_restores. intros id. releases.
  - apply on_publication_restores. intros q. apply simple_restores. intros id. releases.
  - by apply PublishPartitionData_restores.
  - apply GetDataHandleMap_restores.
  - apply VolatilePublishToBatch_restores.
  - apply DeleteIndexData_restores.
  - apply simple_restores. intros id. releases.
  - apply keeps_restores, keeps_PublishData.
  - apply keeps_restores, keeps_PublishSdii.
Qed.

(** C17. Over an asynchronous network the functions of the layer clients, but
    [CheckDataExists] and [PublishIndex], leave the list of tasks as it was, whatever is
    answered and whenever they are cancelled, if they make a call; a function that has
    its result without a call leaves its task in the list for ever, unless it took none. *)
Theorem operations_release_their_tasks op w w' :
  WriteServerUrl (partition catalog_) <> [] -> may_leak op = false ->
  ordered (tokenList_ w) -> Forall (fun t => t.1 < requestId w) (tokenList_ w) -> 0 <= requestId w < 2 ^ 31 - 2 ->
  starting w = [] -> perform op w = Some (tt, w') ->
  starting w' = [] /\ (length (web_calls w) <= length (web_calls w'))%nat /\
  ((length (web_calls w) < length (web_calls w'))%nat -> tokenList_ w' = tokenList_ w) /\
  (length (web_calls w') = length (web_calls w) ->
   requestId w' = requestId w /\ tokenList_ w' = tokenList_ w \/
   requestId w' = requestId w + 1 /\
   tokenList_ w' ≡ₚ (requestId w, Z.to_nat (requestId w)) :: tokenList_ w).
Proof.
  intros Hknown Hop Ho Hlt Hr Hs E.
  assert (ready 2 (tokenList_ w) [] (requestId w)) as Hready by (split_and!; try done; try lia; constructor).
  destruct (ready_free _ _ _ _ Hready) as [[_ Hid] _].
  assert (with_own (tokenList_ w) (requestId w) ≡ₚ (requestId w, Z.to_nat (requestId w)) :: tokenList_ w) as Hown
    by (by apply AddTask_spec).
  pose proof (perform_restores op Hknown Hop _ [] (length (web_calls w)) _ Hready w) as Hp. rewrite E in Hp.
  destruct Hp as [(Hl & ? & Hn & ?)|[(r' & Hl & ? & Hn & ?)|(Hl & ? & Hn & ?)]]; [done|..]; split_and!; try done; try lia.
  - intros _. by left.
  - intros _. right. by rewrite Hl.
Qed.
End facts.
