(* ===== verification/LayerPublish.v ===== *)
(** * The layer clients of the writer: initialisation and order of publishing

    What the initialisation of the web clients can end with, and that no metadata is
    published before its data has been stored. *)

From Stdlib Require Import ZArith Lia Bool Ascii.
From stdpp Require Import base numbers strings gmap list.
From S2P Require Import Prelude Decimal Http Hrn ReadModel ReadFacts TaskLists LayerClients.
From S2P Require Import VersionedClient VolatileClient IndexClient StreamQueue StreamPublish LayerClientsFacts.
Local Open Scope Z_scope.
Local Open Scope st_scope.

Section publish.
  Variables (catalog_ : HRN) (backend : WebBackend) (is_cancelled : nat -> bool) (uuid : nat -> text).

  Abbreviation EOC := (ExecuteOrCancelled is_cancelled).
  Abbreviation lookup_url := (WriteServerUrl (partition catalog_)).
  Abbreviation chain := (lookup_chain catalog_ backend is_cancelled).

(** ** The initialisation *)

(** The call that looks a service up. *)
Definition lookup_call (service version : text) : WebCall :=
  if bool_decide (service = str "config") then WebPlatformApis lookup_url service version
  else WebResourcesApis lookup_url (ToCatalogHRNString catalog_) service version.

Definition last_client (services : list (ApiClientName * text * text)) (default : ApiClientName) : ApiClientName :=
  match last services with Some (n, _, _) => n | None => default end.

(** How a chain of lookups can end. *)
Definition chain_end (services : list (ApiClientName * text * text)) (n0 : nat) (r : option ApiError) (w' : ClientWorld) : Prop :=
  (length (web_calls w') <= n0 + length services)%nat /\
  match r with
  | None => init_in_progress_ w' = false
  | Some e =>
    (init_in_progress_ w' = false /\
     (length (web_calls w') = n0 + length services -> apiclients w' (last_client services ApiBlob) = Some lookup_url)%nat)
    \/ (e = operation_cancelled /\ init_in_progress_ w' = true /\ (length (web_calls w') < n0 + length services)%nat)
  end.

Lemma LookupApi_spec n service version w :
  (lookup_url = [] /\ LookupApi catalog_ backend n service version w
     = Some (Failure (client_error NotFound "Invalid or broken HRN" false), w)) \/
  (exists w1, LookupApi catalog_ backend n service version w
     = Some (web_apis backend (web_calls w) (lookup_call service version), w1) /\
   web_calls w1 = web_calls w ++ [lookup_call service version] /\ init_in_progress_ w1 = init_in_progress_ w /\
   forall n', apiclients w1 n' = if decide (n' = n) then Some lookup_url else apiclients w n').
Proof.
  unfold LookupApi, lookup_call. destruct lookup_url as [|x rest]; [by left|right].
  unfold SetBaseUrl, modify, st_bind, web. destruct (bool_decide _), (web_asynchronous backend); eexists; by split_and!.
Qed.

Lemma chain_ends services w r w' :
  services <> [] -> init_in_progress_ w = true -> chain services w = Some (r, w') ->
  chain_end services (length (web_calls w)) r w'.
Proof.
  revert w. induction services as [|[[n service] version] rest IH]; intros w Hne Hi E; [done|]. clear Hne.
  cbn [lookup_chain] in E. unfold st_bind in E at 1.
  destruct (LookupApi_spec n service version w) as [[Hurl El]|(w1 & El & Hcalls & Hi1 & Hcl)]; rewrite El in E.
  { assert (r = Some (client_error NotFound "Invalid or broken HRN" false) /\ w' = with_init false w) as [-> ->].
    { destruct rest; cbn in E; by injection E as <- <-. }
    split; cbn; [lia|]. left. split; [done|]. lia. }
  assert (length (web_calls w1) = length (web_calls w) + 1)%nat as Hlen by (by rewrite Hcalls, length_app).
  destruct rest as [|next rest].
  - destruct (web_apis backend (web_calls w) (lookup_call service version)) as [[|url urls]|e]; cbn in E; [done|..].
    + injection E as <- <-. split; cbn; [lia|done].
    + injection E as <- <-. split; cbn; [lia|]. left. split; [done|]. intros _. rewrite Hcl. by rewrite decide_True.
  - destruct (web_apis backend (web_calls w) (lookup_call service version)) as [[|url urls]|e]; [done|..].
    + unfold SetBaseUrl, modify, st_bind, ExecuteOrCancelled in E. cbn in E.
      destruct (is_cancelled (web_checks w1) && _).
      * injection E as <- <-. split; cbn; [lia|]. right. split_and!; [done|congruence|lia].
      * apply IH in E; [|done|cbn; congruence]. destruct E as [Hl Hr]. cbn [web_calls with_checks with_apiclients] in *.
        split; [cbn [length] in *; lia|]. destruct r as [e|]; [|done].
        destruct Hr as [[? Hlast]|(? & ? & ?)]; [left|right; cbn [length] in *; split_and!; [done|done|lia]].
        split; [done|]. intros Hlen'. cbn [length] in *. apply Hlast. lia.
    + cbn in E. injection E as <- <-. split; cbn; [lia|]. left. split; [done|]. lia.
Qed.

(** The initialisation of the web clients: an error of a lookup or a success ends
    it, so that it can be tried again; but when it is cancelled between two lookups
    its flag stays set, and every later initialisation of the client is stuck; and
    when only the last lookup fails, the next initialisation takes the URL of the
    lookup server for that of the service and reports success without a call. *)
Theorem initialisation_outcomes k w r w' :
  services k <> [] -> main_client k = last_client (services k) ApiBlob ->
  init_in_progress_ w = false -> default [] (apiclients w (main_client k)) = [] ->
  InitApiClients catalog_ backend is_cancelled k w = Some (r, w') ->
  (r = None /\ init_in_progress_ w' = false) \/
  (exists e, r = Some e /\ init_in_progress_ w' = false /\
     (lookup_url <> [] -> length (web_calls w') = (length (web_calls w) + length (services k))%nat ->
      apiclients w' (main_client k) = Some lookup_url /\
      InitApiClients catalog_ backend is_cancelled k w' = Some (None, w'))) \/
  (r = Some operation_cancelled /\ init_in_progress_ w' = true /\
   forall k' w2, init_in_progress_ w2 = init_in_progress_ w' ->
     InitApiClients catalog_ backend is_cancelled k' w2 = None).
Proof.
  intros Hne Hmain Hi Hurl E. unfold InitApiClients in E. rewrite Hi in E.
  assert (chain (services k) (with_apiclients
    (fun n => if decide (n ∈ created k) then Some [] else apiclients w n) (with_init true w)) = Some (r, w')) as Ec.
  { destruct (apiclients w (main_client k)) as [[|x url]|]; [exact E|done|exact E]. }
  clear E. apply chain_ends in Ec; [|done|done]. destruct Ec as [Hl Hr]. cbn in Hl. destruct r as [e|]; [right|by left].
  destruct Hr as [[Hf Hlast]|(-> & Ht & _)]; [left|right].
  - exists e. split_and!; [done|done|]. intros Hlookup Hlen. specialize (Hlast Hlen). rewrite <- Hmain in Hlast.
    split; [done|]. unfold InitApiClients. rewrite Hf, Hlast. by destruct lookup_url.
  - split_and!; [done|done|]. intros k' w2 Hw2. unfold InitApiClients. by rewrite Hw2, Ht.
Qed.

(** ** Data before metadata *)

(** A blob was stored under a data handle of a layer, successfully. *)
Definition stored (l : list WebCall) (layer handle : text) : Prop :=
  exists pre base content_type data tag rest u,
    l = pre ++ WebPutBlob base layer content_type handle data tag :: rest /\
    web_done backend pre (WebPutBlob base layer content_type handle data tag) = Success u.

(** What a call needs of the calls before it. *)
Definition allowed (l : list WebCall) (c : WebCall) : Prop :=
  match c with
  | WebUploadPartitions _ partitions _ layer _ => Forall (fun p => stored l layer (published_handle p)) partitions
  | WebInsertIndexes _ index layer _ => stored l layer (index_id index)
  | _ => True
  end.

(** Every call of a log comes after what it needs. *)
Inductive data_first : list WebCall -> Prop :=
| data_first_nil : data_first []
| data_first_snoc l c : data_first l -> allowed l c -> data_first (l ++ [c]).

Lemma stored_snoc l c layer handle : stored l layer handle -> stored (l ++ [c]) layer handle.
Proof.
  intros (pre & base & ct & data & tag & rest & u & -> & E). exists pre, base, ct, data, tag, (rest ++ [c]), u.
  by rewrite <- app_assoc.
Qed.

(** The log is in order, and the blobs [s] have been stored. *)
Definition orderly (s : list (text * text)) (w : ClientWorld) : Prop :=
  data_first (web_calls w) /\ Forall (fun b => stored (web_calls w) b.1 b.2) s.
Definition calm {A} (m : ST ClientWorld A) : Prop := forall s, triple (orderly s) m (fun _ => orderly s).

Lemma calm_ret {A} (a : A) : calm (st_ret a).
Proof. intros s. by apply triple_ret. Qed.

Lemma calm_bind {A B} (m : ST ClientWorld A) (f : A -> ST ClientWorld B) : calm m -> (forall a, calm (f a)) -> calm (st_bind m f).
Proof. intros Hm Hf s. eapply triple_bind; [apply Hm|]. intros a. apply Hf. Qed.

Lemma calm_EOC {A} (m1 m2 : ST ClientWorld A) : calm m1 -> calm m2 -> calm (EOC m1 m2).
Proof. intros H1 H2 s. by apply EOC_both. Qed.

Lemma calm_modify f : (forall w, web_calls (f w) = web_calls w) -> calm (modify f).
Proof. intros Hf s w Hw. unfold modify, orderly in *. by rewrite Hf. Qed.

Lemma web_call_rule {A} (answer : WebBackend -> list WebCall -> WebCall -> A) c s l :
  (forall w, orderly s w -> allowed (web_calls w) c) ->
  triple (fun w => orderly s w /\ web_calls w = l) (web backend answer c)
    (fun a w => orderly s w /\ a = answer backend l c /\ web_calls w = l ++ [c]).
Proof.
  intros Hc w [Hw <-]. cbn. specialize (Hc w Hw). destruct Hw as [Hd Hs]. split_and!; [|done|done].
  split; [by constructor|]. eapply Forall_impl; [exact Hs|]. intros b. apply stored_snoc.
Qed.

Lemma web_allowed {A} (answer : WebBackend -> list WebCall -> WebCall -> A) c s :
  (forall w, orderly s w -> allowed (web_calls w) c) -> triple (orderly s) (web backend answer c) (fun _ => orderly s).
Proof. intros Hc w Hw. by apply (web_call_rule answer c s (web_calls w) Hc w). Qed.

Lemma calm_web {A} (answer : WebBackend -> list WebCall -> WebCall -> A) c : (forall l, allowed l c) -> calm (web backend answer c).
Proof. intros Hc s. apply web_allowed. intros w _. apply Hc. Qed.

Lemma calm_deref n : calm (deref n).
Proof. intros s w Hw. unfold deref. by destruct (apiclients w n). Qed.

Lemma calm_world : calm get_world.
Proof. by intros s w Hw. Qed.

Lemma calm_undefined {A} : calm (@undefined A).
Proof. by intros s w Hw. Qed.

Lemma calm_uuid : calm (GenerateUuid uuid).
Proof. by intros s w Hw. Qed.

Lemma calm_task_id : calm task_id.
Proof. by intros s w Hw. Qed.

#[local] Hint Resolve calm_ret calm_deref calm_world calm_undefined calm_uuid calm_task_id : keeps.

Ltac calm := repeat first
  [ progress eauto 1 with keeps nocore | apply calm_modify; done | apply calm_web; done | apply calm_EOC
  | apply calm_bind; [|intros ?] | case_match ].

Lemma calm_chain services : calm (chain services).
Proof.
  induction services as [|[[n service] version] rest IH]; cbn [lookup_chain]; [apply calm_ret|].
  apply calm_bind; [unfold LookupApi, SetBaseUrl; calm|]. intros apis. unfold SetBaseUrl. destruct rest; calm.
Qed.

Lemma calm_init k : calm (InitApiClients catalog_ backend is_cancelled k).
Proof.
  intros s w Hw. unfold InitApiClients. destruct (init_in_progress_ w); [done|].
  assert (calm (modify (with_init true) ;; create_clients (created k) ;; chain (services k))) as Hk.
  { unfold create_clients. repeat (apply calm_bind; [by apply calm_modify|intros _]). apply calm_chain. }
  pose proof (Hk s w Hw). destruct (apiclients w (main_client k)) as [[|]|]; done.
Qed.

(** What a function does when its clients are ready, it does. *)
Lemma clients_rule {A} k (on_error on_cancel : ApiError -> ST ClientWorld A) function s Q :
  (forall e, triple (orderly s) (on_error e) Q) -> (forall e, triple (orderly s) (on_cancel e) Q) ->
  triple (orderly s) function Q ->
  triple (orderly s) (with_clients catalog_ backend is_cancelled k on_error on_cancel function) Q.
Proof.
  intros He Hc Hf. unfold with_clients, when_ready. apply EOC_both; [done| |apply Hc].
  eapply triple_bind; [apply calm_init|]. intros [e|]; [apply He|]. by apply EOC_both.
Qed.

Lemma calm_clients {A} k (on_error on_cancel : ApiError -> ST ClientWorld A) function :
  (forall e, calm (on_error e)) -> (forall e, calm (on_cancel e)) -> calm function ->
  calm (with_clients catalog_ backend is_cancelled k on_error on_cancel function).
Proof. intros He Hc Hf s. apply clients_rule; [intros; apply He|intros; apply Hc|apply Hf]. Qed.

Lemma calm_fail {A} id e : calm (@fail_task A id e).
Proof. unfold fail_task, remove_task. calm. Qed.

Lemma calm_finish {A} id (r : Response A) : calm (finish_task id r).
Proof. unfold finish_task, remove_task. calm. Qed.

Lemma calm_end id : calm (end_task id).
Proof. intros s w Hw. unfold end_task. by destruct (bool_decide _). Qed.

Lemma calm_task {A} (body : Z -> ST ClientWorld A) : (forall id, calm (body id)) -> calm (with_task body).
Proof.
  intros Hb. unfold with_task, begin_task. apply calm_bind; [apply calm_task_id|]. intros id.
  apply calm_bind; [by apply calm_modify|]. intros u. apply calm_bind; [apply Hb|]. intros r.
  apply calm_bind; [apply calm_end|]. intros u'. apply calm_ret.
Qed.

Lemma calm_some_error {A} e : calm (@some_error A e).
Proof. apply calm_ret. Qed.

Lemma calm_simple {A} k (f : Z -> ST ClientWorld (Response A)) :
  (forall id, calm (f id)) -> calm (simple_operation catalog_ backend is_cancelled k f).
Proof. intros Hf. apply calm_task. intros id. apply calm_clients; [apply calm_fail..|apply Hf]. Qed.

Lemma calm_on_publication {A} pub (f : text -> ST ClientWorld (Response A)) :
  (forall p, calm (f p)) -> calm (on_publication pub f).
Proof. intros Hf. unfold on_publication. case_match; [apply calm_ret|apply Hf]. Qed.

Ltac calm_op := repeat first
  [ apply calm_fail | apply calm_finish | apply calm_some_error | apply calm_on_publication; intros ?
  | apply calm_simple; intros ? | apply calm_clients; [intros ?|intros ?|] | apply calm_task; intros ?
  | progress eauto 1 with keeps nocore | apply calm_web; done | apply calm_bind; [|intros ?] | case_match ].

Lemma calm_get_catalog : calm (get_catalog catalog_ backend).
Proof. unfold get_catalog. calm. Qed.

Lemma calm_InitCatalogModel : calm (InitCatalogModel catalog_ backend is_cancelled).
Proof.
  unfold InitCatalogModel, when_ready. apply calm_EOC; [|apply calm_some_error].
  apply calm_bind; [apply calm_init|]. intros [e|]; [apply calm_some_error|].
  apply calm_bind; [apply calm_world|]. intros w. case_match; [|apply calm_ret].
  apply calm_EOC; [apply calm_get_catalog|apply calm_some_error].
Qed.

Lemma calm_VolatileInit : calm (VolatileInitCatalogModel catalog_ backend).
Proof. unfold VolatileInitCatalogModel, get_catalog. calm. Qed.

(** ** Storing a blob, then publishing its metadata *)

Lemma put_blob_rule base layer ct handle data tag s :
  triple (orderly s) (web backend web_done (WebPutBlob base layer ct handle data tag))
    (fun r => orderly (match r with Success _ => (layer, handle) :: s | Failure _ => s end)).
Proof.
  intros w Hw. cbn. destruct (web_call_rule web_done (WebPutBlob base layer ct handle data tag) s
    (web_calls w) ltac:(done) w (conj Hw eq_refl)) as ([Hd Hs] & _ & _).
  destruct (web_done _ _ _) as [u|e] eqn:E; [|by split]. split; [done|]. constructor; [|done]. cbn.
  by exists (web_calls w), base, ct, data, tag, [], u.
Qed.

Lemma UploadBlob_rule data handle layer s :
  triple (orderly s) (UploadBlob catalog_ backend is_cancelled data handle layer)
    (fun r => orderly (match r with Success _ => (layer, handle) :: s | Failure _ => s end)).
Proof.
  unfold UploadBlob. eapply triple_bind; [apply calm_world|]. intros w. case_match; [by apply triple_ret|].
  apply clients_rule; [intros e; by apply triple_ret..|].
  eapply triple_bind; [apply calm_deref|]. intros blob. apply put_blob_rule.
Qed.

Lemma orderly_less b s w : orderly (b :: s) w -> orderly s w.
Proof. intros [Hd Hs]. apply Forall_cons in Hs as [_ Hs]. by split. Qed.

Lemma calm_less {A} (m : ST ClientWorld A) b s : calm m -> triple (orderly (b :: s)) m (fun _ => orderly s).
Proof. intros Hm. eapply triple_weaken; [apply (Hm (b :: s))|done|]. intros a w. apply orderly_less. Qed.

Lemma UploadPartition_rule pub p layer s :
  triple (orderly ((layer, published_handle p) :: s)) (UploadPartition catalog_ backend is_cancelled pub p layer)
    (fun _ => orderly ((layer, published_handle p) :: s)).
Proof.
  unfold UploadPartition. apply clients_rule; [intros e; by apply triple_ret..|].
  eapply triple_bind; [apply calm_deref|]. intros publish. apply web_allowed.
  intros w [_ Hs]. apply Forall_cons in Hs as [Hs _]. by repeat constructor.
Qed.

Lemma insert_indexes_rule r handle id s :
  triple (orderly ((pi_layer_id r, handle) :: s)) (insert_indexes backend r handle id) (fun _ => orderly s).
Proof.
  unfold insert_indexes. eapply triple_bind; [apply calm_deref|]. intros index.
  eapply triple_bind; [apply web_allowed|].
  - intros w [_ Hs]. by apply Forall_cons in Hs as [Hs _].
  - intros a. apply calm_less, calm_finish.
Qed.

Lemma put_index_blob_calm r handle ct id : calm (put_index_blob backend is_cancelled r handle ct id).
Proof.
  intros s. unfold put_index_blob. eapply triple_bind; [apply calm_deref|]. intros blob.
  eapply triple_bind; [apply put_blob_rule|]. intros [u|e]; [|apply calm_fail].
  apply EOC_both; [done|apply insert_indexes_rule|].
  apply calm_less, calm_fail.
Qed.

Lemma PublishToBatch_calm pub r : calm (PublishToBatch catalog_ backend is_cancelled uuid pub r).
Proof.
  unfold PublishToBatch. apply calm_on_publication. intros p. case_match; [apply calm_ret|].
  apply calm_bind; [apply calm_uuid|]. intros h. apply calm_task. intros id.
  apply calm_bind; [apply calm_InitCatalogModel|]. intros [u|e]; [|apply calm_fail]. intros s.
  eapply triple_bind; [apply UploadBlob_rule|]. intros [u'|e]; [|apply calm_fail].
  eapply triple_bind; [apply (UploadPartition_rule _ (MkPublishPartition _ h))|]. intros res.
  apply calm_less, calm_finish.
Qed.

Lemma PublishIndex_calm r : calm (PublishIndex catalog_ backend is_cancelled uuid r).
Proof.
  unfold PublishIndex. destruct (pi_data r); [|apply calm_ret]. destruct (pi_layer_id r); [apply calm_ret|].
  apply calm_task. intros id. apply calm_bind; [apply calm_uuid|]. intros h.
  apply calm_clients; [apply calm_fail..|].
  apply calm_bind; [apply calm_VolatileInit|]. intros [u|e]; [|apply calm_fail].
  apply calm_bind; [apply calm_world|]. intros w. case_match; [apply calm_ret|].
  apply calm_EOC; [apply put_index_blob_calm|apply calm_fail].
Qed.

Lemma calm_put_blobs r p id l : calm (put_blobs backend is_cancelled r p id l).
Proof.
  induction l as [|[q h] l IH]; cbn [put_blobs]; [apply calm_ret|]. apply calm_bind.
  - apply calm_EOC; [|apply calm_fail]. unfold put_blob. calm; apply calm_fail || apply calm_finish.
  - intros a. apply calm_bind; [apply IH|]. intros rs. apply calm_ret.
Qed.

Lemma calm_GetDataHandleMap layer ids v fields billing :
  calm (GetDataHandleMap catalog_ backend is_cancelled layer ids v fields billing).
Proof.
  unfold GetDataHandleMap. destruct (match ids with [] => _ | _ => _ end); [apply calm_ret|].
  destruct (100 <? _)%nat; [apply calm_ret|]. apply calm_simple. intros id. calm; apply calm_finish.
Qed.

Lemma calm_PublishPartitionData r : calm (PublishPartitionData catalog_ backend is_cancelled r).
Proof.
  unfold PublishPartitionData. destruct (pp_data r); [|apply calm_ret]. destruct (pp_partition_id r) as [p|]; [|apply calm_ret].
  set (failed := fun (id : Z) (e : ApiError) => let* r := @fail_task text id e in st_ret [r]).
  assert (forall id e, calm (failed id e)) as Hfail by (intros id e; apply calm_bind; [apply calm_fail|]; intros; apply calm_ret).
  apply calm_task. intros id. apply calm_clients; [exact (Hfail id)|exact (Hfail id)|].
  apply calm_bind; [apply calm_VolatileInit|]. intros [u|e]; [|apply Hfail]. apply calm_EOC; [|apply Hfail].
  apply calm_bind; [apply calm_GetDataHandleMap|]. intros [m|e]; [|apply Hfail].
  case_match; [apply Hfail|apply calm_put_blobs].
Qed.

(** ** The stream client *)

Lemma calm_or_cancelled {A} (f : ST ClientWorld (Response A)) : calm f -> calm (or_cancelled is_cancelled f).
Proof. intros Hf. unfold or_cancelled, release_init. apply calm_EOC; [exact Hf|calm]. Qed.

Lemma calm_init_step {A} f (g : ST ClientWorld (Response A)) : calm f -> calm g -> calm (init_step f g).
Proof. intros Hf Hg. unfold init_step, release_init. calm. Qed.

Lemma calm_lock_unless c : calm (lock_unless c).
Proof.
  unfold lock_unless. apply calm_bind; [apply calm_world|]. intros w. destruct (c w); [apply calm_ret|].
  intros s w' Hw. unfold AquireInitLock. by destruct (init_in_progress_ w').
Qed.

Lemma calm_lookup_one n service version callback :
  calm callback -> calm (lookup_one catalog_ backend n service version callback).
Proof.
  intros Hc. unfold lookup_one, create_clients, SetBaseUrl. apply calm_bind; [by apply calm_modify|]. intros [].
  apply calm_bind; [unfold LookupApi, SetBaseUrl; calm|]. intros apis. calm.
Qed.

Ltac calm_stream := repeat first
  [ progress eauto 1 with keeps nocore | apply calm_or_cancelled | apply calm_init_step | apply calm_lock_unless
  | apply calm_lookup_one | apply calm_web; done | apply calm_bind; [|intros ?] | apply calm_modify; done | case_match ].

Lemma calm_stream_init : calm (StreamInitApiClients catalog_ backend is_cancelled).
Proof. unfold StreamInitApiClients. calm_stream. Qed.

Lemma calm_stream_init_large : calm (InitApiClientsGreaterThanTwentyMib catalog_ backend is_cancelled).
Proof. unfold InitApiClientsGreaterThanTwentyMib. calm_stream. Qed.

Lemma calm_stream_catalog billing : calm (StreamInitCatalogModel catalog_ backend billing).
Proof. unfold StreamInitCatalogModel. calm_stream. Qed.

#[local] Hint Resolve calm_stream_init calm_stream_init_large calm_stream_catalog : keeps.

Lemma EOC_stored {A} (f : ST ClientWorld (Response A)) s b :
  triple (orderly (b :: s)) f (fun _ => orderly s) -> triple (orderly (b :: s)) (or_cancelled is_cancelled f) (fun _ => orderly s).
Proof. intros Hf. apply EOC_both; [done|exact Hf|]. apply calm_less. unfold release_init. calm. Qed.

Lemma calm_put_stream_blob r p ct h : calm (put_stream_blob backend is_cancelled uuid r p ct h).
Proof.
  intros s. unfold put_stream_blob. eapply triple_bind; [apply calm_deref|]. intros blob.
  eapply triple_bind; [apply put_blob_rule|]. intros [u|e]; [|by apply triple_ret].
  eapply triple_bind; [apply calm_uuid|]. intros id. apply EOC_stored. unfold upload_partitions.
  eapply triple_bind; [apply calm_deref|]. intros publish. eapply triple_bind; [apply web_allowed|].
  - intros w [_ Hs]. apply Forall_cons in Hs as [Hs _]. by repeat constructor.
  - intros a. apply calm_less. unfold submit_publication. calm_stream.
Qed.

Lemma calm_PublishData r : calm (PublishData catalog_ backend is_cancelled uuid r).
Proof.
  unfold PublishData, PublishDataLessThanTwentyMib, PublishDataGreaterThanTwentyMib, InitPublishDataGreaterThanTwentyMib,
    init_stream_publication, release_init. pose proof calm_put_stream_blob. calm_stream.
Qed.

Lemma calm_PublishSdii r : calm (PublishSdii catalog_ backend is_cancelled r).
Proof. unfold PublishSdii, release_init. calm_stream. Qed.

(** ** The property *)

(** The one function that publishes metadata of data stored elsewhere. *)
Definition metadata_only (op : LayerOperation) : bool :=
  match op with OpVolatilePublishToBatch _ _ => true | _ => false end.

Fixpoint perform_all (ops : list LayerOperation) : ST ClientWorld unit :=
  match ops with
  | [] => st_ret tt
  | op :: rest => perform catalog_ backend is_cancelled uuid op ;; perform_all rest
  end.

Lemma calm_forget {A} (m : ST ClientWorld A) : calm m -> calm (forget m).
Proof. intros Hm. apply calm_bind; [exact Hm|]. intros a. apply calm_ret. Qed.

Lemma perform_calm op : metadata_only op = false -> calm (perform catalog_ backend is_cancelled uuid op).
Proof.
  intros Hop. destruct op; try discriminate Hop; cbn [perform]; apply calm_forget;
    first [ apply PublishToBatch_calm | apply PublishIndex_calm | apply calm_PublishPartitionData
          | apply calm_GetDataHandleMap | apply calm_PublishData | apply calm_PublishSdii | idtac ].
  all: unfold StartBatch, VolatileStartBatch, init_publication, GetBaseVersion, VolatileGetBaseVersion, base_version,
    GetBatch, VolatileGetBatch, CompleteBatch, VolatileCompleteBatch, CancelBatch, DeleteIndexData, UpdateIndex,
    CheckDataExists; calm_op.
Qed.

(** C13. Data before metadata: whatever the clients are asked for, but for the function
    of the volatile client that publishes metadata only, and whatever the network
    answers, every partition they publish and every index they insert refers to a data
    handle under which a blob of that layer was stored before, successfully. *)
Theorem data_before_metadata ops w w' :
  Forall (fun op => metadata_only op = false) ops -> data_first (web_calls w) ->
  perform_all ops w = Some (tt, w') -> data_first (web_calls w').
Proof.
  intros Hops Hw E. assert (calm (perform_all ops)) as Hc.
  { clear E. induction Hops as [|op ops Hop Hops IH]; cbn [perform_all]; [apply calm_ret|].
    apply calm_bind; [by apply perform_calm|]. intros u. exact IH. }
  specialize (Hc [] w (conj Hw (Forall_nil_2 _))). rewrite E in Hc. apply Hc.
Qed.
End publish.
