(* ===== verification/LayerExamples.v ===== *)
(** * The layer clients of the writer on a concrete catalog

    A catalog with a layer of images, a network that answers every call, or every one but
    the lookup of the publish service, and the theorems of [LayerClientsFacts] and
    [LayerPublish] there. *)

From Stdlib Require Import ZArith Lia Bool Ascii.
From stdpp Require Import base numbers strings gmap list.
From S2P Require Import Prelude Decimal Http Hrn ReadModel TaskLists LayerClients.
From S2P Require Import VersionedClient VolatileClient IndexClient LayerClientsFacts LayerPublish.
Local Open Scope Z_scope.

Definition layer_catalog : HRN := MkHRN (str "here") Hrn.Data [] [] (str "map") [] [] [] [] [].
Definition layer_uuid (n : nat) : text := str "uuid" ++ print_u64 (Z.of_nat n).

(** The service [silent] has no base URL. *)
Definition layer_backend (asynchronous : bool) (silent : text) : WebBackend :=
  MkWebBackend asynchronous
    (fun _ c => match c with
      | WebResourcesApis _ _ service _ | WebPlatformApis _ service _ =>
        if bool_decide (service = silent) then Failure (ApiError_of_code NotFound (str "none") false)
        else Success [str "https://" ++ service]
      | _ => Failure default_ApiError
      end)
    (fun _ _ => Success (MkCatalogModel (str "map") [(str "images", str "image/png")]))
    (fun _ _ => Success 7)
    (fun _ _ => Success (MkPublication (Some (str "pub")) None None None))
    (fun _ _ => Success 200)
    (fun _ _ => Success [(str "p1", str "handle1")])
    (fun _ _ => Success (str "trace"))
    (fun _ _ => Success tt).

Definition layer_publication : Publication := MkPublication (Some (str "pub")) None None None.
Definition publish_p1 : LayerOperation :=
  OpPublishToBatch layer_publication
    (MkPublishPartitionDataRequest (Some (str "data")) (str "images") (Some (str "p1")) None None).
Definition publish_index : LayerOperation :=
  OpPublishIndex (MkPublishIndexRequest (Some (str "data")) (str "images") None (MkIndex [] (str "fields"))).

Abbreviation performed ops := (perform_all layer_catalog (layer_backend true []) (fun _ => false) layer_uuid ops NewLayerClient).

Example performed_calls :
  option_map (fun o => (tokenList_ o.2, requestId o.2, length (web_calls o.2),
      drop 5 (web_calls o.2))) (performed [publish_p1]) =
  Some ([], 1, 7%nat,
    [WebPutBlob (str "https://blob") (str "images") (str "image/png") (str "uuid0") (Some (str "data")) None;
     WebUploadPartitions (str "https://publish") [MkPublishPartition (str "p1") (str "uuid0")] (str "pub") (str "images") None]).
Proof. vm_compute. reflexivity. Qed.

Lemma data_before_metadata_witness :
  Forall (fun op => metadata_only op = false) [publish_p1] /\
  forall w', performed [publish_p1] = Some (tt, w') -> data_first (layer_backend true []) (web_calls w').
Proof.
  assert (Forall (fun op => metadata_only op = false) [publish_p1]) as Hops by (repeat constructor).
  split; [exact Hops|]. intros w' E.
  apply (data_before_metadata layer_catalog (layer_backend true []) (fun _ => false) layer_uuid [publish_p1] NewLayerClient w').
  - exact Hops.
  - constructor.
  - exact E.
Defined.

(** With tasks 1 and 3 in the list and 5 the next id. *)
Definition busy_client : ClientWorld :=
  with_requestId 5 (with_tokens [(1, 1%nat); (3, 3%nat)] NewLayerClient).

Example busy_publish :
  option_map (fun o => (tokenList_ o.2, length (web_calls o.2)))
    (perform layer_catalog (layer_backend true []) (fun _ => false) layer_uuid publish_p1 busy_client)
  = Some ([(1, 1%nat); (3, 3%nat)], 7%nat).
Proof. vm_compute. reflexivity. Qed.

Lemma operations_release_their_tasks_witness :
  ordered (tokenList_ busy_client) /\
  forall w', perform layer_catalog (layer_backend true []) (fun _ => false) layer_uuid publish_p1 busy_client = Some (tt, w') ->
    (0 < length (web_calls w'))%nat -> tokenList_ w' = [(1, 1%nat); (3, 3%nat)].
Proof.
  assert (ordered (tokenList_ busy_client)) as Ho by (unfold ordered; cbn; repeat constructor; lia).
  split; [exact Ho|]. intros w' E.
  apply (operations_release_their_tasks layer_catalog (layer_backend true []) (fun _ => false) layer_uuid eq_refl publish_p1 busy_client w').
  - discriminate.
  - reflexivity.
  - exact Ho.
  - repeat constructor; cbn; lia.
  - cbn. lia.
  - reflexivity.
  - exact E.
Defined.

(** A client that is initialised answers a request for an unknown layer at once. *)
Definition publish_p2 : LayerOperation :=
  OpPublishToBatch layer_publication
    (MkPublishPartitionDataRequest (Some (str "data")) (str "maps") (Some (str "p2")) None None).

Example unknown_layer_leaks :
  option_map (fun o => tokenList_ o.2) (performed [publish_p2; publish_p2]) = Some [(1, 1%nat)].
Proof. vm_compute. reflexivity. Qed.

(** Over a synchronous network every request leaves its task. *)
Example synchronous_network_leaks :
  option_map (fun o => tokenList_ o.2)
    (perform layer_catalog (layer_backend false []) (fun _ => false) layer_uuid publish_p1 busy_client)
  = Some [(1, 1%nat); (3, 3%nat); (5, 5%nat)].
Proof. vm_compute. reflexivity. Qed.

(** An error of the lookup leaves the task of [CheckDataExists]. *)
Example failed_check_leaks :
  option_map (fun o => (tokenList_ o.2, length (web_calls o.2)))
    (perform layer_catalog (layer_backend true (str "metadata")) (fun _ => false) layer_uuid
      (OpCheckDataExists (MkCheckDataExistsRequest (str "images") (str "handle"))) busy_client)
  = Some ([(1, 1%nat); (3, 3%nat); (5, 5%nat)], 1%nat).
Proof. vm_compute. reflexivity. Qed.

(** The publish service has no answer: the next initialisation succeeds without one. *)
Abbreviation init_twice is_cancelled w :=
  (InitApiClients layer_catalog (layer_backend true (str "publish")) is_cancelled versioned_kind w).
Abbreviation first_init := (init_twice (fun _ => false) NewLayerClient).

Example publish_lookup_fails :
  option_map (fun o => (bool_decide (is_Some o.1), length (web_calls o.2), init_in_progress_ o.2)) first_init = Some (true, 4%nat, false).
Proof. vm_compute. reflexivity. Qed.

Lemma initialisation_outcomes_witness :
  exists e w', first_init = Some (Some e, w') /\ init_twice (fun _ => false) w' = Some (None, w').
Proof.
  pose proof publish_lookup_fails as Hf. destruct first_init as [[r w']|] eqn:E; [|discriminate Hf].
  cbn [option_map fst snd] in Hf. injection Hf as Hr Hlen Hi. apply bool_decide_eq_true in Hr as [e ->].
  destruct (initialisation_outcomes layer_catalog (layer_backend true (str "publish")) (fun _ => false) versioned_kind
    NewLayerClient (Some e) w') as [[? _]|[(e' & He & _ & Hout)|(_ & Hi' & _)]].
  - discriminate.
  - reflexivity.
  - reflexivity.
  - reflexivity.
  - exact E.
  - discriminate.
  - exists e, w'. split; [reflexivity|]. apply Hout; [discriminate|exact Hlen].
  - rewrite Hi in Hi'. discriminate Hi'.
Defined.

(** Cancelled after the first lookup: a later call of the same client is stuck. *)
Example cancelled_init_stuck :
  option_map (fun o => option_map fst (init_twice (fun _ => false) o.2)) (init_twice (fun _ => true) NewLayerClient)
  = Some None.
Proof. vm_compute. reflexivity. Qed.

(** A request for a layer that is not in the catalog leaves its task in the list. *)
Definition publish_unknown : LayerOperation :=
  OpPublishIndex (MkPublishIndexRequest (Some (str "data")) (str "maps") None (MkIndex [] (str "fields"))).

Example unknown_index_layer_leaks :
  option_map (fun o => tokenList_ o.2) (performed [publish_unknown]) = Some [(0, 0%nat)].
Proof. vm_compute. reflexivity. Qed.

Example published_index_releases :
  option_map (fun o => (tokenList_ o.2, drop 4 (web_calls o.2))) (performed [publish_index]) =
  Some ([], [WebPutBlob (str "https://blob") (str "images") (str "image/png") (str "uuid0") (Some (str "data")) None;
             WebInsertIndexes (str "https://index") (MkIndex (str "uuid0") (str "fields")) (str "images") None]).
Proof. vm_compute. reflexivity. Qed.
