(* ===== verification/StreamPublishFacts.v ===== *)
(** * Publishing to a stream layer: every request is answered, in full

    A stream client that is free answers every request and is free again, and a large
    request it reports as published went through all its steps. *)

From Stdlib Require Import ZArith Lia Bool Ascii.
From stdpp Require Import base numbers strings gmap list.
From S2P Require Import Prelude Decimal Http Hrn ReadModel ReadFacts StreamQueue TaskLists LayerClients.
From S2P Require Import VersionedClient VolatileClient StreamPublish LayerPublish LayerExamples.
Local Open Scope Z_scope.
Local Open Scope st_scope.

Section answered.
  Variables (catalog_ : HRN) (backend : WebBackend) (is_cancelled : nat -> bool) (uuid : nat -> text).

(** A lookup of a service that succeeds without a URL: the code throws in [at(0)]. *)
Definition empty_lookup : Prop :=
  exists l c, match c with WebPlatformApis _ _ _ | WebResourcesApis _ _ _ _ => True | _ => False end /\
    web_apis backend l c = Success [].

(** The function has a result, unless a lookup is empty. *)
Abbreviation total := (ReadFacts.triple empty_lookup).
  Abbreviation or_else := (or_cancelled is_cancelled).

(** The flag is [b], the clients of [s] exist, and the first of two clients that are
    looked up together exists when the second does. *)
Definition ready_stream (b : bool) (s : list ApiClientName) (w : ClientWorld) : Prop :=
  init_in_progress_ w = b /\ Forall (fun n => apiclients w n <> None) s /\
  (apiclients w ApiConfig <> None -> apiclients w ApiIngest <> None) /\
  (apiclients w ApiBlob <> None -> apiclients w ApiPublish <> None).

Definition holds {A} b s (m : ST ClientWorld A) : Prop := total (ready_stream b s) m (fun _ => ready_stream b s).

Lemma ready_less b n s w : ready_stream b (n :: s) w -> ready_stream b s w.
Proof. intros (? & Hs & ? & ?). apply Forall_cons in Hs as [_ Hs]. by split_and!. Qed.

Lemma ready_checks b s w n : ready_stream b s w -> ready_stream b s (with_checks n w).
Proof. done. Qed.

Lemma ready_member b s n w : ready_stream b s w -> n ∈ s -> apiclients w n <> None.
Proof. intros (_ & Hs & _) Hn. rewrite Forall_forall in Hs. by apply Hs. Qed.

Lemma holds_world b s : total (ready_stream b s) get_world (fun w' w => ready_stream b s w /\ w' = w).
Proof. by intros w Hw. Qed.

Lemma holds_web {A} (answer : WebBackend -> list WebCall -> WebCall -> A) c b s : holds b s (web backend answer c).
Proof. intros w Hw. cbn. destruct (web_asynchronous backend); exact Hw. Qed.

Lemma holds_deref n b s : n ∈ s -> holds b s (deref n).
Proof. intros Hn w Hw. pose proof (ready_member _ _ _ _ Hw Hn). unfold deref. by destruct (apiclients w n). Qed.

Lemma holds_uuid b s : holds b s (GenerateUuid uuid).
Proof. by intros w Hw. Qed.

Lemma holds_catalog c b s : holds b s (modify (with_catalog c)).
Proof. by intros w Hw. Qed.

(** Giving the flag back, whoever holds it. *)
Lemma release_rule b s : total (ready_stream b s) release_init (fun _ => ready_stream false s).
Proof. intros w (? & ? & ? & ?). by split_and!. Qed.

(** ** The lookups *)

(** A step that makes the client [n] exist, and no other one null. *)
Lemma exists_rule n b s w f :
  (n = ApiConfig -> ApiIngest ∈ s) -> (n = ApiBlob -> ApiPublish ∈ s) ->
  (forall n', f n' <> None <-> n' = n \/ apiclients w n' <> None) ->
  ready_stream b s w -> ready_stream b (n :: s) (with_apiclients f w).
Proof.
  intros H1 H2 Hf Hw. pose proof (ready_member _ _ ApiIngest _ Hw) as M1. pose proof (ready_member _ _ ApiPublish _ Hw) as M2.
  destruct Hw as (Hb & Hs & Hc & Hp). unfold ready_stream. cbn. setoid_rewrite Hf. split_and!; [done| | |].
  - constructor; [by left|]. eapply Forall_impl; [exact Hs|]. intros n' Hn'. by right.
  - intros [<-|Hn]; right; auto.
  - intros [<-|Hn]; right; auto.
Qed.

Lemma create_rule n b s :
  (n = ApiConfig -> ApiIngest ∈ s) -> (n = ApiBlob -> ApiPublish ∈ s) ->
  total (ready_stream b s) (create_clients [n]) (fun _ => ready_stream b (n :: s)).
Proof.
  intros H1 H2 w Hw. apply exists_rule; [done|done| |done]. intros n'. case_decide as D.
  - apply list_elem_of_singleton in D as ->. naive_solver.
  - rewrite list_elem_of_singleton in D. naive_solver.
Qed.

Lemma set_rule n url b s :
  (n = ApiConfig -> ApiIngest ∈ s) -> (n = ApiBlob -> ApiPublish ∈ s) ->
  total (ready_stream b (n :: s)) (SetBaseUrl n url) (fun _ => ready_stream b (n :: s)).
Proof.
  intros H1 H2 w Hw%ready_less. apply exists_rule; [done|done| |done]. intros n'. case_decide; naive_solver.
Qed.

Lemma lookup_rule n service version b s :
  (n = ApiConfig -> ApiIngest ∈ s) -> (n = ApiBlob -> ApiPublish ∈ s) ->
  total (ready_stream b (n :: s)) (LookupApi catalog_ backend n service version)
    (fun r w => ready_stream b (n :: s) w /\ (r = Success [] -> empty_lookup)).
Proof.
  intros H1 H2. unfold LookupApi. destruct (WriteServerUrl _); [by apply triple_ret|].
  eapply triple_bind; [by apply set_rule|]. intros [].
  destruct (bool_decide _); intros w Hw; cbn; (split; [by destruct (web_asynchronous backend)|intros E; eexists _, _; split; [|exact E]; exact I]).
Qed.

(** The result of a step: its client, or an error. *)
Definition stepped b s n {A} (r : Response A) w : Prop :=
  match r with Success _ => ready_stream b (n :: s) w | Failure _ => exists b', ready_stream b' s w end.

Lemma lookup_one_rule n service version callback b s Q :
  (n = ApiConfig -> ApiIngest ∈ s) -> (n = ApiBlob -> ApiPublish ∈ s) ->
  (forall e w, ready_stream b s w -> Q (Failure e) w) ->
  total (ready_stream b (n :: s)) callback Q ->
  total (ready_stream b s) (lookup_one catalog_ backend n service version callback) Q.
Proof.
  intros H1 H2 He Hc. unfold lookup_one. eapply triple_bind; [by apply create_rule|]. intros [].
  eapply triple_bind; [by apply lookup_rule|]. intros [[|url urls]|e].
  - intros w [_ E]. by apply E.
  - eapply triple_pre; [intros w [Hw _]; exact Hw|]. eapply triple_bind; [by apply set_rule|]. intros []. exact Hc.
  - apply triple_ret. intros w [Hw _]. by eapply He, ready_less.
Qed.

(** A cancelled function has given the flag back. *)
Lemma or_cancelled_rule {A} (f : ST ClientWorld (Response A)) b s Q :
  (forall e w, ready_stream false s w -> Q (Failure e) w) ->
  total (ready_stream b s) f Q -> total (ready_stream b s) (or_else f) Q.
Proof.
  intros He Hf w Hw. unfold or_cancelled, ExecuteOrCancelled. destruct (_ && _); [|by apply Hf].
  apply He. exact (release_rule b s w Hw).
Qed.

Lemma two_lookups_rule n1 n2 s1 v1 s2 v2 b s :
  (n1 = ApiIngest /\ n2 = ApiConfig) \/ (n1 = ApiPublish /\ n2 = ApiBlob) ->
  total (ready_stream b s)
    (lookup_one catalog_ backend n1 s1 v1 (or_else (lookup_one catalog_ backend n2 s2 v2 (st_ret (Success tt)))))
    (stepped b s n2).
Proof.
  intros Hn. assert ((n1 = ApiConfig -> ApiIngest ∈ s) /\ (n1 = ApiBlob -> ApiPublish ∈ s) /\
    (n2 = ApiConfig -> ApiIngest ∈ n1 :: s) /\ (n2 = ApiBlob -> ApiPublish ∈ n1 :: s)) as (H1 & H2 & H3 & H4)
    by (destruct Hn as [[-> ->]|[-> ->]]; split_and!; intros; done || by left).
  apply lookup_one_rule; [done|done|intros e w Hw; by exists b|].
  apply or_cancelled_rule; [intros e w Hw%ready_less; by exists false|].
  apply lookup_one_rule; [done|done|intros e w Hw%ready_less; by exists b|].
  apply triple_ret. intros w (Hb & Hs & ? & ?). split_and!; [done| |done|done].
  apply Forall_cons in Hs as [? Hs]. apply Forall_cons in Hs as [? Hs]. by constructor.
Qed.

(** A client that is set exists. *)
Lemma set_exists n b s w : ready_stream b s w -> unset n w = false -> ready_stream b (n :: s) w.
Proof.
  unfold unset. intros (? & Hs & ? & ?) Hn. split_and!; try done. constructor; [|done]. by destruct (apiclients w n).
Qed.

Lemma init_or_set n m b s :
  total (ready_stream b s) m (stepped b s n) ->
  total (ready_stream b s) (let* w := get_world in if unset n w then m else st_ret (Success tt)) (stepped b s n).
Proof.
  intros Hm. eapply triple_bind; [apply holds_world|]. intros w0. destruct (unset n w0) eqn:E.
  - eapply triple_pre; [|exact Hm]. by intros w [? _].
  - apply triple_ret. intros w [Hw ->]. by apply set_exists.
Qed.

Lemma stream_init_rule b s : total (ready_stream b s) (StreamInitApiClients catalog_ backend is_cancelled) (stepped b s ApiConfig).
Proof. apply init_or_set, two_lookups_rule. by left. Qed.

Lemma large_init_rule b s :
  total (ready_stream b s) (InitApiClientsGreaterThanTwentyMib catalog_ backend is_cancelled) (stepped b s ApiBlob).
Proof. apply init_or_set, two_lookups_rule. by right. Qed.

Lemma catalog_rule billing b s :
  ApiConfig ∈ s -> total (ready_stream b s) (StreamInitCatalogModel catalog_ backend billing) (fun _ => ready_stream b s).
Proof.
  intros Hs. unfold StreamInitCatalogModel. eapply triple_bind; [apply holds_world|]. intros w0.
  apply triple_if; [|apply triple_ret; by intros w [? _]]. eapply triple_pre; [by intros w [Hw _]|].
  eapply triple_bind; [by apply holds_deref|]. intros config. eapply triple_bind; [apply holds_web|].
  intros [c|e]; [|by apply triple_ret]. eapply triple_bind; [apply holds_catalog|]. intros []. by apply triple_ret.
Qed.

(** ** Functions that end with a free flag *)

Definition free_after s {A} (_ : A) w : Prop := ready_stream false s w.

(** Where the post condition follows from a failure with a free flag. *)
Definition fails s {A} (Q : Response A -> ClientWorld -> Prop) : Prop :=
  forall e w, ready_stream false s w -> Q (Failure e) w.

Lemma step_rule {A} step (next : ST ClientWorld (Response A)) b n s Q :
  fails s Q -> total (ready_stream b s) step (stepped b s n) -> total (ready_stream b (n :: s)) next Q ->
  total (ready_stream b s) (init_step step next) Q.
Proof.
  intros He Hs Hn. unfold init_step. eapply triple_bind; [exact Hs|]. intros [u|e]; [exact Hn|].
  intros w [b' Hw]. apply He. exact (release_rule b' s w Hw).
Qed.

Lemma same_step_rule {A} step (next : ST ClientWorld (Response A)) b s Q :
  fails s Q -> total (ready_stream b s) step (fun _ => ready_stream b s) -> total (ready_stream b s) next Q ->
  total (ready_stream b s) (init_step step next) Q.
Proof.
  intros He Hs Hn. unfold init_step. eapply triple_bind; [exact Hs|]. intros [u|e]; [exact Hn|].
  intros w Hw. apply He. exact (release_rule b s w Hw).
Qed.

Lemma fails_free {A} s : fails s (@free_after s (Response A)).
Proof. by intros e w Hw. Qed.

Lemma stream_cancel_rule {A} (f : ST ClientWorld (Response A)) b s :
  total (ready_stream b s) f (free_after s) -> total (ready_stream b s) (or_else f) (free_after s).
Proof. apply or_cancelled_rule. by intros e w Hw. Qed.

Lemma forget_rule {A} (f : ST ClientWorld (Response A)) b n s :
  total (ready_stream b (n :: s)) f (free_after (n :: s)) -> total (ready_stream b (n :: s)) f (free_after s).
Proof. intros Hf. eapply triple_weaken; [exact Hf|done|]. intros a w Hw. by eapply ready_less. Qed.

Lemma last_call_rule n c s (answer : WebBackend -> list WebCall -> WebCall -> Response text) :
  n ∈ s -> total (ready_stream false s) (let* url := deref n in web backend answer (c url)) (free_after s).
Proof. intros Hn. eapply triple_bind; [by apply holds_deref|]. intros url. apply holds_web. Qed.

Lemma add_ingest {A} (f : ST ClientWorld A) b s Q :
  ApiConfig ∈ s -> total (ready_stream b (ApiIngest :: s)) f Q -> total (ready_stream b s) f Q.
Proof.
  intros Hs Hf. eapply triple_pre; [|exact Hf]. intros w Hw. pose proof (ready_member _ _ _ _ Hw Hs) as Hc.
  destruct Hw as (? & ? & Hi & ?). split_and!; try done. constructor; [by apply Hi|done].
Qed.

Lemma add_publish {A} (f : ST ClientWorld A) b s Q :
  ApiBlob ∈ s -> total (ready_stream b (ApiPublish :: s)) f Q -> total (ready_stream b s) f Q.
Proof.
  intros Hs Hf. eapply triple_pre; [|exact Hf]. intros w Hw. pose proof (ready_member _ _ _ _ Hw Hs) as Hc.
  destruct Hw as (? & ? & ? & Hi). split_and!; try done. constructor; [by apply Hi|done].
Qed.

(** The lock is free, so that it is taken or not needed. *)
Lemma lock_rule {A} complete s (f : ST ClientWorld A) Q :
  (forall b, total (ready_stream b s) f Q) -> total (ready_stream false s) (lock_unless complete ;; f) Q.
Proof.
  intros Hf. unfold lock_unless. eapply (triple_bind _ _ _ (fun _ w => exists b, ready_stream b s w)).
  - eapply triple_bind; [apply holds_world|]. intros w0. destruct (complete w0).
    + apply triple_ret. intros w [Hw _]. by exists false.
    + intros w [(Hb & Hs & ? & ?) _]. unfold AquireInitLock. rewrite Hb. exists true. by split_and!.
  - intros [] w [b Hw]. exact (Hf b w Hw).
Qed.

Lemma release_then {A} (f : ST ClientWorld A) b s Q :
  total (ready_stream false s) f Q -> total (ready_stream b s) (release_init ;; f) Q.
Proof. intros Hf. eapply triple_bind; [apply release_rule|]. intros []. exact Hf. Qed.

(** A step whose client is forgotten afterwards. *)
Lemma init_step_rule {A} (next : ST ClientWorld (Response A)) step b n s :
  total (ready_stream b s) step (stepped b s n) ->
  total (ready_stream b (n :: s)) next (free_after (n :: s)) ->
  total (ready_stream b s) (init_step step next) (free_after s).
Proof. intros Hs Hn. eapply step_rule; [apply fails_free|exact Hs|]. by apply forget_rule. Qed.

Lemma small_rule request : total (ready_stream false []) (PublishDataLessThanTwentyMib catalog_ backend is_cancelled request) (free_after []).
Proof.
  apply lock_rule. intros b. apply stream_cancel_rule. eapply init_step_rule; [apply stream_init_rule|]. apply stream_cancel_rule.
  apply same_step_rule; [apply fails_free|apply catalog_rule; left|]. apply release_then.
  eapply triple_bind; [apply holds_world|]. intros w0. eapply triple_pre; [by intros w [Hw _]|].
  case_match; [by apply triple_ret|]. apply stream_cancel_rule, add_ingest; [left|]. apply forget_rule.
  apply last_call_rule. left.
Qed.

Lemma sdii_rule request : total (ready_stream false []) (PublishSdii catalog_ backend is_cancelled request) (free_after []).
Proof.
  unfold PublishSdii. destruct (sdii_message_list_ request); [|by apply triple_ret].
  destruct (sdii_layer_id_ request); [by apply triple_ret|].
  apply lock_rule. intros b. apply stream_cancel_rule. eapply init_step_rule; [apply stream_init_rule|].
  apply release_then, stream_cancel_rule, add_ingest; [left|]. apply forget_rule. apply last_call_rule. left.
Qed.

(** The large request: the clients it needs exist once it is initialised. *)
Definition initialised {A} (r : Response A) w : Prop :=
  match r with Success _ => ready_stream false [ApiBlob; ApiConfig] w | Failure _ => ready_stream false [] w end.

Lemma large_ready request :
  total (ready_stream false []) (InitPublishDataGreaterThanTwentyMib catalog_ backend is_cancelled request) initialised.
Proof.
  assert (forall s, fails s (@initialised unit)) as He.
  { intros s e w Hw. induction s as [|n s IH]; [exact Hw|]. by eapply IH, ready_less. }
  apply lock_rule. intros b. apply or_cancelled_rule; [apply He|]. eapply step_rule; [apply He|apply stream_init_rule|].
  apply or_cancelled_rule; [apply He|]. eapply step_rule; [apply He|apply large_init_rule|].
  apply or_cancelled_rule; [apply He|]. apply same_step_rule; [apply He|apply catalog_rule; right; left|].
  apply release_then. by apply triple_ret.
Qed.

Lemma free_less s w : ready_stream false s w -> ready_stream false [] w.
Proof. induction s as [|n s IH]; [done|]. intros Hw. by eapply IH, ready_less. Qed.

(** The steps of the publication leave the flag alone. *)
Definition publishing : list ApiClientName := [ApiPublish; ApiBlob; ApiConfig].
Abbreviation idle m := (total (ready_stream false publishing) m (free_after publishing)).

Lemma idle_call {A B} n (answer : WebBackend -> list WebCall -> WebCall -> A) c (f : A -> ST ClientWorld B) :
  n ∈ publishing -> (forall a, idle (f a)) -> idle (let* url := deref n in let* a := web backend answer (c url) in f a).
Proof.
  intros Hn Hf. eapply triple_bind; [by apply holds_deref|]. intros url.
  eapply triple_bind; [apply holds_web|]. exact Hf.
Qed.

Lemma idle_ret {A} (a : A) : idle (st_ret a).
Proof. by apply triple_ret. Qed.

Lemma publication_rule request : idle (init_stream_publication backend is_cancelled uuid request).
Proof.
  apply idle_call; [left|]. intros [pub|e]; [|apply idle_ret]. destruct (publication_id pub) as [id|]; [|apply idle_ret].
  eapply triple_bind; [apply holds_world|]. intros w0. eapply triple_pre; [by intros w [Hw _]|].
  case_match; [apply idle_ret|]. eapply triple_bind; [apply holds_uuid|]. intros handle. apply stream_cancel_rule.
  apply idle_call; [right; left|]. intros [u|e]; [|apply idle_ret].
  eapply triple_bind; [apply holds_uuid|]. intros partition. apply stream_cancel_rule.
  apply idle_call; [left|]. intros [u'|e]; [|apply idle_ret]. apply stream_cancel_rule.
  apply idle_call; [left|]. intros r. apply idle_ret.
Qed.

Lemma large_rule request :
  total (ready_stream false []) (PublishDataGreaterThanTwentyMib catalog_ backend is_cancelled uuid request) (free_after []).
Proof.
  unfold PublishDataGreaterThanTwentyMib. eapply triple_bind; [apply large_ready|]. intros [u|e]; [|by apply triple_ret].
  apply add_publish; [left|]. eapply triple_weaken; [apply stream_cancel_rule, publication_rule|done|].
  intros a w. apply free_less.
Qed.

(** ** The property *)

Inductive StreamRequest := StreamData (r : PublishDataRequest) | StreamSdii (r : PublishSdiiRequest).

Definition publish_stream (r : StreamRequest) : ST ClientWorld (Response text) :=
  match r with
  | StreamData r => PublishData catalog_ backend is_cancelled uuid r
  | StreamSdii r => PublishSdii catalog_ backend is_cancelled r
  end.

(** One request after the other. *)
Fixpoint publish_requests (rs : list StreamRequest) : ST ClientWorld (list (Response text)) :=
  match rs with
  | [] => st_ret []
  | r :: rest =>
    let* a := publish_stream r in
    let* answers := publish_requests rest in
    st_ret (a :: answers)
  end.

Lemma publish_rule r : total (ready_stream false []) (publish_stream r) (free_after []).
Proof.
  destruct r as [r|r]; [|apply sdii_rule]. cbn [publish_stream]. unfold PublishData.
  destruct (data_ r); [|by apply triple_ret]. destruct (_ <=? _); [apply small_rule|apply large_rule].
Qed.

(** C14. A new stream client answers every sequence of requests, once each: no request
    waits for the initialisation of an earlier one, whether that was answered,
    failed or was cancelled, and no null client is used.  The answers of the network
    are any; the only exception is the one the code does not handle, a successful lookup
    of a service that lists no URL, for which [at(0)] throws. *)
Theorem stream_requests_answered rs :
  match publish_requests rs NewLayerClient with
  | Some (answers, w) => length answers = length rs /\ init_in_progress_ w = false
  | None => empty_lookup
  end.
Proof.
  assert (total (ready_stream false []) (publish_requests rs) (fun answers w => ready_stream false [] w /\ length answers = length rs)) as H.
  { induction rs as [|r rs IH]; cbn [publish_requests]; [by apply triple_ret|].
    eapply triple_bind; [apply publish_rule|]. intros a. eapply triple_bind; [exact IH|]. intros answers.
    apply triple_ret. cbn. by intros w [Hw ->]. }
  specialize (H NewLayerClient ltac:(by split_and!)).
  destruct (publish_requests rs NewLayerClient) as [[answers w]|]; [|done]. by destruct H as [(Hb & _) Hl].
Qed.
End answered.

(** ** What a published request went through *)

Section published.
  Variables (catalog_ : HRN) (backend : WebBackend) (is_cancelled : nat -> bool) (uuid : nat -> text).

(** Looking up services and the catalog. *)
Definition setup_call (c : WebCall) : Prop :=
  match c with WebPlatformApis _ _ _ | WebResourcesApis _ _ _ _ | WebGetCatalog _ _ _ => True | _ => False end.

Definition only_setup (l0 : list WebCall) (w : ClientWorld) : Prop :=
  exists setup, web_calls w = l0 ++ setup /\ Forall setup_call setup.
Definition sets_up {A} (m : ST ClientWorld A) : Prop := forall l0, ReadFacts.triple True (only_setup l0) m (fun _ => only_setup l0).

Lemma sets_up_ret {A} (a : A) : sets_up (st_ret a).
Proof. intros l0. by apply triple_ret. Qed.

Lemma sets_up_bind {A B} (m : ST ClientWorld A) (f : A -> ST ClientWorld B) :
  sets_up m -> (forall a, sets_up (f a)) -> sets_up (st_bind m f).
Proof. intros Hm Hf l0. eapply triple_bind; [apply Hm|]. intros a. apply Hf. Qed.

Lemma sets_up_modify f : (forall w, web_calls (f w) = web_calls w) -> sets_up (modify f).
Proof. intros Hf l0 w Hw. unfold modify, only_setup in *. by rewrite Hf. Qed.

(** The catalog and the clients did not change. *)
Definition same (w1 w : ClientWorld) : Prop := catalog_model_ w1 = catalog_model_ w /\ apiclients w1 = apiclients w.

Lemma web_log {A} (answer : WebBackend -> list WebCall -> WebCall -> A) c w :
  exists w1, web backend answer c w = Some (answer backend (web_calls w) c, w1) /\
    web_calls w1 = web_calls w ++ [c] /\ same w1 w.
Proof. unfold web. destruct (web_asynchronous backend); eexists; by split_and!. Qed.

Lemma sets_up_web {A} (answer : WebBackend -> list WebCall -> WebCall -> A) c : setup_call c -> sets_up (web backend answer c).
Proof.
  intros Hc l0 w (setup & Hl & Hs). destruct (web_log answer c w) as (w1 & -> & Hw1 & _).
  exists (setup ++ [c]). rewrite Hw1, Hl, app_assoc. split; [done|]. apply Forall_app. split; [done|]. by constructor.
Qed.

Lemma sets_up_deref n : sets_up (deref n).
Proof. intros l0 w Hw. unfold deref. by destruct (apiclients w n). Qed.

Lemma sets_up_world : sets_up get_world.
Proof. by intros l0 w Hw. Qed.

Lemma sets_up_undefined {A} : sets_up (@undefined A).
Proof. by intros l0 w Hw. Qed.

Lemma sets_up_cancel {A} (f : ST ClientWorld (Response A)) : sets_up f -> sets_up (or_cancelled is_cancelled f).
Proof.
  intros Hf l0 w Hw. unfold or_cancelled, ExecuteOrCancelled. destruct (_ && _); [exact Hw|]. by apply Hf.
Qed.

Lemma sets_up_lock c : sets_up (lock_unless c).
Proof.
  unfold lock_unless. apply sets_up_bind; [apply sets_up_world|]. intros w. destruct (c w); [apply sets_up_ret|].
  intros l0 w' Hw. unfold AquireInitLock. by destruct (init_in_progress_ w').
Qed.

Ltac sets_up := repeat first
  [ apply sets_up_ret | apply sets_up_world | apply sets_up_undefined | apply sets_up_deref | apply sets_up_lock
  | apply sets_up_cancel | apply sets_up_web; done | apply sets_up_modify; done | apply sets_up_bind; [|intros ?] | case_match ].

Lemma large_sets_up request : sets_up (InitPublishDataGreaterThanTwentyMib catalog_ backend is_cancelled request).
Proof.
  unfold InitPublishDataGreaterThanTwentyMib, init_step, release_init, StreamInitApiClients, InitApiClientsGreaterThanTwentyMib,
    StreamInitCatalogModel, lookup_one, create_clients, SetBaseUrl, LookupApi, SetBaseUrl. sets_up.
Qed.

(** A function that succeeds was not cancelled. *)
Lemma or_cancelled_success {A} (f : ST ClientWorld (Response A)) w a w' :
  or_cancelled is_cancelled f w = Some (Success a, w') ->
  exists w1, f w1 = Some (Success a, w') /\ web_calls w1 = web_calls w /\ same w1 w.
Proof. unfold or_cancelled, ExecuteOrCancelled. destruct (_ && _); [done|]. intros E. eexists. split; [exact E|done]. Qed.

Lemma call_success {A B} n (answer : WebBackend -> list WebCall -> WebCall -> A) c (f : A -> ST ClientWorld B) w b w' :
  (let* url := deref n in let* a := web backend answer (c url) in f a) w = Some (b, w') ->
  exists url w1, f (answer backend (web_calls w) (c url)) w1 = Some (b, w') /\
    apiclients w n = Some url /\ web_calls w1 = web_calls w ++ [c url] /\ same w1 w.
Proof.
  unfold st_bind, deref. destruct (apiclients w n) as [url|] eqn:En; [|done].
  destruct (web_log answer (c url) w) as (w1 & -> & Hw1 & Hc). intros E. by exists url, w1.
Qed.

(** The four calls of a publication. *)
Definition publication_calls (r : PublishDataRequest) (publish blob id content_type handle partition : text) : list WebCall :=
  [WebInitPublication publish (MkPublication None (Some [layer_id_ r]) None None) (billing_tag_ r);
   WebPutBlob blob (layer_id_ r) content_type handle (data_ r) (billing_tag_ r);
   WebUploadPartitions publish [MkPublishPartition partition handle] id (layer_id_ r) (billing_tag_ r);
   WebSubmitPublication publish id (billing_tag_ r)].

(** They were answered with success, the first one with the id of the publication. *)
Definition all_succeed (l : list WebCall) (id : text) (steps : list WebCall) : Prop :=
  (exists pub init, head steps = Some init /\ web_publication backend l init = Success pub /\ publication_id pub = Some id) /\
  forall k c, (1 <= k)%nat -> steps !! k = Some c -> web_done backend (l ++ take k steps) c = Success tt.

Lemma publication_success request w partition w' :
  init_stream_publication backend is_cancelled uuid request w = Some (Success partition, w') ->
  exists publish blob id content_type handle,
    let steps := publication_calls request publish blob id content_type handle partition in
    FindContentTypeForLayerId (layer_id_ request) (catalog_model_ w) = content_type /\ content_type <> [] /\
    web_calls w' = web_calls w ++ steps /\ all_succeed (web_calls w) id steps.
Proof.
  intros E. apply call_success in E as (publish & w1 & E & Hp & Hw1 & Hc1 & Ha1).
  destruct (web_publication backend _ _) as [pub|] eqn:Epub; [|done]. destruct (publication_id pub) as [id|] eqn:Eid; [|done].
  unfold st_bind, get_world in E. destruct (FindContentTypeForLayerId (layer_id_ request) (catalog_model_ w1)) as [|x ct] eqn:Ect; [done|].
  unfold GenerateUuid in E. apply or_cancelled_success in E as (w2 & E & Hw2 & Hc2 & Ha2). cbn in Hw2, Hc2, Ha2.
  apply call_success in E as (blob & w3 & E & Hb & Hw3 & Hc3 & Ha3).
  destruct (web_done backend _ _) as [[]|] eqn:Eblob; [|done]. unfold GenerateUuid, st_bind in E.
  apply or_cancelled_success in E as (w4 & E & Hw4 & Hc4 & Ha4). cbn in Hw4, Hc4, Ha4.
  apply call_success in E as (publish2 & w5 & E & Hp2 & Hw5 & Hc5 & Ha5).
  destruct (web_done backend (web_calls w4) _) as [[]|] eqn:Eup; [|done].
  apply or_cancelled_success in E as (w6 & E & Hw6 & Hc6 & Ha6).
  apply call_success in E as (publish3 & w7 & E & Hp3 & Hw7 & Hc7 & Ha7).
  destruct (web_done backend (web_calls w6) _) as [[]|] eqn:Esub; [|done]. injection E as <- <-.
  assert (publish2 = publish) as -> by congruence. assert (publish3 = publish) as -> by congruence.
  rewrite Hw2, Hw1 in *. rewrite Hw4, Hw3 in *. rewrite Hw6, Hw5 in *.
  eexists publish, blob, id, (x :: ct), _. cbn. split_and!; [by rewrite <- Hc1|done| |].
  - rewrite Hw7, <- !app_assoc. reflexivity.
  - split; [by exists pub, (WebInitPublication publish (MkPublication None (Some [layer_id_ request]) None None) (billing_tag_ request))|].
    rewrite <- app_assoc in Eup. do 2 rewrite <- app_assoc in Esub. cbn in Eup, Esub.
    intros [|[|[|[|k]]]] c Hk Ec; [lia|..]; cbn in Ec; try discriminate Ec; injection Ec as <-; cbn; assumption.
Qed.

(** C15. A request of more than 20 MiB that the stream client reports as published has
    been published in full: after lookups the client made exactly four calls, which
    start a publication, store the data, upload the metadata with the handle of that
    data, and submit the publication, each after the success of the one before. *)
Theorem large_request_published_in_full request w partition w' :
  kTwentyMib < Z.of_nat (length (default [] (data_ request))) ->
  PublishData catalog_ backend is_cancelled uuid request w = Some (Success partition, w') ->
  exists setup publish blob id content_type handle,
    let steps := publication_calls request publish blob id content_type handle partition in
    content_type <> [] /\ Forall setup_call setup /\ web_calls w' = web_calls w ++ setup ++ steps /\
    all_succeed (web_calls w ++ setup) id steps.
Proof.
  intros Hlen. unfold PublishData. destruct (data_ request) as [data|] eqn:Ed; [|done]. cbn in Hlen.
  destruct (Z.leb_spec (Z.of_nat (length data)) kTwentyMib); [lia|].
  unfold PublishDataGreaterThanTwentyMib, st_bind.
  pose proof (large_sets_up request (web_calls w) w (ex_intro _ [] (conj (eq_sym (app_nil_r _)) (Forall_nil_2 _)))) as Hs.
  destruct (InitPublishDataGreaterThanTwentyMib _ _ _ _ w) as [[[u|e] w1]|]; [|done|done]. destruct Hs as (setup & Hl & Hs).
  intros E. apply or_cancelled_success in E as (w2 & E & Hw2 & _).
  apply publication_success in E as (publish & blob & id & ct & handle & _ & Hct & Hw' & Hall).
  exists setup, publish, blob, id, ct, handle. cbn zeta. rewrite Hw2, Hl in *. by rewrite <- app_assoc in Hw'.
Qed.
End published.

(** ** A concrete client *)

Definition small_request : PublishDataRequest := MkPublishDataRequest (Some (str "data")) (str "images") None None None.
Definition sdii_request : PublishSdiiRequest := MkPublishSdiiRequest (Some (str "message")) (str "images") None None None.

Example small_request_calls :
  option_map (fun o => (o.1, drop 2 (web_calls o.2)))
    (PublishData layer_catalog (layer_backend true []) (fun _ => false) layer_uuid small_request NewLayerClient) =
  Some (Success (str "trace"),
    [WebGetCatalog (str "https://config") (ToString layer_catalog) None;
     WebIngestData (str "https://ingest") (str "images") (str "image/png") (Some (str "data")) None None None]).
Proof. vm_compute. reflexivity. Qed.

(** With a failed lookup of the config service: the next request takes the lookup server
    for the config service. *)
Example failed_config_lookup :
  option_map (fun o => (o.1, last (web_calls o.2)))
    (publish_requests layer_catalog (layer_backend true (str "config")) (fun _ => false) layer_uuid
      [StreamData small_request; StreamSdii sdii_request] NewLayerClient) =
  Some ([Failure (ApiError_of_code NotFound (str "none") false); Success (str "trace")],
    Some (WebIngestSdii (str "https://ingest") (str "images") (Some (str "message")) None None None)).
Proof. vm_compute. reflexivity. Qed.

(** A lookup that lists nothing: the request is not answered. *)
Example empty_lookup_throws :
  let b := layer_backend true [] in
  let silent := MkWebBackend true (fun _ _ => Success []) (web_catalog b) (web_version b) (web_publication b)
    (web_status b) (web_partitions b) (web_ingest b) (web_done b) in
  PublishData layer_catalog silent (fun _ => false) layer_uuid small_request NewLayerClient = None.
Proof. vm_compute. reflexivity. Qed.

Definition large_request (data : text) : PublishDataRequest := MkPublishDataRequest (Some data) (str "images") None None None.

Lemma large_data : exists data : text, kTwentyMib < Z.of_nat (length data).
Proof. exists (replicate (Z.to_nat (kTwentyMib + 1)) "x"%char). rewrite length_replicate, Z2Nat.id; unfold kTwentyMib; lia. Qed.

Lemma large_request_succeeds data :
  kTwentyMib < Z.of_nat (length data) ->
  exists w', PublishData layer_catalog (layer_backend true []) (fun _ => false) layer_uuid (large_request data) NewLayerClient
    = Some (Success (str "uuid1"), w').
Proof.
  intros Hlen. unfold PublishData. cbn [large_request data_].
  destruct (Z.leb_spec (Z.of_nat (length data)) kTwentyMib); [lia|]. clear Hlen H.
  eexists. vm_compute. reflexivity.
Qed.

Lemma large_request_published_in_full_witness :
  exists data w' setup publish blob id content_type handle,
    kTwentyMib < Z.of_nat (length data) /\
    web_calls w' = setup ++ publication_calls (large_request data) publish blob id content_type handle (str "uuid1").
Proof.
  destruct large_data as [data Hlen]. destruct (large_request_succeeds data Hlen) as [w' E].
  destruct (large_request_published_in_full layer_catalog (layer_backend true []) (fun _ => false) layer_uuid
    (large_request data) NewLayerClient (str "uuid1") w' Hlen E) as (setup & publish & blob & id & ct & handle & _ & _ & Hw & _).
  exists data, w', setup, publish, blob, id, ct, handle. split; [exact Hlen|exact Hw].
Defined.
