(* ===== verification/Crypto.v ===== *)
(** * SHA-256 and HMAC

    [olp-cpp-sdk-authentication/src/Crypto.cpp], which signs the requests of the
    authentication client.  The arrays of the code are modelled with their
    indeterminate contents: reading a word that was not written, or outside an
    array or a vector, is the result [None] of a function. *)

From stdpp Require Import base numbers list strings.
From Stdlib Require Import ZArith Lia Bool Ascii.
From S2P Require Import Prelude Decimal.
Local Open Scope Z_scope.
Local Open Scope olp_scope.

(** ** Arrays, vectors and loops *)

(** [uint32_t*] from [new uint32_t[n]]: [None] is an indeterminate word. *)
Abbreviation array := (list (option Z)).

Definition new_array (n : nat) : array := replicate n None.

(** [memset(a, 0, n)] counts bytes; a word has four. *)
Definition memset0 (a : array) (n : nat) : array := replicate (n / 4) (Some 0) ++ drop (n / 4) a.

Definition read (a : array) (i : nat) : option Z := mjoin (a !! i).

Definition write (i : nat) (v : Z) (a : array) : option array :=
  if (i <? length a)%nat then Some (<[i := Some v]> a) else None.

(** Assignment to an element of a vector. *)
Definition vector_set (i : nat) (v : Z) (a : list Z) : option (list Z) :=
  if (i <? length a)%nat then Some (<[i := v]> a) else None.

(** [for (i = lo; i < hi; i++)] *)
Fixpoint for_from {S : Type} (lo n : nat) (body : nat -> S -> option S) (s : S) : option S :=
  match n with
  | O => Some s
  | Datatypes.S n' => s' ← body lo s; for_from (Datatypes.S lo) n' body s'
  end.

Definition for_range {S : Type} (lo hi : nat) (body : nat -> S -> option S) (s : S) : option S :=
  for_from lo (hi - lo) body s.

(** ** Constants and macros *)

Definition SHA256_HASH_VALUE_LENGTH : nat := 8.
Definition SHA256_CONSTANTS_LENGTH : nat := 64.
Definition SHA256_LAST_CHUNK_LENGTH : nat := 64.
Definition SHA256_MESSAGE_SCHEDULE_LENGTH : nat := 64.

Definition ROTR (x n : Z) : Z := (x >> n) ||| (x <<32 (32 - n)).
Definition SHA256_CH (x y z : Z) : Z := Z.lxor (x &&& y) (u32 (Z.lnot x) &&& z).
Definition SHA256_MAJ (x y z : Z) : Z := Z.lxor (Z.lxor (x &&& y) (x &&& z)) (y &&& z).
Definition SHA256_SUM0 (x : Z) : Z := Z.lxor (Z.lxor (ROTR x 2) (ROTR x 13)) (ROTR x 22).
Definition SHA256_SUM1 (x : Z) : Z := Z.lxor (Z.lxor (ROTR x 6) (ROTR x 11)) (ROTR x 25).
Definition SHA256_SIGMA0 (x : Z) : Z := Z.lxor (Z.lxor (ROTR x 7) (ROTR x 18)) (x >> 3).
Definition SHA256_SIGMA1 (x : Z) : Z := Z.lxor (Z.lxor (ROTR x 17) (ROTR x 19)) (x >> 10).

(** The rows of the table. *)
Definition SHA256_K : list Z :=
  mjoin [
    [0x428a2f98; 0x71374491; 0xb5c0fbcf; 0xe9b5dba5; 0x3956c25b; 0x59f111f1];
    [0x923f82a4; 0xab1c5ed5; 0xd807aa98; 0x12835b01; 0x243185be; 0x550c7dc3];
    [0x72be5d74; 0x80deb1fe; 0x9bdc06a7; 0xc19bf174; 0xe49b69c1; 0xefbe4786];
    [0x0fc19dc6; 0x240ca1cc; 0x2de92c6f; 0x4a7484aa; 0x5cb0a9dc; 0x76f988da];
    [0x983e5152; 0xa831c66d; 0xb00327c8; 0xbf597fc7; 0xc6e00bf3; 0xd5a79147];
    [0x06ca6351; 0x14292967; 0x27b70a85; 0x2e1b2138; 0x4d2c6dfc; 0x53380d13];
    [0x650a7354; 0x766a0abb; 0x81c2c92e; 0x92722c85; 0xa2bfe8a1; 0xa81a664b];
    [0xc24b8b70; 0xc76c51a3; 0xd192e819; 0xd6990624; 0xf40e3585; 0x106aa070];
    [0x19a4c116; 0x1e376c08; 0x2748774c; 0x34b0bcb5; 0x391c0cb3; 0x4ed8aa4a];
    [0x5b9cca4f; 0x682e6ff3; 0x748f82ee; 0x78a5636f; 0x84c87814; 0x8cc70208];
    [0x90befffa; 0xa4506ceb; 0xbef9a3f7; 0xc67178f2] ].

Definition HMAC_IPAD_BYTE : Z := 0x36.
Definition HMAC_OPAD_BYTE : Z := 0x5c.
Definition HMAC_B : nat := 64.

(** ** SHA-256 *)

Definition sha256Init : list Z :=
  [0x6a09e667; 0xbb67ae85; 0x3c6ef372; 0xa54ff53a] ++
  [0x510e527f; 0x9b05688c; 0x1f83d9ab; 0x5be0cd19].

(** The first two loops of [sha256Transform]: the words of the chunk, and those
    computed from them. *)
Definition load_word (currentChunk : list Z) (startIndex i : nat) (w : array) : option array :=
  let j := (4 * i)%nat in
  c0 ← currentChunk !! (startIndex + j)%nat;
  c1 ← currentChunk !! (startIndex + j + 1)%nat;
  c2 ← currentChunk !! (startIndex + j + 2)%nat;
  c3 ← currentChunk !! (startIndex + j + 3)%nat;
  write i (u32 (Z.shiftl c0 24 ||| Z.shiftl c1 16 ||| Z.shiftl c2 8 ||| c3)) w.

Definition extend_word (i : nat) (w : array) : option array :=
  w2 ← read w (i - 2);
  w7 ← read w (i - 7);
  w15 ← read w (i - 15);
  w16 ← read w (i - 16);
  write i (u32 (SHA256_SIGMA1 w2 + w7 + SHA256_SIGMA0 w15 + w16)) w.

Definition message_schedule (currentChunk : list Z) (startIndex : nat) : option array :=
  let w := memset0 (new_array SHA256_MESSAGE_SCHEDULE_LENGTH) SHA256_MESSAGE_SCHEDULE_LENGTH in
  w ← for_range 0 16 (load_word currentChunk startIndex) w;
  for_range 16 SHA256_MESSAGE_SCHEDULE_LENGTH extend_word w.

(** The body of the loop over the working variables. *)
Definition transform_step (w : array) (i : nat) (v : array) : option array :=
  v0 ← read v 0; v1 ← read v 1; v2 ← read v 2; v3 ← read v 3;
  v4 ← read v 4; v5 ← read v 5; v6 ← read v 6; v7 ← read v 7;
  k ← SHA256_K !! i;
  wi ← read w i;
  let t1 := u32 (v7 + SHA256_SUM1 v4 + SHA256_CH v4 v5 v6 + k + wi) in
  let t2 := u32 (SHA256_SUM0 v0 + SHA256_MAJ v0 v1 v2) in
  v ← write 7 v6 v;
  v ← write 6 v5 v;
  v ← write 5 v4 v;
  v ← write 4 (u32 (v3 + t1)) v;
  v ← write 3 v2 v;
  v ← write 2 v1 v;
  v ← write 1 v0 v;
  write 0 (u32 (t1 + t2)) v.

Definition copy_hash (hashValue : list Z) (i : nat) (v : array) : option array :=
  h ← hashValue !! i; write i h v.

Definition add_hash (workingVar : array) (i : nat) (hashValue : list Z) : option (list Z) :=
  h ← hashValue !! i; v ← read workingVar i; vector_set i (u32 (h + v)) hashValue.

Definition sha256Transform (currentChunk : list Z) (startIndex : nat) (hashValue : list Z)
    : option (list Z) :=
  w ← message_schedule currentChunk startIndex;
  workingVar ← for_range 0 SHA256_HASH_VALUE_LENGTH (copy_hash hashValue)
                 (new_array SHA256_HASH_VALUE_LENGTH);
  workingVar ← for_range 0 SHA256_MESSAGE_SCHEDULE_LENGTH (transform_step w) workingVar;
  for_range 0 SHA256_HASH_VALUE_LENGTH (add_hash workingVar) hashValue.

(** The chunks after the complete ones: the rest of the source with its padding,
    and the length in bits. *)
Definition final_chunks (src : list Z) : list (list Z) :=
  let length_ := length src in
  let chunksCount := (length_ / SHA256_LAST_CHUNK_LENGTH)%nat in
  let lastChunkSize := (length_ mod SHA256_LAST_CHUNK_LENGTH)%nat in
  let rest := drop (chunksCount * SHA256_LAST_CHUNK_LENGTH) src in
  let '(chucksToProcess, lastChunk) :=
    if (lastChunkSize <? 56)%nat then ([], rest ++ [0x80])
    else
      let secondLastChunk := rest ++ [0x80] in
      ([secondLastChunk ++ replicate (SHA256_LAST_CHUNK_LENGTH - length secondLastChunk) 0], [])
  in
  let lastChunk :=
    lastChunk ++ replicate (SHA256_LAST_CHUNK_LENGTH - 8 - length lastChunk) 0 in
  let srcLength := u64 (Z.of_nat length_ * 8) in
  let lastChunk :=
    lastChunk ++ ((fun i => Z.shiftr srcLength ((i - 1) * 8) &&& 0xff) <$> [8; 7; 6; 5; 4; 3; 2; 1]) in
  chucksToProcess ++ [lastChunk].

(** The bytes of a word, as the last loop of [sha256] appends them. *)
Definition word_bytes (value : Z) : list Z :=
  let v3 := u8 value in
  let value := value >> 8 in
  let v2 := u8 value in
  let value := value >> 8 in
  let v1 := u8 value in
  let value := value >> 8 in
  [u8 value; v1; v2; v3].

Definition append_word (hashValue : list Z) (i : nat) (ret : list Z) : option (list Z) :=
  value ← hashValue !! i; Some (ret ++ word_bytes value).

Fixpoint transform_chunks (chunks : list (list Z)) (hashValue : list Z) : option (list Z) :=
  match chunks with
  | [] => Some hashValue
  | chunk :: rest => hashValue ← sha256Transform chunk 0 hashValue; transform_chunks rest hashValue
  end.

Definition sha256 (src : list Z) : option (list Z) :=
  let chunksCount := (length src / SHA256_LAST_CHUNK_LENGTH)%nat in
  hashValue ← for_range 0 chunksCount
                (fun i => sha256Transform src (i * SHA256_LAST_CHUNK_LENGTH)) sha256Init;
  hashValue ← transform_chunks (final_chunks src) hashValue;
  for_range 0 SHA256_HASH_VALUE_LENGTH (append_word hashValue) [].

(** ** HMAC *)

Definition toUnsignedCharVector (src : text) : list Z := char_code <$> src.

(** Steps 4 and 7: [k0[i] ^ byte] for the first [HMAC_B] bytes. *)
Definition xor_pad (byte : Z) (k0 : list Z) : option (list Z) :=
  for_range 0 HMAC_B (fun i ret => k ← k0 !! i; Some (ret ++ [Z.lxor k byte])) [].

Definition hmac_sha256 (key message : text) : option (list Z) :=
  let keyVec := toUnsignedCharVector key in
  '(keyLength, k0) ← (if (length key <=? HMAC_B)%nat then Some (length key, keyVec)
                      else newKey ← sha256 keyVec; Some (length newKey, newKey));
  let k0 := k0 ++ replicate (HMAC_B - keyLength) 0 in
  k0XORipad ← xor_pad HMAC_IPAD_BYTE k0;
  hk0XORipadMsg ← sha256 (k0XORipad ++ toUnsignedCharVector message);
  s8 ← xor_pad HMAC_OPAD_BYTE k0;
  sha256 (s8 ++ hk0XORipadMsg).
