(* ===== verification/Fips180.v ===== *)
(** * The standards FIPS 180-4 and FIPS 198-1

    The specification against which [Crypto] is proved: SHA-256 and HMAC as the two
    standards named in [Crypto.cpp] define them, on messages of bits.  The constants
    are computed from their definition, the roots of the first prime numbers. *)

From stdpp Require Import base numbers list.
From Stdlib Require Import ZArith Lia Bool.
From S2P Require Import Prelude.
Local Open Scope Z_scope.

(** ** Bits and words *)

(** The [n] lowest bits of [z], the most significant one first. *)
Fixpoint bits (n : nat) (z : Z) : list bool :=
  match n with
  | O => []
  | S n' => bits n' (z / 2) ++ [Z.odd z]
  end.

Definition of_bits (l : list bool) : Z := foldl (fun a b => 2 * a + Z.b2z b) 0 l.

(** The first [count] blocks of [n] elements. *)
Fixpoint parse {A : Type} (count n : nat) (l : list A) : list (list A) :=
  match count with
  | O => []
  | S c => take n l :: parse c n (drop n l)
  end.

(** Addition modulo 2^32. *)
Definition add (x y : Z) : Z := (x + y) mod 2 ^ 32.

(** Section 3.2: the circular right shift and the right shift of a 32-bit word. *)
Definition rotr (n x : Z) : Z := x / 2 ^ n + (x mod 2 ^ n) * 2 ^ (32 - n).
Definition shr (n x : Z) : Z := x / 2 ^ n.

(** The complement of a 32-bit word. *)
Definition complement (x : Z) : Z := 2 ^ 32 - 1 - x.

(** ** Section 4.1.2: functions *)

Definition Ch (x y z : Z) : Z := Z.lxor (Z.land x y) (Z.land (complement x) z).
Definition Maj (x y z : Z) : Z := Z.lxor (Z.lxor (Z.land x y) (Z.land x z)) (Z.land y z).
Definition Sigma0 (x : Z) : Z := Z.lxor (Z.lxor (rotr 2 x) (rotr 13 x)) (rotr 22 x).
Definition Sigma1 (x : Z) : Z := Z.lxor (Z.lxor (rotr 6 x) (rotr 11 x)) (rotr 25 x).
Definition sigma0 (x : Z) : Z := Z.lxor (Z.lxor (rotr 7 x) (rotr 18 x)) (shr 3 x).
Definition sigma1 (x : Z) : Z := Z.lxor (Z.lxor (rotr 17 x) (rotr 19 x)) (shr 10 x).

(** ** Sections 4.2.2 and 5.3.3: constants *)

Definition is_prime (n : Z) : bool :=
  (2 <=? n) && forallb (fun d => negb (n mod d =? 0)) (seqZ 2 (n - 2)).

Definition primes (count : nat) : list Z := take count (filter is_prime (seqZ 2 400)).

(** The integer part of the cube root, bit by bit from [2^n] down. *)
Fixpoint cube_root_from (n : nat) (root z : Z) : Z :=
  let next := root + 2 ^ Z.of_nat n in
  let root' := if next * next * next <=? z then next else root in
  match n with O => root' | S n' => cube_root_from n' root' z end.

(** The first 32 bits of the fractional parts of the roots of a number below 2^9. *)
Definition square_root_fraction (p : Z) : Z := Z.sqrt (p * 2 ^ 64) mod 2 ^ 32.
Definition cube_root_fraction (p : Z) : Z := cube_root_from 40 0 (p * 2 ^ 96) mod 2 ^ 32.

Definition K : list Z := cube_root_fraction <$> primes 64.
Definition initial_hash : list Z := square_root_fraction <$> primes 8.

(** ** Section 5: padding and parsing *)

(** The number of zero bits after a message of [l] bits and the bit 1. *)
Definition zero_bits (l : Z) : Z := (448 - (l + 1)) mod 512.

Definition pad (m : list bool) : list bool :=
  let l := Z.of_nat (length m) in
  m ++ true :: replicate (Z.to_nat (zero_bits l)) false ++ bits 64 l.

(** ** Section 6.2: the hash *)

(** The first [t] words of the message schedule of a block. *)
Fixpoint schedule (M : list Z) (t : nat) : list Z :=
  match t with
  | O => []
  | S t' =>
    let W := schedule M t' in
    let at_ i := nth i W 0 in
    W ++ [ if (t' <? 16)%nat then nth t' M 0
           else add (add (add (sigma1 (at_ (t' - 2)%nat)) (at_ (t' - 7)%nat))
                         (sigma0 (at_ (t' - 15)%nat))) (at_ (t' - 16)%nat) ]
  end.

Record Variables := MkVariables { a : Z; b : Z; c : Z; d : Z; e : Z; f : Z; g : Z; h : Z }.

Definition variables_of (H : list Z) : Variables :=
  MkVariables (nth 0 H 0) (nth 1 H 0) (nth 2 H 0) (nth 3 H 0)
              (nth 4 H 0) (nth 5 H 0) (nth 6 H 0) (nth 7 H 0).
Definition list_of (v : Variables) : list Z := [a v; b v; c v; d v; e v; f v; g v; h v].

Definition round (v : Variables) (kw : Z * Z) : Variables :=
  let T1 := add (add (add (add (h v) (Sigma1 (e v))) (Ch (e v) (f v) (g v))) kw.1) kw.2 in
  let T2 := add (Sigma0 (a v)) (Maj (a v) (b v) (c v)) in
  MkVariables (add T1 T2) (a v) (b v) (c v) (add (d v) T1) (e v) (f v) (g v).

(** The hash value after a block of 16 words. *)
Definition compress (H M : list Z) : list Z :=
  let v := foldl round (variables_of H) (zip K (schedule M 64)) in
  zip_with add H (list_of v).

Definition words (block : list bool) : list Z := of_bits <$> parse 16 32 block.

Definition hash_words (m : list bool) : list Z :=
  let p := pad m in
  foldl compress initial_hash (words <$> parse (length p / 512) 512 p).

Definition SHA256 (m : list bool) : list bool := mjoin (bits 32 <$> hash_words m).

(** ** FIPS 198-1: the keyed hash *)

(** The bits of bytes. *)
Definition bytes (l : list Z) : list bool := mjoin (bits 8 <$> l).

(** Steps 1 to 3 with a block of [B] = 512 bits. *)
Definition K0 (key : list bool) : list bool :=
  let k := if (length key <=? 512)%nat then key else SHA256 key in
  k ++ replicate (512 - length k) false.

Definition ipad : list bool := bytes (replicate 64 0x36).
Definition opad : list bool := bytes (replicate 64 0x5c).

Definition HMAC (key message : list bool) : list bool :=
  let k0 := K0 key in
  SHA256 (zip_with xorb k0 opad ++ SHA256 (zip_with xorb k0 ipad ++ message)).
