(* ===== verification/CryptoFacts.v ===== *)
(** * SHA-256 and HMAC are those of the standards

    [Crypto.sha256] and [Crypto.hmac_sha256] read no indeterminate word and nothing
    outside their arrays, and return the digests of [Fips180]. *)

From stdpp Require Import base numbers list strings.
From Stdlib Require Import ZArith Lia Bool Ascii.
From S2P Require Import Prelude Decimal Crypto Fips180.
Local Open Scope Z_scope.
Local Open Scope olp_scope.

(** ** Bits *)

Lemma length_bits n z : length (bits n z) = n.
Proof. revert z. induction n as [|n IH]; intros z; simpl; [done|]. rewrite length_app, IH. simpl. lia. Qed.

Lemma bits_app m n z : bits (m + n) z = bits m (z / 2 ^ Z.of_nat n) ++ bits n z.
Proof.
  revert z. induction n as [|n IH]; intros z.
  - by rewrite Nat.add_0_r, Z.div_1_r, app_nil_r.
  - rewrite Nat.add_succ_r. cbn [bits]. rewrite IH, <- app_assoc. f_equal. f_equal.
    rewrite Z.div_div by lia. f_equal.
    by rewrite Nat2Z.inj_succ, Z.pow_succ_r by lia.
Qed.

Lemma of_bits_app l1 l2 : of_bits (l1 ++ l2) = of_bits l1 * 2 ^ Z.of_nat (length l2) + of_bits l2.
Proof.
  unfold of_bits. rewrite foldl_app. generalize (foldl (fun a b => 2 * a + Z.b2z b) 0 l1) as n.
  induction l2 as [|x l2 IH] using rev_ind; intros n; [simpl; lia|].
  rewrite !foldl_app, length_app. simpl. rewrite IH, Nat.add_1_r, Nat2Z.inj_succ, Z.pow_succ_r; lia.
Qed.

Lemma of_bits_bits n z : of_bits (bits n z) = z mod 2 ^ Z.of_nat n.
Proof.
  revert z. induction n as [|n IH]; intros z; [by rewrite Z.mod_1_r|].
  cbn [bits]. rewrite of_bits_app, IH. simpl length.
  rewrite (Nat2Z.inj_succ n), Z.pow_succ_r by lia.
  change (of_bits [Z.odd z]) with (0 + Z.b2z (Z.odd z)).
  pose proof (pow2_pos (Z.of_nat n)). rewrite (Z.rem_mul_r z 2) by lia.
  rewrite Zmod_odd. unfold Z.b2z. destruct (Z.odd z); lia.
Qed.

Lemma of_bits_range l : 0 <= of_bits l < 2 ^ Z.of_nat (length l).
Proof.
  induction l as [|x l IH] using rev_ind; [done|].
  rewrite of_bits_app, length_app, Nat.add_1_r, Nat2Z.inj_succ, Z.pow_succ_r by lia.
  change (of_bits [x]) with (0 + Z.b2z x). simpl length. destruct x; simpl Z.b2z; lia.
Qed.

Lemma bits_wrap n z : bits n (wrap (Z.of_nat n) z) = bits n z.
Proof.
  revert z. unfold wrap. induction n as [|n IH]; intros z; [done|]. cbn [bits].
  rewrite Nat2Z.inj_succ, Z.pow_succ_r by lia. pose proof (pow2_pos (Z.of_nat n)).
  rewrite (Z.rem_mul_r z 2) by lia. rewrite <- (IH (z / 2)). f_equal.
  - f_equal. rewrite Z.mul_comm, Z.div_add by lia. rewrite Z.div_small; [lia|].
    by apply Z.mod_pos_bound.
  - f_equal. by rewrite Z.odd_add_mul_2, Zmod_odd; destruct (Z.odd z).
Qed.

Lemma bytes_app l1 l2 : bytes (l1 ++ l2) = bytes l1 ++ bytes l2.
Proof. unfold bytes. by rewrite fmap_app, join_app. Qed.

Lemma bytes_cons x l : bytes (x :: l) = bits 8 x ++ bytes l.
Proof. done. Qed.

Lemma length_bytes l : length (bytes l) = (8 * length l)%nat.
Proof.
  induction l as [|x l IH]; [done|]. rewrite bytes_cons, length_app, length_bits, IH. simpl. lia.
Qed.

Lemma bytes_take n l : bytes (take n l) = take (8 * n) (bytes l).
Proof.
  rewrite <- (take_drop n l) at 2. rewrite bytes_app.
  destruct (decide (n <= length l)%nat).
  - rewrite take_app_length'; [done|]. rewrite length_bytes, length_take. lia.
  - rewrite drop_ge by lia. change (bytes []) with (@nil bool). rewrite app_nil_r, (take_ge (bytes _)); [done|].
    rewrite length_bytes, length_take. lia.
Qed.

Lemma bytes_drop n l : bytes (drop n l) = drop (8 * n) (bytes l).
Proof.
  rewrite <- (take_drop n l) at 2. rewrite bytes_app.
  destruct (decide (n <= length l)%nat).
  - rewrite drop_app_length'; [done|]. rewrite length_bytes, length_take. lia.
  - rewrite drop_ge by lia. change (bytes []) with (@nil bool).
    rewrite app_nil_r, drop_ge; [done|]. rewrite length_bytes, length_take. lia.
Qed.

Lemma bytes_zeros n : bytes (replicate n 0) = replicate (8 * n) false.
Proof.
  induction n as [|n IH]; [done|]. replace (8 * S n)%nat with (8 + 8 * n)%nat by lia.
  rewrite replicate_add. simpl replicate at 1.
  by rewrite bytes_cons, IH.
Qed.

Lemma parse_bytes count n l :
  parse count (8 * n) (bytes l) = bytes <$> parse count n l.
Proof.
  revert l. induction count as [|c IH]; intros l; [done|]. cbn [parse fmap list_fmap].
  by rewrite bytes_take, <- bytes_drop, IH.
Qed.

Lemma length_parse {A} count n (l : list A) : length (parse count n l) = count.
Proof. revert l. induction count; intros; simpl; auto. Qed.

Lemma parse_app {A} c1 c2 n (l1 l2 : list A) :
  length l1 = (c1 * n)%nat -> parse (c1 + c2) n (l1 ++ l2) = parse c1 n l1 ++ parse c2 n l2.
Proof.
  revert l1. induction c1 as [|c1 IH]; intros l1 Hl.
  - by apply nil_length_inv in Hl as ->.
  - cbn [parse Nat.add app]. rewrite take_app_le, drop_app_le by lia. f_equal. apply IH.
    rewrite length_drop. lia.
Qed.

Lemma parse_lookup {A} count n (l : list A) i :
  (i < count)%nat -> parse count n l !! i = Some (take n (drop (n * i) l)).
Proof.
  revert l i. induction count as [|c IH]; intros l [|i] Hi; [lia|lia|..]; cbn [parse].
  - by rewrite Nat.mul_0_r.
  - simpl. rewrite IH by lia. rewrite drop_drop. do 3 f_equal. lia.
Qed.

(** ** Words *)

Abbreviation word := (in_range 32).

Create HintDb crypto discriminated.

Lemma load_word_bits c0 c1 c2 c3 :
  Forall (in_range 8) [c0; c1; c2; c3] ->
  of_bits (bytes [c0; c1; c2; c3]) =
  u32 (Z.shiftl c0 24 ||| Z.shiftl c1 16 ||| Z.shiftl c2 8 ||| c3).
Proof.
  intros Hc. repeat (apply Forall_cons in Hc as [? Hc]). unfold in_range in *.
  rewrite !bytes_cons, !of_bits_app, !length_app, !length_bits, !of_bits_bits.
  change (of_bits (bytes [])) with 0. change (length (bytes [])) with 0%nat.
  change (2 ^ Z.of_nat 8) with 256. rewrite !Z.mod_small by lia.
  rewrite <- !Z.lor_assoc, (lor_shiftl_add c2), (lor_shiftl_add c1), (lor_shiftl_add c0) by lia.
  rewrite wrap_small by (unfold in_range; lia). lia.
Qed.

Lemma rotr_ROTR n x : 0 < n < 32 -> word x -> ROTR x n = rotr n x.
Proof.
  intros Hn Hx. unfold ROTR, rotr. unfold wrap. rewrite Z.shiftl_mul_pow2, Z.shiftr_div_pow2 by lia.
  assert (2 ^ 32 = 2 ^ n * 2 ^ (32 - n)) as E by (rewrite <- Z.pow_add_r by lia; f_equal; lia).
  pose proof (pow2_pos n). pose proof (pow2_pos (32 - n)). unfold in_range in Hx.
  rewrite E, Z.mul_mod_distr_r by lia.
  rewrite Z.lor_comm, <- Z.shiftl_mul_pow2 by lia.
  rewrite lor_shiftl_add; [rewrite Z.add_comm; by rewrite Z.shiftl_mul_pow2 by lia|lia|].
  split; [apply Z.div_pos; lia|]. apply Z.div_lt_upper_bound; nia.
Qed.

Lemma word_rotr n x : 0 < n < 32 -> word x -> word (rotr n x).
Proof.
  intros Hn Hx. rewrite <- rotr_ROTR by done. unfold ROTR. apply lor_range; [lia| |apply wrap_range; lia].
  unfold in_range in *. rewrite Z.shiftr_div_pow2 by lia. pose proof (pow2_pos n).
  split; [apply Z.div_pos; lia|]. apply Z.div_lt_upper_bound; nia.
Qed.

Lemma complement_lnot x : word x -> u32 (Z.lnot x) = complement x.
Proof.
  unfold in_range, wrap, complement, Z.lnot. intros Hx.
  symmetry. apply (Z.mod_unique_pos _ _ (-1)); lia.
Qed.

Lemma macros_functions x y z :
  word x ->
  SHA256_CH x y z = Ch x y z /\ SHA256_MAJ x y z = Maj x y z /\
  SHA256_SUM0 x = Sigma0 x /\ SHA256_SUM1 x = Sigma1 x /\
  SHA256_SIGMA0 x = sigma0 x /\ SHA256_SIGMA1 x = sigma1 x.
Proof.
  intros Hx. unfold SHA256_CH, SHA256_SUM0, SHA256_SUM1, SHA256_SIGMA0, SHA256_SIGMA1.
  rewrite complement_lnot, !rotr_ROTR by (done || lia).
  rewrite !Z.shiftr_div_pow2 by lia. repeat split.
Qed.

Lemma word_add x y : word (add x y).
Proof. apply wrap_range. lia. Qed.

Lemma add_2 x y : u32 (x + y) = add x y.
Proof. done. Qed.

Lemma add_4 x y z w : u32 (x + y + z + w) = add (add (add x y) z) w.
Proof. unfold add, wrap. by rewrite (Zplus_mod_idemp_l (x + y)), Zplus_mod_idemp_l. Qed.

Lemma add_5 x y z w v : u32 (x + y + z + w + v) = add (add (add (add x y) z) w) v.
Proof. rewrite <- (add_4 x y z w). unfold add, wrap. by rewrite Zplus_mod_idemp_l. Qed.

#[export] Hint Resolve word_add word_rotr : crypto.

(** ** Loops *)

Lemma for_from_rule {S : Type} (I : nat -> S -> Prop) lo n body s :
  I lo s ->
  (forall i s, (lo <= i < lo + n)%nat -> I i s -> exists s', body i s = Some s' /\ I (Datatypes.S i) s') ->
  exists s', for_from lo n body s = Some s' /\ I (lo + n)%nat s'.
Proof.
  revert lo s. induction n as [|n IH]; intros lo s Hs Hbody; simpl.
  - exists s. by rewrite Nat.add_0_r.
  - destruct (Hbody lo s) as (s1 & -> & H1); [lia|done|]. simpl.
    destruct (IH (Datatypes.S lo) s1) as (s' & E & H'); [done| |].
    { intros i s2 Hi. apply Hbody. lia. }
    exists s'. split; [done|]. by rewrite Nat.add_succ_r.
Qed.

Lemma for_range_rule {S : Type} (I : nat -> S -> Prop) lo hi body s :
  (lo <= hi)%nat -> I lo s ->
  (forall i s, (lo <= i < hi)%nat -> I i s -> exists s', body i s = Some s' /\ I (Datatypes.S i) s') ->
  exists s', for_range lo hi body s = Some s' /\ I hi s'.
Proof.
  intros Hle Hs Hbody. destruct (for_from_rule I lo (hi - lo) body s) as (s' & E & H'); [done| |].
  - intros i s1 Hi. apply Hbody. lia.
  - exists s'. split; [done|]. by replace (lo + (hi - lo))%nat with hi in H' by lia.
Qed.

(** ** The message schedule *)

Lemma length_schedule M t : length (schedule M t) = t.
Proof. induction t; simpl; [done|]. rewrite length_app. simpl. lia. Qed.

Definition block_words (block : list Z) : list Z := of_bits <$> parse 16 32 (bytes block).

Lemma nth_word l i : Forall word l -> word (nth i l 0).
Proof.
  intros Hl. destruct (nth_in_or_default i l 0) as [Hi | ->]; [|done].
  rewrite Forall_forall in Hl. by apply Hl, list_elem_of_In.
Qed.
#[export] Hint Resolve nth_word : crypto.

Lemma block_words_range block : Forall word (block_words block).
Proof.
  unfold block_words. apply Forall_forall. intros x (l & -> & Hl)%list_elem_of_fmap.
  apply list_elem_of_lookup in Hl as (i & Hi). pose proof (lookup_lt_Some _ _ _ Hi) as Hlt.
  rewrite length_parse in Hlt. rewrite parse_lookup in Hi by done. injection Hi as <-.
  set (l := take 32 _). apply (in_range_mono (Z.of_nat (length l))); [|apply of_bits_range].
  subst l. rewrite length_take. lia.
Qed.

Lemma schedule_range M t : Forall word M -> Forall word (schedule M t).
Proof.
  intros HM. induction t as [|t IH]; [constructor|]. cbn [schedule].
  apply Forall_app. split; [done|]. constructor; [|constructor].
  destruct (t <? 16)%nat; auto with crypto.
Qed.

(** The array holds the first [i] words of the schedule. *)
Definition holds (M : list Z) (i : nat) (w : array) : Prop :=
  length w = 64%nat /\ take i w = Some <$> schedule M i.

Lemma holds_read M i w j : holds M i w -> (j < i)%nat -> read w j = Some (nth j (schedule M i) 0).
Proof.
  intros [Hl Ht] Hj. unfold read. rewrite <- (lookup_take_lt w i j) by done.
  rewrite Ht, list_lookup_fmap. destruct (schedule M i !! j) as [x|] eqn:E.
  - by rewrite (nth_lookup_Some _ _ _ _ E).
  - apply lookup_ge_None in E. rewrite length_schedule in E. lia.
Qed.

Lemma holds_write M i w v :
  holds M i w -> (i < 64)%nat -> schedule M (S i) = schedule M i ++ [v] ->
  exists w', write i v w = Some w' /\ holds M (S i) w'.
Proof.
  intros [Hl Ht] Hi E. unfold write. rewrite (proj2 (Nat.ltb_lt _ _)) by lia. eexists. split; [done|].
  split; [by rewrite length_insert|]. rewrite E, fmap_app, <- Ht.
  rewrite (take_S_r _ i (Some v)) by (rewrite list_lookup_insert_eq; [done|lia]).
  by rewrite take_insert_ge by lia.
Qed.

Definition block_at (chunk : list Z) (start : nat) : list Z := take 64 (drop start chunk).

Lemma take_4 {A} (l : list A) i :
  (i + 4 <= length l)%nat ->
  exists c0 c1 c2 c3,
    l !! i = Some c0 /\ l !! (i + 1)%nat = Some c1 /\ l !! (i + 2)%nat = Some c2 /\
    l !! (i + 3)%nat = Some c3 /\ take 4 (drop i l) = [c0; c1; c2; c3].
Proof.
  intros Hl.
  destruct (drop i l) as [|c0 [|c1 [|c2 [|c3 r]]]] eqn:E;
    try (apply (f_equal length) in E; rewrite length_drop in E; simpl in E; lia).
  exists c0, c1, c2, c3. rewrite <- (Nat.add_0_r i) at 1. rewrite <- !lookup_drop, E. done.
Qed.

Lemma block_word chunk start i :
  (start + 64 <= length chunk)%nat -> Forall (in_range 8) chunk -> (i < 16)%nat ->
  exists c0 c1 c2 c3,
    chunk !! (start + 4 * i)%nat = Some c0 /\ chunk !! (start + 4 * i + 1)%nat = Some c1 /\
    chunk !! (start + 4 * i + 2)%nat = Some c2 /\ chunk !! (start + 4 * i + 3)%nat = Some c3 /\
    nth i (block_words (block_at chunk start)) 0 =
      u32 (Z.shiftl c0 24 ||| Z.shiftl c1 16 ||| Z.shiftl c2 8 ||| c3).
Proof.
  intros Hl Hr Hi. destruct (take_4 chunk (start + 4 * i)) as (c0 & c1 & c2 & c3 & E0 & E1 & E2 & E3 & E); [lia|].
  exists c0, c1, c2, c3. repeat (split; [done|]).
  rewrite <- load_word_bits by (rewrite <- E; by apply Forall_take, Forall_drop).
  apply nth_lookup_Some. unfold block_words. rewrite (parse_bytes 16 4), !list_lookup_fmap.
  rewrite parse_lookup by done. simpl. do 3 f_equal. rewrite <- E. unfold block_at.
  rewrite skipn_firstn_comm, take_take, drop_drop. f_equal. lia.
Qed.

Lemma message_schedule_rule chunk start :
  (start + 64 <= length chunk)%nat -> Forall (in_range 8) chunk ->
  exists w, message_schedule chunk start = Some w /\ holds (block_words (block_at chunk start)) 64 w.
Proof.
  intros Hl Hr. set (M := block_words _). unfold message_schedule.
  destruct (for_range_rule (holds M) 0 16 (load_word chunk start)
              (memset0 (new_array SHA256_MESSAGE_SCHEDULE_LENGTH) SHA256_MESSAGE_SCHEDULE_LENGTH))
    as (w & -> & Hw); [lia|done| |].
  { intros i w Hi Hw. destruct (block_word chunk start i) as (c0 & c1 & c2 & c3 & E0 & E1 & E2 & E3 & E); [done..|lia|].
    unfold load_word. rewrite E0, E1, E2, E3. simpl. apply (holds_write M); [done|lia|].
    cbn [schedule]. rewrite (proj2 (Nat.ltb_lt i 16)) by lia. by rewrite <- E. }
  simpl. apply (for_range_rule (holds M)); [unfold SHA256_MESSAGE_SCHEDULE_LENGTH; lia|done|].
  intros i w' Hi Hw'. unfold SHA256_MESSAGE_SCHEDULE_LENGTH in Hi. unfold extend_word.
  rewrite !(holds_read M i w') by (done || lia). simpl. apply (holds_write M); [done|lia|].
  cbn [schedule]. rewrite (proj2 (Nat.ltb_ge i 16)) by lia.
  assert (forall j, word (nth j (schedule M i) 0)) as Hj.
  { intros j. apply nth_word, schedule_range, block_words_range. }
  rewrite add_4. do 2 f_equal.
  destruct (macros_functions _ 0 0 (Hj (i - 2)%nat)) as (_ & _ & _ & _ & _ & ->).
  by destruct (macros_functions _ 0 0 (Hj (i - 15)%nat)) as (_ & _ & _ & _ & -> & _).
Qed.

(** ** The working variables *)

Definition variables_array (v : Variables) : array := Some <$> list_of v.

Definition good_variables (v : Variables) : Prop := Forall word (list_of v).

Lemma transform_step_rule M w i v k :
  Forall word M -> holds M 64 w -> (i < 64)%nat -> SHA256_K !! i = Some k -> good_variables v ->
  transform_step w i (variables_array v) =
    Some (variables_array (round v (k, nth i (schedule M 64) 0))).
Proof.
  intros HM Hw Hi Hk Hv. unfold transform_step. rewrite Hk, (holds_read M 64 w) by done.
  destruct v as [a b c d e f g h]. unfold good_variables, list_of in Hv. simpl in Hv.
  rewrite !Forall_cons in Hv. destruct Hv as (Ha & _ & _ & _ & He & _).
  cbv [variables_array list_of read mjoin option_join lookup list_lookup mbind option_bind
       fmap list_fmap write Nat.ltb Nat.leb length insert list_insert id
       Fips180.a Fips180.b Fips180.c Fips180.d Fips180.e Fips180.f Fips180.g Fips180.h
       round fst snd].
  destruct (macros_functions e f g He) as (-> & _ & _ & -> & _).
  destruct (macros_functions a b c Ha) as (_ & -> & -> & _).
  rewrite add_5, !add_2. reflexivity.
Qed.

Lemma round_good v kw : good_variables v -> good_variables (round v kw).
Proof.
  unfold good_variables, list_of, round. destruct v. simpl.
  rewrite !Forall_cons. intros (? & ? & ? & ? & ? & ? & ? & ? & ?). auto 20 with crypto.
Qed.

Lemma constants_are_roots : SHA256_K = K /\ sha256Init = initial_hash.
Proof. split; vm_compute; reflexivity. Qed.

Lemma eight {A} (l : list A) :
  length l = 8%nat -> exists x0 x1 x2 x3 x4 x5 x6 x7, l = [x0; x1; x2; x3; x4; x5; x6; x7].
Proof.
  destruct l as [|x0 [|x1 [|x2 [|x3 [|x4 [|x5 [|x6 [|x7 [|x8 l]]]]]]]]]; try discriminate.
  intros _. by exists x0, x1, x2, x3, x4, x5, x6, x7.
Qed.

Lemma copy_hash_rule H :
  length H = 8%nat ->
  for_range 0 SHA256_HASH_VALUE_LENGTH (copy_hash H) (new_array SHA256_HASH_VALUE_LENGTH) =
  Some (variables_array (variables_of H)).
Proof. intros (? & ? & ? & ? & ? & ? & ? & ? & ->)%eight. reflexivity. Qed.

Lemma add_hash_rule H v :
  length H = 8%nat ->
  for_range 0 SHA256_HASH_VALUE_LENGTH (add_hash (variables_array v)) H =
  Some (zip_with add H (list_of v)).
Proof. intros (? & ? & ? & ? & ? & ? & ? & ? & ->)%eight. destruct v. reflexivity. Qed.

(** A hash value: eight words. *)
Definition good_hash (H : list Z) : Prop := length H = 8%nat /\ Forall word H.

Lemma compress_good H M : good_hash H -> good_hash (compress H M).
Proof.
  intros [Hl _]. unfold compress. set (v := foldl _ _ _). split.
  - rewrite length_zip_with, Hl. done.
  - apply Forall_forall. intros x (i & Hi)%list_elem_of_lookup.
    apply lookup_zip_with_Some in Hi as (y & z & -> & _ & _). auto with crypto.
Qed.

Lemma rounds_rule M w H :
  Forall word M -> holds M 64 w -> good_hash H ->
  for_range 0 SHA256_MESSAGE_SCHEDULE_LENGTH (transform_step w) (variables_array (variables_of H)) =
  Some (variables_array (foldl round (variables_of H) (zip K (schedule M 64)))).
Proof.
  intros HM Hw [Hl Hg]. 
  assert (good_variables (variables_of H)) as Hv0.
  { destruct (eight H Hl) as (? & ? & ? & ? & ? & ? & ? & ? & ->). done. }
  revert Hv0. generalize (variables_of H) as v0. intros v0 Hv0.
  assert (length (zip K (schedule M 64)) = 64%nat) as Hlen.
  { by rewrite length_zip_with, length_schedule, <- (proj1 constants_are_roots). }
  assert (forall i k x, zip K (schedule M 64) !! i = Some (k, x) ->
            SHA256_K !! i = Some k /\ nth i (schedule M 64) 0 = x) as Hkws.
  { intros i k x [Ek Ex]%lookup_zip_Some. rewrite (proj1 constants_are_roots).
    split; [done|]. by apply nth_lookup_Some. }
  revert Hlen Hkws. generalize (zip K (schedule M 64)) as kws. intros kws Hlen Hkws.
  destruct (for_range_rule
    (fun i v => exists s, s = foldl round v0 (take i kws) /\ good_variables s /\ v = variables_array s)
    0 SHA256_MESSAGE_SCHEDULE_LENGTH (transform_step w) (variables_array v0)) as (v & -> & s & -> & _ & ->).
  - unfold SHA256_MESSAGE_SCHEDULE_LENGTH. lia.
  - by exists v0.
  - intros i v Hi (s & -> & Hs & ->). unfold SHA256_MESSAGE_SCHEDULE_LENGTH in Hi.
    destruct (lookup_lt_is_Some_2 kws i) as [[k x] E]; [lia|].
    destruct (Hkws i k x E) as [Ek Ex].
    rewrite (transform_step_rule M w i _ k), Ex by (done || lia). eexists. split; [done|].
    exists (round (foldl round v0 (take i kws)) (k, x)).
    rewrite (take_S_r _ _ _ E), foldl_app. split; [done|]. split; [by apply round_good|done].
  - by rewrite take_ge by (unfold SHA256_MESSAGE_SCHEDULE_LENGTH; lia).
Qed.

Lemma sha256Transform_rule chunk start H :
  (start + 64 <= length chunk)%nat -> Forall (in_range 8) chunk -> good_hash H ->
  sha256Transform chunk start H = Some (compress H (block_words (block_at chunk start))).
Proof.
  intros Hl Hr HH. unfold sha256Transform.
  destruct (message_schedule_rule chunk start) as (w & -> & Hw); [done..|]. cbn [mbind option_bind].
  rewrite copy_hash_rule by apply HH. cbn [mbind option_bind].
  rewrite (rounds_rule (block_words (block_at chunk start))) by (done || apply block_words_range).
  cbn [mbind option_bind]. by rewrite add_hash_rule by apply HH.
Qed.

(** ** Padding *)

Definition length_field (n : nat) : list Z :=
  (fun i => Z.shiftr (u64 (Z.of_nat n * 8)) ((i - 1) * 8) &&& 0xff) <$> [8; 7; 6; 5; 4; 3; 2; 1].

Definition zero_bytes (n : nat) : nat :=
  if (n mod 64 <? 56)%nat then 55 - n mod 64 else 119 - n mod 64.

Lemma bits_land n z : bits n (z &&& Z.ones (Z.of_nat n)) = bits n z.
Proof. rewrite Z.land_ones by lia. apply bits_wrap. Qed.

Lemma length_field_bits n : bytes (length_field n) = bits 64 (8 * Z.of_nat n).
Proof.
  rewrite <- (bits_wrap 64). change (wrap (Z.of_nat 64) (8 * Z.of_nat n)) with (u64 (8 * Z.of_nat n)).
  rewrite Z.mul_comm. unfold length_field. generalize (u64 (Z.of_nat n * 8)) as z. intros z.
  cbn [fmap list_fmap]. rewrite !bytes_cons. change 0xff with (Z.ones (Z.of_nat 8)).
  rewrite !bits_land, !Z.shiftr_div_pow2 by lia.
  rewrite (bits_app 8 56), (bits_app 8 48), (bits_app 8 40), (bits_app 8 32), (bits_app 8 24),
    (bits_app 8 16), (bits_app 8 8).
  rewrite ?Z.div_div by lia. change (bytes []) with (@nil bool).
  rewrite app_nil_r, Z.div_1_r. done.
Qed.

Lemma zero_bits_bytes n : zero_bits (8 * Z.of_nat n) = 7 + 8 * Z.of_nat (zero_bytes n).
Proof.
  unfold zero_bits, zero_bytes. pose proof (Nat.mod_upper_bound n 64).
  pose proof (Nat.div_mod n 64). set (q := (n / 64)%nat) in *. set (r := (n mod 64)%nat) in *.
  destruct (Nat.ltb_spec r 56).
  - symmetry. apply (Z.mod_unique_pos _ _ (- Z.of_nat q)); lia.
  - symmetry. apply (Z.mod_unique_pos _ _ (- Z.of_nat q - 1)); lia.
Qed.

Definition padded (src : list Z) : list Z :=
  src ++ 0x80 :: replicate (zero_bytes (length src)) 0 ++ length_field (length src).

Lemma padded_bits src : bytes (padded src) = pad (bytes src).
Proof.
  unfold padded, pad. rewrite bytes_app, bytes_cons, bytes_app, bytes_zeros, length_field_bits.
  rewrite length_bytes, Nat2Z.inj_mul. f_equal. change (Z.of_nat 8) with 8. rewrite zero_bits_bytes.
  replace (Z.to_nat (7 + 8 * Z.of_nat (zero_bytes (length src))))
    with (7 + 8 * zero_bytes (length src))%nat by lia.
  rewrite replicate_add. done.
Qed.

(** The rest of the source, and how many chunks are made of it. *)
Definition rest_of (src : list Z) : list Z := drop (length src / 64 * 64) src.
Definition final_count (n : nat) : nat := if (n mod 64 <? 56)%nat then 1 else 2.

Lemma length_rest src : length (rest_of src) = (length src mod 64)%nat.
Proof. unfold rest_of. rewrite length_drop. pose proof (Nat.div_mod (length src) 64). lia. Qed.

Lemma final_chunks_spec src :
  final_chunks src =
  parse (final_count (length src)) 64
    (rest_of src ++ 0x80 :: replicate (zero_bytes (length src)) 0 ++ length_field (length src)).
Proof.
  unfold final_chunks, final_count, zero_bytes, SHA256_LAST_CHUNK_LENGTH.
  fold (rest_of src). fold (length_field (length src)).
  assert (length (length_field (length src)) = 8%nat) as Hf by done.
  pose proof (length_rest src) as Hr. pose proof (Nat.mod_upper_bound (length src) 64).
  destruct (Nat.ltb_spec (length src mod 64) 56) as [Hlt|Hge]; cbn [parse app].
  - rewrite take_ge.
    + f_equal. rewrite !length_app, Hr. cbn [length]. rewrite <- !app_assoc. cbn [app].
      replace (64 - 8 - (length src mod 64 + 1))%nat with (55 - length src mod 64)%nat by lia. done.
    + rewrite length_app, Hr. cbn [length]. rewrite length_app, length_replicate, Hf. lia.
  - assert (rest_of src ++ 0x80 :: replicate (119 - length src mod 64) 0 ++ length_field (length src) =
            (rest_of src ++ 0x80 :: replicate (63 - length src mod 64) 0) ++
            replicate 56 0 ++ length_field (length src)) as ->.
    { replace (119 - length src mod 64)%nat with ((63 - length src mod 64) + 56)%nat by lia.
      by rewrite replicate_add, <- !app_assoc. }
    rewrite take_app_length', drop_app_length'
      by (rewrite length_app; cbn [length]; rewrite length_replicate; lia).
    rewrite take_ge by (rewrite length_app, length_replicate; lia).
    rewrite length_app, Hr, <- app_assoc. cbn [length app].
    replace (64 - (length src mod 64 + 1))%nat with (63 - length src mod 64)%nat by lia. done.
Qed.

Lemma length_padded src :
  length (padded src) = ((length src / 64 + final_count (length src)) * 64)%nat.
Proof.
  unfold padded, final_count, zero_bytes. rewrite length_app. cbn [length].
  rewrite length_app, length_replicate. change (length (length_field (length src))) with 8%nat.
  pose proof (Nat.mod_upper_bound (length src) 64). pose proof (Nat.div_mod (length src) 64).
  destruct (Nat.ltb_spec (length src mod 64) 56); lia.
Qed.

Lemma padded_blocks src :
  let q := (length src / 64)%nat in
  parse (q + final_count (length src)) 64 (padded src) =
  parse q 64 (take (q * 64) src) ++ final_chunks src.
Proof.
  intros q. rewrite final_chunks_spec, <- parse_app.
  - unfold padded, rest_of. by rewrite app_assoc, take_drop.
  - rewrite length_take. pose proof (Nat.div_mod (length src) 64). lia.
Qed.

Lemma hash_words_blocks src :
  hash_words (bytes src) =
  foldl compress sha256Init
    (block_words <$> (parse (length src / 64) 64 (take (length src / 64 * 64) src) ++ final_chunks src)).
Proof.
  unfold hash_words. rewrite <- padded_bits, length_bytes, length_padded.
  replace (8 * ((length src / 64 + final_count (length src)) * 64) / 512)%nat
    with (length src / 64 + final_count (length src))%nat.
  2:{ rewrite Nat.mul_comm, <- Nat.mul_assoc. change (64 * 8)%nat with 512%nat. by rewrite Nat.div_mul. }
  rewrite (parse_bytes _ 64), padded_blocks, <- list_fmap_compose.
  by rewrite (proj2 constants_are_roots).
Qed.

(** ** The hash *)

Lemma parse_Forall {A} (P : A -> Prop) count n l : Forall P l -> Forall (Forall P) (parse count n l).
Proof.
  revert l. induction count as [|c IH]; intros l Hl; cbn [parse]; constructor.
  - by apply Forall_take.
  - by apply IH, Forall_drop.
Qed.

Lemma parse_lengths {A} count n (l : list A) :
  length l = (count * n)%nat -> Forall (fun b => length b = n) (parse count n l).
Proof.
  revert l. induction count as [|c IH]; intros l Hl; cbn [parse]; constructor.
  - rewrite length_take. lia.
  - apply IH. rewrite length_drop. lia.
Qed.

Lemma length_field_range n : Forall (in_range 8) (length_field n).
Proof.
  unfold length_field. apply Forall_fmap, Forall_forall. intros i _. simpl.
  change 255 with (Z.ones 8). rewrite Z.land_ones by lia. by apply wrap_range.
Qed.

(** A chunk of 64 bytes. *)
Definition good_chunk (chunk : list Z) : Prop := length chunk = 64%nat /\ Forall (in_range 8) chunk.

Lemma final_chunks_good src : Forall (in_range 8) src -> Forall good_chunk (final_chunks src).
Proof.
  intros Hs. rewrite final_chunks_spec. apply Forall_and. split.
  - apply parse_lengths. pose proof (length_padded src) as Hp. unfold padded in Hp.
    rewrite length_app in Hp |- *. rewrite length_rest.
    pose proof (Nat.div_mod (length src) 64). lia.
  - apply parse_Forall, Forall_app. split; [by apply Forall_drop|].
    constructor; [unfold in_range; lia|]. apply Forall_app. split; [|apply length_field_range].
    apply Forall_replicate. unfold in_range. lia.
Qed.

Lemma transform_chunks_rule chunks H :
  Forall good_chunk chunks -> good_hash H ->
  transform_chunks chunks H = Some (foldl compress H (block_words <$> chunks)) /\
  good_hash (foldl compress H (block_words <$> chunks)).
Proof.
  intros Hc. revert H. induction Hc as [|chunk chunks [Hl Hr] _ IH]; intros H HH; [done|].
  cbn [transform_chunks fmap list_fmap foldl]. rewrite sha256Transform_rule by (done || lia).
  cbn [mbind option_bind]. assert (block_at chunk 0 = chunk) as ->.
  { unfold block_at. by rewrite drop_0, take_ge by lia. }
  by apply IH, compress_good.
Qed.

Lemma whole_chunks_rule src H :
  Forall (in_range 8) src -> good_hash H ->
  let blocks := parse (length src / 64) 64 (take (length src / 64 * 64) src) in
  for_range 0 (length src / 64) (fun i => sha256Transform src (i * SHA256_LAST_CHUNK_LENGTH)) H =
    Some (foldl compress H (block_words <$> blocks)) /\
  good_hash (foldl compress H (block_words <$> blocks)).
Proof.
  intros Hs HH blocks. set (q := (length src / 64)%nat) in *.
  assert (q * 64 <= length src)%nat as Hq by (pose proof (Nat.div_mod (length src) 64); lia).
  assert (length blocks = q) as Hb by apply length_parse.
  destruct (for_range_rule
    (fun i H' => H' = foldl compress H (block_words <$> take i blocks) /\ good_hash H')
    0 q (fun i => sha256Transform src (i * SHA256_LAST_CHUNK_LENGTH)) H) as (H' & -> & -> & Hg).
  - lia.
  - done.
  - intros i H' Hi [-> Hg]. unfold SHA256_LAST_CHUNK_LENGTH.
    rewrite sha256Transform_rule by (done || lia). eexists. split; [done|].
    assert (blocks !! i = Some (block_at src (i * 64))) as E.
    { unfold blocks. rewrite parse_lookup by lia. unfold block_at. f_equal.
      rewrite skipn_firstn_comm, take_take, (Nat.mul_comm 64 i). f_equal. lia. }
    rewrite (take_S_r _ _ _ E), fmap_app, foldl_app. split; [done|]. by apply compress_good.
  - by rewrite take_ge in Hg |- * by lia.
Qed.

Lemma word_bytes_bits z : bytes (word_bytes z) = bits 32 z.
Proof.
  unfold word_bytes. rewrite !bytes_cons, !Z.shiftr_div_pow2, !(bits_wrap 8) by lia.
  rewrite (bits_app 8 24), (bits_app 8 16), (bits_app 8 8), !Z.div_div by lia.
  change (bytes []) with (@nil bool). by rewrite app_nil_r.
Qed.

Lemma append_words_rule H :
  length H = 8%nat ->
  for_range 0 SHA256_HASH_VALUE_LENGTH (append_word H) [] = Some (mjoin (word_bytes <$> H)).
Proof. intros (? & ? & ? & ? & ? & ? & ? & ? & ->)%eight. reflexivity. Qed.

Lemma words_bytes_bits H : bytes (mjoin (word_bytes <$> H)) = mjoin (bits 32 <$> H).
Proof.
  induction H as [|x H IH]; [done|].
  change (bytes (word_bytes x ++ mjoin (word_bytes <$> H)) = bits 32 x ++ mjoin (bits 32 <$> H)).
  by rewrite bytes_app, word_bytes_bits, IH.
Qed.

(** A digest: 32 bytes. *)
Definition good_digest (d : list Z) : Prop := length d = 32%nat /\ Forall (in_range 8) d.

Lemma words_bytes_good H : length H = 8%nat -> good_digest (mjoin (word_bytes <$> H)).
Proof.
  intros (? & ? & ? & ? & ? & ? & ? & ? & ->)%eight. split; [done|].
  simpl. repeat constructor; apply wrap_range; lia.
Qed.

Lemma sha256_rule src :
  Forall (in_range 8) src ->
  exists d, sha256 src = Some d /\ bytes d = SHA256 (bytes src) /\ good_digest d.
Proof.
  intros Hs. unfold sha256. change SHA256_LAST_CHUNK_LENGTH with 64%nat at 1.
  assert (good_hash sha256Init) as Hi.
  { split; [done|]. repeat constructor; unfold in_range; lia. }
  destruct (whole_chunks_rule src sha256Init Hs Hi) as [-> Hg]. cbn [mbind option_bind].
  destruct (transform_chunks_rule (final_chunks src) _ (final_chunks_good src Hs) Hg) as [-> [Hl _]].
  cbn [mbind option_bind]. rewrite <- foldl_app, <- fmap_app, <- hash_words_blocks in Hl |- *.
  rewrite append_words_rule by done. eexists. split; [done|].
  split; [apply words_bytes_bits|by apply words_bytes_good].
Qed.

(** ** The keyed hash *)

Lemma bits_lxor n x y : bits n (Z.lxor x y) = zip_with xorb (bits n x) (bits n y).
Proof.
  revert x y. induction n as [|n IH]; intros x y; [done|]. cbn [bits].
  rewrite zip_with_app by (by rewrite !length_bits). rewrite <- IH. cbn [zip_with].
  rewrite <- !Z.bit0_odd, Z.lxor_spec. do 2 f_equal.
  by rewrite <- !Z.div2_div, !Z.div2_spec, Z.shiftr_lxor.
Qed.

Lemma bytes_xor byte l :
  bytes ((fun k => Z.lxor k byte) <$> l) = zip_with xorb (bytes l) (bytes (replicate (length l) byte)).
Proof.
  induction l as [|x l IH]; [done|]. cbn [fmap list_fmap length replicate].
  rewrite !bytes_cons, bits_lxor, IH. rewrite zip_with_app; [done|]. by rewrite !length_bits.
Qed.

Lemma xor_pad_rule byte k0 :
  length k0 = HMAC_B -> xor_pad byte k0 = Some ((fun k => Z.lxor k byte) <$> k0).
Proof.
  intros Hl. unfold xor_pad.
  destruct (for_range_rule (fun i ret => ret = (fun k => Z.lxor k byte) <$> take i k0) 0 HMAC_B
    (fun i ret => k ← k0 !! i; Some (ret ++ [Z.lxor k byte])) []) as (ret & -> & ->).
  - unfold HMAC_B. lia.
  - done.
  - intros i ret Hi ->. destruct (lookup_lt_is_Some_2 k0 i) as [k Hk]; [lia|].
    rewrite Hk. simpl. eexists. split; [done|]. by rewrite (take_S_r _ _ _ Hk), fmap_app.
  - by rewrite take_ge by lia.
Qed.

Lemma xor_range byte l :
  in_range 8 byte -> Forall (in_range 8) l -> Forall (in_range 8) ((fun k => Z.lxor k byte) <$> l).
Proof.
  intros Hb Hl. apply Forall_fmap. eapply Forall_impl; [done|]. intros x Hx. simpl.
  apply in_range_bits; [lia|]. intros i Hi.
  by rewrite Z.lxor_spec, (testbit_high 8 x), (testbit_high 8 byte).
Qed.

Lemma unsigned_chars s : Forall (in_range 8) (toUnsignedCharVector s).
Proof. apply Forall_fmap, Forall_forall. intros c _. apply char_code_range. Qed.

(** The key of the first steps, padded to a block. *)
Definition block_key (key : text) (keyLength : nat) (k0 : list Z) : list Z :=
  k0 ++ replicate (HMAC_B - keyLength) 0.

Lemma block_key_rule key :
  exists n k0,
    (if (length key <=? HMAC_B)%nat then Some (length key, toUnsignedCharVector key)
     else newKey ← sha256 (toUnsignedCharVector key); Some (length newKey, newKey)) = Some (n, k0) /\
    length (block_key key n k0) = HMAC_B /\ Forall (in_range 8) (block_key key n k0) /\
    bytes (block_key key n k0) = K0 (bytes (toUnsignedCharVector key)).
Proof.
  assert (length (toUnsignedCharVector key) = length key) as Hk by apply length_fmap.
  assert (forall k, (length k <= 64)%nat -> Forall (in_range 8) k ->
    length (block_key key (length k) k) = HMAC_B /\
    Forall (in_range 8) (block_key key (length k) k) /\
    bytes (block_key key (length k) k) = bytes k ++ replicate (512 - length (bytes k)) false) as Hb.
  { intros k Hl Hr. unfold block_key, HMAC_B. split_and!.
    - rewrite length_app, length_replicate. lia.
    - apply Forall_app. split; [done|]. apply Forall_replicate. unfold in_range. lia.
    - rewrite bytes_app, bytes_zeros, length_bytes. do 2 f_equal. lia. }
  unfold K0. rewrite length_bytes, Hk. destruct (Nat.leb_spec (length key) HMAC_B) as [Hle|Hgt];
    unfold HMAC_B in *.
  - rewrite (proj2 (Nat.leb_le _ _)) by lia. exists (length key), (toUnsignedCharVector key).
    split; [done|]. rewrite <- Hk. apply Hb; [lia|apply unsigned_chars].
  - rewrite (proj2 (Nat.leb_gt _ _)) by lia.
    destruct (sha256_rule (toUnsignedCharVector key)) as (d & -> & <- & Hl & Hr); [apply unsigned_chars|].
    exists (length d), d. split; [done|]. apply Hb; [lia|done].
Qed.

Lemma hmac_rule key message :
  exists digest,
    hmac_sha256 key message = Some digest /\ good_digest digest /\
    bytes digest = HMAC (bytes (toUnsignedCharVector key)) (bytes (toUnsignedCharVector message)).
Proof.
  unfold hmac_sha256, HMAC. destruct (block_key_rule key) as (n & k0 & -> & Hl & Hr & <-).
  cbn [mbind option_bind]. fold (block_key key n k0).
  set (k := block_key key n k0) in *. clearbody k.
  assert (forall byte l, in_range 8 byte -> Forall (in_range 8) l ->
    exists d, sha256 (((fun k => Z.lxor k byte) <$> k) ++ l) = Some d /\ good_digest d /\
      bytes d = SHA256 (zip_with xorb (bytes k) (bytes (replicate 64 byte)) ++ bytes l)) as Hstep.
  { intros byte l Hb Hlr. destruct (sha256_rule (((fun k => Z.lxor k byte) <$> k) ++ l)) as (d & E & Hd & Hg).
    - apply Forall_app. split; [by apply xor_range|done].
    - exists d. split; [done|]. split; [done|]. by rewrite Hd, bytes_app, bytes_xor, Hl. }
  rewrite !xor_pad_rule by done. cbn [mbind option_bind].
  destruct (Hstep HMAC_IPAD_BYTE (toUnsignedCharVector message)) as (d1 & -> & [_ Hd1] & E1);
    [by unfold in_range, HMAC_IPAD_BYTE; lia|apply unsigned_chars|]. cbn [mbind option_bind].
  destruct (Hstep HMAC_OPAD_BYTE d1) as (d & -> & Hd & E); [by unfold in_range, HMAC_OPAD_BYTE; lia|done|].
  exists d. split; [done|]. split; [done|]. rewrite E, E1. done.
Qed.

(** C9.  [Crypto::sha256] and [Crypto::hmac_sha256] read no indeterminate word and
    nothing outside their arrays, whatever the length of the source, the key and the
    message; the digests are 32 bytes, those of FIPS 180-4 and FIPS 198-1. *)
Theorem digests_are_standard :
  (forall src, Forall (in_range 8) src ->
     exists digest, sha256 src = Some digest /\ good_digest digest /\ bytes digest = SHA256 (bytes src)) /\
  (forall key message,
     exists digest, hmac_sha256 key message = Some digest /\ good_digest digest /\
       bytes digest = HMAC (bytes (toUnsignedCharVector key)) (bytes (toUnsignedCharVector message))).
Proof.
  split; [|apply hmac_rule]. intros src Hs.
  destruct (sha256_rule src Hs) as (d & E & Hd & Hg). by exists d.
Qed.

(** The example of FIPS 180-4 and one of an HMAC with a long key (RFC 4231, case 6). *)
Example sha256_abc :
  sha256 (toUnsignedCharVector (str "abc"%string)) =
  Some [0xba; 0x78; 0x16; 0xbf; 0x8f; 0x01; 0xcf; 0xea; 0x41; 0x41; 0x40; 0xde; 0x5d; 0xae; 0x22; 0x23;
        0xb0; 0x03; 0x61; 0xa3; 0x96; 0x17; 0x7a; 0x9c; 0xb4; 0x10; 0xff; 0x61; 0xf2; 0x00; 0x15; 0xad].
Proof. vm_compute. reflexivity. Qed.

Example hmac_long_key :
  hmac_sha256 (replicate 131 (char_of 0xaa))
    (str "Test Using Larger Than Block-Size Key - Hash Key First"%string) =
  Some [0x60; 0xe4; 0x31; 0x59; 0x1e; 0xe0; 0xb6; 0x7f; 0x0d; 0x8a; 0x26; 0xaa; 0xcb; 0xf5; 0xb7; 0x7f;
        0x8e; 0x0b; 0xc6; 0x21; 0x37; 0x28; 0xc5; 0x14; 0x05; 0x46; 0x04; 0x0f; 0x0e; 0xe3; 0x7f; 0x54].
Proof. vm_compute. reflexivity. Qed.
