(* ===== verification/Base64.v ===== *)
(** * Base64

    [olp-cpp-sdk-core/src/utils/Base64.cpp].  The iterators of Boost that change the
    width of the elements are parameters. *)

From stdpp Require Import base numbers list strings.
From Stdlib Require Import ZArith Lia Bool Ascii.
From S2P Require Import Prelude Decimal Url.
Local Open Scope Z_scope.
Local Open Scope olp_scope.

(** The ranges [It(first) .. It(last)] of the encoding iterator
    [base64_from_binary<transform_width<const uint8_t*, 6, 8>>] and of the decoding
    iterator [transform_width<binary_from_base64<const char*>, 8, 6>]. *)
Class BoostBase64 := {
  base64_from_binary : list Z -> text;
  binary_from_base64 : text -> list Z }.

Definition equals_char : ascii := char_of 61.

Definition notBase64Symbol (c : ascii) : bool :=
  negb (in_chars 47 57 c || in_chars 65 90 c || in_chars 97 122 c || (char_code c =? 43)).

(** The text without the padding: one or two [=] at the end.  The text has at least two
    characters. *)
Definition endNoPadding (s : text) : text :=
  let len := length s in
  if bool_decide (s !! (len - 1)%nat = Some equals_char) then
    if bool_decide (s !! (len - 2)%nat = Some equals_char) then take (len - 2) s
    else take (len - 1) s
  else s.

Definition isValidBase64 (s : text) : bool :=
  if (length s =? 0)%nat then true
  else if negb (length s mod 4 =? 0)%nat then false
  else forallb (fun c => negb (notBase64Symbol c)) (endNoPadding s).

Section base64.
Context `{BoostBase64}.

Definition Base64Encode (bytes : list Z) : text :=
  let size := length bytes in
  if (size =? 0)%nat then []
  else base64_from_binary bytes ++ replicate ((3 - size mod 3) mod 3) equals_char.

(** [None] is the result [false].  The bytes are resized to three for every four
    characters before they are copied; copying more is outside the contract. *)
Definition Base64Decode (s : text) (write_null_bytes : bool) : option (option (list Z)) :=
  if (length s =? 0)%nat then Some (Some [])
  else if negb (isValidBase64 s) then Some None
  else
    let decoded := binary_from_base64 (endNoPadding s) in
    let copied := if write_null_bytes then decoded else filter (fun c => c <> 0) decoded in
    if (length copied <=? length s / 4 * 3)%nat then Some (Some copied) else None.

End base64.
