(* ===== verification/SignInResults.v ===== *)
(** * The results of authentication requests

    [BaseResult.cpp], [SignInResultImpl.cpp], [SignInUserResultImpl.cpp],
    [SignUpResultImpl.cpp] and [SignOutResultImpl.cpp] of
    [olp-cpp-sdk-authentication/src]: what the client reads from the JSON documents of
    the server.  The JSON library (rapidjson) is a parameter: its accessors assert the
    type of the value they are applied to, and a failed assertion is [None]. *)

From stdpp Require Import base numbers list strings option.
From Stdlib Require Import ZArith Lia Bool Ascii.
From S2P Require Import Prelude Decimal Http.
Local Open Scope Z_scope.
Local Open Scope olp_scope.

(** ** The JSON library *)

(** What is written for the value of a key. *)
Inductive JsonField := JsonString (s : text) | JsonUint (n : Z) | JsonBool (b : bool).

Class Json := {
  Value : Type;
  ParseStream : text -> Value;
  HasParseError : Value -> bool;
  HasMember : Value -> text -> option bool;
  Member : Value -> text -> option Value;
  GetString : Value -> option text;
  GetUint : Value -> option Z;
  (** The elements if [GetType() == kArrayType]. *)
  GetArray : Value -> option (list Value);
  (** [StartObject()], a key and a value for each element, [EndObject()]. *)
  WriteObject : list (text * JsonField) -> text }.

(** ** Errors *)

(** [Constants.cpp] *)
Definition ERROR_HTTP_SERVICE_UNAVAILABLE : text := str "Service unavailable".
Definition ACCESS_TOKEN : text := str "accessToken".
Definition EXPIRES_IN : text := str "expiresIn".
Definition REFRESH_TOKEN : text := str "refreshToken".

Definition FIELD_NAME : text := str "name".
Definition ERROR_CODE : text := str "errorCode".
Definition ERROR_FIELDS : text := str "errorFields".
Definition ERROR_MESSAGE : text := str "message".

Record ErrorResponse := MkErrorResponse { error_code : Z; error_message : text }.
Record ErrorField := MkErrorField { field_error : ErrorResponse; field_name : text }.

(** [message.substr(0, message.find_first_of(".") + 1)]: without a full stop
    [find_first_of] is the greatest [size_t], and the sum is 0. *)
Fixpoint up_to_stop (message : text) : option text :=
  match message with
  | [] => None
  | c :: rest => if char_code c =? 46 then Some [c] else s ← up_to_stop rest; Some (c :: s)
  end.
Definition first_sentence (message : text) : text := default [] (up_to_stop message).

(** ** [BaseResult] *)

Record BaseResult := MkBaseResult {
  status_ : Z;
  result_error : ErrorResponse;
  error_fields_ : list ErrorField;
  base_is_valid : bool }.

Definition HasError (r : BaseResult) : bool := negb (status_ r =? http_value Http_Ok).

Definition with_error (e : ErrorResponse) (fields : list ErrorField) (r : BaseResult) : BaseResult :=
  MkBaseResult (status_ r) e fields (base_is_valid r).

Section results.
Context `{Json}.

(** The loop over the elements of [errorFields]. *)
Fixpoint read_fields (fields : list Value) : option (list ErrorField) :=
  match fields with
  | [] => Some []
  | field :: rest =>
    has ← HasMember field ERROR_MESSAGE;
    if has : bool then
      name ← Member field FIELD_NAME ≫= GetString;
      code ← Member field ERROR_CODE ≫= GetUint;
      message ← Member field ERROR_MESSAGE ≫= GetString;
      errors ← read_fields rest;
      Some (MkErrorField (MkErrorResponse code message) name :: errors)
    else read_fields rest
  end.

(** The error details of a document without a parse error. *)
Definition read_error (document : Value) (r : BaseResult) : option BaseResult :=
  has_code ← HasMember document ERROR_CODE;
  if negb has_code then Some r
  else
    code ← Member document ERROR_CODE ≫= GetUint;
    has_message ← HasMember document ERROR_MESSAGE;
    if negb has_message then
      Some (with_error (MkErrorResponse code (error_message (result_error r))) [] r)
    else
      message ← Member document ERROR_MESSAGE ≫= GetString;
      has_fields ← HasMember document ERROR_FIELDS;
      if negb has_fields then Some (with_error (MkErrorResponse code message) [] r)
      else
        fields ← Member document ERROR_FIELDS;
        errors ← match GetArray fields with
                 | Some elements => read_fields elements
                 | None => Some []
                 end;
        Some (with_error (MkErrorResponse code (first_sentence message)) errors r).

Definition BaseResult_new (status : Z) (error : text) (json_document : option Value)
    : option BaseResult :=
  let is_valid := match json_document with Some d => negb (HasParseError d) | None => false end in
  let r := MkBaseResult status (MkErrorResponse 0 error) [] is_valid in
  if negb (HasError r) || negb is_valid then Some r
  else document ← json_document; read_error document r.

(** ** [SignInResultImpl] *)

Definition TOKEN_TYPE : text := str "tokenType".
Definition USER_ID : text := str "userId".

Record SignInResultImpl := MkSignInResultImpl {
  sign_in_base : BaseResult;
  is_valid_ : bool;
  access_token_ : text;
  token_type_ : text;
  expiry_time_ : Z;
  refresh_token_ : text;
  user_identifier_ : text }.

(** The string of a member, empty if there is no such member. *)
Definition optional_string (document : Value) (key : text) : option text :=
  has ← HasMember document key;
  if has : bool then Member document key ≫= GetString else Some [].

(** [is_valid_]: the conjunctions are evaluated from the left. *)
Definition has_members (document : Value) (keys : list text) : option bool :=
  foldr (fun key rest => has ← HasMember document key; if has : bool then rest else Some false)
    (Some true) keys.

(** [std::time(nullptr) + GetUint()]: a [time_t] of 64 bits. *)
Definition SignInResultImpl_new (now status : Z) (error : text) (json_document : option Value)
    : option SignInResultImpl :=
  base ← BaseResult_new status error json_document;
  valid ← match json_document with
          | Some document =>
            if base_is_valid base then has_members document [ACCESS_TOKEN; TOKEN_TYPE; EXPIRES_IN]
            else Some false
          | None => Some false
          end;
  if HasError base then Some (MkSignInResultImpl base valid [] [] 0 [] [])
  else if negb valid then
    Some (MkSignInResultImpl
            (MkBaseResult (http_value Http_ServiceUnavailable)
               (MkErrorResponse (error_code (result_error base)) ERROR_HTTP_SERVICE_UNAVAILABLE)
               (error_fields_ base) (base_is_valid base))
            valid [] [] 0 [] [])
  else
    document ← json_document;
    access_token ← optional_string document ACCESS_TOKEN;
    token_type ← optional_string document TOKEN_TYPE;
    refresh_token ← optional_string document REFRESH_TOKEN;
    has_expiry ← HasMember document EXPIRES_IN;
    expiry_time ← (if has_expiry : bool
                   then seconds ← Member document EXPIRES_IN ≫= GetUint; Some (swrap 64 (now + seconds))
                   else Some 0);
    user_identifier ← optional_string document USER_ID;
    Some (MkSignInResultImpl base valid access_token token_type expiry_time refresh_token
            user_identifier).

(** ** [SignInUserResultImpl] *)

Definition TERMS_REACCEPTANCE_TOKEN : text := str "termsReacceptanceToken".
Definition TERMS_URLS : text := str "url".
Definition TERMS_OF_SERVICE_URL : text := str "tos".
Definition TERMS_OF_SERVICE_URL_JSON : text := str "tosJSON".
Definition PRIVATE_POLICY_URL : text := str "pp".
Definition PRIVATE_POLICY_URL_JSON : text := str "ppJSON".

Record Terms := MkTerms {
  terms_of_service_url_ : text; terms_of_service_url_json_ : text;
  private_policy_url_ : text; private_policy_url_json_ : text }.

Record SignInUserResultImpl := MkSignInUserResultImpl {
  user_sign_in : SignInResultImpl;
  term_acceptance_token_ : text;
  terms_ : Terms }.

Definition no_terms : Terms := MkTerms [] [] [] [].

Definition read_terms (obj : Value) : option Terms :=
  tos ← optional_string obj TERMS_OF_SERVICE_URL;
  tos_json ← optional_string obj TERMS_OF_SERVICE_URL_JSON;
  pp ← optional_string obj PRIVATE_POLICY_URL;
  pp_json ← optional_string obj PRIVATE_POLICY_URL_JSON;
  Some (MkTerms tos tos_json pp pp_json).

(** [GetObject()] asserts that the value is an object, as [HasMember] does. *)
Definition SignInUserResultImpl_new (now status : Z) (error : text) (json_document : option Value)
    : option SignInUserResultImpl :=
  sign_in ← SignInResultImpl_new now status error json_document;
  if base_is_valid (sign_in_base sign_in) then
    document ← json_document;
    acceptance_token ← optional_string document TERMS_REACCEPTANCE_TOKEN;
    has_urls ← HasMember document TERMS_URLS;
    terms ← (if has_urls : bool then obj ← Member document TERMS_URLS; read_terms obj
             else Some no_terms);
    Some (MkSignInUserResultImpl sign_in acceptance_token terms)
  else Some (MkSignInUserResultImpl sign_in [] no_terms).

(** ** [SignUpResultImpl] and [SignOutResultImpl] *)

Record SignUpResultImpl := MkSignUpResultImpl { sign_up_base : BaseResult; sign_up_user : text }.

Definition SignUpResultImpl_new (status : Z) (error : text) (json_document : option Value)
    : option SignUpResultImpl :=
  base ← BaseResult_new status error json_document;
  if base_is_valid base then
    document ← json_document;
    user_identifier ← optional_string document USER_ID;
    Some (MkSignUpResultImpl base user_identifier)
  else Some (MkSignUpResultImpl base []).

Definition SignOutResultImpl_new (status : Z) (error : text) (json_document : option Value)
    : option BaseResult :=
  BaseResult_new status error json_document.

End results.

(** ** [AuthenticationError] *)

Record AuthenticationErr := MkAuthenticationError {
  auth_code : ErrorCode; auth_message : text; auth_retryable : bool }.

Definition default_AuthenticationError : AuthenticationErr := MkAuthenticationError Unknown [] false.

Definition GetErrorForNetworkErrorCode (network_code : Z) : ErrorCode :=
  if is_network network_code [IOError] then NetworkConnection
  else if is_network network_code [InvalidURLError] then NotFound
  else if is_network network_code [Offline] then ServiceUnavailable
  else if is_network network_code [NetCancelled] then Cancelled
  else if is_network network_code [AuthorizationError; AuthenticationError] then AccessDenied
  else if is_network network_code [TimedOut] then RequestTimeout
  else Unknown.

Definition IsRetryableNetworkCode (network_code : Z) : bool :=
  is_network network_code [Offline; NetCancelled; TimedOut].

Definition AuthenticationError_new (network_code : Z) (message : text) : AuthenticationErr :=
  MkAuthenticationError (GetErrorForNetworkErrorCode network_code) message
    (IsRetryableNetworkCode network_code).

(** ** What a sign-in result says

    The outcomes of [SignInResults.SignInResultImpl_new] for every status and document. *)

Section facts.
Context `{Json}.

Lemma read_error_status document r r' :
  read_error document r = Some r' -> status_ r' = status_ r /\ base_is_valid r' = base_is_valid r.
Proof.
  unfold read_error.
  destruct (HasMember document ERROR_CODE) as [[]|]; simpl; try done; [|by intros [= <-]].
  destruct (Member document ERROR_CODE ≫= GetUint) as [code|]; simpl; [|done].
  destruct (HasMember document ERROR_MESSAGE) as [[]|]; simpl; try done; [|by intros [= <-]].
  destruct (Member document ERROR_MESSAGE ≫= GetString) as [message|]; simpl; [|done].
  destruct (HasMember document ERROR_FIELDS) as [[]|]; simpl; try done; [|by intros [= <-]].
  destruct (Member document ERROR_FIELDS) as [fields|]; simpl; [|done].
  destruct (match GetArray fields with Some e => read_fields e | None => Some [] end); simpl; [|done].
  by intros [= <-].
Qed.

Lemma BaseResult_rule status error document r :
  BaseResult_new status error document = Some r ->
  status_ r = status /\
  base_is_valid r = match document with Some d => negb (HasParseError d) | None => false end.
Proof.
  unfold BaseResult_new. set (v := match document with Some d => _ | None => _ end).
  destruct (_ || _); [by intros [= <-]|]. destruct document as [d|]; [|done]. simpl.
  apply read_error_status.
Qed.

(** The members are all there exactly if each of them is. *)
Lemma has_members_iff document keys b :
  has_members document keys = Some b ->
  b = true <-> Forall (fun key => HasMember document key = Some true) keys.
Proof.
  induction keys as [|key keys IH]; simpl; [intros [= <-]; by split; [constructor|]|].
  rewrite list.Forall_cons. destruct (HasMember document key) as [[]|]; simpl; [|by intros [= <-]; split; [|intros [? _]]|done].
  intros Hk. specialize (IH Hk). tauto.
Qed.

Lemma has_members_total document keys :
  Forall (fun key => is_Some (HasMember document key)) keys -> is_Some (has_members document keys).
Proof.
  induction 1 as [|key keys [b E] _ IH]; [by eexists|]. simpl. rewrite E. by destruct b; [|eexists].
Qed.

(** The member [key] of the document is the string [s]. *)
Definition string_member (document : Value) (key s : text) : Prop :=
  Member document key ≫= GetString = Some s.

Lemma optional_string_rule document key s :
  optional_string document key = Some s ->
  if bool_decide (HasMember document key = Some true) then string_member document key s else s = [].
Proof.
  unfold optional_string. case_bool_decide as Hk; [by rewrite Hk|].
  destruct (HasMember document key) as [[]|]; simpl; [done|by intros [= <-]|done].
Qed.

(** The document of a response that brings a token: it was understood, and it has an access
    token, a token type and an expiry. *)
Definition brings_token (document : option Value) : Prop :=
  exists d, document = Some d /\ HasParseError d = false /\
    HasMember d ACCESS_TOKEN = Some true /\ HasMember d TOKEN_TYPE = Some true /\
    HasMember d EXPIRES_IN = Some true.

(** The document is an object whose members have the types the client asks for. *)
Definition well_typed (d : Value) : Prop :=
  (forall key, is_Some (HasMember d key)) /\
  (forall key, key = ACCESS_TOKEN \/ key = TOKEN_TYPE \/ key = REFRESH_TOKEN \/ key = USER_ID ->
     HasMember d key = Some true -> is_Some (Member d key ≫= GetString)) /\
  (HasMember d EXPIRES_IN = Some true -> is_Some (Member d EXPIRES_IN ≫= GetUint)).

Lemma optional_string_total d key :
  well_typed d -> key = ACCESS_TOKEN \/ key = TOKEN_TYPE \/ key = REFRESH_TOKEN \/ key = USER_ID ->
  is_Some (optional_string d key).
Proof.
  intros (Hk & Hs & _) Hkey. unfold optional_string. destruct (Hk key) as [[] E]; rewrite E; simpl; [|by eexists].
  by apply Hs.
Qed.

(** The value of [is_valid_] is decided by the document. *)
Lemma valid_iff document b valid :
  base_is_valid b = match document with Some d => negb (HasParseError d) | None => false end ->
  match document with
  | Some d => if base_is_valid b then has_members d [ACCESS_TOKEN; TOKEN_TYPE; EXPIRES_IN] else Some false
  | None => Some false
  end = Some valid ->
  valid = true <-> brings_token document.
Proof.
  unfold brings_token. intros Hv. destruct document as [d|]; [|intros [= <-]; naive_solver].
  rewrite Hv. destruct (HasParseError d) eqn:Ep; simpl negb; cbn match; [intros [= <-]; naive_solver|].
  intros E. rewrite (has_members_iff _ _ _ E), !list.Forall_cons, list.Forall_nil. naive_solver.
Qed.

(** A well typed answer of status 200 is read without a failed assertion. *)
Lemma SignInResultImpl_total now error d :
  well_typed d -> is_Some (SignInResultImpl_new now 200 error (Some d)).
Proof.
  intros Hd. unfold SignInResultImpl_new.
  set (valid_here := negb (HasParseError d)).
  assert (BaseResult_new 200 error (Some d) = Some (MkBaseResult 200 (MkErrorResponse 0 error) [] valid_here))
    as -> by done.
  cbn [mbind option_bind base_is_valid].
  assert (is_Some (if valid_here then has_members d [ACCESS_TOKEN; TOKEN_TYPE; EXPIRES_IN] else Some false))
    as [valid ->].
  { destruct valid_here; [|by eexists]. apply has_members_total. repeat constructor; apply Hd. }
  change (HasError _) with false. destruct valid; cbn [mbind option_bind negb]; [|by eexists].
  assert (forall key, key = ACCESS_TOKEN \/ key = TOKEN_TYPE \/ key = REFRESH_TOKEN \/ key = USER_ID ->
    is_Some (optional_string d key)) as Ho by (intros; by apply optional_string_total).
  destruct (Ho ACCESS_TOKEN) as [? ->]; [naive_solver|]. destruct (Ho TOKEN_TYPE) as [? ->]; [naive_solver|].
  destruct (Ho REFRESH_TOKEN) as [? ->]; [naive_solver|]. destruct (Ho USER_ID) as [? ->]; [naive_solver|].
  destruct Hd as (Hk & _ & He). cbn [mbind option_bind].
  destruct (Hk EXPIRES_IN) as [[] E]; rewrite E; cbn [mbind option_bind]; [|by eexists].
  destruct (He E) as [? E']. cbn [mbind option_bind] in E'. rewrite E'. by eexists.
Qed.

(** C30.  Whatever the server answers, a sign-in result counts as valid exactly if the document
    was understood and has an access token, a token type and an expiry, and it has the status
    200 exactly if the response had it and the document is such a one.  Then the token and
    its type are those of the document, the refresh token and the user are those of the
    document or empty if it has none, and the expiry time is the number of seconds of the
    document after the present.  A response of status 200 with any other document is turned
    into the status 503, and with any other status than 200 there is no token.  A well typed
    answer of status 200 always has a result. *)
Theorem sign_in_outcomes now status error document :
  (forall d, status = 200 -> document = Some d -> well_typed d ->
     is_Some (SignInResultImpl_new now status error document)) /\
  forall r, SignInResultImpl_new now status error document = Some r ->
  let base := sign_in_base r in
  (is_valid_ r = true <-> brings_token document) /\
  (status_ base = 200 <-> status = 200 /\ brings_token document) /\
  (status_ base = 200 ->
   exists d seconds,
     document = Some d /\
     string_member d ACCESS_TOKEN (access_token_ r) /\ string_member d TOKEN_TYPE (token_type_ r) /\
     Member d EXPIRES_IN ≫= GetUint = Some seconds /\ expiry_time_ r = swrap 64 (now + seconds) /\
     (if bool_decide (HasMember d REFRESH_TOKEN = Some true)
      then string_member d REFRESH_TOKEN (refresh_token_ r) else refresh_token_ r = []) /\
     (if bool_decide (HasMember d USER_ID = Some true)
      then string_member d USER_ID (user_identifier_ r) else user_identifier_ r = [])) /\
  (status_ base <> 200 ->
   access_token_ r = [] /\ token_type_ r = [] /\ refresh_token_ r = [] /\ expiry_time_ r = 0) /\
  (status = 200 -> ~ brings_token document ->
   status_ base = 503 /\ error_message (result_error base) = ERROR_HTTP_SERVICE_UNAVAILABLE) /\
  (status <> 200 -> status_ base = status).
Proof.
  split; [intros d -> -> Hd; by apply SignInResultImpl_total|]. intros r.
  unfold SignInResultImpl_new. destruct (BaseResult_new status error document) as [b|] eqn:Eb; [|done].
  destruct (BaseResult_rule _ _ _ _ Eb) as [Hs Hv]. cbn [mbind option_bind].
  destruct (match document with Some d => _ | None => Some false end) as [valid|] eqn:Ev; [|done].
  pose proof (valid_iff _ _ _ Hv Ev) as Hvalid.
  cbn [mbind option_bind]. unfold HasError. rewrite Hs. change (http_value Http_Ok) with 200.
  change (http_value Http_ServiceUnavailable) with 503.
  destruct (Z.eqb_spec status 200) as [->|Hne]; cbn [negb].
  2:{ intros [= <-]. simpl. rewrite Hs. naive_solver. }
  destruct valid; cbn [negb]; [|intros [= <-]; simpl; naive_solver].
  destruct (proj1 Hvalid eq_refl) as (d & -> & _ & _ & _ & He). cbn [mbind option_bind].
  destruct (optional_string d ACCESS_TOKEN) as [access|] eqn:Ea; [|done]. cbn [mbind option_bind].
  destruct (optional_string d TOKEN_TYPE) as [type|] eqn:Et; [|done]. cbn [mbind option_bind].
  destruct (optional_string d REFRESH_TOKEN) as [refresh|] eqn:Er; [|done]. cbn [mbind option_bind].
  rewrite He. cbn [mbind option_bind].
  destruct (Member d EXPIRES_IN ≫= GetUint) as [seconds|] eqn:Em; [|done]. cbn [option_bind].
  destruct (optional_string d USER_ID) as [user|] eqn:Eu; [|done]. cbn [option_bind].
  intros [= <-]. simpl. rewrite Hs. split; [done|]. split; [naive_solver|]. split; [|naive_solver].
  intros _. exists d, seconds. pose proof (proj1 Hvalid eq_refl) as (d' & [= <-] & _ & Ha & Hy & _).
  apply optional_string_rule in Ea, Et, Er, Eu. rewrite bool_decide_true in Ea, Et by done. naive_solver.
Qed.

End facts.
