(* ===== verification/AuthenticationClient.v ===== *)
(** * The authentication client

    [olp-cpp-sdk-authentication/src/AuthenticationClient.cpp]: requests signed with
    OAuth, their bodies, and the client that sends them, shares one network between
    the pending requests and remembers the last results for the time without a network.
    The clock, the generator of UUIDs and the answers of the network are chosen by the
    steps; JSON ([Json]) and the iterators of Base64 ([BoostBase64]) are parameters. *)

From stdpp Require Import base numbers list strings option gmap.
From Stdlib Require Import ZArith Lia Bool Ascii.
From S2P Require Import Prelude Decimal Url Http LruCache PriorityQueue QueueDecorator OlpClient Crypto Base64 SignInResults.
Local Open Scope Z_scope.
Local Open Scope olp_scope.

(** ** Properties of users and requests *)

Record AuthenticationCredentials := MkCredentials { key_ : text; secret_ : text }.

Record UserProperties := MkUserProperties {
  user_email : text; user_password : text; user_expires_in : Z }.

Record FederatedProperties := MkFederatedProperties {
  federated_access_token : text; federated_country_code : text; federated_language : text;
  federated_email : text; federated_expires_in : Z }.

Record RefreshProperties := MkRefreshProperties {
  refresh_access_token : text; refresh_refresh_token : text; refresh_expires_in : Z }.

Record SignUpProperties := MkSignUpProperties {
  email : text; password : text; date_of_birth : text; first_name : text; last_name : text;
  country_code : text; language : text; marketing_enabled : bool; phone_number : text;
  realm : text; invite_token : text }.

Inductive FederatedSignInType := FacebookSignIn | GoogleSignIn | ArcgisSignIn.

(** ** Bodies *)

(** A member that is written unless its string is empty, or its number zero;
    [writer.String(s.c_str())] ends at the first NUL. *)
Definition string_field (key value : text) : list (text * JsonField) :=
  match value with [] => [] | _ => [(key, JsonString (c_str value))] end.
Definition uint_field (key : text) (value : Z) : list (text * JsonField) :=
  if value >? 0 then [(key, JsonUint value)] else [].

Definition GRANT_TYPE : text := str "grantType".
Definition grant_type (value : text) : list (text * JsonField) := [(GRANT_TYPE, JsonString value)].

Definition federated_grant_type (type : FederatedSignInType) : text :=
  match type with
  | FacebookSignIn => str "facebook"
  | GoogleSignIn => str "google"
  | ArcgisSignIn => str "arcgis"
  end.

Section client.
Context `{Json} `{BoostBase64}.

Definition generateClientBody (expires_in : Z) : text :=
  WriteObject (grant_type (str "client_credentials") ++ uint_field EXPIRES_IN expires_in).

Definition generateUserBody (properties : UserProperties) : text :=
  WriteObject
    (grant_type (str "password") ++
     string_field (str "email") (user_email properties) ++
     string_field (str "password") (user_password properties) ++
     uint_field EXPIRES_IN (user_expires_in properties)).

Definition generateFederatedBody (type : FederatedSignInType) (properties : FederatedProperties)
    : text :=
  WriteObject
    (grant_type (federated_grant_type type) ++
     string_field ACCESS_TOKEN (federated_access_token properties) ++
     string_field (str "countryCode") (federated_country_code properties) ++
     string_field (str "language") (federated_language properties) ++
     string_field (str "email") (federated_email properties) ++
     uint_field EXPIRES_IN (federated_expires_in properties)).

Definition generateRefreshBody (properties : RefreshProperties) : text :=
  WriteObject
    (grant_type (str "refresh_token") ++
     string_field ACCESS_TOKEN (refresh_access_token properties) ++
     string_field REFRESH_TOKEN (refresh_refresh_token properties) ++
     uint_field EXPIRES_IN (refresh_expires_in properties)).

Definition generateSignUpBody (properties : SignUpProperties) : text :=
  WriteObject
    (string_field (str "email") (email properties) ++
     string_field (str "password") (password properties) ++
     string_field (str "dob") (date_of_birth properties) ++
     string_field (str "firstname") (first_name properties) ++
     string_field (str "lastname") (last_name properties) ++
     string_field (str "countryCode") (country_code properties) ++
     string_field (str "language") (language properties) ++
     (if marketing_enabled properties then [(str "marketingEnabled", JsonBool true)] else []) ++
     string_field (str "phoneNumber") (phone_number properties) ++
     string_field (str "realm") (realm properties) ++
     string_field (str "inviteToken") (invite_token properties)).

Definition generateAcceptTermBody (reacceptance_token : text) : text :=
  WriteObject [(TERMS_REACCEPTANCE_TOKEN, JsonString (c_str reacceptance_token))].

(** ** Signatures *)

Definition LINE_FEED : ascii := char_of 10.

(** [ret.substr(0, ret.find('\n'))] *)
Fixpoint until_line_feed (ret : text) : text :=
  match ret with
  | [] => []
  | c :: rest => if bool_decide (c = LINE_FEED) then [] else c :: until_line_feed rest
  end.

Definition base64Encode (vector : list Z) : text := until_line_feed (Base64Encode vector).

Definition quoted (s : text) : text := [char_of 34] ++ s ++ [char_of 34].

(** The parameters of a request, as they are signed. *)
Definition encodedQuery (key uid currentTime : text) : text :=
  Encode (str "oauth_consumer_key" ++ str "=" ++ key ++ str "&" ++
          str "oauth_nonce" ++ str "=" ++ uid ++ str "&" ++
          str "oauth_signature_method" ++ str "=" ++ str "HMAC-SHA256" ++ str "&" ++
          str "oauth_timestamp" ++ str "=" ++ currentTime ++ str "&" ++
          str "oauth_version" ++ str "=" ++ str "1.0").

Definition signatureBase (url key uid currentTime : text) : text :=
  str "POST" ++ str "&" ++ Encode url ++ str "&" ++ encodedQuery key uid currentTime.

Definition signature (credentials : AuthenticationCredentials) (url uid currentTime : text)
    : option text :=
  hmacResult ← hmac_sha256 (secret_ credentials ++ str "&")
                 (signatureBase url (key_ credentials) uid currentTime);
  Some (base64Encode hmacResult).

(** [uid] is the result of [generateUid()], [now] of [std::time(nullptr)]. *)
Definition generateHeader (credentials : AuthenticationCredentials) (url uid : text) (now : Z)
    : option text :=
  let currentTime := print_s64 now in
  sig ← signature credentials url uid currentTime;
  Some (str "OAuth " ++
        str "oauth_consumer_key" ++ str "=" ++ quoted (Encode (key_ credentials)) ++ str "," ++
        str "oauth_nonce" ++ str "=" ++ quoted (Encode uid) ++ str "," ++
        str "oauth_signature_method" ++ str "=" ++ quoted (str "HMAC-SHA256") ++ str "," ++
        str "oauth_timestamp" ++ str "=" ++ quoted (Encode currentTime) ++ str "," ++
        str "oauth_version" ++ str "=" ++ quoted (str "1.0") ++ str "," ++
        str "oauth_signature" ++ str "=" ++ quoted (Encode sig)).

Definition generateBearerHeader (bearer_token : text) : text := kBearer ++ str " " ++ bearer_token.

(** ** State *)

Inductive AuthResponse (R : Type) := Success (r : R) | Failure (e : AuthenticationErr).
#[global] Arguments Success {R} _.
#[global] Arguments Failure {R} _.

Inductive RequestKind := ClientSignIn | UserSignIn | UserSignUp | UserSignOut.

(** What a callback is called with. *)
Inductive Answer :=
| ClientAnswer (r : AuthResponse SignInResultImpl)
| UserAnswer (r : AuthResponse SignInUserResultImpl)
| SignUpAnswer (r : AuthResponse SignUpResultImpl)
| SignOutAnswer (r : AuthResponse BaseResult).

Record NetworkProxy := MkNetworkProxy {
  proxy_name : text; proxy_port : Z; proxy_user_name : text; proxy_user_password : text }.

(** A request that was sent: its closure holds the network until it is destroyed, which
    happens after it was called. *)
Record Pending := MkPending {
  pending_network : nat;
  pending_id : Z;
  pending_kind : RequestKind;
  pending_key : text;
  pending_callback : nat;
  pending_request : NetworkRequest;
  pending_answered : bool }.

(** The response of the network: the id, the status and the error, what was written to
    the payload, and the time at which it is handled. *)
Record Response := MkResponse {
  response : NetworkResponse; response_payload : text; response_time : Z }.

Record LogEntry := MkLogEntry { log_pending : Pending; log_response : Response; log_answer : Answer }.

(** [AuthenticationClient::Impl], with the proxies of the networks started so far
    ([network_ptr_] is the number of one of them), the requests, and the answers given. *)
Record AuthClient := MkAuthClient {
  server_url_ : text;
  network_ptr_ : option nat;
  network_config_ : option NetworkProxy;
  client_token_cache_ : LruCache text SignInResultImpl unit;
  user_token_cache_ : LruCache text SignInUserResultImpl unit;
  networks : list (option NetworkProxy);
  pending : list Pending;
  answers : list LogEntry }.

Definition AuthenticationClient_new (authentication_server_url : text) (token_cache_limit : Z)
    : AuthClient :=
  MkAuthClient authentication_server_url None None
    (NewLruCache token_cache_limit CacheCost) (NewLruCache token_cache_limit CacheCost) [] [] [].

Definition with_network (network : option nat) (started : list (option NetworkProxy)) (w : AuthClient)
    : AuthClient :=
  MkAuthClient (server_url_ w) network (network_config_ w) (client_token_cache_ w)
    (user_token_cache_ w) started (pending w) (answers w).
Definition with_proxy (proxy : NetworkProxy) (w : AuthClient) : AuthClient :=
  MkAuthClient (server_url_ w) (network_ptr_ w) (Some proxy) (client_token_cache_ w)
    (user_token_cache_ w) (networks w) (pending w) (answers w).
Definition with_pending (p : list Pending) (w : AuthClient) : AuthClient :=
  MkAuthClient (server_url_ w) (network_ptr_ w) (network_config_ w) (client_token_cache_ w)
    (user_token_cache_ w) (networks w) p (answers w).
Definition with_client_cache (c : LruCache text SignInResultImpl unit) (w : AuthClient) : AuthClient :=
  MkAuthClient (server_url_ w) (network_ptr_ w) (network_config_ w) c
    (user_token_cache_ w) (networks w) (pending w) (answers w).
Definition with_user_cache (c : LruCache text SignInUserResultImpl unit) (w : AuthClient) : AuthClient :=
  MkAuthClient (server_url_ w) (network_ptr_ w) (network_config_ w) (client_token_cache_ w)
    c (networks w) (pending w) (answers w).
Definition add_answer (e : LogEntry) (w : AuthClient) : AuthClient :=
  MkAuthClient (server_url_ w) (network_ptr_ w) (network_config_ w) (client_token_cache_ w)
    (user_token_cache_ w) (networks w) (pending w) (answers w ++ [e]).

(** ** The shared network *)

(** [network_ptr_.lock()]: a network lives while a closure holds it. *)
Definition alive (n : nat) (w : AuthClient) : bool :=
  existsb (fun p => pending_network p =? n)%nat (pending w).

Definition lock_network (w : AuthClient) : option nat :=
  n ← network_ptr_ w; if alive n w then Some n else None.

Definition GetScopedNetwork (w : AuthClient) : AuthClient * nat :=
  match lock_network w with
  | Some n => (w, n)
  | None =>
    let n := length (networks w) in
    (with_network (Some n) (networks w ++ [network_config_ w]) w, n)
  end.

(** The proxy has the type [Http]; it is valid if its name is not empty. *)
Definition SetNetworkProxySettings (proxy_settings : NetworkProxy) (w : AuthClient) : AuthClient * bool :=
  match proxy_name proxy_settings with
  | [] => (w, false)
  | _ =>
    match lock_network w with
    | Some _ => (w, false)
    | None => (with_proxy proxy_settings w, true)
    end
  end.

(** ** Requests *)

(** What a [CancellationToken] of the client captures: the network and the id. *)
Definition AuthToken : Type := nat * Z.

Definition OAUTH_ENDPOINT : text := str "/oauth2/token".
Definition SIGNOUT_ENDPOINT : text := str "/logout".
Definition TERMS_ENDPOINT : text := str "/terms".
Definition USER_ENDPOINT : text := str "/user".
Definition APPLICATION_JSON : text := str "application/json".

Context (kOlpSdkUserAgent : text).

(** [id] is what [Network::Send] returns. *)
Definition send (kind : RequestKind) (key : text) (request : NetworkRequest) (callback : nat) (id : Z)
    (w : AuthClient) : AuthClient * AuthToken :=
  let '(w, network) := GetScopedNetwork w in
  (with_pending (pending w ++ [MkPending network id kind key callback request false]) w, (network, id)).

(** A signed request with a JSON body. *)
Definition json_request (credentials : AuthenticationCredentials) (url body uid : text) (now : Z)
    : option NetworkRequest :=
  header ← generateHeader credentials url uid now;
  let request := NewNetworkRequest url 0 PriorityDefault POST in
  let request := AddHeader kAuthorizationHeader header request in
  let request := AddHeader kContentTypeHeader APPLICATION_JSON request in
  let request := AddHeader kUserAgentHeader kOlpSdkUserAgent request in
  Some (SetContent (Some body) request).

Definition SignInClient (credentials : AuthenticationCredentials) (expires_in : Z) (callback : nat)
    (uid : text) (now id : Z) (w : AuthClient) : option (AuthClient * AuthToken) :=
  let url := server_url_ w ++ OAUTH_ENDPOINT in
  request ← json_request credentials url (generateClientBody (u32 expires_in)) uid now;
  Some (send ClientSignIn (key_ credentials) request callback id w).

Definition HandleUserRequest (credentials : AuthenticationCredentials) (endpoint request_body : text)
    (callback : nat) (uid : text) (now id : Z) (w : AuthClient) : option (AuthClient * AuthToken) :=
  request ← json_request credentials (server_url_ w ++ endpoint) request_body uid now;
  Some (send UserSignIn (key_ credentials) request callback id w).

Definition SignInHereUser credentials (properties : UserProperties) :=
  HandleUserRequest credentials OAUTH_ENDPOINT (generateUserBody properties).
Definition SignInRefresh credentials (properties : RefreshProperties) :=
  HandleUserRequest credentials OAUTH_ENDPOINT (generateRefreshBody properties).
Definition SignInFederated credentials (type : FederatedSignInType) (properties : FederatedProperties) :=
  HandleUserRequest credentials OAUTH_ENDPOINT (generateFederatedBody type properties).
Definition AcceptTerms credentials (reacceptanceToken : text) :=
  HandleUserRequest credentials TERMS_ENDPOINT (generateAcceptTermBody reacceptanceToken).

Definition SignUpHereUser (credentials : AuthenticationCredentials) (properties : SignUpProperties)
    (callback : nat) (uid : text) (now id : Z) (w : AuthClient) : option (AuthClient * AuthToken) :=
  request ← json_request credentials (server_url_ w ++ USER_ENDPOINT) (generateSignUpBody properties)
              uid now;
  Some (send UserSignUp (key_ credentials) request callback id w).

Definition SignOut (credentials : AuthenticationCredentials) (userAccessToken : text)
    (callback : nat) (id : Z) (w : AuthClient) : option (AuthClient * AuthToken) :=
  let request := NewNetworkRequest (server_url_ w ++ SIGNOUT_ENDPOINT) 0 PriorityDefault POST in
  let request := AddHeader kAuthorizationHeader (generateBearerHeader userAccessToken) request in
  let request := AddHeader kUserAgentHeader kOlpSdkUserAgent request in
  Some (send UserSignOut (key_ credentials) request callback id w).

(** ** Responses *)

Definition network_error (r : NetworkResponse) : AuthenticationErr :=
  AuthenticationError_new (response_status r) (response_error r).

(** The closure of a sign-in, for clients and users: [make] builds the result,
    [not_cached] is the answer if the network failed and nothing is remembered. *)
Definition sign_in_answer {R : Type} (make : Z -> Z -> text -> option Value -> option R)
    (valid : R -> bool) (not_cached : NetworkResponse -> option (AuthResponse R))
    (key : text) (r : Response) (cache : LruCache text R unit)
    : option (LruCache text R unit * AuthResponse R) :=
  let status := response_status (response r) in
  if status <? 0 then
    if status =? network_value NetCancelled then Some (cache, Failure (network_error (response r)))
    else
      '(cache, it) ← Find key cache;
      match it with
      | Some _ => b ← deref it cache; Some (cache, Success (value_ b))
      | None => answer ← not_cached (response r); Some (cache, answer)
      end
  else
    result ← make (response_time r) status (response_error (response r))
               (Some (ParseStream (response_payload r)));
    if negb (valid result) then Some (cache, Success result)
    else if status =? http_value Http_Ok then
      '(cache, _, _) ← InsertOrAssign key result cache tt;
      Some (cache, Success result)
    else Some (cache, Success result).

Definition user_is_valid (r : SignInUserResultImpl) : bool := is_valid_ (user_sign_in r).

Definition client_answer :=
  sign_in_answer SignInResultImpl_new is_valid_ (fun r => Some (Failure (network_error r))).

(** The document of the result for a failed network is the null pointer. *)
Definition user_answer (now : Z) :=
  sign_in_answer SignInUserResultImpl_new user_is_valid
    (fun r => result ← SignInUserResultImpl_new now (response_status r) (response_error r) None;
              Some (Success result)).

(** The closures of [SignUpHereUser] and [SignOut]. *)
Definition plain_answer {R : Type} (make : Z -> text -> option Value -> option R) (r : Response)
    : option (AuthResponse R) :=
  let status := response_status (response r) in
  if status <? 0 then Some (Failure (network_error (response r)))
  else
    result ← make status (response_error (response r)) (Some (ParseStream (response_payload r)));
    Some (Success result).

(** The call of the closure of [p] with the response [r]. *)
Definition call_closure (p : Pending) (r : Response) (w : AuthClient) : option AuthClient :=
  match pending_kind p with
  | ClientSignIn =>
    '(cache, answer) ← client_answer (pending_key p) r (client_token_cache_ w);
    Some (add_answer (MkLogEntry p r (ClientAnswer answer)) (with_client_cache cache w))
  | UserSignIn =>
    '(cache, answer) ← user_answer (response_time r) (pending_key p) r (user_token_cache_ w);
    Some (add_answer (MkLogEntry p r (UserAnswer answer)) (with_user_cache cache w))
  | UserSignUp =>
    answer ← plain_answer SignUpResultImpl_new r;
    Some (add_answer (MkLogEntry p r (SignUpAnswer answer)) w)
  | UserSignOut =>
    answer ← plain_answer SignOutResultImpl_new r;
    Some (add_answer (MkLogEntry p r (SignOutAnswer answer)) w)
  end.

(** ** Steps *)

Inductive UserRequest :=
| HereUser (properties : UserProperties)
| Refresh (properties : RefreshProperties)
| Federated (type : FederatedSignInType) (properties : FederatedProperties)
| Accept (reacceptance_token : text).

(** The methods of [AuthenticationClient] that sign in a user. *)
Definition user_request (u : UserRequest) (credentials : AuthenticationCredentials) :=
  match u with
  | HereUser properties => SignInHereUser credentials properties
  | Refresh properties => SignInRefresh credentials properties
  | Federated type properties => SignInFederated credentials type properties
  | Accept token => AcceptTerms credentials token
  end.

(** The calls of the user, of the network (a response, and the destruction of a closure
    that was called), and of a [CancellationToken]. *)
Inductive Action :=
| DoSignInClient (credentials : AuthenticationCredentials) (expires_in : Z) (callback : nat)
    (uid : text) (now id : Z)
| DoUserRequest (u : UserRequest) (credentials : AuthenticationCredentials) (callback : nat)
    (uid : text) (now id : Z)
| DoSignUp (credentials : AuthenticationCredentials) (properties : SignUpProperties) (callback : nat)
    (uid : text) (now id : Z)
| DoSignOut (credentials : AuthenticationCredentials) (token : text) (callback : nat) (id : Z)
| DoSetProxy (proxy : NetworkProxy)
| DoRespond (id : Z) (r : Response)
| DoRelease (id : Z)
| DoCancel (token : AuthToken).

Definition waits_for (id : Z) (p : Pending) : bool := (pending_id p =? id) && negb (pending_answered p).

Definition mark_answered (id : Z) (p : Pending) : Pending :=
  if pending_id p =? id then
    MkPending (pending_network p) (pending_id p) (pending_kind p) (pending_key p) (pending_callback p)
      (pending_request p) true
  else p.

Definition fresh_id (id : Z) (w : AuthClient) : bool :=
  negb (existsb (fun p => pending_id p =? id) (pending w)).

(** What the network does: ids of pending requests differ, a request is answered once,
    and its closure is destroyed afterwards; a token names a network that was started. *)
Definition enabled (a : Action) (w : AuthClient) : bool :=
  match a with
  | DoSignInClient _ _ _ _ _ id | DoUserRequest _ _ _ _ _ id | DoSignUp _ _ _ _ _ id
  | DoSignOut _ _ _ id => fresh_id id w
  | DoSetProxy _ => true
  | DoRespond id _ => existsb (waits_for id) (pending w)
  | DoRelease id => existsb (fun p => (pending_id p =? id) && pending_answered p) (pending w)
  | DoCancel (network, _) => (network <? length (networks w))%nat
  end.

(** [network.Cancel(request_id)]: the reference is valid while the network lives.  The
    network may then answer the request with the status of a cancellation. *)
Definition cancel_token (token : AuthToken) (w : AuthClient) : option AuthClient :=
  if alive token.1 w then Some w else None.

Definition perform (a : Action) (w : AuthClient) : option AuthClient :=
  match a with
  | DoSignInClient credentials expires_in callback uid now id =>
    fst <$> SignInClient credentials expires_in callback uid now id w
  | DoUserRequest u credentials callback uid now id =>
    fst <$> user_request u credentials callback uid now id w
  | DoSignUp credentials properties callback uid now id =>
    fst <$> SignUpHereUser credentials properties callback uid now id w
  | DoSignOut credentials token callback id => fst <$> SignOut credentials token callback id w
  | DoSetProxy proxy => Some (SetNetworkProxySettings proxy w).1
  | DoRespond id r =>
    p ← List.find (waits_for id) (pending w);
    w ← call_closure p r w;
    Some (with_pending (mark_answered id <$> pending w) w)
  | DoRelease id => Some (with_pending (filter (fun p => pending_id p <> id) (pending w)) w)
  | DoCancel token => cancel_token token w
  end.

(** The states after the actions that the network allows and that do not fail. *)
Inductive reachable (url : text) (token_cache_limit : Z) : AuthClient -> Prop :=
| reach_new : reachable url token_cache_limit (AuthenticationClient_new url token_cache_limit)
| reach_step w a w' :
    reachable url token_cache_limit w -> enabled a w = true -> perform a w = Some w' ->
    reachable url token_cache_limit w'.

End client.
