(* ===== verification/AuthenticationFacts.v ===== *)
(** * What the authentication client answers

    The client of [AuthenticationClient] refines one that remembers its results in
    lists: every answer is the parsed response to the request, an error, or the last
    result remembered for the same key; and all pending requests share one network,
    which has the configured proxy. *)

From stdpp Require Import base numbers list strings option gmap.
From Stdlib Require Import ZArith Lia Bool Ascii.
From S2P Require Import Prelude Decimal Url Http LruCache LruFacts LruSpec PriorityQueue QueueDecorator Crypto CryptoFacts Base64 SignInResults AuthenticationClient.
Local Open Scope Z_scope.
Local Open Scope olp_scope.

(** ** The memory of results *)

(** Results by key, the last used one first. *)
Abbreviation memory R := (list (text * R)).

Definition remember {R} (limit : Z) (key : text) (v : R) (l : memory R) : memory R :=
  take (Z.to_nat limit) ((key, v) :: remove_item key l).

Definition touch {R} (key : text) (l : memory R) : memory R :=
  match lookup_item key l with Some v => (key, v) :: remove_item key l | None => l end.

(** [c] holds the results of [l], at most [limit]. *)
Record holds_memory {R} (limit : Z) (l : memory R) (c : LruCache text R unit) : Prop := {
  memory_implemented : implements (MkAbstract l limit) c;
  memory_cost : cache_cost_func_ c = CacheCost;
  memory_callback : eviction_callback_ c = None }.

Lemma total_ones {R} (l : memory R) : total CacheCost l = Z.of_nat (length l).
Proof. induction l as [|x l IH]; [done|]. cbn [total foldr length]. unfold total in IH. rewrite IH. unfold CacheCost. lia. Qed.

Lemma keep_ones {R} budget (l : memory R) : keep CacheCost budget l = take (Z.to_nat budget) l.
Proof.
  revert budget. induction l as [|x l IH]; intros budget; [by rewrite take_nil|]. cbn [keep].
  unfold CacheCost at 1 2. destruct (Z.leb_spec 1 budget).
  - rewrite IH. replace (Z.to_nat budget) with (S (Z.to_nat (budget - 1))) by lia. done.
  - by replace (Z.to_nat budget) with 0%nat by lia.
Qed.

Lemma small_cost {R} : small_costs (CacheCost (V := R)).
Proof. intros v. unfold CacheCost. lia. Qed.

Lemma lru_memory {R} limit (l : memory R) c op :
  holds_memory limit l c -> op_small op ->
  exists c' r, lru_step op c tt = Some (c', tt, r) /\
    let '(a, _, r') := spec_step CacheCost None op (MkAbstract l limit) tt in
    r = r' /\ (capacity a = limit -> holds_memory limit (items a) c').
Proof.
  intros [Hi Hc Hcb] Hop.
  destruct (lru_step_sim op c _ tt Hi) as (c' & [] & r & E & [Hs Hs'] & Hsim);
    [rewrite Hc; apply small_cost|done|].
  exists c', r. split; [done|]. rewrite Hc, Hcb in Hsim.
  destruct (spec_step _ _ _ _ _) as [[a w] r'] eqn:Ea. destruct Hsim as (_ & -> & Hi'). split; [done|].
  intros <-. split; [by destruct a|congruence..].
Qed.

Lemma new_memory {R} limit :
  0 <= limit < 2 ^ 63 -> holds_memory limit [] (NewLruCache limit CacheCost : LruCache text R unit).
Proof.
  intros Hl. split; [|done..]. split; simpl; [|done|lia..].
  apply repr_new. unfold in_range. lia.
Qed.

Lemma Find_memory {R} limit (l : memory R) c key :
  holds_memory limit l c ->
  exists c', holds_memory limit (touch key l) c' /\
    Find key c = Some (c', (fun _ => key) <$> lookup_item key l) /\
    (forall v, lookup_item key l = Some v -> exists b, deref (Some key) c' = Some b /\ value_ b = v).
Proof.
  intros Hm. destruct (lru_memory limit l c (OpFind key) Hm) as (c' & r & E & Hs); [done|].
  cbn [lru_step] in E. destruct (Find key c) as [[c1 it]|]; [|done]. simpl in E. injection E as -> <-.
  exists c'. cbn [spec_step items capacity] in Hs. unfold touch.
  destruct (lookup_item key l) as [v|] eqn:El; destruct Hs as [[= ->] Hh].
  - specialize (Hh eq_refl). simpl in Hh. split; [done|]. split; [done|]. intros ? [= <-].
    destruct Hh as [[Hr _ _ _] _ _]. simpl in Hr. apply repr_linked in Hr.
    rewrite (linked_deref c' [] key v _ Hr). by eexists.
  - split; [by apply Hh|]. by split.
Qed.

Lemma InsertOrAssign_memory {R} limit (l : memory R) c key v :
  holds_memory limit l c ->
  exists c' r, holds_memory limit (remember limit key v l) c' /\
    InsertOrAssign key v c tt = Some (c', tt, r).
Proof.
  intros Hm. destruct (lru_memory limit l c (OpInsertOrAssign key v) Hm) as (c' & r & E & Hs); [done|].
  cbn [lru_step] in E. exists c', r. split; [|done].
  cbn [spec_step items capacity] in Hs. unfold remember.
  destruct (lookup_item key l) as [v0|] eqn:El.
  - destruct Hs as [_ Hh]. rewrite <- keep_ones. by apply Hh.
  - apply lookup_item_None in El. rewrite remove_item_absent by done. revert Hs. unfold CacheCost at 1.
    rewrite Z.gtb_ltb. destruct (Z.ltb_spec limit 1) as [Hl|Hl]; intros [_ Hh].
    + destruct Hm as [[_ _ _ Hfit] Hc _]. rewrite Hc, total_ones in Hfit. simpl in Hfit.
      replace (Z.to_nat limit) with 0%nat by lia. destruct l; [by apply Hh|simpl in Hfit; lia].
    + rewrite <- keep_ones. by apply Hh.
Qed.

(** ** Sign-in with a memory *)

Section answers.
Context `{Json} `{BoostBase64}.

(** [sign_in_answer] with a memory in place of the cache. *)
Definition answer_from_memory {R : Type} (make : Z -> Z -> text -> option Value -> option R)
    (valid : R -> bool) (not_cached : NetworkResponse -> option (AuthResponse R)) (limit : Z)
    (key : text) (r : Response) (l : memory R) : option (memory R * AuthResponse R) :=
  let status := response_status (response r) in
  if status =? network_value NetCancelled then Some (l, Failure (network_error (response r)))
  else if status <? 0 then
    match lookup_item key l with
    | Some v => Some (touch key l, Success v)
    | None => answer ← not_cached (response r); Some (l, answer)
    end
  else
    result ← make (response_time r) status (response_error (response r))
               (Some (ParseStream (response_payload r)));
    Some (if valid result && (status =? http_value Http_Ok) then remember limit key result l else l,
          Success result).

Lemma sign_in_answer_memory {R} make valid not_cached limit key r (l : memory R) c :
  holds_memory limit l c ->
  match answer_from_memory make valid not_cached limit key r l with
  | Some (l', answer) =>
    exists c', sign_in_answer make valid not_cached key r c = Some (c', answer) /\ holds_memory limit l' c'
  | None => sign_in_answer make valid not_cached key r c = None
  end.
Proof.
  intros Hm. unfold answer_from_memory, sign_in_answer.
  set (status := response_status (response r)). change (network_value NetCancelled) with (-5).
  destruct (Z.eqb_spec status (-5)) as [->|]; [by eexists|].
  destruct (status <? 0).
  - destruct (Find_memory limit l c key Hm) as (c' & Hm' & -> & Hd). unfold touch in Hm'.
    cbn [mbind option_bind]. destruct (lookup_item key l) as [v|] eqn:El.
    + destruct (Hd v eq_refl) as (b & Hb & <-). simpl. rewrite Hb. simpl. unfold touch. rewrite El.
      by exists c'.
    + simpl. destruct (not_cached (response r)); simpl; [|done]. by exists c'.
  - destruct (make _ _ _ _) as [v|]; [|done]. cbn [mbind option_bind].
    destruct (valid v); [|by eexists]. cbn [negb andb].
    destruct (status =? http_value Http_Ok); [|by eexists].
    destruct (InsertOrAssign_memory limit l c key v Hm) as (c' & b & Hm' & ->). by exists c'.
Qed.

(** ** Logs and what they leave in memory *)

Record Memory := MkMemory {
  client_memory : memory SignInResultImpl; user_memory : memory SignInUserResultImpl }.

Definition user_not_cached (now : Z) (r : NetworkResponse) : option (AuthResponse SignInUserResultImpl) :=
  result ← SignInUserResultImpl_new now (response_status r) (response_error r) None;
  Some (Success result).

(** The abstract client: the answer to a request, and the memory after it. *)
Inductive answers_with (limit : Z) (p : Pending) (r : Response) : Memory -> Answer -> Memory -> Prop :=
| answers_client m l answer :
    pending_kind p = ClientSignIn ->
    answer_from_memory SignInResultImpl_new is_valid_ (fun r => Some (Failure (network_error r)))
      limit (pending_key p) r (client_memory m) = Some (l, answer) ->
    answers_with limit p r m (ClientAnswer answer) (MkMemory l (user_memory m))
| answers_user m l answer :
    pending_kind p = UserSignIn ->
    answer_from_memory SignInUserResultImpl_new user_is_valid (user_not_cached (response_time r))
      limit (pending_key p) r (user_memory m) = Some (l, answer) ->
    answers_with limit p r m (UserAnswer answer) (MkMemory (client_memory m) l)
| answers_sign_up m answer :
    pending_kind p = UserSignUp -> plain_answer SignUpResultImpl_new r = Some answer ->
    answers_with limit p r m (SignUpAnswer answer) m
| answers_sign_out m answer :
    pending_kind p = UserSignOut -> plain_answer SignOutResultImpl_new r = Some answer ->
    answers_with limit p r m (SignOutAnswer answer) m.

(** The log of answers is one of the abstract client. *)
Inductive explains (limit : Z) : list LogEntry -> Memory -> Prop :=
| explains_nil : explains limit [] (MkMemory [] [])
| explains_snoc log m p r answer m' :
    explains limit log m -> answers_with limit p r m answer m' ->
    explains limit (log ++ [MkLogEntry p r answer]) m'.

Record memories (limit : Z) (m : Memory) (w : AuthClient) : Prop := {
  memories_client : holds_memory limit (client_memory m) (client_token_cache_ w);
  memories_user : holds_memory limit (user_memory m) (user_token_cache_ w) }.

Lemma call_closure_rule limit m p r w w' :
  memories limit m w -> call_closure p r w = Some w' ->
  exists answer m', answers_with limit p r m answer m' /\ memories limit m' w' /\
    answers w' = answers w ++ [MkLogEntry p r answer] /\
    pending w' = pending w /\ networks w' = networks w /\ network_ptr_ w' = network_ptr_ w /\
    network_config_ w' = network_config_ w.
Proof.
  intros [Hc Hu]. unfold call_closure. destruct (pending_kind p) eqn:Hk.
  - pose proof (sign_in_answer_memory SignInResultImpl_new is_valid_
      (fun r => Some (Failure (network_error r))) limit (pending_key p) r _ _ Hc) as Hs.
    unfold client_answer. destruct (answer_from_memory _ _ _ _ _ _ _) as [[l a]|] eqn:E.
    + destruct Hs as (c' & -> & Hc'). intros [= <-]. eexists _, (MkMemory l (user_memory m)).
      split; [by apply answers_client|]. split; [by split|done].
    + rewrite Hs. done.
  - pose proof (sign_in_answer_memory SignInUserResultImpl_new user_is_valid
      (user_not_cached (response_time r)) limit (pending_key p) r _ _ Hu) as Hs.
    unfold user_answer. fold (user_not_cached (response_time r)).
    destruct (answer_from_memory _ _ _ _ _ _ _) as [[l a]|] eqn:E.
    + destruct Hs as (c' & -> & Hc'). intros [= <-]. eexists _, (MkMemory (client_memory m) l).
      split; [by apply answers_user|]. split; [by split|done].
    + rewrite Hs. done.
  - destruct (plain_answer _ r) as [a|] eqn:E; [|done]. intros [= <-]. eexists _, m.
    split; [by apply answers_sign_up|]. split; [by split|done].
  - destruct (plain_answer _ r) as [a|] eqn:E; [|done]. intros [= <-]. eexists _, m.
    split; [by apply answers_sign_out|]. split; [by split|done].
Qed.

(** ** The network of the pending requests *)

Record good_client (w : AuthClient) : Prop := {
  good_network p :
    p ∈ pending w ->
    network_ptr_ w = Some (pending_network p) /\
    networks w !! pending_network p = Some (network_config_ w);
  good_ids : NoDup (pending_id <$> pending w) }.

Lemma alive_true n w : alive n w = true <-> exists p, p ∈ pending w /\ pending_network p = n.
Proof.
  unfold alive. rewrite existsb_exists. split.
  - intros (p & Hp & Hn%Nat.eqb_eq). exists p. by rewrite list_elem_of_In.
  - intros (p & Hp & Hn). exists p. by rewrite <- list_elem_of_In, Nat.eqb_eq.
Qed.

Lemma lock_network_rule w :
  good_client w ->
  lock_network w = match pending w with [] => None | p :: _ => Some (pending_network p) end.
Proof.
  intros [Hn _]. unfold lock_network. destruct (pending w) as [|p l] eqn:Ep.
  - destruct (network_ptr_ w) as [n|]; [|done]. simpl. unfold alive. by rewrite Ep.
  - destruct (Hn p) as [-> _]; [by left|]. simpl.
    rewrite (proj2 (alive_true (pending_network p) w)); [done|]. exists p. rewrite Ep. split; [left|done].
Qed.

Lemma GetScopedNetwork_rule w :
  good_client w ->
  exists n started,
    GetScopedNetwork w = (with_network (Some n) started w, n) /\
    started !! n = Some (network_config_ w) /\
    forall p, p ∈ pending w -> pending_network p = n.
Proof.
  intros Hw. unfold GetScopedNetwork. rewrite lock_network_rule by done.
  destruct (pending w) as [|p l] eqn:Ep.
  - do 2 eexists. split; [done|]. split; [|by intros ? ?%elem_of_nil].
    by rewrite lookup_app_r, Nat.sub_diag by lia.
  - destruct (good_network w Hw p) as [Hp Hn]; [rewrite Ep; left|].
    exists (pending_network p), (networks w). split; [by rewrite <- Hp; destruct w|]. split; [done|].
    intros q Hq. destruct (good_network w Hw q) as [Hq' _]; [by rewrite Ep|]. congruence.
Qed.

Lemma fresh_id_true id w : fresh_id id w = true <-> id ∉ pending_id <$> pending w.
Proof.
  unfold fresh_id. rewrite negb_true_iff, <- not_true_iff_false, existsb_exists.
  rewrite list_elem_of_fmap. apply not_iff_compat. split.
  - intros (p & Hp & Hi%Z.eqb_eq). exists p. by rewrite list_elem_of_In.
  - intros (p & -> & Hp). exists p. by rewrite <- list_elem_of_In, Z.eqb_eq.
Qed.

Definition same_memory (w w' : AuthClient) : Prop :=
  client_token_cache_ w' = client_token_cache_ w /\ user_token_cache_ w' = user_token_cache_ w /\
  answers w' = answers w.

Lemma send_rule kind key request callback id w :
  good_client w -> fresh_id id w = true ->
  good_client (send kind key request callback id w).1 /\
  same_memory w (send kind key request callback id w).1.
Proof.
  intros Hw Hid%fresh_id_true. unfold send.
  destruct (GetScopedNetwork_rule w Hw) as (n & started & -> & Hs & Hn). split; [|done]. split; simpl.
  - intros p [Hp| ->%list_elem_of_singleton]%elem_of_app; [|done]. rewrite (Hn p Hp). done.
  - rewrite fmap_app. apply NoDup_app. split; [apply Hw|]. split; [|by apply NoDup_singleton].
    intros i Hi ->%list_elem_of_singleton. done.
Qed.

(** A request is a call of [send]. *)
Definition is_request (a : Action) : bool :=
  match a with DoSignInClient _ _ _ _ _ _ | DoUserRequest _ _ _ _ _ _ | DoSignUp _ _ _ _ _ _
             | DoSignOut _ _ _ _ => true | _ => false end.

Context (kOlpSdkUserAgent : text).

Lemma json_request_defined credentials url body uid now :
  is_Some (json_request kOlpSdkUserAgent credentials url body uid now).
Proof.
  unfold json_request, generateHeader, signature.
  destruct (hmac_rule (secret_ credentials ++ str "&")
    (signatureBase url (key_ credentials) uid (print_s64 now))) as (d & -> & _). by eexists.
Qed.

Lemma request_sends a w :
  is_request a = true -> enabled a w = true ->
  exists kind key request callback id,
    fresh_id id w = true /\
    perform kOlpSdkUserAgent a w = Some (send kind key request callback id w).1.
Proof.
  assert (forall kind key callback id credentials url body uid now,
    fresh_id id w = true ->
    exists kind' key' request callback' id', fresh_id id' w = true /\
      fst <$> (request ← json_request kOlpSdkUserAgent credentials url body uid now;
               Some (send kind key request callback id w)) =
      Some (send kind' key' request callback' id' w).1) as Hj.
  { intros kind key callback id credentials url body uid now Hid.
    destruct (json_request_defined credentials url body uid now) as [request ->].
    by exists kind, key, request, callback, id. }
  destruct a as [credentials expires_in callback uid now id|[p|p|t p|token] credentials callback uid now id
    |credentials p callback uid now id|credentials token callback id| | | | ]; try discriminate;
    intros _ Hid; try by apply Hj.
  simpl. unfold SignOut. by do 5 eexists.
Qed.

Lemma perform_rule limit log m a w w' :
  good_client w -> memories limit m w -> answers w = log -> explains limit log m ->
  enabled a w = true -> perform kOlpSdkUserAgent a w = Some w' ->
  good_client w' /\ exists m', memories limit m' w' /\ explains limit (answers w') m'.
Proof.
  intros Hw Hm <- Hlog Ha. destruct (is_request a) eqn:Hr.
  { destruct (request_sends a w Hr Ha) as (kind & key & request & callback & id & Hid & ->).
    intros [= <-]. destruct (send_rule kind key request callback id w Hw Hid) as [? (Hc & Hu & ->)].
    split; [done|]. exists m. split; [|done]. destruct Hm. by split; rewrite ?Hc, ?Hu. }
  destruct a as [| | | |proxy|id r|id|token]; try discriminate; simpl.
  - intros [= <-]. unfold SetNetworkProxySettings. destruct (proxy_name proxy); [by eauto|].
    rewrite lock_network_rule by done. destruct (pending w) eqn:Ep; [|by eauto].
    split; [|by exists m; split; [destruct Hm; by split|]].
    split; simpl; rewrite Ep; [by intros ? ?%elem_of_nil|constructor].
  - destruct (List.find _ _) as [p|] eqn:Hf; [|done]. simpl.
    destruct (call_closure p r w) as [w1|] eqn:E; [|done]. intros [= <-].
    destruct (call_closure_rule limit m p r w w1 Hm E)
      as (answer & m' & Hans & [Hc' Hu'] & Ea & Ep & En & Ew & Ec). split.
    + assert (forall q, pending_network (mark_answered id q) = pending_network q /\
                        pending_id (mark_answered id q) = pending_id q) as Hmark.
      { intros q. unfold mark_answered. by destruct (_ =? _). }
      split; simpl; rewrite Ep, ?Ew, ?En, ?Ec.
      * intros q (q' & -> & Hq)%list_elem_of_fmap. destruct (Hmark q') as [-> _]. by apply Hw.
      * rewrite <- list_fmap_compose.
        rewrite (list_fmap_ext _ pending_id _ (fun i q _ => proj2 (Hmark q))). apply Hw.
    + exists m'. split; [by split|]. simpl. rewrite Ea. by econstructor.
  - intros [= <-]. split; [|by exists m; split; [destruct Hm; by split|]]. split; simpl.
    + intros q [_ Hq]%list_elem_of_filter. by apply Hw.
    + eapply sublist_NoDup; [apply Hw|]. apply fmap_sublist, sublist_filter.
  - unfold cancel_token. destruct (alive _ _); intros [= <-]. by eauto.
Qed.

Lemma reachable_good url limit w :
  0 <= limit < 2 ^ 63 -> reachable kOlpSdkUserAgent url limit w ->
  good_client w /\ exists m, memories limit m w /\ explains limit (answers w) m.
Proof.
  intros Hl. induction 1 as [|w a w' _ (Hw & m & Hm & Hlog) Ha Hp].
  - split; [split; simpl; [by intros ? ?%elem_of_nil|constructor]|].
    exists (MkMemory [] []). split; [split; by apply new_memory|constructor].
  - by apply (perform_rule limit (answers w) m a w).
Qed.

(** ** Where remembered results come from *)

(** [v] is the valid result of a request with the key [key] that was answered with the
    status 200. *)
Definition issued {R : Type} (wrap : AuthResponse R -> Answer)
    (make : Z -> Z -> text -> option Value -> option R) (valid : R -> bool)
    (log : list LogEntry) (key : text) (v : R) : Prop :=
  exists p r,
    MkLogEntry p r (wrap (Success v)) ∈ log /\ pending_key p = key /\
    response_status (response r) = http_value Http_Ok /\ valid v = true /\
    make (response_time r) (http_value Http_Ok) (response_error (response r))
      (Some (ParseStream (response_payload r))) = Some v.

Lemma issued_more {R} wrap make valid log e key (v : R) :
  issued wrap make valid log key v -> issued wrap make valid (log ++ [e]) key v.
Proof. intros (p & r & Hin & H'). exists p, r. rewrite elem_of_app. by split; [left|]. Qed.

Lemma lookup_item_elem {R} key (l : memory R) v : lookup_item key l = Some v -> (key, v) ∈ l.
Proof.
  induction l as [|[k x] l IH]; [done|]. simpl. destruct (decide (k = key)) as [->|].
  - intros [= ->]. left.
  - intros E. right. by apply IH.
Qed.

Lemma touch_elem {R} key (l : memory R) x : x ∈ touch key l -> x ∈ l.
Proof.
  unfold touch. destruct (lookup_item key l) as [v|] eqn:E; [|done].
  intros [->|Hx]%elem_of_cons.
  - by apply lookup_item_elem.
  - by apply list_elem_of_filter in Hx as [_ ?].
Qed.

Lemma remember_elem {R} limit key v (l : memory R) x :
  x ∈ remember limit key v l -> x = (key, v) \/ x ∈ l.
Proof.
  unfold remember. intros Hx%elem_of_take. destruct Hx as (i & Hx & _).
  apply list_elem_of_lookup_2, elem_of_cons in Hx as [->|Hx]; [by left|].
  apply list_elem_of_filter in Hx as [_ ?]. by right.
Qed.

(** How an answer of the abstract client comes about, and what it adds to the memory. *)
Definition explained {R : Type} (wrap : AuthResponse R -> Answer)
    (make : Z -> Z -> text -> option Value -> option R) (valid : R -> bool)
    (failed : NetworkResponse -> R -> Prop) (log : list LogEntry) (p : Pending) (r : Response) (v : R)
    : Prop :=
  let status := response_status (response r) in
  (0 <= status /\ make (response_time r) status (response_error (response r))
                    (Some (ParseStream (response_payload r))) = Some v) \/
  (status < 0 /\ status <> network_value NetCancelled /\
   (issued wrap make valid log (pending_key p) v \/ failed (response r) v)).

Lemma answer_explained {R} wrap make valid not_cached limit log p r (l l' : memory R) answer :
  (forall key v, (key, v) ∈ l -> issued wrap make valid log key v) ->
  answer_from_memory make valid not_cached limit (pending_key p) r l = Some (l', answer) ->
  (forall v, answer = Success v ->
     explained wrap make valid (fun r' v' => not_cached r' = Some (Success v')) log p r v) /\
  (forall key v, (key, v) ∈ l' ->
     issued wrap make valid (log ++ [MkLogEntry p r (wrap answer)]) key v).
Proof.
  intros Hl. unfold answer_from_memory, explained. set (status := response_status (response r)).
  destruct (Z.eqb_spec status (network_value NetCancelled)) as [Hc|Hc].
  { intros [= <- <-]. split; [done|]. intros key v Hv. by apply issued_more, Hl. }
  destruct (Z.ltb_spec status 0) as [Hs|Hs].
  - destruct (lookup_item (pending_key p) l) as [v|] eqn:E.
    + intros [= <- <-]. split.
      * intros ? [= <-]. right. split; [done|]. split; [done|]. left. by apply Hl, lookup_item_elem.
      * intros key v' Hv%touch_elem. by apply issued_more, Hl.
    + destruct (not_cached (response r)) as [a|] eqn:En; [|done]. intros [= <- <-]. split.
      * intros v ->. right. auto.
      * intros key v' Hv. by apply issued_more, Hl.
  - destruct (make _ _ _ _) as [v|] eqn:Em; [|done]. intros [= <- <-]. split.
    + intros ? [= <-]. by left.
    + intros key v'. destruct (valid v) eqn:Hv; [destruct (status =? _) eqn:Ho; [apply Z.eqb_eq in Ho|]|]; simpl;
        intros Hin; [|by apply issued_more, Hl..].
      apply remember_elem in Hin as [[= -> ->]|Hin]; [|by apply issued_more, Hl].
      rewrite Ho in Em. exists p, r. split; [apply elem_of_app; right; left|done].
Qed.

Definition client_issued := issued ClientAnswer SignInResultImpl_new is_valid_.
Definition user_issued := issued UserAnswer SignInUserResultImpl_new user_is_valid.

Definition memory_issued (log : list LogEntry) (m : Memory) : Prop :=
  (forall key v, (key, v) ∈ client_memory m -> client_issued log key v) /\
  (forall key v, (key, v) ∈ user_memory m -> user_issued log key v).

(** The result of a failed network is remembered, or made without a document. *)
Definition entry_explained (log : list LogEntry) (e : LogEntry) : Prop :=
  match log_answer e with
  | ClientAnswer (Success v) =>
    explained ClientAnswer SignInResultImpl_new is_valid_ (fun _ _ => False) log
      (log_pending e) (log_response e) v
  | UserAnswer (Success v) =>
    explained UserAnswer SignInUserResultImpl_new user_is_valid
      (fun r v => SignInUserResultImpl_new (response_time (log_response e)) (response_status r)
                    (response_error r) None = Some v) log
      (log_pending e) (log_response e) v
  | _ => True
  end.

Lemma explains_issued limit log m :
  explains limit log m ->
  memory_issued log m /\
  forall l1 e l2, log = l1 ++ e :: l2 -> entry_explained l1 e.
Proof.
  induction 1 as [|log m p r answer m' _ [[Hc Hu] IH] Ha].
  { split; [split; intros ? ? ?%elem_of_nil; done|]. by intros [|] ? ?. }
  assert (memory_issued (log ++ [MkLogEntry p r answer]) m' /\ entry_explained log (MkLogEntry p r answer))
    as [Hm He].
  { destruct Ha as [m l a _ Ha|m l a _ Ha|m a _ _|m a _ _].
    - destruct (answer_explained ClientAnswer _ _ _ _ log _ _ _ _ _ Hc Ha) as [He Hl].
      split; [split; [done|]; intros ? ? ?; by apply issued_more, Hu|].
      destruct a as [v|]; [|done]. destruct (He v eq_refl) as [?|(? & ? & [?|[=]])]; [by left|].
      right. by auto.
    - destruct (answer_explained UserAnswer _ _ _ _ log _ _ _ _ _ Hu Ha) as [He Hl].
      split; [split; [|done]; intros ? ? ?; by apply issued_more, Hc|].
      destruct a as [v|]; [|done]. destruct (He v eq_refl) as [?|(? & ? & [?|Hn])]; [by left|right; by auto|].
      right. split; [done|]. split; [done|]. right. unfold user_not_cached in Hn.
      destruct (SignInUserResultImpl_new _ _ _ None); [|done]. by injection Hn as ->.
    - split; [|done]. split; intros ? ? ?; [by apply issued_more, Hc|by apply issued_more, Hu].
    - split; [|done]. split; intros ? ? ?; [by apply issued_more, Hc|by apply issued_more, Hu]. }
  split; [done|]. intros l1 e l2 E. destruct l2 as [|e' l2 _] using rev_ind.
  - apply app_inj_tail in E as [<- <-]. done.
  - rewrite app_comm_cons, app_assoc in E. apply app_inj_tail in E as [-> _]. by eapply IH.
Qed.

(** ** Properties *)

(** C10.  For any sequence of calls, responses and cancellations, in any order, the answers
    of the client are those of an abstract client whose caches are lists of the last
    results by key, the last used one first, with at most [token_cache_limit] elements: a
    cancelled request is an error, a failed network is answered from the list, and a valid
    response with the status 200 is put at its front. *)
Theorem answers_refine_memory url limit w :
  0 <= limit < 2 ^ 63 -> reachable kOlpSdkUserAgent url limit w ->
  exists m, explains limit (answers w) m /\ memories limit m w.
Proof. intros Hl Hw. destruct (reachable_good url limit w Hl Hw) as (_ & m & ? & ?). by exists m. Qed.

(** C27.  A result that the client answers was parsed from the response to that very request;
    or the network failed without a cancellation, and it is the valid result of an earlier
    request with the same key that was answered with the status 200, or, for a user, a
    result without a document that carries the error. *)
Theorem results_are_issued url limit w l1 e l2 :
  0 <= limit < 2 ^ 63 -> reachable kOlpSdkUserAgent url limit w ->
  answers w = l1 ++ e :: l2 -> entry_explained l1 e.
Proof.
  intros Hl Hw E. destruct (reachable_good url limit w Hl Hw) as (_ & m & _ & Hx).
  by apply (explains_issued _ _ _ Hx) with l2.
Qed.

(** C28.  All requests that wait for an answer use one network, which was started with the proxy
    that is configured now; a proxy is accepted exactly if it has a name and no request
    holds the network; and a cancellation token may be used exactly while some request
    holds its network: after the last answer the reference it captured dangles. *)
Theorem pending_share_network url limit w :
  0 <= limit < 2 ^ 63 -> reachable kOlpSdkUserAgent url limit w ->
  (forall p, p ∈ pending w ->
     network_ptr_ w = Some (pending_network p) /\
     networks w !! pending_network p = Some (network_config_ w)) /\
  (forall proxy, (SetNetworkProxySettings proxy w).2 = true <->
     proxy_name proxy <> [] /\ pending w = []) /\
  (forall token, is_Some (perform kOlpSdkUserAgent (DoCancel token) w) <->
     exists p, p ∈ pending w /\ pending_network p = token.1).
Proof.
  intros Hl Hw. destruct (reachable_good url limit w Hl Hw) as (Hg & _). split; [apply Hg|]. split.
  - intros proxy. unfold SetNetworkProxySettings. rewrite lock_network_rule by done.
    destruct (proxy_name proxy); [split; naive_solver|].
    destruct (pending w); simpl; split; naive_solver.
  - intros token. rewrite <- alive_true. simpl. unfold cancel_token. destruct (alive _ _); split; try done.
Qed.
End answers.
