(* ===== verification/OAuth.v ===== *)
(** * The signatures are those of OAuth 1.0

    The signature of a request in RFC 5849, sections 3.4.1 to 3.4.2 and 3.6, and when the one
    that [AuthenticationClient] makes is equal to it. *)

From stdpp Require Import base numbers list strings option.
From Stdlib Require Import ZArith Lia Bool Ascii.
From S2P Require Import Prelude Decimal Url Crypto Fips180 CryptoFacts Base64 SignInResults AuthenticationClient.
Local Open Scope Z_scope.
Local Open Scope olp_scope.

(** ** The standard *)

(** Byte order of texts. *)
Fixpoint text_leb (s t : text) : bool :=
  match s, t with
  | [], _ => true
  | _, [] => false
  | c :: s', d :: t' =>
    if char_code c <? char_code d then true
    else if char_code d <? char_code c then false else text_leb s' t'
  end.

(** Section 3.4.1.3.2: names and values are encoded, sorted by name and then by value,
    and joined. *)
Definition parameter_leb (p q : text * text) : bool :=
  if bool_decide (p.1 = q.1) then text_leb p.2 q.2 else text_leb p.1 q.1.

Fixpoint insert_parameter (p : text * text) (l : list (text * text)) : list (text * text) :=
  match l with
  | [] => [p]
  | q :: rest => if parameter_leb p q then p :: l else q :: insert_parameter p rest
  end.

Definition sort_parameters : list (text * text) -> list (text * text) := foldr insert_parameter [].

Definition encode_parameter (p : text * text) : text * text := (Encode p.1, Encode p.2).

Definition join_parameter (p : text * text) : text := p.1 ++ str "=" ++ p.2.

Fixpoint join_parameters (l : list (text * text)) : text :=
  match l with
  | [] => []
  | [p] => join_parameter p
  | p :: rest => join_parameter p ++ str "&" ++ join_parameters rest
  end.

Definition normalized_parameters (l : list (text * text)) : text :=
  join_parameters (sort_parameters (encode_parameter <$> l)).

(** Section 3.4.1.1, for a base string URI. *)
Definition signature_base_string (method uri : text) (parameters : list (text * text)) : text :=
  method ++ str "&" ++ Encode uri ++ str "&" ++ Encode (normalized_parameters parameters).

(** The protocol parameters of a request without a token, in the order of the header. *)
Definition oauth_parameters (key uid timestamp : text) : list (text * text) :=
  [(str "oauth_consumer_key", key); (str "oauth_nonce", uid);
   (str "oauth_signature_method", str "HMAC-SHA256"); (str "oauth_timestamp", timestamp);
   (str "oauth_version", str "1.0")].

(** Section 3.4.2, with SHA-256: the key is made of the encoded secret and an empty
    token secret. *)
Definition signing_key (secret : text) : text := Encode secret ++ str "&" ++ Encode [].

(** ** Encoded texts *)

Lemma Encode_app s t : Encode (s ++ t) = Encode s ++ Encode t.
Proof. induction s as [|c s IH]; [done|]. simpl. by rewrite IH, app_assoc. Qed.

(** A text that is its own encoding. *)
Definition unreserved (s : text) : Prop := Forall (fun c => is_unreserved c = true) s.

Lemma Encode_unreserved s : unreserved s -> Encode s = s.
Proof.
  induction 1 as [|c s Hc _ IH]; [done|]. simpl. unfold encode_char. by rewrite Hc, IH.
Qed.

Lemma length_Encode s : (length s <= length (Encode s))%nat.
Proof.
  induction s as [|c s IH]; [done|]. simpl. rewrite length_app. unfold encode_char.
  destruct (is_unreserved c); simpl; lia.
Qed.

Lemma Encode_fixed s : Encode s = s -> unreserved s.
Proof.
  induction s as [|c s IH]; [constructor|]. simpl. unfold encode_char.
  destruct (is_unreserved c) eqn:E.
  - intros [= Hs]. constructor; [done|by apply IH].
  - intros Hl. apply (f_equal length) in Hl. rewrite length_app in Hl. simpl in Hl.
    pose proof (length_Encode s). lia.
Qed.

(** Only an unreserved text is encoded to an unreserved one. *)
Lemma Encode_twice s : Encode (Encode s) = Encode s <-> unreserved s.
Proof.
  split.
  - intros Hu%Encode_fixed. induction s as [|c s IH]; [constructor|]. simpl in Hu.
    apply Forall_app in Hu as [Hc Hs]. constructor; [|by apply IH].
    unfold encode_char in Hc. destruct (is_unreserved c); [done|].
    apply Forall_cons_1 in Hc as [Hp _]. by vm_compute in Hp.
  - intros Hs. by rewrite !(Encode_unreserved s).
Qed.

Lemma digit_unreserved c : is_digit c = true -> is_unreserved c = true.
Proof. by destruct c as [[] [] [] [] [] [] [] []]; vm_compute. Qed.

Lemma dec_digits_unreserved fuel n : 0 <= n -> unreserved (dec_digits fuel n).
Proof.
  revert n. induction fuel as [|f IH]; intros n Hn; [constructor|]. cbn [dec_digits].
  destruct (Z.ltb_spec n 10).
  - constructor; [|constructor]. apply digit_unreserved, digit_char_is_digit. lia.
  - apply Forall_app. split; [apply IH, Z.div_pos; lia|]. constructor; [|constructor].
    apply digit_unreserved, digit_char_is_digit. apply Z.mod_pos_bound. lia.
Qed.

Lemma print_s64_unreserved n : unreserved (print_s64 n).
Proof.
  unfold print_s64, print_u64. destruct (Z.ltb_spec n 0); [constructor; [done|]|];
    apply dec_digits_unreserved; lia.
Qed.

(** The parameters are signed in sorted order. *)
Lemma normalized_oauth_parameters key uid timestamp :
  normalized_parameters (oauth_parameters key uid timestamp) =
  str "oauth_consumer_key=" ++ Encode key ++
  str "&oauth_nonce=" ++ Encode uid ++
  str "&oauth_signature_method=HMAC-SHA256&oauth_timestamp=" ++ Encode timestamp ++
  str "&oauth_version=1.0".
Proof.
  unfold normalized_parameters, oauth_parameters, encode_parameter.
  cbn [fmap list_fmap fst snd].
  generalize (Encode key) as k, (Encode uid) as u, (Encode timestamp) as t. intros k u t.
  assert (forall n1 v1 n2 v2, bool_decide (n1 = n2) = false ->
    parameter_leb (n1, v1) (n2, v2) = text_leb n1 n2) as Hp.
  { intros n1 v1 n2 v2 E. unfold parameter_leb. simpl. by rewrite E. }
  cbn [sort_parameters foldr insert_parameter].
  repeat (rewrite Hp by (vm_compute; reflexivity);
          match goal with |- context [text_leb ?a ?b] =>
            replace (text_leb a b) with true by (vm_compute; reflexivity) end;
          cbn [insert_parameter]).
  cbn [join_parameters]. unfold join_parameter. cbn [fst snd].
  rewrite <- !app_assoc. reflexivity.
Qed.

Lemma oauth_query key uid timestamp :
  unreserved uid -> unreserved timestamp ->
  encodedQuery key uid timestamp =
  Encode (str "oauth_consumer_key=" ++ key ++
          str "&oauth_nonce=" ++ Encode uid ++
          str "&oauth_signature_method=HMAC-SHA256&oauth_timestamp=" ++ Encode timestamp ++
          str "&oauth_version=1.0").
Proof.
  intros Hu Ht. rewrite (Encode_unreserved uid), (Encode_unreserved timestamp) by done.
  reflexivity.
Qed.

Section oauth.
Context `{BoostBase64}.

(** C12.  The text that a request is signed with is the signature base string of RFC 5849
    exactly if the consumer key has only unreserved characters, since the key is not encoded
    before the parameters are; if the secret has only such characters too, the signature
    is the HMAC-SHA-256 of the standard in Base64. *)
Theorem signatures_are_oauth credentials url uid now :
  unreserved uid ->
  let timestamp := print_s64 now in
  let base := signature_base_string (str "POST") url
                (oauth_parameters (key_ credentials) uid timestamp) in
  (signatureBase url (key_ credentials) uid timestamp = base <-> unreserved (key_ credentials)) /\
  (unreserved (key_ credentials) -> unreserved (secret_ credentials) ->
   exists digest,
     bytes digest = HMAC (bytes (toUnsignedCharVector (signing_key (secret_ credentials))))
                         (bytes (toUnsignedCharVector base)) /\
     signature credentials url uid timestamp = Some (base64Encode digest)).
Proof.
  intros Hu timestamp base. pose proof (print_s64_unreserved now) as Ht. fold timestamp in Ht.
  assert (signatureBase url (key_ credentials) uid timestamp = base <-> unreserved (key_ credentials)) as Hb.
  { unfold base, signature_base_string, signatureBase.
    rewrite oauth_query, normalized_oauth_parameters, !Encode_app by done.
    rewrite <- Encode_twice. split; [|by intros ->].
    intros E. do 5 apply app_inv_head in E. by apply app_inv_tail in E. }
  split; [done|]. intros Hk Hs. apply Hb in Hk. unfold signature, signing_key. rewrite Hk.
  rewrite (Encode_unreserved (secret_ credentials)) by done. change (Encode []) with (@nil ascii).
  rewrite app_nil_r.
  destruct (hmac_rule (secret_ credentials ++ str "&") base) as (d & -> & _ & E). by exists d.
Qed.
End oauth.
