(* ===== verification/TokenEndpoint.v ===== *)
(** * Tokens that are refreshed

    [TokenEndpoint.cpp], [TokenResult.cpp] and [AutoRefreshingToken.cpp] of
    [olp-cpp-sdk-authentication/src].  The calls of [GetToken] by several threads are a
    transition system: an event is one critical section, one assignment that is made
    without the mutex, or the response of the endpoint, and it carries the readings of the
    clock.  Time points are in nanoseconds. *)

From stdpp Require Import base numbers list strings option.
From Stdlib Require Import ZArith Lia Bool Ascii.
From S2P Require Import Prelude Decimal Http SignInResults AuthenticationClient.
Local Open Scope Z_scope.
Local Open Scope olp_scope.

(** ** [TokenEndpoint] *)

Fixpoint is_prefix (pattern s : text) : bool :=
  match pattern, s with
  | [], _ => true
  | c :: pattern', d :: s' => bool_decide (c = d) && is_prefix pattern' s'
  | _ :: _, [] => false
  end.

(** [s.find(pattern)] *)
Fixpoint find_text (pattern s : text) : option nat :=
  if is_prefix pattern s then Some O
  else match s with [] => None | _ :: s' => S <$> find_text pattern s' end.

(** The URL that the constructor of [TokenEndpoint] gives to the authentication client,
    which appends the endpoint again. *)
Definition strippedEndpointUrl (token_endpoint_url : text) : text :=
  match find_text OAUTH_ENDPOINT token_endpoint_url with
  | Some pos => take pos token_endpoint_url ++ drop (pos + length OAUTH_ENDPOINT) token_endpoint_url
  | None => token_endpoint_url
  end.

Record TokenResult := MkTokenResult {
  token_access_token : text; token_expiry_time : Z; token_http_status : Z; token_error : ErrorResponse }.

(** [TokenResult{}]: value initialisation zeroes the numbers. *)
Definition default_TokenResult : TokenResult := MkTokenResult [] 0 0 (MkErrorResponse 0 []).

Abbreviation TokenResponse := (ApiResponse TokenResult AuthenticationErr).

(** What the callback of [RequestToken] makes of the answer of [SignInClient]. *)
Definition token_response (signInResponse : AuthResponse SignInResultImpl) : TokenResponse :=
  match signInResponse with
  | Success r =>
    ApiResponse_ok default_AuthenticationError
      (MkTokenResult (access_token_ r) (expiry_time_ r) (status_ (sign_in_base r))
         (result_error (sign_in_base r)))
  | Failure e => ApiResponse_error default_TokenResult e
  end.

(** [GetResult().GetExpiryTime()] *)
Definition response_expiry (r : TokenResponse) : Z := token_expiry_time (result_ r).

(** ** [AutoRefreshingToken] *)

Definition kDefaultMinimumValidity : Z := 300.

(** Nanoseconds in a second: [system_clock::from_time_t] and [std::chrono::seconds]. *)
Definition nanoseconds (seconds : Z) : Z := swrap 64 (seconds * 10 ^ 9).

Definition forceRefresh (minimumValidity : Z) : bool := minimumValidity <=? 0.

Definition shouldRefreshNow (now token_refresh_time : Z) : bool := now >=? token_refresh_time.

(** [now1] and [now2] are the readings of the clock in the comparison and in the result. *)
Definition computeTokenRefreshTime (now1 now2 expiryTime minimumValidity : Z) : Z :=
  let expiryTimeChrono := nanoseconds expiryTime in
  if expiryTimeChrono <=? now1 then now2
  else swrap 64 (expiryTimeChrono - nanoseconds minimumValidity).

(** Where a call of [getToken] is: before the first test of the refresh time, waiting for
    the mutex, waiting for the response of the endpoint, between the assignments of the
    token and of its refresh time, before [return current_token_], and at its end with the
    response that was returned or given to the callback. *)
Inductive Phase :=
| Checking | Locking | Requesting
| Updating (r : TokenResponse)
| Returning
| Finished (r : TokenResponse).

(** A call that blocks, or one with a callback. *)
Record Call := MkCall { call_blocks : bool; call_validity : Z; call_phase : Phase }.

Record AutoToken := MkAutoToken {
  current_token_ : TokenResponse;
  token_refresh_time_ : Z;
  token_mutex_ : option nat;
  token_calls : list Call }.

Definition AutoRefreshingToken_new : AutoToken :=
  MkAutoToken (MkApiResponse default_TokenResult default_AuthenticationError false) 0 None [].

Definition with_call (i : nat) (c : Call) (phase : Phase) (s : AutoToken) : AutoToken :=
  MkAutoToken (current_token_ s) (token_refresh_time_ s) (token_mutex_ s)
    (<[i := MkCall (call_blocks c) (call_validity c) phase]> (token_calls s)).
Definition with_token (t : TokenResponse) (s : AutoToken) : AutoToken :=
  MkAutoToken t (token_refresh_time_ s) (token_mutex_ s) (token_calls s).
Definition with_refresh_time (z : Z) (s : AutoToken) : AutoToken :=
  MkAutoToken (current_token_ s) z (token_mutex_ s) (token_calls s).
Definition with_mutex (m : option nat) (s : AutoToken) : AutoToken :=
  MkAutoToken (current_token_ s) (token_refresh_time_ s) m (token_calls s).

Inductive Event :=
| Begin (blocks : bool) (minimumValidity : Z)
| Check (i : nat) (now : Z)
| Lock (i : nat) (now : Z)
| Receive (i : nat) (r : TokenResponse)
| Update (i : nat) (now1 now2 : Z)
| Return (i : nat).

(** The token that a call which needs no refresh gets: a blocking call copies it when it
    returns, the callback of another is called at once. *)
Definition no_refresh (i : nat) (c : Call) (s : AutoToken) : AutoToken :=
  with_call i c (if call_blocks c then Returning else Finished (current_token_ s)) s.

(** [getToken] up to the call of [tryRefreshCurrentToken]. *)
Definition check (i : nat) (c : Call) (now : Z) (s : AutoToken) : AutoToken :=
  if forceRefresh (call_validity c) || shouldRefreshNow now (token_refresh_time_ s)
  then with_call i c Locking s
  else no_refresh i c s.

(** [tryRefreshCurrentToken] up to the request: a blocking call keeps the mutex while it
    waits for the future, the other one returns. *)
Definition try_refresh (i : nat) (c : Call) (now : Z) (s : AutoToken) : AutoToken :=
  if negb (forceRefresh (call_validity c)) && negb (shouldRefreshNow now (token_refresh_time_ s))
  then no_refresh i c s
  else with_call i c Requesting (if call_blocks c then with_mutex (Some i) s else s).

(** After the assignment of the token: its refresh time, from the token that is current
    now; a blocking call releases the mutex, the other one calls its callback. *)
Definition update (i : nat) (c : Call) (r : TokenResponse) (now1 now2 : Z) (s : AutoToken) : AutoToken :=
  let refresh_time := computeTokenRefreshTime now1 now2 (response_expiry (current_token_ s)) (call_validity c) in
  let s := with_refresh_time refresh_time s in
  if call_blocks c then with_call i c Returning (with_mutex None s)
  else with_call i c (Finished r) s.

(** [None]: the event is not possible. *)
Definition token_event (e : Event) (s : AutoToken) : option AutoToken :=
  match e with
  | Begin blocks minimumValidity =>
    Some (MkAutoToken (current_token_ s) (token_refresh_time_ s) (token_mutex_ s)
            (token_calls s ++ [MkCall blocks minimumValidity Checking]))
  | Check i now =>
    c ← token_calls s !! i;
    match call_phase c with Checking => Some (check i c now s) | _ => None end
  | Lock i now =>
    c ← token_calls s !! i;
    match call_phase c, token_mutex_ s with
    | Locking, None => Some (try_refresh i c now s)
    | _, _ => None
    end
  | Receive i r =>
    c ← token_calls s !! i;
    match call_phase c with
    | Requesting => Some (with_call i c (Updating r) (with_token r s))
    | _ => None
    end
  | Update i now1 now2 =>
    c ← token_calls s !! i;
    match call_phase c with Updating r => Some (update i c r now1 now2 s) | _ => None end
  | Return i =>
    c ← token_calls s !! i;
    match call_phase c with
    | Returning => Some (with_call i c (Finished (current_token_ s)) s)
    | _ => None
    end
  end.

Fixpoint token_events (es : list Event) (s : AutoToken) : option AutoToken :=
  match es with
  | [] => Some s
  | e :: rest => s ← token_event e s; token_events rest s
  end.
