(* ===== verification/TokenFacts.v ===== *)
(** * Fresh tokens

    What the calls of [TokenEndpoint.AutoToken] may rely on, for every interleaving of
    their critical sections: which tokens are returned without a request, that blocking
    refreshes exclude each other, and that every call ends. *)

From stdpp Require Import base numbers list strings option.
From Stdlib Require Import ZArith Lia Bool Ascii.
From S2P Require Import Prelude Decimal Http SignInResults AuthenticationClient TokenEndpoint.
Local Open Scope Z_scope.
Local Open Scope olp_scope.

(** ** Stripping the endpoint *)

Lemma is_prefix_spec pattern s : is_prefix pattern s = true <-> exists t, s = pattern ++ t.
Proof.
  revert s. induction pattern as [|c pattern IH]; intros s; simpl.
  - split; [by exists s|done].
  - destruct s as [|d s]; [split; [done|by intros [t ?]]|].
    rewrite andb_true_iff, bool_decide_eq_true, IH. split.
    + intros [-> [t ->]]. by exists t.
    + intros [t [= -> ->]]. split; [done|by exists t].
Qed.

Lemma find_text_spec pattern s n :
  find_text pattern s = Some n <->
  (exists t, s = take n s ++ pattern ++ t) /\
  (n <= length s)%nat /\ forall m, (m < n)%nat -> is_prefix pattern (drop m s) = false.
Proof.
  revert n. induction s as [|c s IH]; intros n; cbn [find_text].
  - destruct (is_prefix pattern []) eqn:E.
    + apply is_prefix_spec in E as [t E]. split.
      * intros [= <-]. split; [by exists t|]. split; [simpl; lia|lia].
      * intros (_ & Hn & _). simpl in Hn. f_equal. lia.
    + split; [done|]. intros ((t & Ht) & Hn & _). simpl in Hn. replace n with 0%nat in Ht by lia.
      rewrite <- not_true_iff_false in E. destruct E. apply is_prefix_spec. by exists t.
  - destruct (is_prefix pattern (c :: s)) eqn:E.
    + split.
      * intros [= <-]. apply is_prefix_spec in E as [t E]. split; [by exists t|].
        split; [lia|]. intros m Hm. lia.
      * intros (_ & _ & Hm). destruct n as [|n]; [done|]. specialize (Hm 0%nat ltac:(lia)).
        simpl in Hm. congruence.
    + destruct n as [|n].
      * split; [by destruct (find_text pattern s)|]. intros ((t & Ht) & _).
        rewrite <- not_true_iff_false in E. destruct E. apply is_prefix_spec. by exists t.
      * rewrite fmap_Some. split.
        -- intros (m & Hm & [= ->]). apply IH in Hm as ((t & Ht) & Hl & Hb). split.
           ++ exists t. simpl. by rewrite <- Ht.
           ++ split; [simpl; lia|]. intros [|k] Hk; [done|]. simpl. apply Hb. lia.
        -- intros ((t & Ht) & Hl & Hb). exists n. split; [|done]. apply IH. split.
           ++ exists t. simpl in Ht. by injection Ht.
           ++ split; [simpl in Hl; lia|]. intros k Hk. apply (Hb (S k)). lia.
Qed.

(** ** Runs *)

(** The responses of an endpoint: a failed one has a value-initialised result, and expiry
    times are far from the end of the clock. *)
Definition sane_response (r : TokenResponse) : Prop :=
  0 <= response_expiry r < 2 ^ 33 /\ (success_ r = false -> result_ r = default_TokenResult).

(** The clock does not go back, and validities are below 2^33 seconds. *)
Definition sane_event (clock : Z) (e : Event) : Prop :=
  match e with
  | Begin _ v => - 2 ^ 29 < v < 2 ^ 33
  | Check _ now | Lock _ now => clock <= now
  | Receive _ r => sane_response r
  | Update _ now1 now2 => clock <= now1 <= now2
  | Return _ => True
  end.

Definition last_reading (clock : Z) (e : Event) : Z :=
  match e with Check _ now | Lock _ now | Update _ _ now => now | _ => clock end.

(** The validity asked for by the call that last set the refresh time. *)
Definition last_validity (v : Z) (e : Event) (s : AutoToken) : Z :=
  match e with
  | Update i _ _ => match token_calls s !! i with Some c => call_validity c | None => v end
  | _ => v
  end.

Inductive token_reachable : Z -> Z -> AutoToken -> Prop :=
| token_new : token_reachable 0 0 AutoRefreshingToken_new
| token_step clock v s e s' :
    token_reachable clock v s -> sane_event clock e -> token_event e s = Some s' ->
    token_reachable (last_reading clock e) (last_validity v e s) s'.

(** A call that asked the endpoint and did not set the refresh time yet. *)
Definition is_refreshing (c : Call) : bool :=
  match call_phase c with Requesting | Updating _ => true | _ => false end.

(** The mutex is held exactly by the blocking call that is refreshing. *)
Record mutex_ok (s : AutoToken) : Prop := {
  mutex_held i : token_mutex_ s = Some i ->
    exists c, token_calls s !! i = Some c /\ call_blocks c = true /\ is_refreshing c = true;
  mutex_holder i c : token_calls s !! i = Some c -> call_blocks c = true -> is_refreshing c = true ->
    token_mutex_ s = Some i }.

(** The current token was received by a call that did not set the refresh time yet. *)
Definition just_received (s : AutoToken) : Prop :=
  exists j c, token_calls s !! j = Some c /\ call_phase c = Updating (current_token_ s).

Record token_invariant (clock v : Z) (s : AutoToken) : Prop := {
  inv_validity i c : token_calls s !! i = Some c -> - 2 ^ 29 < call_validity c < 2 ^ 33;
  inv_response : sane_response (current_token_ s);
  inv_refresh_time :
    just_received s \/
    token_refresh_time_ s <= clock \/
    0 < response_expiry (current_token_ s) /\
    token_refresh_time_ s = (response_expiry (current_token_ s) - v) * 10 ^ 9;
  inv_mutex : mutex_ok s;
  inv_clock : 0 <= clock }.

Lemma compute_rule now1 now2 expiry v :
  0 <= expiry < 2 ^ 33 -> - 2 ^ 29 < v < 2 ^ 33 -> 0 <= now1 <= now2 ->
  computeTokenRefreshTime now1 now2 expiry v <= now2 \/
  0 < expiry /\ computeTokenRefreshTime now1 now2 expiry v = (expiry - v) * 10 ^ 9.
Proof.
  intros He Hv Hn. unfold computeTokenRefreshTime, nanoseconds.
  rewrite (swrap_small 64 (expiry * 10 ^ 9)), (swrap_small 64 (v * 10 ^ 9)) by lia.
  destruct (Z.leb_spec (expiry * 10 ^ 9) now1); [left; lia|right].
  rewrite swrap_small by lia. lia.
Qed.

(** The phases of the other calls do not change. *)
Lemma lookup_with_call i c phase s j c' :
  token_calls (with_call i c phase s) !! j = Some c' ->
  (j = i /\ c' = MkCall (call_blocks c) (call_validity c) phase) \/
  (j <> i /\ token_calls s !! j = Some c').
Proof.
  simpl. intros [(-> & <- & _)|[? ?]]%list_lookup_insert_Some; [by left|right; split; [congruence|done]].
Qed.

Lemma lookup_with_call_eq i c c0 phase s :
  token_calls s !! i = Some c0 ->
  token_calls (with_call i c phase s) !! i = Some (MkCall (call_blocks c) (call_validity c) phase).
Proof. intros Hi. simpl. apply list_lookup_insert_eq. by eapply lookup_lt_Some. Qed.

Definition idle_phase (phase : Phase) : bool :=
  match phase with Requesting | Updating _ => false | _ => true end.

Lemma with_call_mutex i c phase s :
  token_calls s !! i = Some c -> is_refreshing c = false -> idle_phase phase = true ->
  mutex_ok s -> mutex_ok (with_call i c phase s).
Proof.
  intros Hi Hc Hp [Hm Hh]. split; simpl.
  - intros j Hj. destruct (Hm j Hj) as (c' & Hc' & Hb & Hr). exists c'. split; [|done].
    rewrite list_lookup_insert_ne; [done|]. intros ->. congruence.
  - intros j c' [[-> ->]|[Hne Hj]]%(lookup_with_call i c phase s) Hb Hr; [|by apply (Hh j c')].
    unfold is_refreshing in Hr. simpl in Hr. by destruct phase.
Qed.

(** A call that is not refreshing moves: whoever received the token is still there. *)
Lemma just_received_kept i c phase s s' :
  token_calls s' = token_calls s -> current_token_ s' = current_token_ s ->
  token_calls s !! i = Some c -> is_refreshing c = false ->
  just_received s -> just_received (with_call i c phase s').
Proof.
  intros E Et Hi Hc (j & c' & Hj & Hp). exists j, c'. simpl. rewrite Et. split; [|done].
  rewrite list_lookup_insert_ne, E; [done|]. intros ->. rewrite Hi in Hj. injection Hj as <-.
  unfold is_refreshing in Hc. by rewrite Hp in Hc.
Qed.

(** A call that moves between phases without a refresh. *)
Lemma with_call_invariant clock clock' v i c phase s :
  token_invariant clock v s -> clock <= clock' ->
  token_calls s !! i = Some c -> is_refreshing c = false -> idle_phase phase = true ->
  token_invariant clock' v (with_call i c phase s).
Proof.
  intros [Hv Hr Ht Hm H0] Hclock Hi Hc Hp. split; [|done| |by apply with_call_mutex|lia].
  - intros j c' [[-> ->]|[_ Hj]]%(lookup_with_call i c phase s); [exact (Hv i c Hi)|by apply (Hv j)].
  - destruct Ht as [?|[?|?]]; [left; by apply (just_received_kept i c phase s)|right; left; simpl; lia|by right; right].
Qed.

Lemma request_invariant clock now v i c s :
  token_invariant clock v s -> clock <= now -> token_mutex_ s = None ->
  token_calls s !! i = Some c -> call_phase c = Locking ->
  token_invariant now v
    (with_call i c Requesting (if call_blocks c then with_mutex (Some i) s else s)).
Proof.
  intros [Hv Hr Ht Hm H0] Hclock Hfree Hi Hp.
  set (s' := if call_blocks c then _ else s).
  assert (token_calls s' = token_calls s /\ current_token_ s' = current_token_ s /\
          token_refresh_time_ s' = token_refresh_time_ s /\
          token_mutex_ s' = if call_blocks c then Some i else None) as (E & Et & Er & Em)
    by (subst s'; by destruct (call_blocks c)).
  clearbody s'.
  assert (forall j c', token_calls (with_call i c Requesting s') !! j = Some c' ->
    (j = i /\ c' = MkCall (call_blocks c) (call_validity c) Requesting) \/
    (j <> i /\ token_calls s !! j = Some c')) as Hl.
  { intros j c' Hj. rewrite <- E. by apply lookup_with_call. }
  assert (forall j c', token_calls s !! j = Some c' -> call_blocks c' = true ->
    is_refreshing c' = true -> False) as Hidle.
  { intros j c' Hj Hb Hrf. pose proof (mutex_holder s Hm j c' Hj Hb Hrf). congruence. }
  split.
  - intros j c' [[-> ->]|[_ Hj]]%Hl; [exact (Hv i c Hi)|by apply (Hv j)].
  - simpl. by rewrite Et.
  - destruct Ht as [?|Ht]; [left|right; simpl; rewrite Er, Et; destruct Ht as [?|?]; [left; lia|by right]].
    apply (just_received_kept i c Requesting s); [done..| |done]. unfold is_refreshing. by rewrite Hp.
  - split; simpl; rewrite Em.
    + intros j Hj. destruct (call_blocks c); [|done]. injection Hj as <-. eexists.
      split; [apply list_lookup_insert_eq; rewrite E; by eapply lookup_lt_Some|done].
    + intros j c' [[-> ->]|[_ Hj]]%Hl Hb Hrf; [simpl in Hb; by rewrite Hb|by destruct (Hidle j c')].
  - lia.
Qed.

Lemma receive_invariant clock v i c r s :
  token_invariant clock v s -> sane_response r ->
  token_calls s !! i = Some c -> call_phase c = Requesting ->
  token_invariant clock v (with_call i c (Updating r) (with_token r s)).
Proof.
  intros [Hv Hr Ht [Hm Hh] H0] Hs Hi Hp.
  assert (is_refreshing c = true) as Hrf by (unfold is_refreshing; by rewrite Hp). split; [|done| |split|done].
  - intros j c' [[-> ->]|[_ Hj]]%(lookup_with_call i c (Updating r) (with_token r s));
      [exact (Hv i c Hi)|by apply (Hv j)].
  - left. eexists i, _. split; [apply (lookup_with_call_eq i c c (Updating r) (with_token r s) Hi)|done].
  - simpl. intros j Hj. destruct (Hm j Hj) as (c' & Hc' & Hb & Hrf'). destruct (decide (i = j)) as [<-|Hne].
    + rewrite Hi in Hc'. injection Hc' as <-. eexists. split; [apply list_lookup_insert_eq; by eapply lookup_lt_Some|done].
    + exists c'. by rewrite list_lookup_insert_ne.
  - intros j c' [[-> ->]|[_ Hj]]%(lookup_with_call i c (Updating r) (with_token r s)) Hb Hrf';
      [exact (Hh i c Hi Hb Hrf)|by apply (Hh j c')].
Qed.

Lemma update_invariant clock now1 now2 v i c r s :
  token_invariant clock v s -> clock <= now1 <= now2 ->
  token_calls s !! i = Some c -> call_phase c = Updating r ->
  token_invariant now2 (call_validity c) (update i c r now1 now2 s).
Proof.
  intros [Hv Hr Ht [Hm Hh] H0] Hclock Hi Hp.
  assert (is_refreshing c = true) as Hrf by (unfold is_refreshing; by rewrite Hp).
  pose proof (compute_rule now1 now2 (response_expiry (current_token_ s)) (call_validity c)
    (proj1 Hr) (Hv i c Hi) ltac:(lia)) as Hcomp.
  unfold update. set (s1 := with_refresh_time _ s).
  set (phase := if call_blocks c then Returning else Finished r).
  assert (exists s', (if call_blocks c then with_call i c Returning (with_mutex None s1)
                      else with_call i c (Finished r) s1) = with_call i c phase s' /\
    token_calls s' = token_calls s /\ current_token_ s' = current_token_ s /\
    token_refresh_time_ s' = token_refresh_time_ s1 /\
    token_mutex_ s' = if call_blocks c then None else token_mutex_ s) as (s' & -> & E & Et & Er & Em).
  { subst phase. destruct (call_blocks c); by eexists. }
  assert (idle_phase phase = true) as Hidle by (subst phase; by destruct (call_blocks c)).
  clearbody phase. split; [| | |split|lia].
  - intros j c' [[-> ->]|[_ Hj]]%(lookup_with_call i c phase s'); [exact (Hv i c Hi)|].
    rewrite E in Hj. by apply (Hv j).
  - simpl. by rewrite Et.
  - right. simpl. by rewrite Er, Et.
  - simpl. rewrite Em. intros j Hj. destruct (call_blocks c) eqn:Hb; [done|].
    destruct (Hm j Hj) as (c' & Hc' & Hb' & Hrf'). exists c'.
    rewrite list_lookup_insert_ne, E; [done|]. intros ->. congruence.
  - intros j c' [[-> ->]|[Hne Hj]]%(lookup_with_call i c phase s') Hb Hrf'.
    + unfold is_refreshing in Hrf'. simpl in Hrf'. by destruct phase.
    + rewrite E in Hj. pose proof (Hh j c' Hj Hb Hrf') as Hj'. simpl. rewrite Em.
      destruct (call_blocks c) eqn:Hbc; [|done]. pose proof (Hh i c Hi Hbc Hrf). congruence.
Qed.

Lemma begin_invariant clock v blocks validity s :
  token_invariant clock v s -> - 2 ^ 29 < validity < 2 ^ 33 ->
  token_invariant clock v
    (MkAutoToken (current_token_ s) (token_refresh_time_ s) (token_mutex_ s)
       (token_calls s ++ [MkCall blocks validity Checking])).
Proof.
  intros [Hv Hr Ht [Hm Hh] H0] Hvalid. split; [|done| |split|done]; simpl.
  - intros j c [Hj|[_ Hj]]%lookup_app_Some; [by apply (Hv j)|].
    apply list_lookup_singleton_Some in Hj as [_ <-]. done.
  - destruct Ht as [(j & c & Hj & Hp)|?]; [left|by right]. exists j, c. split; [by apply lookup_app_l_Some|done].
  - intros j Hj. destruct (Hm j Hj) as (c & Hc & Hb & Hrf). exists c. split; [by apply lookup_app_l_Some|done].
  - intros j c [Hj|[_ Hj]]%lookup_app_Some Hb Hrf; [by apply (Hh j c)|].
    apply list_lookup_singleton_Some in Hj as [_ <-]. done.
Qed.

Lemma no_refresh_invariant clock now v i c s :
  token_invariant clock v s -> clock <= now -> token_calls s !! i = Some c -> is_refreshing c = false ->
  token_invariant now v (no_refresh i c s).
Proof.
  intros Hinv Hclock Hi Hc. unfold no_refresh.
  destruct (call_blocks c); by apply (with_call_invariant clock).
Qed.

Lemma token_reachable_invariant clock v s : token_reachable clock v s -> token_invariant clock v s.
Proof.
  induction 1 as [|clock v s e s' _ Hinv Hs E].
  { split; [by intros [|]|split; [unfold response_expiry; simpl; lia|done]|by right; left|split; [done|by intros [|]]|done]. }
  destruct e as [blocks validity|i now|i now|i r|i now1 now2|i]; simpl in E, Hs.
  - injection E as <-. by apply begin_invariant.
  - destruct (token_calls s !! i) as [c|] eqn:Hi; [|done]. simpl in E.
    destruct (call_phase c) eqn:Hp; try done. injection E as <-.
    assert (is_refreshing c = false) as Hc by (unfold is_refreshing; by rewrite Hp).
    unfold check. destruct (_ || _); [by apply (with_call_invariant clock)|by apply (no_refresh_invariant clock)].
  - destruct (token_calls s !! i) as [c|] eqn:Hi; [|done]. simpl in E.
    destruct (call_phase c) eqn:Hp; try done. destruct (token_mutex_ s) eqn:Hm; [done|]. injection E as <-.
    assert (is_refreshing c = false) as Hc by (unfold is_refreshing; by rewrite Hp).
    unfold try_refresh. destruct (_ && _); [by apply (no_refresh_invariant clock)|].
    by apply (request_invariant clock).
  - destruct (token_calls s !! i) as [c|] eqn:Hi; [|done]. simpl in E.
    destruct (call_phase c) eqn:Hp; try done. injection E as <-. by apply receive_invariant.
  - simpl. destruct (token_calls s !! i) as [c|] eqn:Hi; [|done]. simpl in E.
    destruct (call_phase c) as [| | |r| |] eqn:Hp; try done. injection E as <-.
    by apply (update_invariant clock now1 now2 v).
  - destruct (token_calls s !! i) as [c|] eqn:Hi; [|done]. simpl in E.
    destruct (call_phase c) eqn:Hp; try done. injection E as <-.
    simpl. apply (with_call_invariant clock); [done|lia|done| |done]. unfold is_refreshing. by rewrite Hp.
Qed.

(** ** Termination *)

Definition phase_weight (phase : Phase) : nat :=
  match phase with
  | Checking => 5 | Locking => 4 | Requesting => 3 | Updating _ => 2 | Returning => 1 | Finished _ => 0
  end.

Definition work (s : AutoToken) : nat :=
  foldr (fun c n => phase_weight (call_phase c) + n)%nat 0%nat (token_calls s).

Definition is_begin (e : Event) : bool := match e with Begin _ _ => true | _ => false end.

Lemma with_call_work i c phase s :
  token_calls s !! i = Some c -> (phase_weight phase < phase_weight (call_phase c))%nat ->
  (work (with_call i c phase s) < work s)%nat.
Proof.
  intros Hi Hp. unfold work. simpl. revert i Hi. generalize (token_calls s) as l.
  induction l as [|x l IH]; intros [|i] Hi; try done.
  - injection Hi as ->. simpl. lia.
  - specialize (IH i Hi). simpl. by apply Nat.add_lt_mono_l.
Qed.

Lemma event_work e s s' : is_begin e = false -> token_event e s = Some s' -> (work s' < work s)%nat.
Proof.
  destruct e as [blocks validity|i now|i now|i r|i now1 now2|i]; [done|..]; intros _ E; simpl in E;
    (destruct (token_calls s !! i) as [c|] eqn:Hi; [|done]); simpl in E;
    destruct (call_phase c) eqn:Hp; try done.
  - injection E as <-. unfold check, no_refresh. destruct (_ || _); [|destruct (call_blocks c)];
      (apply with_call_work; [done|rewrite Hp; simpl; lia]).
  - destruct (token_mutex_ s); [done|]. injection E as <-. unfold try_refresh, no_refresh.
    destruct (_ && _), (call_blocks c); (eapply Nat.lt_le_trans; [apply with_call_work; [done|rewrite Hp; simpl; lia]|done]).
  - injection E as <-. eapply Nat.lt_le_trans; [apply with_call_work; [done|rewrite Hp; simpl; lia]|done].
  - injection E as <-. unfold update.
    destruct (call_blocks c); (eapply Nat.lt_le_trans; [apply with_call_work; [done|rewrite Hp; simpl; lia]|done]).
  - injection E as <-. apply with_call_work; [done|rewrite Hp; simpl; lia].
Qed.

(** A test that does not lead to a request leaves the token as it is. *)
Lemma without_request e i now s s' c' :
  e = Check i now \/ e = Lock i now ->
  token_event e s = Some s' -> token_calls s' !! i = Some c' ->
  call_phase c' <> Locking -> call_phase c' <> Requesting ->
  exists c, token_calls s !! i = Some c /\ s' = no_refresh i c s /\
    forceRefresh (call_validity c) = false /\ shouldRefreshNow now (token_refresh_time_ s) = false.
Proof.
  intros He E Hc' Hl Hq.
  destruct He as [-> | ->]; simpl in E; (destruct (token_calls s !! i) as [c|] eqn:Hi; [|done]);
    simpl in E; destruct (call_phase c) eqn:Hp; try done.
  - injection E as <-. exists c. unfold check in *.
    destruct (forceRefresh (call_validity c)), (shouldRefreshNow now (token_refresh_time_ s));
      cbn [orb] in *; try done;
      rewrite (lookup_with_call_eq i c c _ s Hi) in Hc'; by injection Hc' as <-.
  - destruct (token_mutex_ s); [done|]. injection E as <-. exists c. unfold try_refresh in *.
    destruct (forceRefresh (call_validity c)), (shouldRefreshNow now (token_refresh_time_ s));
      cbn [andb negb] in *; try done;
      rewrite (lookup_with_call_eq i c c) in Hc' by (by destruct (call_blocks c)); by injection Hc' as <-.
Qed.

Lemma work_bound s : (work s <= 5 * length (token_calls s))%nat.
Proof.
  unfold work. induction (token_calls s) as [|c l IH]; [done|]. simpl in *.
  assert (phase_weight (call_phase c) <= 5)%nat by (destruct (call_phase c); simpl; lia). lia.
Qed.

Lemma busy_call s : work s <> 0%nat ->
  exists i c, token_calls s !! i = Some c /\ phase_weight (call_phase c) <> 0%nat.
Proof.
  unfold work. induction (token_calls s) as [|c l IH]; [done|]. intros Hw. simpl in Hw.
  destruct (decide (phase_weight (call_phase c) = 0%nat)) as [E|E].
  - destruct IH as (i & c' & Hi & Hc'); [lia|]. by exists (S i), c'.
  - by exists 0%nat, c.
Qed.

(** The response received last. *)
Definition last_received (es : list Event) (t : TokenResponse) : TokenResponse :=
  foldl (fun t e => match e with Receive _ r => r | _ => t end) t es.

Lemma token_event_current e s s' :
  token_event e s = Some s' ->
  current_token_ s' = match e with Receive _ r => r | _ => current_token_ s end.
Proof.
  destruct e as [blocks validity|i now|i now|i r|i now1 now2|i]; simpl; [by intros [= <-]|..];
    (destruct (token_calls s !! i) as [c|]; [|done]); simpl; destruct (call_phase c); try done.
  - intros [= <-]. unfold check, no_refresh. by destruct (_ || _), (call_blocks c).
  - destruct (token_mutex_ s); [done|]. intros [= <-]. unfold try_refresh, no_refresh.
    by destruct (_ && _), (call_blocks c).
  - by intros [= <-].
  - intros [= <-]. unfold update. by destruct (call_blocks c).
  - by intros [= <-].
Qed.

Lemma token_events_current es s s' :
  token_events es s = Some s' -> current_token_ s' = last_received es (current_token_ s).
Proof.
  revert s. induction es as [|e es IH]; intros s; simpl; [by intros [= ->]|].
  destruct (token_event e s) as [s1|] eqn:E; [|done]. simpl. intros H1%IH.
  by rewrite H1, (token_event_current e s s1 E).
Qed.

Lemma returned_token i s s' :
  token_event (Return i) s = Some s' ->
  call_phase <$> token_calls s' !! i = Some (Finished (current_token_ s)).
Proof.
  simpl. destruct (token_calls s !! i) as [c|] eqn:Hi; [|done]. simpl. destruct (call_phase c); try done.
  intros [= <-]. by rewrite (lookup_with_call_eq i c c _ s Hi).
Qed.

(** ** Properties *)

(** C11.  A call that goes on without a request did not force a refresh, and the current
    token is the success of a request whose token expires more than [v] seconds later, where
    [v] is the validity asked for by the call that last set the refresh time; the only
    exception is a token that another call has just received, before that call set the
    refresh time.  A callback gets this very token.  A blocking call copies the token when
    it returns: it gets the response that was received last before, which is this token if
    none was received since. *)
Theorem tokens_stay_fresh clock v s e i now s' c' :
  token_reachable clock v s -> clock <= now ->
  e = Check i now \/ e = Lock i now ->
  token_event e s = Some s' -> token_calls s' !! i = Some c' ->
  call_phase c' <> Locking -> call_phase c' <> Requesting ->
  0 < call_validity c' /\
  (success_ (current_token_ s) = true /\ now < (response_expiry (current_token_ s) - v) * 10 ^ 9 \/
   just_received s) /\
  (call_blocks c' = false -> call_phase c' = Finished (current_token_ s)) /\
  (call_blocks c' = true ->
   call_phase c' = Returning /\
   forall es s2 s3, token_events es s' = Some s2 -> token_event (Return i) s2 = Some s3 ->
   call_phase <$> token_calls s3 !! i = Some (Finished (last_received es (current_token_ s)))).
Proof.
  intros [Hv [Hr Hs] Ht Hm H0]%token_reachable_invariant Hclock He E Hc' Hl Hq.
  destruct (without_request e i now s s' c') as (c & Hi & -> & Hf & Hshould); [done..|].
  unfold no_refresh in Hc'. rewrite (lookup_with_call_eq i c c) in Hc' by done. injection Hc' as <-.
  unfold forceRefresh in Hf. unfold shouldRefreshNow in Hshould.
  apply Z.leb_gt in Hf. rewrite Z.geb_leb in Hshould. apply Z.leb_gt in Hshould. simpl.
  split; [done|]. split; [|split; [by intros ->|intros Hb; rewrite Hb; split; [done|]]].
  - destruct Ht as [?|[?|[Hpos Heq]]]; [by right|lia|left]. split; [|lia].
    destruct (success_ (current_token_ s)) eqn:Hok; [done|]. exfalso. specialize (Hs eq_refl).
    unfold response_expiry in Hpos. rewrite Hs in Hpos. simpl in Hpos. lia.
  - intros es s2 s3 E2 E3. apply returned_token in E3. rewrite E3. by rewrite (token_events_current _ _ _ E2).
Qed.

(** At every moment at most one blocking call waits for the endpoint or stores its
    response, it holds the mutex, and no other call passes the mutex. *)
Theorem refreshes_exclude clock v s :
  token_reachable clock v s ->
  (forall i c, token_calls s !! i = Some c -> call_blocks c = true -> is_refreshing c = true ->
     token_mutex_ s = Some i /\ (forall j now, token_event (Lock j now) s = None) /\
     forall j c', token_calls s !! j = Some c' -> call_blocks c' = true -> is_refreshing c' = true -> j = i).
Proof.
  intros [_ _ _ [Hm Hh] _]%token_reachable_invariant i c Hi Hb Hr.
  pose proof (Hh i c Hi Hb Hr) as Hmutex. split; [done|]. split.
  - intros j now. simpl. destruct (token_calls s !! j) as [c'|]; [|done]. simpl. rewrite Hmutex.
    by destruct (call_phase c').
  - intros j c' Hj Hb' Hr'. pose proof (Hh j c' Hj Hb' Hr'). congruence.
Qed.

(** C29.  Every call ends: a run without new calls has at most [work s] events, five for
    each call, and while a call is not finished some event is possible, whatever the clock
    says and the endpoint answers. *)
Theorem token_calls_finish clock v s :
  token_reachable clock v s ->
  (forall es s', Forall (fun e => is_begin e = false) es -> token_events es s = Some s' ->
     (length es + work s' <= work s)%nat) /\
  (work s <= 5 * length (token_calls s))%nat /\
  (work s <> 0%nat -> forall now r, clock <= now -> sane_response r ->
     exists e s', is_begin e = false /\ sane_event clock e /\ token_event e s = Some s').
Proof.
  intros Hinv%token_reachable_invariant. split; [|split].
  - clear Hinv. intros es s' Hes. revert s. induction Hes as [|e es He _ IH]; intros s; simpl.
    { intros [= ->]. lia. }
    destruct (token_event e s) as [s1|] eqn:E; [|done]. simpl. intros H1%IH.
    pose proof (event_work e s s1 He E). lia.
  - apply work_bound.
  - intros Hwork now r Hnow Hr. destruct (busy_call s Hwork) as (i & c & Hi & Hc).
    destruct (call_phase c) as [| | |r'| |r'] eqn:Hp; try done.
    + exists (Check i now). simpl. rewrite Hi. simpl. rewrite Hp. by eexists.
    + destruct (token_mutex_ s) as [j|] eqn:Hm.
      * destruct (mutex_held s (inv_mutex _ _ _ Hinv) j Hm) as (cj & Hj & _ & Hrf).
        unfold is_refreshing in Hrf. destruct (call_phase cj) as [| | |r'| |] eqn:Hpj; try done.
        -- exists (Receive j r). simpl. rewrite Hj. simpl. rewrite Hpj. by eexists.
        -- exists (Update j now now). simpl. rewrite Hj. simpl. rewrite Hpj. eexists. split; [done|]. split; [lia|done].
      * exists (Lock i now). simpl. rewrite Hi. simpl. rewrite Hp, Hm. by eexists.
    + exists (Receive i r). simpl. rewrite Hi. simpl. rewrite Hp. by eexists.
    + exists (Update i now now). simpl. rewrite Hi. simpl. rewrite Hp. eexists. split; [done|]. split; [lia|done].
    + exists (Return i). simpl. rewrite Hi. simpl. rewrite Hp. by eexists.
Qed.
