(* ===== verification/AuthenticationExamples.v ===== *)
(** * Authentication on concrete inputs

    The theorems on authentication applied to a small JSON library, a Base64 encoder and a
    run of the client, and runs in which the code does not do what it says. *)

From stdpp Require Import base numbers list strings option gmap.
From Stdlib Require Import ZArith Lia Bool Ascii.
From S2P Require Import Prelude Decimal Url Http LruCache PriorityQueue QueueDecorator Crypto Fips180 CryptoFacts Base64 SignInResults AuthenticationClient AuthenticationFacts OAuth TokenEndpoint TokenFacts.
Local Open Scope Z_scope.
Local Open Scope olp_scope.

(** ** The libraries *)

Inductive json :=
| JError | JText (s : text) | JNumber (n : Z) | JList (l : list json) | JMembers (l : list (text * json)).

Fixpoint find_member (key : text) (l : list (text * json)) : option json :=
  match l with
  | [] => None
  | (k, v) :: rest => if decide (k = key) then Some v else find_member key rest
  end.

Definition token_document (token : String.string) : json :=
  JMembers [(ACCESS_TOKEN, JText (str token)); (TOKEN_TYPE, JText (str "bearer"));
            (EXPIRES_IN, JNumber 3600)].

(** The documents of the payloads that occur. *)
Definition parse_payload (s : text) : json :=
  if decide (s = str "alice") then token_document "token of alice"
  else if decide (s = str "bob") then token_document "token of bob"
  else if decide (s = str "error") then
    JMembers [(ERROR_CODE, JNumber 400200); (ERROR_MESSAGE, JText (str "Received invalid data"));
              (ERROR_FIELDS, JList [])]
  else JError.

Definition write_field (f : text * JsonField) : text :=
  f.1 ++ str ":" ++ match f.2 with JsonString s => s | JsonUint n => print_u64 n | JsonBool b => str "true" end.

#[global] Instance simple_json : Json := {
  Value := json;
  ParseStream := parse_payload;
  HasParseError v := match v with JError => true | _ => false end;
  HasMember v key := match v with JMembers l => Some (bool_decide (is_Some (find_member key l))) | _ => None end;
  Member v key := match v with JMembers l => find_member key l | _ => None end;
  GetString v := match v with JText s => Some s | _ => None end;
  GetUint v := match v with JNumber n => Some n | _ => None end;
  GetArray v := match v with JList l => Some l | _ => None end;
  WriteObject l := mjoin (write_field <$> l) }.

Definition alphabet : text := str "ABCDEFGHIJKLMNOPQRSTUVWXYZabcdefghijklmnopqrstuvwxyz0123456789+/".

Definition base64_digit (n : Z) : ascii := default equals_char (alphabet !! Z.to_nat n).
Definition base64_value (c : ascii) : Z := default 0 (Z.of_nat <$> (fst <$> list_find (eq c) alphabet)).

#[global] Instance simple_base64 : BoostBase64 := {
  base64_from_binary l :=
    (fun b => base64_digit (of_bits b)) <$>
      parse ((8 * List.length l + 5) / 6) 6 (bytes l ++ replicate 4 false);
  binary_from_base64 s :=
    of_bits <$> parse (6 * List.length s / 8) 8 (mjoin ((fun c => bits 6 (base64_value c)) <$> s)) }.

Example encode_man :
  Base64Encode (toUnsignedCharVector (str "Ma")) = str "TWE=" /\
  Base64Decode (str "TWE=") true = Some (Some (toUnsignedCharVector (str "Ma"))).
Proof. vm_compute. split; reflexivity. Qed.

(** ** A run of the client *)

Abbreviation agent := (str "agent").
Abbreviation limit := 100.
Abbreviation credentials := (MkCredentials (str "key") (str "secret")).
Abbreviation uid := (str "0123-4567").
Abbreviation ok_response id payload :=
  (MkResponse (NetworkResponse3 id 200 (str "OK")) (str payload) 1000).
Abbreviation offline_response id :=
  (MkResponse (NetworkResponse3 id (-4) (str "Offline")) [] 2000).

Fixpoint perform_all (actions : list Action) (w : AuthClient) : option AuthClient :=
  match actions with
  | [] => Some w
  | a :: rest =>
    if enabled a w then
      match perform agent a w with Some w' => perform_all rest w' | None => None end
    else None
  end.

Lemma perform_all_reachable url limit actions w w' :
  reachable agent url limit w -> perform_all actions w = Some w' -> reachable agent url limit w'.
Proof.
  revert w. induction actions as [|a actions IH]; intros w Hw; cbn [perform_all]; [by intros [= <-]|].
  destruct (enabled a w) eqn:Ha; [|done]. destruct (perform agent a w) as [w1|] eqn:E; [|done].
  apply IH. by eapply reach_step.
Qed.

Definition user_named (name : String.string) : UserRequest :=
  HereUser (MkUserProperties (str name) (str "password") 0).

(** Alice signs in, and later Bob does, with the same application but without a network. *)
Definition alice_then_bob : list Action :=
  [DoUserRequest (user_named "alice") credentials 1 uid 1000 7;
   DoRespond 7 (ok_response 7 "alice"); DoRelease 7;
   DoUserRequest (user_named "bob") credentials 2 uid 2000 8;
   DoRespond 8 (offline_response 8)].

Definition answered_token (e : LogEntry) : nat * text :=
  (pending_callback (log_pending e),
   match log_answer e with
   | ClientAnswer (Success r) => access_token_ r
   | UserAnswer (Success r) => access_token_ (user_sign_in r)
   | _ => []
   end).

Lemma other_user_gets_token :
  (fun w => answered_token <$> answers w) <$>
    perform_all alice_then_bob (AuthenticationClient_new (str "https://account") limit) =
  Some [(1%nat, str "token of alice"); (2%nat, str "token of alice")].
Proof. vm_compute. reflexivity. Qed.

Lemma alice_then_bob_runs :
  is_Some (perform_all alice_then_bob (AuthenticationClient_new (str "https://account") limit)).
Proof. vm_compute. eexists. reflexivity. Qed.

(** A run and what it answers. *)
Lemma run_reachable actions w :
  perform_all actions (AuthenticationClient_new (str "https://account") limit) = Some w ->
  reachable agent (str "https://account") limit w.
Proof. apply perform_all_reachable, reach_new. Qed.

Lemma answers_refine_memory_witness :
  exists w, perform_all alice_then_bob (AuthenticationClient_new (str "https://account") limit) = Some w /\
    exists m, explains limit (answers w) m /\ memories limit m w.
Proof.
  destruct alice_then_bob_runs as [w E]. exists w. split; [exact E|].
  apply (answers_refine_memory agent (str "https://account") limit w); [lia|].
  exact (run_reachable _ w E).
Defined.

Lemma pending_share_network_witness :
  exists w, perform_all alice_then_bob (AuthenticationClient_new (str "https://account") limit) = Some w /\
    forall proxy, (SetNetworkProxySettings proxy w).2 = true <-> proxy_name proxy <> [] /\ pending w = [].
Proof.
  destruct alice_then_bob_runs as [w E]. exists w. split; [exact E|].
  apply (pending_share_network agent (str "https://account") limit w); [lia|].
  exact (run_reachable _ w E).
Defined.

Lemma two_answers w :
  perform_all alice_then_bob (AuthenticationClient_new (str "https://account") limit) = Some w ->
  exists e1 e2, answers w = [e1] ++ e2 :: [].
Proof.
  intros E. pose proof other_user_gets_token as Ht. rewrite E in Ht. clear E. simpl in Ht.
  injection Ht as Ht. destruct (answers w) as [|e1 [|e2 [|]]]; try discriminate. by exists e1, e2.
Qed.

Lemma results_are_issued_witness :
  exists w e1 e2,
    perform_all alice_then_bob (AuthenticationClient_new (str "https://account") limit) = Some w /\
    answers w = [e1] ++ e2 :: [] /\ entry_explained [e1] e2.
Proof.
  destruct alice_then_bob_runs as [w E]. destruct (two_answers w E) as (e1 & e2 & Ha).
  exists w, e1, e2. split; [exact E|]. split; [exact Ha|].
  apply (results_are_issued agent (str "https://account") limit w [e1] e2 []); [lia| |exact Ha].
  exact (run_reachable _ w E).
Defined.

(** After the only request was answered and its closure destroyed, the network is gone, and
    the token that the caller still has must not be used. *)
Lemma stale_token_dangles :
  (w ← perform_all [DoSignInClient credentials 0 1 uid 1000 7; DoRespond 7 (ok_response 7 "alice"); DoRelease 7]
         (AuthenticationClient_new (str "https://account") limit);
   Some (enabled (DoCancel (0%nat, 7)) w, perform agent (DoCancel (0%nat, 7)) w)) = Some (true, None).
Proof. vm_compute. reflexivity. Qed.

(** A document with [errorFields] whose message has no full stop loses its message. *)
Lemma error_message_is_lost :
  (fun r => (error_code (result_error r), error_message (result_error r))) <$>
    BaseResult_new 400 (str "Bad request") (Some (ParseStream (str "error"))) = Some (400200, []).
Proof. vm_compute. reflexivity. Qed.

Lemma sign_in_outcomes_witness :
  exists r, SignInResultImpl_new 1000 200 (str "OK") (Some (ParseStream (str "alice"))) = Some r /\
    (status_ (sign_in_base r) = 200 <-> 200 = 200 /\ brings_token (Some (ParseStream (str "alice")))).
Proof.
  eexists. split; [vm_compute; reflexivity|].
  eapply (proj2 (sign_in_outcomes 1000 200 (str "OK") (Some (ParseStream (str "alice"))))).
  vm_compute. reflexivity.
Defined.

(** That document brings a token. *)
Lemma alice_is_a_token : brings_token (Some (ParseStream (str "alice"))).
Proof. eexists. split; [reflexivity|]. vm_compute. tauto. Qed.

Lemma signatures_are_oauth_witness :
  unreserved uid /\
  (signatureBase (str "https://account/oauth2/token") (str "a b") uid (print_s64 1000) =
   signature_base_string (str "POST") (str "https://account/oauth2/token")
     (oauth_parameters (str "a b") uid (print_s64 1000)) <-> unreserved (str "a b")).
Proof.
  assert (unreserved uid) as Hu by (repeat constructor). split; [exact Hu|].
  apply (signatures_are_oauth (MkCredentials (str "a b") (str "secret"))
           (str "https://account/oauth2/token") uid 1000 Hu).
Defined.

Lemma digests_are_standard_witness :
  Forall (in_range 8) [97; 98; 99] /\
  exists digest, sha256 [97; 98; 99] = Some digest /\ good_digest digest /\
    bytes digest = SHA256 (bytes [97; 98; 99]).
Proof.
  assert (Forall (in_range 8) [97; 98; 99]) as Hr by (repeat constructor; unfold in_range; lia).
  split; [exact Hr|]. apply (proj1 digests_are_standard). exact Hr.
Defined.

(** ** Runs of the refreshing token *)

(** A token that expires at a time in seconds. *)
Definition token_until (expiry : Z) : TokenResponse :=
  ApiResponse_ok default_AuthenticationError
    (MkTokenResult (str "token") expiry 200 (MkErrorResponse 0 [])).

Abbreviation at_second n := (n * 10 ^ 9).

(** A blocking call fetches, at second 1000, a token that expires at second 4600. *)
Definition first_fetch (minimumValidity : Z) : list Event :=
  [Begin true minimumValidity; Check 0 (at_second 1000); Lock 0 (at_second 1000);
   Receive 0 (token_until 4600); Update 0 (at_second 1001) (at_second 1001); Return 0].

Definition phases (es : list Event) : option (list Phase) :=
  (fun s => call_phase <$> token_calls s) <$> token_events es AutoRefreshingToken_new.

(** A call that asks for a validity of an hour gets, at second 4000, a token that expires
    ten minutes later: the refresh time is that of the call that fetched it. *)
Lemma minimum_validity_is_the_fetchers :
  phases (first_fetch 300 ++ [Begin false 3600; Check 1 (at_second 4000)]) =
  Some [Finished (token_until 4600); Finished (token_until 4600)].
Proof. vm_compute. reflexivity. Qed.

(** After a forced refresh with a negative validity an expired token counts as fresh. *)
Lemma negative_validity_keeps_expired :
  phases (first_fetch (-100) ++ [Begin false 300; Check 1 (at_second 4650)]) =
  Some [Finished (token_until 4600); Finished (token_until 4600)].
Proof. vm_compute. reflexivity. Qed.

(** Calls with a callback do not wait for each other: each sends its own request. *)
Lemma callbacks_request_twice :
  phases [Begin false 300; Begin false 300; Check 0 (at_second 1); Check 1 (at_second 1);
          Lock 0 (at_second 1); Lock 1 (at_second 1)] = Some [Requesting; Requesting].
Proof. vm_compute. reflexivity. Qed.

(** A refresh that is forced and fails replaces a token that is still valid. *)
Lemma failed_refresh_loses_token :
  (fun s => success_ (current_token_ s)) <$>
    token_events (first_fetch 300 ++
      [Begin true 0; Check 1 (at_second 2000); Lock 1 (at_second 2000);
       Receive 1 (ApiResponse_error default_TokenResult (AuthenticationError_new (-4) (str "Offline")));
       Update 1 (at_second 2000) (at_second 2000)]) AutoRefreshingToken_new = Some false.
Proof. vm_compute. reflexivity. Qed.

Lemma sane_token : sane_response (token_until 4600).
Proof. split; [unfold response_expiry; simpl; lia|done]. Qed.

Lemma fetched_reachable :
  exists s, token_events (first_fetch 300 ++ [Begin true 3600]) AutoRefreshingToken_new = Some s /\
    token_reachable (at_second 1001) 300 s.
Proof.
  eexists. split; [reflexivity|].
  pose proof (token_step _ _ _ (Begin true 300) _ token_new ltac:(simpl; lia) eq_refl) as H1.
  pose proof (token_step _ _ _ (Check 0 (at_second 1000)) _ H1 ltac:(simpl; lia) eq_refl) as H2.
  pose proof (token_step _ _ _ (Lock 0 (at_second 1000)) _ H2 ltac:(simpl; lia) eq_refl) as H3.
  pose proof (token_step _ _ _ (Receive 0 (token_until 4600)) _ H3 sane_token eq_refl) as H4.
  pose proof (token_step _ _ _ (Update 0 (at_second 1001) (at_second 1001)) _ H4 ltac:(simpl; lia) eq_refl) as H5.
  pose proof (token_step _ _ _ (Return 0) _ H5 I eq_refl) as H6.
  exact (token_step _ _ _ (Begin true 3600) _ H6 ltac:(simpl; lia) eq_refl).
Qed.

(** The response of another, forced refresh, received before the blocking call returns. *)
Definition forced_meanwhile : list Event :=
  [Begin true 0; Check 2 (at_second 4001); Lock 2 (at_second 4001); Receive 2 (token_until 9000)].

Lemma tokens_stay_fresh_witness :
  exists s s' c',
    token_reachable (at_second 1001) 300 s /\
    token_event (Check 1 (at_second 4000)) s = Some s' /\ token_calls s' !! 1%nat = Some c' /\
    0 < call_validity c' /\
    (success_ (current_token_ s) = true /\
     at_second 4000 < (response_expiry (current_token_ s) - 300) * 10 ^ 9 \/ just_received s) /\
    forall s2 s3, token_events forced_meanwhile s' = Some s2 -> token_event (Return 1) s2 = Some s3 ->
      call_phase <$> token_calls s3 !! 1%nat = Some (Finished (token_until 9000)).
Proof.
  destruct fetched_reachable as (s & E & Hr). exists s. injection E as <-.
  do 2 eexists. split; [exact Hr|]. split; [reflexivity|]. split; [reflexivity|].
  destruct (tokens_stay_fresh _ _ _ (Check 1 (at_second 4000)) 1 (at_second 4000) _ _ Hr
    ltac:(lia) (or_introl eq_refl) eq_refl eq_refl ltac:(discriminate) ltac:(discriminate)) as (Hv & Hf & _ & Hb).
  split; [exact Hv|]. split; [exact Hf|]. intros s2 s3. exact (proj2 (Hb eq_refl) forced_meanwhile s2 s3).
Defined.

(** Such a run exists. *)
Lemma forced_meanwhile_returns :
  phases (first_fetch 300 ++ [Begin true 3600; Check 1 (at_second 4000)] ++ forced_meanwhile ++ [Return 1]) =
  Some [Finished (token_until 4600); Finished (token_until 9000); Updating (token_until 9000)].
Proof. vm_compute. reflexivity. Qed.

(** The exception is real: between the assignments of the token and of its refresh time a
    callback is given a failure, since the refresh time is that of the token before. *)
Lemma failure_given_as_token :
  phases (first_fetch 300 ++
    [Begin true 0; Check 1 (at_second 2000); Lock 1 (at_second 2000);
     Receive 1 (ApiResponse_error default_TokenResult (AuthenticationError_new (-4) (str "Offline")));
     Begin false 300; Check 2 (at_second 2000)]) =
  Some [Finished (token_until 4600);
        Updating (ApiResponse_error default_TokenResult (AuthenticationError_new (-4) (str "Offline")));
        Finished (ApiResponse_error default_TokenResult (AuthenticationError_new (-4) (str "Offline")))].
Proof. vm_compute. reflexivity. Qed.

Lemma refreshes_exclude_witness :
  exists s, token_reachable (at_second 1) 0 s /\
    (exists c, token_calls s !! 0%nat = Some c /\ call_blocks c = true /\ is_refreshing c = true) /\
    forall j now, token_event (Lock j now) s = None.
Proof.
  pose proof (token_step _ _ _ (Begin true 300) _ token_new ltac:(simpl; lia) eq_refl) as H1.
  pose proof (token_step _ _ _ (Check 0 (at_second 1)) _ H1 ltac:(simpl; lia) eq_refl) as H2.
  pose proof (token_step _ _ _ (Lock 0 (at_second 1)) _ H2 ltac:(simpl; lia) eq_refl) as H3.
  eexists. split; [exact H3|]. split; [eexists; repeat split|].
  eapply (refreshes_exclude _ _ _ H3 0%nat); reflexivity.
Defined.

Lemma token_calls_finish_witness :
  exists s, token_reachable (at_second 1001) 300 s /\
    forall es s', Forall (fun e => is_begin e = false) es -> token_events es s = Some s' ->
      (List.length es + work s' <= work s)%nat.
Proof.
  destruct fetched_reachable as (s & _ & Hr). exists s. split; [exact Hr|].
  apply (token_calls_finish (at_second 1001) 300 s Hr).
Defined.

(** The query of a token URL ends up before the endpoint. *)
Lemma query_before_endpoint :
  strippedEndpointUrl (str "https://account/oauth2/token?realm=x") ++ OAUTH_ENDPOINT =
  str "https://account?realm=x/oauth2/token".
Proof. vm_compute. reflexivity. Qed.
