(* ===== verification/HttpTypes.v ===== *)
(** * The values of the HTTP interface

    [olp::http]: requests, their settings, responses and the outcome of sending
    ([NetworkTypes.h], [NetworkRequest], [NetworkResponse], [NetworkSettings],
    [NetworkProxySettings] of the core, and their copies in [src/network2]).  A value
    class is the record of its members; a body, which the class shares with its client,
    is its bytes. *)

From Stdlib Require Import ZArith Lia Bool Ascii.
From stdpp Require Import base numbers strings list.
From S2P Require Import Prelude Decimal.
Local Open Scope Z_scope.
Local Open Scope olp_scope.

(** ** Ids and errors *)

Definition RequestIdInvalid : Z := 0.
Definition RequestIdMin : Z := 0 + 1.
Definition RequestIdMax : Z := size_max.

Inductive ErrorCode :=
| SUCCESS | IO_ERROR | AUTHORIZATION_ERROR | INVALID_URL_ERROR | OFFLINE_ERROR
| CANCELLED_ERROR | AUTHENTICATION_ERROR | TIMEOUT_ERROR | NETWORK_OVERLOAD_ERROR
| UNKNOWN_ERROR.

#[global] Instance ErrorCode_eq_dec : EqDecision ErrorCode.
Proof. solve_decision. Defined.

(** [static_cast<int>(ErrorCode)] *)
Definition error_value (e : ErrorCode) : Z :=
  match e with
  | SUCCESS => 0 | IO_ERROR => -1 | AUTHORIZATION_ERROR => -2 | INVALID_URL_ERROR => -3
  | OFFLINE_ERROR => -4 | CANCELLED_ERROR => -5 | AUTHENTICATION_ERROR => -6
  | TIMEOUT_ERROR => -7 | NETWORK_OVERLOAD_ERROR => -8 | UNKNOWN_ERROR => -9
  end.

Record SendOutcome := MkSendOutcome { outcome_request_id_ : Z; outcome_error_code_ : ErrorCode }.

#[global] Instance SendOutcome_eq_dec : EqDecision SendOutcome.
Proof. solve_decision. Defined.

Definition SendOutcome_id (request_id : Z) : SendOutcome := MkSendOutcome request_id SUCCESS.
Definition SendOutcome_error (error_code : ErrorCode) : SendOutcome :=
  MkSendOutcome RequestIdInvalid error_code.
Definition IsSuccessfull (o : SendOutcome) : bool :=
  bool_decide (outcome_error_code_ o = SUCCESS) && negb (outcome_request_id_ o =? RequestIdInvalid).

(** ** Settings *)

Inductive ProxyType := NONE | HTTP | SOCKS4 | SOCKS4A | SOCKS5 | SOCKS5_HOSTNAME.

#[global] Instance ProxyType_eq_dec : EqDecision ProxyType.
Proof. solve_decision. Defined.

Record NetworkProxySettings := MkNetworkProxySettings {
  type_ : ProxyType; port_ : Z;
  hostname_ : text; username_ : text; password_ : text }.

Definition default_NetworkProxySettings : NetworkProxySettings :=
  MkNetworkProxySettings NONE 0 [] [] [].

Definition WithHostname (hostname : text) (p : NetworkProxySettings) : NetworkProxySettings :=
  MkNetworkProxySettings (type_ p) (port_ p) hostname (username_ p) (password_ p).
Definition WithPort (port : Z) (p : NetworkProxySettings) : NetworkProxySettings :=
  MkNetworkProxySettings (type_ p) (u16 port) (hostname_ p) (username_ p) (password_ p).
Definition WithType (type : ProxyType) (p : NetworkProxySettings) : NetworkProxySettings :=
  MkNetworkProxySettings type (port_ p) (hostname_ p) (username_ p) (password_ p).
Definition WithUsername (username : text) (p : NetworkProxySettings) : NetworkProxySettings :=
  MkNetworkProxySettings (type_ p) (port_ p) (hostname_ p) username (password_ p).
Definition WithPassword (password : text) (p : NetworkProxySettings) : NetworkProxySettings :=
  MkNetworkProxySettings (type_ p) (port_ p) (hostname_ p) (username_ p) password.

Record NetworkSettings := MkNetworkSettings {
  retries_ : Z; connection_timeout_ : Z; transfer_timeout_ : Z;
  proxy_settings_ : NetworkProxySettings }.

Definition default_NetworkSettings : NetworkSettings :=
  MkNetworkSettings 3 60 30 default_NetworkProxySettings.

Definition WithRetries (n : Z) (s : NetworkSettings) : NetworkSettings :=
  MkNetworkSettings n (connection_timeout_ s) (transfer_timeout_ s) (proxy_settings_ s).
Definition WithConnectionTimeout (n : Z) (s : NetworkSettings) : NetworkSettings :=
  MkNetworkSettings (retries_ s) n (transfer_timeout_ s) (proxy_settings_ s).
Definition WithTransferTimeout (n : Z) (s : NetworkSettings) : NetworkSettings :=
  MkNetworkSettings (retries_ s) (connection_timeout_ s) n (proxy_settings_ s).
Definition WithProxySettings (p : NetworkProxySettings) (s : NetworkSettings) : NetworkSettings :=
  MkNetworkSettings (retries_ s) (connection_timeout_ s) (transfer_timeout_ s) p.

(** ** Requests and responses *)

Inductive HttpVerb := GET | POST | HEAD | PUT | DEL | PATCH.

#[global] Instance HttpVerb_eq_dec : EqDecision HttpVerb.
Proof. solve_decision. Defined.

(** [body = None]: the shared pointer is null. *)
Record NetworkRequest := MkNetworkRequest {
  verb_ : HttpVerb; url_ : text; headers_ : list (text * text); body_ : option text;
  settings_ : NetworkSettings }.

Definition NewNetworkRequest (url : text) : NetworkRequest :=
  MkNetworkRequest GET url [] None default_NetworkSettings.

Definition WithHeader (name value : text) (r : NetworkRequest) : NetworkRequest :=
  MkNetworkRequest (verb_ r) (url_ r) (headers_ r ++ [(name, value)]) (body_ r) (settings_ r).
Definition WithUrl (u : text) (r : NetworkRequest) : NetworkRequest :=
  MkNetworkRequest (verb_ r) u (headers_ r) (body_ r) (settings_ r).
Definition WithVerb (v : HttpVerb) (r : NetworkRequest) : NetworkRequest :=
  MkNetworkRequest v (url_ r) (headers_ r) (body_ r) (settings_ r).
Definition WithBody (b : option text) (r : NetworkRequest) : NetworkRequest :=
  MkNetworkRequest (verb_ r) (url_ r) (headers_ r) b (settings_ r).
Definition WithSettings (s : NetworkSettings) (r : NetworkRequest) : NetworkRequest :=
  MkNetworkRequest (verb_ r) (url_ r) (headers_ r) (body_ r) s.

Record NetworkResponse := MkNetworkResponse {
  request_id_ : Z; status_ : Z; error_ : text; cancelled_ : bool }.

Definition default_NetworkResponse : NetworkResponse := MkNetworkResponse 0 0 [] false.

(** A [RequestId] is an unsigned 64-bit number, so a negative [int] wraps around. *)
Definition WithRequestId (id : Z) (r : NetworkResponse) : NetworkResponse :=
  MkNetworkResponse (u64 id) (status_ r) (error_ r) (cancelled_ r).
Definition WithStatus (s : Z) (r : NetworkResponse) : NetworkResponse :=
  MkNetworkResponse (request_id_ r) s (error_ r) (cancelled_ r).
Definition WithError (e : text) (r : NetworkResponse) : NetworkResponse :=
  MkNetworkResponse (request_id_ r) (status_ r) e (cancelled_ r).
Definition WithCancelled (c : bool) (r : NetworkResponse) : NetworkResponse :=
  MkNetworkResponse (request_id_ r) (status_ r) (error_ r) c.
