(* ===== verification/CurlHandle.v ===== *)
(** * A request of the curl network

    The parts of [olp-cpp-sdk-core/src/http/curl/NetworkCurl.cpp] that work on one request:
    the members of [RequestHandle], the options that [SendImplementation] sets on the curl
    handle, the header and the body callback, and the status that a completed transfer gets.
    Codes and options of libcurl are constructors; what libcurl computes ([curl_getdate],
    [curl_easy_strerror]) is a parameter. *)

From Stdlib Require Import ZArith Lia Bool Ascii QArith.
From stdpp Require Import base numbers strings list option.
From S2P Require Import Prelude Decimal Http HttpTypes.
Import HttpTypes.
Local Open Scope Z_scope.
Local Open Scope olp_scope.

(** ** libcurl *)

(** [CURL*]; 0 is the null pointer. *)
Abbreviation CURL := nat.

Inductive CURLcode :=
| CURLE_OK | CURLE_UNSUPPORTED_PROTOCOL | CURLE_URL_MALFORMAT | CURLE_COULDNT_RESOLVE_HOST
| CURLE_COULDNT_CONNECT | CURLE_REMOTE_ACCESS_DENIED | CURLE_FTP_ACCEPT_FAILED
| CURLE_PARTIAL_FILE | CURLE_HTTP_RETURNED_ERROR | CURLE_OPERATION_TIMEDOUT
| CURLE_SSL_CERTPROBLEM | CURLE_SSL_CIPHER | CURLE_SSL_CACERT | CURLE_LOGIN_DENIED
| CURLE_other (n : nat).

#[global] Instance CURLcode_eq_dec : EqDecision CURLcode.
Proof. solve_decision. Defined.

Inductive CURLMcode := CURLM_OK | CURLM_CALL_MULTI_PERFORM | CURLM_ADDED_ALREADY | CURLM_other (n : nat).

#[global] Instance CURLMcode_eq_dec : EqDecision CURLMcode.
Proof. solve_decision. Defined.

Inductive curl_proxytype :=
| CURLPROXY_HTTP | CURLPROXY_SOCKS4 | CURLPROXY_SOCKS5 | CURLPROXY_SOCKS4A
| CURLPROXY_SOCKS5_HOSTNAME.

(** The calls of [curl_easy_setopt]. [CURLOPT_WRITEDATA] and [CURLOPT_HEADERDATA] point to
    the request handle with this number; the functions are the two callbacks below. *)
Inductive CurlOption :=
| CURLOPT_VERBOSE (on : Z) | CURLOPT_URL (url : text) | CURLOPT_POST (on : Z)
| CURLOPT_CUSTOMREQUEST (verb : text) | CURLOPT_NOBODY (on : Z)
| CURLOPT_POSTFIELDSIZE (size : Z) | CURLOPT_POSTFIELDS (body : text)
| CURLOPT_PROXY (host : text) | CURLOPT_PROXYPORT (port : Z) | CURLOPT_PROXYTYPE (t : curl_proxytype)
| CURLOPT_PROXYUSERNAME (name : text) | CURLOPT_PROXYPASSWORD (password : text)
| CURLOPT_HTTPHEADER (chunk : list text) | CURLOPT_CAINFO (path : text)
| CURLOPT_SSL_VERIFYPEER (on : Z) | CURLOPT_SSL_VERIFYHOST (level : Z)
| CURLOPT_FOLLOWLOCATION (on : Z) | CURLOPT_CONNECTTIMEOUT (s : Z) | CURLOPT_TIMEOUT (s : Z)
| CURLOPT_WRITEFUNCTION | CURLOPT_WRITEDATA (handle : nat)
| CURLOPT_HEADERFUNCTION | CURLOPT_HEADERDATA (handle : nat)
| CURLOPT_FAILONERROR (on : Z) | CURLOPT_STDERR | CURLOPT_ERRORBUFFER (handle : nat)
| CURLOPT_ACCEPT_ENCODING (encoding : text) | CURLOPT_TRANSFER_ENCODING (on : Z)
| CURLOPT_TCP_KEEPALIVE (on : Z) | CURLOPT_TCP_KEEPIDLE (s : Z) | CURLOPT_TCP_KEEPINTVL (s : Z).

(** What the preprocessor and the file system decide. *)
Record Platform := MkPlatform {
  LIBCURL_VERSION_MAJOR : Z; LIBCURL_VERSION_MINOR : Z;
  NETWORK_HAS_OPENSSL : bool; FileExists : text -> bool }.

(** [(LIBCURL_VERSION_MAJOR >= 7) && (LIBCURL_VERSION_MINOR >= minor)] *)
Definition version_at_least (p : Platform) (minor : Z) : bool :=
  (LIBCURL_VERSION_MAJOR p >=? 7) && (LIBCURL_VERSION_MINOR p >=? minor).

Definition curl_ca_bundle_name : text := str "ca-bundle.crt".
Definition DefaultCaBundlePath : text := curl_ca_bundle_name.
Definition AlternativeCaBundlePath : text := curl_ca_bundle_name.
Definition CaBundlePath (p : Platform) : text :=
  let bundle_path := DefaultCaBundlePath in
  let bundle_path := if negb (FileExists p bundle_path) then AlternativeCaBundlePath else bundle_path in
  if negb (FileExists p bundle_path) then [] else bundle_path.

Definition ToCurlProxyType (type : ProxyType) : curl_proxytype :=
  match type with
  | HTTP => CURLPROXY_HTTP | SOCKS4 => CURLPROXY_SOCKS4 | SOCKS5 => CURLPROXY_SOCKS5
  | SOCKS4A => CURLPROXY_SOCKS4A | SOCKS5_HOSTNAME => CURLPROXY_SOCKS5_HOSTNAME
  | _ => CURLPROXY_HTTP
  end.

Definition ConvertErrorCode (p : Platform) (curl_code : CURLcode) : Z :=
  if bool_decide (curl_code = CURLE_OK) then 0
  else if bool_decide (curl_code = CURLE_REMOTE_ACCESS_DENIED)
       || bool_decide (curl_code = CURLE_SSL_CERTPROBLEM)
       || bool_decide (curl_code = CURLE_SSL_CIPHER)
       || bool_decide (curl_code = CURLE_LOGIN_DENIED)
  then error_value AUTHORIZATION_ERROR
  else if bool_decide (curl_code = CURLE_SSL_CACERT) then error_value AUTHENTICATION_ERROR
  else if bool_decide (curl_code = CURLE_UNSUPPORTED_PROTOCOL)
       || bool_decide (curl_code = CURLE_URL_MALFORMAT)
  then error_value INVALID_URL_ERROR
  else if version_at_least p 24 && bool_decide (curl_code = CURLE_FTP_ACCEPT_FAILED)
  then error_value AUTHORIZATION_ERROR
  else if bool_decide (curl_code = CURLE_COULDNT_RESOLVE_HOST) then error_value OFFLINE_ERROR
  else if bool_decide (curl_code = CURLE_OPERATION_TIMEDOUT) then error_value TIMEOUT_ERROR
  else error_value IO_ERROR.

(** ** The handle of a request *)

(** The members that the two callbacks write. *)
Record Reception := MkReception {
  etag : text; content_type : text; date : text; max_age : Z; expires : Z;
  offset : Z; count : Z; range_out : bool }.

(** [RequestHandle]. Functions and streams of the client are numbers; [self]: the weak
    pointer to the network is set. [index] is never read. *)
Record RequestHandle := MkRequestHandle {
  handle_id : Z; send_time : Z;
  payload : option nat; self : bool;
  callback : option nat; header_callback : option nat; data_callback : option nat;
  handle : CURL; chunk : list text;
  transfer_timeout : Z; retry_count : Z; max_retries : Z;
  ignore_offset : bool; in_use : bool; cancelled : bool;
  get_statistics : bool; skip_content : bool;
  reception : Reception }.

Definition default_Reception : Reception := MkReception [] [] [] 0 0 0 0 false.
Definition default_RequestHandle : RequestHandle :=
  MkRequestHandle 0 0 None false None None None 0 [] 0 0 0 false false false false false
    default_Reception.

Definition with_etag (v : text) (r : Reception) : Reception :=
  MkReception v (content_type r) (date r) (max_age r) (expires r) (offset r) (count r) (range_out r).
Definition with_content_type (v : text) (r : Reception) : Reception :=
  MkReception (etag r) v (date r) (max_age r) (expires r) (offset r) (count r) (range_out r).
Definition with_date (v : text) (r : Reception) : Reception :=
  MkReception (etag r) (content_type r) v (max_age r) (expires r) (offset r) (count r) (range_out r).
Definition with_max_age (v : Z) (r : Reception) : Reception :=
  MkReception (etag r) (content_type r) (date r) v (expires r) (offset r) (count r) (range_out r).
Definition with_expires (v : Z) (r : Reception) : Reception :=
  MkReception (etag r) (content_type r) (date r) (max_age r) v (offset r) (count r) (range_out r).
Definition with_offset (v : Z) (r : Reception) : Reception :=
  MkReception (etag r) (content_type r) (date r) (max_age r) (expires r) v (count r) (range_out r).
Definition with_count (v : Z) (r : Reception) : Reception :=
  MkReception (etag r) (content_type r) (date r) (max_age r) (expires r) (offset r) v (range_out r).
Definition with_range_out (v : bool) (r : Reception) : Reception :=
  MkReception (etag r) (content_type r) (date r) (max_age r) (expires r) (offset r) (count r) v.

Definition with_reception (v : Reception) (h : RequestHandle) : RequestHandle :=
  MkRequestHandle (handle_id h) (send_time h) (payload h) (self h) (callback h) (header_callback h)
    (data_callback h) (handle h) (chunk h) (transfer_timeout h) (retry_count h) (max_retries h)
    (ignore_offset h) (in_use h) (cancelled h) (get_statistics h) (skip_content h) v.
Definition with_cancelled (v : bool) (h : RequestHandle) : RequestHandle :=
  MkRequestHandle (handle_id h) (send_time h) (payload h) (self h) (callback h) (header_callback h)
    (data_callback h) (handle h) (chunk h) (transfer_timeout h) (retry_count h) (max_retries h)
    (ignore_offset h) (in_use h) v (get_statistics h) (skip_content h) (reception h).
Definition with_retry_count (v : Z) (h : RequestHandle) : RequestHandle :=
  MkRequestHandle (handle_id h) (send_time h) (payload h) (self h) (callback h) (header_callback h)
    (data_callback h) (handle h) (chunk h) (transfer_timeout h) v (max_retries h)
    (ignore_offset h) (in_use h) (cancelled h) (get_statistics h) (skip_content h) (reception h).
Definition with_handle (v : CURL) (h : RequestHandle) : RequestHandle :=
  MkRequestHandle (handle_id h) (send_time h) (payload h) (self h) (callback h) (header_callback h)
    (data_callback h) v (chunk h) (transfer_timeout h) (retry_count h) (max_retries h)
    (ignore_offset h) (in_use h) (cancelled h) (get_statistics h) (skip_content h) (reception h).

(** What [Initialize] assigns to a handle, and what [Teardown] does. *)
Definition initialized (v : CURL) (h : RequestHandle) : RequestHandle :=
  MkRequestHandle (handle_id h) (send_time h) (payload h) true (callback h) (header_callback h)
    (data_callback h) v (chunk h) (transfer_timeout h) (retry_count h) (max_retries h)
    (ignore_offset h) false (cancelled h) (get_statistics h) (skip_content h) (reception h).
Definition torn_down (h : RequestHandle) : RequestHandle :=
  MkRequestHandle (handle_id h) (send_time h) (payload h) false (callback h) (header_callback h)
    (data_callback h) 0 (chunk h) (transfer_timeout h) (retry_count h) (max_retries h)
    (ignore_offset h) (in_use h) (cancelled h) (get_statistics h) (skip_content h) (reception h).

(** The arguments of [Send] besides the request. *)
Record SendArgs := MkSendArgs {
  arg_payload : option nat; arg_callback : option nat;
  arg_header_callback : option nat; arg_data_callback : option nat }.

(** What [GetHandle] assigns to the handle [h] it found at the time [now]; [offset] and the
    [ignore_offset] of the last request are among the members. The parameter [id] of the
    function is an [int]. *)
Definition allocated (id now : Z) (v : CURL) (a : SendArgs) (h : RequestHandle) : RequestHandle :=
  MkRequestHandle id now (arg_payload a) (self h) (arg_callback a) (arg_header_callback a)
    (arg_data_callback a) v [] 30 0 (max_retries h) (ignore_offset h) true false false false
    (MkReception [] [] [] (-1) (-1) 0 0 false).

(** [ReleaseHandleUnlocked] without the reset of the curl handle. *)
Definition released (h : RequestHandle) : RequestHandle :=
  MkRequestHandle (handle_id h) (send_time h) None (self h) None None None (handle h) []
    (transfer_timeout h) (retry_count h) (max_retries h) (ignore_offset h) false (cancelled h)
    (get_statistics h) (skip_content h) (reception h).

(** ** The options of a request *)

(** The loop over the headers. *)
Definition header_lines (headers : list (text * text)) : list text :=
  (fun header => c_str (header.1 ++ str ": " ++ header.2)) <$> headers.

(** The settings and the headers that [SendImplementation] stores in the handle. *)
Definition configured (r : NetworkRequest) (h : RequestHandle) : RequestHandle :=
  MkRequestHandle (handle_id h) (send_time h) (payload h) (self h) (callback h) (header_callback h)
    (data_callback h) (handle h) (chunk h ++ header_lines (headers_ r))
    (u32 (transfer_timeout_ (settings_ r))) (retry_count h) (retries_ (settings_ r))
    false (in_use h) (cancelled h) false false (reception h).

Definition verb_options (verb : HttpVerb) : list CurlOption :=
  match verb with
  | POST => [CURLOPT_POST 1]
  | PUT => [CURLOPT_CUSTOMREQUEST (str "PUT")]
  | PATCH => [CURLOPT_CUSTOMREQUEST (str "PATCH")]
  | DEL => [CURLOPT_CUSTOMREQUEST (str "DELETE")]
  | GET => [CURLOPT_POST 0]
  | HEAD => [CURLOPT_POST 0; CURLOPT_NOBODY 1]
  end.

Definition body_options (verb : HttpVerb) (content : option text) : list CurlOption :=
  match verb with
  | GET | HEAD => []
  | _ =>
    match content with
    | Some (_ :: _ as content) =>
      [CURLOPT_POSTFIELDSIZE (Z.of_nat (length content)); CURLOPT_POSTFIELDS content]
    | _ => [CURLOPT_POSTFIELDSIZE 0]
    end
  end.

Definition proxy_options (proxy : NetworkProxySettings) : list CurlOption :=
  if bool_decide (type_ proxy = NONE) then [] else
  [CURLOPT_PROXY (c_str (hostname_ proxy)); CURLOPT_PROXYPORT (port_ proxy)] ++
  (if bool_decide (type_ proxy = HTTP) then [] else [CURLOPT_PROXYTYPE (ToCurlProxyType (type_ proxy))]) ++
  match username_ proxy, password_ proxy with
  | _ :: _, _ :: _ =>
    [CURLOPT_PROXYUSERNAME (c_str (username_ proxy)); CURLOPT_PROXYPASSWORD (c_str (password_ proxy))]
  | _, _ => []
  end.

(** The calls before the certificates; [verbose_] is false and [stderr_] null, since
    nothing assigns to them. *)
Definition first_options (r : NetworkRequest) (chunk : list text) : list CurlOption :=
  [CURLOPT_VERBOSE 0; CURLOPT_URL (c_str (url_ r))] ++ verb_options (verb_ r) ++
  body_options (verb_ r) (body_ r) ++ proxy_options (proxy_settings_ (settings_ r)) ++
  match chunk with [] => [] | _ => [CURLOPT_HTTPHEADER chunk] end.

(** The path of the certificates, if it is set at all. *)
Definition ca_option (p : Platform) : option text :=
  if NETWORK_HAS_OPENSSL p then
    match CaBundlePath p with [] => None | path => Some (c_str path) end
  else None.

Definition verify_options (sys_dont_verify_certificate : bool) : list CurlOption :=
  if sys_dont_verify_certificate then [CURLOPT_SSL_VERIFYPEER 0; CURLOPT_SSL_VERIFYHOST 0]
  else [CURLOPT_SSL_VERIFYPEER 1; CURLOPT_SSL_VERIFYHOST 2].

(** The calls after the certificates. The sum of the two timeouts is meant to fit an [int]. *)
Definition last_options (p : Platform) (i : nat) (r : NetworkRequest) : list CurlOption :=
  let config := settings_ r in
  verify_options true ++
  [CURLOPT_FOLLOWLOCATION 1; CURLOPT_CONNECTTIMEOUT (connection_timeout_ config);
   CURLOPT_TIMEOUT (connection_timeout_ config + transfer_timeout_ config);
   CURLOPT_WRITEFUNCTION; CURLOPT_WRITEDATA i; CURLOPT_HEADERFUNCTION; CURLOPT_HEADERDATA i;
   CURLOPT_FAILONERROR 0; CURLOPT_STDERR; CURLOPT_ERRORBUFFER i] ++
  (if version_at_least p 21 then [CURLOPT_ACCEPT_ENCODING []; CURLOPT_TRANSFER_ENCODING 1] else []) ++
  (if version_at_least p 25
   then [CURLOPT_TCP_KEEPALIVE 1; CURLOPT_TCP_KEEPIDLE 120; CURLOPT_TCP_KEEPINTVL 60] else []).

(** ** Receiving a response

    [NetworkCurl::HeaderFunction] and [NetworkCurl::RxFunction], which libcurl calls with a
    line of the header and with a part of the body, and the status and the retry of
    [CompleteMessage]. [None] is an exception, or an access outside a string; an exception
    would have to pass through the C code of libcurl. *)

(** ** Text of the standard library *)

Definition is_char (n : Z) (c : ascii) : bool := char_code c =? n.

(** [s.find(c)] *)
Fixpoint find_char (n : Z) (s : text) : option nat :=
  match s with
  | [] => None
  | c :: t => if is_char n c then Some 0%nat else S <$> find_char n t
  end.

(** [s.substr(pos)]: throws beyond the end. *)
Definition substr (pos : nat) (s : text) : option text :=
  if (length s <? pos)%nat then None else Some (drop pos s).

(** [std::stoi]: throws without a number and out of the range of [int]. *)
Definition stoi (s : text) : option Z :=
  let '(neg, (n, seen)) := read_number s in
  let v := if neg then - n else n in
  if negb seen then None
  else if (v <? - 2 ^ 31) || (v >? 2 ^ 31 - 1) then None else Some v.

(** ** Lines of the header *)

(** The loop that drops the end of the line. *)
Fixpoint line_length (ptr : text) (count : nat) : nat :=
  match count with
  | S (S _ as count') =>
    match ptr !! count' with
    | Some c => if is_char 10 c || is_char 13 c then line_length ptr count' else count
    | None => count
    end
  | _ => count
  end.

Section header.
Context (curl_getdate : text -> Z).

(** The headers that the handle remembers. [std::string::operator[]] may read the
    terminating NUL, and no further. *)
Definition remember (s : text) (r : Reception) : option Reception :=
  is_date ← CaseInsensitiveStartsWith s (str "Date:") 0;
  if (is_date : bool) then (fun v => with_date v r) <$> substr 6 s else
  is_cache ← CaseInsensitiveStartsWith s (str "Cache-Control:") 0;
  if (is_cache : bool) then
    index ← CaseInsensitiveFind s (str "max-age=") 8;
    if index =? npos then Some r
    else v ← substr (Z.to_nat (index + 8)) s; age ← stoi v; Some (with_max_age age r) else
  is_expires ← CaseInsensitiveStartsWith s (str "Expires:") 0;
  if (is_expires : bool) then
    date_string ← substr 9 s;
    if bool_decide (date_string = str "0") then Some (with_expires 0 r)
    else if bool_decide (date_string = str "-1") then Some (with_expires (-1) r)
    else Some (with_expires (curl_getdate date_string) r) else
  is_etag ← CaseInsensitiveStartsWith s (str "ETag:") 0;
  if (is_etag : bool) then (fun v => with_etag v r) <$> substr 6 s else
  is_type ← CaseInsensitiveStartsWith s (str "Content-Type:") 0;
  if (is_type : bool) then (fun v => with_content_type v r) <$> substr 14 s else
  is_range ← CaseInsensitiveStartsWith s (str "Content-Range:") 0;
  if (is_range : bool) then
    is_bytes ← CaseInsensitiveStartsWith s (str "bytes ") 15;
    if (is_bytes : bool) then
      c ← char_at s 21;
      if is_char 42 c then
        c' ← char_at s 22;
        if is_char 47 c' then Some (with_range_out true r) else Some r
      else if is_digit c then
        v ← substr 21 s; n ← stol v; Some (with_offset (u64 n) r)
      else Some r
    else Some r
  else Some r.

(** [HeaderFunction] for the bytes at [ptr]: what the handle remembers, and the call of
    the header callback with name and value. *)
Definition HeaderFunction (started : bool) (ptr : text) (h : RequestHandle)
    : option (Reception * option (nat * text * text)) :=
  if negb (self h) || negb started || cancelled h then Some (reception h, None) else
  let count := line_length ptr (length ptr) in
  if (count =? 0)%nat then Some (reception h, None) else
  let s := take count ptr in
  match find_char 58 s with
  | None => Some (reception h, None)
  | Some pos =>
    if (length s <=? pos + 2)%nat then Some (reception h, None) else
    value ← substr (pos + 2) s;
    let called := (fun cb => (cb, take pos s, value)) <$> header_callback h in
    r ← remember s (reception h);
    Some (r, called)
  end.
End header.

(** ** The body *)

(** A [std::ostream]: its bytes, where it writes, whether it can be told where to write, and
    its fail bit. *)
Record OStream := MkOStream { bytes : text; put : nat; seekable : bool; failed : bool }.

Definition tellp (s : OStream) : Z :=
  if failed s || negb (seekable s) then -1 else Z.of_nat (put s).
Definition seekp (pos : Z) (s : OStream) : OStream :=
  if failed s then s
  else if seekable s && (0 <=? pos) && (pos <=? Z.of_nat (length (bytes s)))
  then MkOStream (bytes s) (Z.to_nat pos) (seekable s) false
  else MkOStream (bytes s) (put s) (seekable s) true.
Definition clear (s : OStream) : OStream := MkOStream (bytes s) (put s) (seekable s) false.
Definition write (data : text) (s : OStream) : OStream :=
  if failed s then s
  else MkOStream (take (put s) (bytes s) ++ data ++ drop (put s + length data) (bytes s))
         (put s + length data) (seekable s) false.

(** The part of [RxFunction] that writes to the payload. *)
Definition write_payload (ignore_offset : bool) (count : Z) (ptr : text) (s : OStream) : OStream :=
  let s :=
    if negb ignore_offset && negb (tellp s =? count) then
      let s := seekp count s in if failed s then clear s else s
    else s in
  write ptr s.

(** [RxFunction] for the bytes at [ptr], with [status] the answer of libcurl to
    [CURLINFO_RESPONSE_CODE]: what the handle remembers, the payload and the call of the data
    callback. It always returns the length. Without [stderr_] nothing is logged. *)
Definition RxFunction (started : bool) (status : Z) (ptr : text) (h : RequestHandle) (s : option OStream)
    : Reception * option OStream * option (nat * Z * text) :=
  let r := reception h in
  if negb (self h) then (r, s, None) else
  if skip_content h && negb (existsb (Z.eqb status) [200; 206; 201; 0]) then (r, s, None) else
  if started && negb (range_out r) && negb (cancelled h) then
    (with_count (u64 (count r + Z.of_nat (length ptr))) r,
     write_payload (ignore_offset h) (count r) ptr <$> s,
     (fun cb => (cb, u64 (offset r + count r), ptr)) <$> data_callback h)
  else (r, s, None).

(** ** Completed transfers *)

(** What libcurl says about a completed transfer: the response code, the total time, if it
    could be told, and the text in the error buffer. *)
Record Transfer := MkTransfer { http_status : Z; total_time : option Q; error_text : text }.

Section completion.
Context (platform : Platform) (curl_easy_strerror : CURLcode -> text).

(** Status and error of [CompleteMessage]. *)
Definition completion (result : CURLcode) (t : Transfer) (h : RequestHandle) : Z * text :=
  if bool_decide (result = CURLE_OK) || bool_decide (result = CURLE_HTTP_RETURNED_ERROR) then
    let status := s32 (http_status t) in
    let status := if (offset (reception h) =? 0) && (status =? 206) then 200 else status in
    let status := if (status =? 0) && bool_decide (result = CURLE_OK) then 200 else status in
    (status, HttpErrorToString status)
  else
    let error := match c_str (error_text t) with [] => curl_easy_strerror result | e => e end in
    let status := ConvertErrorCode platform result in
    let status :=
      if bool_decide (result = CURLE_PARTIAL_FILE) then
        match total_time t with
        | Some time => if Qle_bool (inject_Z (transfer_timeout h)) time
                       then error_value TIMEOUT_ERROR else status
        | None => status
        end
      else status in
    (status, error).

(** The test before a retry. *)
Definition failed_by_server (status : Z) : bool :=
  (status >? 0) && ((status <? 200) || (status >=? 500)).
Definition retries_left (h : RequestHandle) : bool :=
  negb (cancelled h) && (retry_count h <? max_retries h).

(** A handle that is sent once more. *)
Definition retried (h : RequestHandle) : RequestHandle :=
  with_reception (with_count 0 (reception h)) (with_retry_count (u64 (retry_count h + 1)) h).

Definition completed (result : CURLcode) (t : Transfer) (h : RequestHandle) : NetworkResponse :=
  let '(status, error) := completion result t h in
  WithError error (WithStatus status (WithRequestId (handle_id h) default_NetworkResponse)).
End completion.

(** The responses that are not made of a transfer. *)
Definition cancelled_response (h : RequestHandle) : NetworkResponse :=
  WithError (str "Cancelled") (WithStatus (error_value CANCELLED_ERROR)
    (WithRequestId (handle_id h) default_NetworkResponse)).
Definition io_error_response (h : RequestHandle) : NetworkResponse :=
  WithError (str "CURL error") (WithStatus (error_value IO_ERROR)
    (WithRequestId (handle_id h) default_NetworkResponse)).
Definition offline_response (id : Z) : NetworkResponse :=
  WithError (str "Offline: network is deinitialized") (WithStatus (error_value OFFLINE_ERROR)
    (WithRequestId id default_NetworkResponse)).
