(* ===== verification/NetworkCurl.v ===== *)
(** * The curl network

    [NetworkCurl] of [olp-cpp-sdk-core/src/http/curl]: the calls of the clients' threads and
    the worker thread, as interleaved steps between which [event_mutex_] is not held, except
    in the two loops of the worker that keep it. What libcurl, the clock and the scheduler
    decide is in the labels of the steps. Waiting ([wait_for], [select], the pipe) is only a
    delay and is left out, as is the limit of idle connections. *)

From Stdlib Require Import ZArith Lia Bool Ascii QArith.
From stdpp Require Import base numbers strings list option gmap sets.
From S2P Require Import Prelude Decimal Http HttpTypes CurlHandle.
Import HttpTypes.
Local Open Scope Z_scope.
Local Open Scope olp_scope.

Definition kStaticHandleCount : nat := 8.
Definition kTotalHandleCount : nat := 32.

(** [kHandleLostTimeout] and [kHandleReuseTimeout] in milliseconds *)
Definition kHandleLostTimeout : Z := 30000.
Definition kHandleReuseTimeout : Z := 120000.

Inductive WorkerState := STOPPED | STARTED | STOPPING.

#[global] Instance WorkerState_eq_dec : EqDecision WorkerState.
Proof. solve_decision. Defined.

Inductive EventType := SEND_EVENT | CANCEL_EVENT.
(** The handle is its number in [handles_]. *)
Record EventInfo := MkEventInfo { event_type : EventType; event_handle : nat }.

(** Where a thread of a client is: in [Send] before it reads [state_], in [Initialize] before
    it reads [state_], before it takes [init_mutex_], and while it waits for the worker;
    before it takes an id, in [SendImplementation], in [GetHandle] before it reads [state_] and
    before it searches; before the options are set, before [state_] is read again and before
    the event is added; in [Cancel]. *)
Inductive Caller :=
| Sending (r : NetworkRequest) (a : SendArgs)
| Initializing (r : NetworkRequest) (a : SendArgs)
| Locking (r : NetworkRequest) (a : SendArgs)
| Waiting (r : NetworkRequest) (a : SendArgs)
| Numbering (r : NetworkRequest) (a : SendArgs)
| Implementing (r : NetworkRequest) (a : SendArgs) (id : Z)
| Getting (r : NetworkRequest) (a : SendArgs) (id : Z)
| Searching (r : NetworkRequest) (a : SendArgs) (id : Z)
| Configuring (r : NetworkRequest) (id : Z) (i : nat)
| Announcing (id : Z) (i : nat)
| Pushing (id : Z) (i : nat)
| Cancelling (id : Z).

(** Where the worker continues after [CompleteMessage]: in the loop over the events, over the
    handles that could not be added, over the messages of libcurl, and over the lost handles. *)
Inductive Continuation :=
| AfterEvent (msgs : list CURL)
| AfterFailing (msgs : list CURL)
| AfterReading
| AfterLost (lost : list CURL).

(** Where the worker is: before and in [Run]; [Completing], [Deciding], [Requeueing],
    [Answering] and [Calling] are the parts of [CompleteMessage]. *)
Inductive Worker :=
| NoWorker
| Starting
| Top
| Events (msgs : list CURL)
| Failing (msgs : list CURL)
| Completing (easy_handle : CURL) (result : CURLcode) (k : Continuation)
| Deciding (i : nat) (result : CURLcode) (cb : nat) (k : Continuation)
| Requeueing (i : nat) (k : Continuation)
| Answering (i : nat) (response : NetworkResponse) (cb : nat) (k : Continuation)
| Calling (cb : option nat) (response : NetworkResponse) (k : Continuation)
| Performing
| Reading (completed : bool)
| Unknown (i : nat) (cb : nat) (completed : bool)
| Selecting
| Losing (lost : list CURL)
| Dropping (i : nat) (lost : list CURL)
| Sweeping
| Leaving
| Tearing (completed_messages : list (Z * option nat))
| Stopping.

(** The pointers of the clients to the network: held, dropped, and the destructor waiting for
    the worker or finished. *)
Inductive Owner := Alive | Dropped | Joining | Destroyed.

#[global] Instance Owner_eq_dec : EqDecision Owner.
Proof. solve_decision. Defined.

(** What the clients see, and when a handle is given to a request. *)
Inductive Event :=
| Taken (cb : option nat) (id : Z)
| Returned (t : nat) (o : SendOutcome)
| Threw (t : nat)
| Header (cb : nat) (key value : text)
| Data (cb : nat) (offset : Z) (data : text)
| Called (cb : nat) (response : NetworkResponse).

(** [hooked]: the network is owned by a [shared_ptr] that was made from a pointer to a
    [NetworkCurl], so that [shared_from_this] works. [aborted]: [std::terminate] was called.
    [easy] and [multi] are libcurl's: the easy handles with their options, and those that were
    added to the multi handle. [streams]: the payloads. *)
Record Network := MkNetwork {
  state_ : WorkerState; handles_ : list RequestHandle; events_ : list EventInfo;
  request_id_counter_ : Z; thread_ : bool; worker : Worker; init_mutex_ : option nat;
  callers : gmap nat Caller; hooked : bool; owner : Owner; aborted : bool;
  easy : gmap CURL (list CurlOption); multi : gset CURL; streams : gmap nat OStream;
  log : list Event }.

Definition with_state (v : WorkerState) (s : Network) : Network :=
  MkNetwork v (handles_ s) (events_ s) (request_id_counter_ s) (thread_ s) (worker s)
    (init_mutex_ s) (callers s) (hooked s) (owner s) (aborted s) (easy s) (multi s) (streams s)
    (log s).
Definition with_handles (v : list RequestHandle) (s : Network) : Network :=
  MkNetwork (state_ s) v (events_ s) (request_id_counter_ s) (thread_ s) (worker s)
    (init_mutex_ s) (callers s) (hooked s) (owner s) (aborted s) (easy s) (multi s) (streams s)
    (log s).
Definition with_events (v : list EventInfo) (s : Network) : Network :=
  MkNetwork (state_ s) (handles_ s) v (request_id_counter_ s) (thread_ s) (worker s)
    (init_mutex_ s) (callers s) (hooked s) (owner s) (aborted s) (easy s) (multi s) (streams s)
    (log s).
Definition with_request_id_counter (v : Z) (s : Network) : Network :=
  MkNetwork (state_ s) (handles_ s) (events_ s) v (thread_ s) (worker s) (init_mutex_ s)
    (callers s) (hooked s) (owner s) (aborted s) (easy s) (multi s) (streams s) (log s).
Definition with_thread (v : bool) (s : Network) : Network :=
  MkNetwork (state_ s) (handles_ s) (events_ s) (request_id_counter_ s) v (worker s)
    (init_mutex_ s) (callers s) (hooked s) (owner s) (aborted s) (easy s) (multi s) (streams s)
    (log s).
Definition with_worker (v : Worker) (s : Network) : Network :=
  MkNetwork (state_ s) (handles_ s) (events_ s) (request_id_counter_ s) (thread_ s) v
    (init_mutex_ s) (callers s) (hooked s) (owner s) (aborted s) (easy s) (multi s) (streams s)
    (log s).
Definition with_init_mutex (v : option nat) (s : Network) : Network :=
  MkNetwork (state_ s) (handles_ s) (events_ s) (request_id_counter_ s) (thread_ s) (worker s) v
    (callers s) (hooked s) (owner s) (aborted s) (easy s) (multi s) (streams s) (log s).
Definition with_callers (v : gmap nat Caller) (s : Network) : Network :=
  MkNetwork (state_ s) (handles_ s) (events_ s) (request_id_counter_ s) (thread_ s) (worker s)
    (init_mutex_ s) v (hooked s) (owner s) (aborted s) (easy s) (multi s) (streams s) (log s).
Definition with_owner (v : Owner) (s : Network) : Network :=
  MkNetwork (state_ s) (handles_ s) (events_ s) (request_id_counter_ s) (thread_ s) (worker s)
    (init_mutex_ s) (callers s) (hooked s) v (aborted s) (easy s) (multi s) (streams s) (log s).
Definition with_aborted (v : bool) (s : Network) : Network :=
  MkNetwork (state_ s) (handles_ s) (events_ s) (request_id_counter_ s) (thread_ s) (worker s)
    (init_mutex_ s) (callers s) (hooked s) (owner s) v (easy s) (multi s) (streams s) (log s).
Definition with_easy (v : gmap CURL (list CurlOption)) (s : Network) : Network :=
  MkNetwork (state_ s) (handles_ s) (events_ s) (request_id_counter_ s) (thread_ s) (worker s)
    (init_mutex_ s) (callers s) (hooked s) (owner s) (aborted s) v (multi s) (streams s) (log s).
Definition with_multi (v : gset CURL) (s : Network) : Network :=
  MkNetwork (state_ s) (handles_ s) (events_ s) (request_id_counter_ s) (thread_ s) (worker s)
    (init_mutex_ s) (callers s) (hooked s) (owner s) (aborted s) (easy s) v (streams s) (log s).
Definition with_streams (v : gmap nat OStream) (s : Network) : Network :=
  MkNetwork (state_ s) (handles_ s) (events_ s) (request_id_counter_ s) (thread_ s) (worker s)
    (init_mutex_ s) (callers s) (hooked s) (owner s) (aborted s) (easy s) (multi s) v (log s).
Definition with_log (v : list Event) (s : Network) : Network :=
  MkNetwork (state_ s) (handles_ s) (events_ s) (request_id_counter_ s) (thread_ s) (worker s)
    (init_mutex_ s) (callers s) (hooked s) (owner s) (aborted s) (easy s) (multi s) (streams s)
    v.

Definition initial (hooked : bool) (streams : gmap nat OStream) : Network :=
  MkNetwork STOPPED (replicate kTotalHandleCount default_RequestHandle) [] RequestIdMin false NoWorker
    None ∅ hooked Alive false ∅ ∅ streams [].

Definition IsStarted (s : Network) : bool := bool_decide (state_ s = STARTED).
Definition Initialized (s : Network) : bool := IsStarted s.

(** The worker keeps [event_mutex_] from one step to the next. *)
Definition event_locked (s : Network) : bool :=
  match worker s with Events _ | Reading _ => true | _ => false end.

Definition Ready (s : Network) : bool :=
  IsStarted s && existsb (fun h => negb (in_use h)) (handles_ s).
Definition AmountPending (s : Network) : nat := length (filter (fun h => in_use h = true) (handles_ s)).

Definition log_event (e : Event) (s : Network) : Network := with_log (log s ++ [e]) s.
Definition update (i : nat) (f : RequestHandle -> RequestHandle) (s : Network) : Network :=
  with_handles (alter f i (handles_ s)) s.

(** The first handle with a property. *)
Fixpoint find_handle (p : RequestHandle -> bool) (l : list RequestHandle) : option nat :=
  match l with
  | [] => None
  | h :: l => if p h then Some 0%nat else S <$> find_handle p l
  end.

Definition AddEvent (type : EventType) (i : nat) (s : Network) : Network :=
  with_events (events_ s ++ [MkEventInfo type i]) s.

(** [curl_easy_init] returns a null pointer, or a pointer that no live handle has. *)
Definition curl_easy_init (p : CURL) (s : Network) : option Network :=
  if bool_decide (p = 0%nat) then Some s
  else if bool_decide (is_Some (easy s !! p)) then None
  else Some (with_easy (<[p := []]> (easy s)) s).
Definition curl_easy_setopt (p : CURL) (o : list CurlOption) (s : Network) : Network :=
  with_easy (alter (fun os => os ++ o) p (easy s)) s.
Definition curl_easy_reset (p : CURL) (s : Network) : Network :=
  with_easy (alter (fun _ => []) p (easy s)) s.
Definition curl_easy_cleanup (p : CURL) (s : Network) : Network := with_easy (delete p (easy s)) s.
Definition curl_multi_remove_handle (p : CURL) (s : Network) : Network :=
  with_multi (multi s ∖ {[p]}) s.

Definition handle_of (s : Network) (i : nat) : CURL :=
  match handles_ s !! i with Some h => handle h | None => 0%nat end.

Definition ReleaseHandleUnlocked (i : nat) (s : Network) : Network :=
  update i released (curl_easy_reset (handle_of s i) s).

Definition GetHandleIndex (p : CURL) (s : Network) : option nat :=
  find_handle (fun h => in_use h && bool_decide (handle h = p)) (handles_ s).

(** ** The clients' threads *)

Definition with_caller (t : nat) (c : Caller) (s : Network) : Network :=
  with_callers (<[t := c]> (callers s)) s.
Definition finish (t : nat) (s : Network) : Network := with_callers (delete t (callers s)) s.
Definition return_ (t : nat) (o : SendOutcome) (s : Network) : Network :=
  log_event (Returned t o) (finish t s).

(** The end of [Initialize] for the curl handles [ptrs]: [thread_] is assigned, which ends the
    process if it holds a thread already. *)
Fixpoint curl_easy_inits (ptrs : list CURL) (s : Network) : option Network :=
  match ptrs with
  | [] => Some s
  | p :: ptrs => s ← curl_easy_init p s; curl_easy_inits ptrs s
  end.

Definition setup_handles (ptrs : list CURL) (l : list RequestHandle) : list RequestHandle :=
  imap (fun i h => initialized (if (i <? kStaticHandleCount)%nat then nth i ptrs 0%nat else 0%nat) h) l.

Definition start_thread (s : Network) : Network :=
  if thread_ s then with_aborted true s else with_worker Starting (with_thread true s).

(** [Initialize] under [init_mutex_], up to the wait: whether [pipe] and [curl_multi_init]
    succeed, and the results of [curl_easy_init]. *)
Definition Setup (t : nat) (r : NetworkRequest) (a : SendArgs) (pipe_ok multi_ok : bool)
    (ptrs : list CURL) (s : Network) : option Network :=
  match init_mutex_ s with
  | Some _ => None
  | None =>
    if negb pipe_ok || negb multi_ok then Some (return_ t (SendOutcome_error OFFLINE_ERROR) s)
    else if negb (hooked s) then Some (log_event (Threw t) (finish t s))
    else if bool_decide (length ptrs = kStaticHandleCount) then
      s ← curl_easy_inits ptrs (with_multi ∅ s);
      Some (start_thread (with_handles (setup_handles ptrs (handles_ s))
             (with_init_mutex (Some t) (with_caller t (Waiting r a) s))))
    else None
  end.

(** The id of [Send] and the next one. *)
Definition next_request_id (id : Z) : Z := if id =? RequestIdMax then RequestIdMin else id + 1.

(** [GetHandle] under [event_mutex_], at the time [now], with [ptr] the result of
    [curl_easy_init] if it is called. The parameter [id] is an [int]. *)
Definition GetHandle (t : nat) (r : NetworkRequest) (a : SendArgs) (id now : Z) (ptr : CURL)
    (s : Network) : option Network :=
  match find_handle (fun h => negb (in_use h)) (handles_ s) with
  | None => Some (return_ t (SendOutcome_error UNKNOWN_ERROR) s)
  | Some i =>
    let take p s :=
      with_caller t (Configuring r id i)
        (log_event (Taken (arg_callback a) (s32 id)) (update i (allocated (s32 id) now p a) s)) in
    if (handle_of s i =? 0)%nat then
      s ← curl_easy_init ptr s;
      if (ptr =? 0)%nat then Some (return_ t (SendOutcome_error UNKNOWN_ERROR) s)
      else Some (take ptr s)
    else Some (take (handle_of s i) s)
  end.

(** [Cancel] under [event_mutex_]. The id of the handle, an [int], is converted to the type of
    the other. *)
Definition CancelLocked (id : Z) (s : Network) : Network :=
  match find_handle (fun h => in_use h && (u64 (handle_id h) =? id)) (handles_ s) with
  | None => s
  | Some i => AddEvent CANCEL_EVENT i (update i (with_cancelled true) s)
  end.

Section network.
Context (platform : Platform) (curl_getdate : text -> Z) (curl_easy_strerror : CURLcode -> text).

(** The part of [SendImplementation] that sets the options; [ca_ok]: libcurl accepts the
    certificates. *)
Definition Configure (t : nat) (r : NetworkRequest) (id : Z) (i : nat) (ca_ok : bool) (s : Network)
    : Network :=
  let s := update i (configured r) s in
  let lines := match handles_ s !! i with Some h => chunk h | None => [] end in
  let s := curl_easy_setopt (handle_of s i) (first_options r lines) s in
  match ca_option platform with
  | Some path =>
    if ca_ok then
      with_caller t (Announcing id i)
        (curl_easy_setopt (handle_of s i) (CURLOPT_CAINFO path :: last_options platform i r) s)
    else return_ t (SendOutcome_error UNKNOWN_ERROR) s
  | None =>
    with_caller t (Announcing id i) (curl_easy_setopt (handle_of s i) (last_options platform i r) s)
  end.

(** A step of a thread that decides nothing; [None] while it waits. *)
Definition caller_step (t : nat) (s : Network) : option Network :=
  match callers s !! t with
  | Some (Sending r a) =>
    Some (with_caller t (if Initialized s then Numbering r a else Initializing r a) s)
  | Some (Initializing r a) =>
    Some (with_caller t (if bool_decide (state_ s = STOPPED) then Locking r a else Numbering r a) s)
  | Some (Waiting r a) =>
    if IsStarted s && negb (event_locked s)
    then Some (with_caller t (Numbering r a) (with_init_mutex None s)) else None
  | Some (Numbering r a) =>
    if event_locked s then None
    else Some (with_caller t (Implementing r a (request_id_counter_ s))
                (with_request_id_counter (next_request_id (request_id_counter_ s)) s))
  | Some (Implementing r a id) =>
    Some (if IsStarted s then with_caller t (Getting r a id) s
          else return_ t (SendOutcome_error IO_ERROR) s)
  | Some (Getting r a id) =>
    Some (if IsStarted s then with_caller t (Searching r a id) s
          else return_ t (SendOutcome_error UNKNOWN_ERROR) s)
  | Some (Announcing id i) =>
    Some (if IsStarted s then with_caller t (Pushing id i) s
          else return_ t (SendOutcome_error OFFLINE_ERROR) s)
  | Some (Pushing id i) =>
    if event_locked s then None
    else Some (return_ t (SendOutcome_id id) (AddEvent SEND_EVENT i s))
  | Some (Cancelling id) =>
    if event_locked s then None else Some (finish t (CancelLocked id s))
  | _ => None
  end.

(** ** The worker *)

Definition resume (k : Continuation) (s : Network) : Network :=
  with_worker
    match k with
    | AfterEvent msgs => Events msgs
    | AfterFailing msgs => Failing msgs
    | AfterReading => Reading true
    | AfterLost lost => Losing lost
    end s.

(** The result of [curl_multi_add_handle]: adding a handle twice fails with a code of its
    own. *)
Definition add_allowed (p : CURL) (res : CURLMcode) (s : Network) : bool :=
  bool_decide (p ∈ multi s <-> res = CURLM_ADDED_ALREADY).
Definition added (res : CURLMcode) : bool :=
  bool_decide (res = CURLM_OK) || bool_decide (res = CURLM_CALL_MULTI_PERFORM).

(** One turn of the loop over the events. *)
Definition pop_event (msgs : list CURL) (res : CURLMcode) (s : Network) : option Network :=
  match events_ s with
  | [] => Some (with_worker (if IsStarted s then Failing msgs else Top) s)
  | MkEventInfo type i :: events =>
    if negb (IsStarted s) then Some (with_worker Top s) else
    h ← handles_ s !! i;
    let s := with_events events s in
    if negb (in_use h) then Some (with_worker (Events msgs) s) else
    match type with
    | SEND_EVENT =>
      if negb (add_allowed (handle h) res s) then None
      else if added res then
        Some (with_worker (Events msgs) (with_multi ({[handle h]} ∪ multi s) s))
      else Some (with_worker (Events (msgs ++ [handle h])) s)
    | CANCEL_EVENT =>
      Some (with_worker (Completing (handle h) CURLE_OPERATION_TIMEDOUT (AfterEvent msgs))
             (curl_multi_remove_handle (handle h) s))
    end
  end.

(** [CompleteMessage] up to the end of its first critical section. *)
Definition CompleteMessage (p : CURL) (result : CURLcode) (k : Continuation) (s : Network)
    : option Network :=
  match GetHandleIndex p s with
  | None => Some (resume k s)
  | Some i =>
    h ← handles_ s !! i;
    if cancelled h then
      Some (with_worker (Calling (callback h) (cancelled_response h) k) (ReleaseHandleUnlocked i s))
    else
      match callback h with
      | None => Some (resume k (ReleaseHandleUnlocked i s))
      | Some cb => Some (with_worker (Deciding i result cb k) s)
      end
  end.

(** [CompleteMessage] after it: the status, and whether the request is sent once more. *)
Definition decide_completion (i : nat) (result : CURLcode) (cb : nat) (k : Continuation) (t : Transfer)
    (s : Network) : option Network :=
  h ← handles_ s !! i;
  let '(status, _) := completion platform curl_easy_strerror result t h in
  let answer s := with_worker
    (Answering i (completed platform curl_easy_strerror result t h) cb k) s in
  if failed_by_server status then
    if retries_left h then Some (with_worker (Requeueing i k) (update i retried s))
    else if cancelled h then Some (answer s)
    else Some (answer (update i (with_retry_count (u64 (retry_count h + 1))) s))
  else Some (answer s).

(** A call of the client's function; an empty [std::function] throws. *)
Definition call (cb : option nat) (response : NetworkResponse) (s : Network) : Network :=
  match cb with
  | Some cb => log_event (Called cb response) s
  | None => with_aborted true s
  end.

(** The request handle that a curl handle writes to. *)
Definition write_data (os : list CurlOption) : option nat :=
  foldl (fun acc o => match o with CURLOPT_WRITEDATA i => Some i | _ => acc end) None os.
Definition header_data (os : list CurlOption) : option nat :=
  foldl (fun acc o => match o with CURLOPT_HEADERDATA i => Some i | _ => acc end) None os.

Definition receive_header (p : CURL) (ptr : text) (s : Network) : option Network :=
  os ← easy s !! p; i ← header_data os; h ← handles_ s !! i;
  match HeaderFunction curl_getdate (IsStarted s) ptr h with
  | None => Some (with_aborted true s)
  | Some (r, called) =>
    let s := update i (with_reception r) s in
    Some match called with
         | Some (cb, key, value) => log_event (Header cb key value) s
         | None => s
         end
  end.

Definition receive_data (p : CURL) (status : Z) (ptr : text) (s : Network) : option Network :=
  os ← easy s !! p; i ← write_data os; h ← handles_ s !! i;
  let '(r, stream, called) :=
    RxFunction (IsStarted s) status ptr h (x ← payload h; streams s !! x) in
  let s := update i (with_reception r) s in
  let s := match payload h, stream with
           | Some x, Some stream => with_streams (<[x := stream]> (streams s)) s
           | _, _ => s
           end in
  Some match called with
       | Some (cb, position, data) => log_event (Data cb position data) s
       | None => s
       end.

(** A message of libcurl: the transfer is done, or the message is of another kind. *)
Definition read_message (p : CURL) (done : option CURLcode) (completed : bool) (s : Network)
    : option Network :=
  if negb (IsStarted s) || bool_decide (p ∉ multi s) then None else
  match done with
  | Some result => Some (with_worker (Completing p result AfterReading) (curl_multi_remove_handle p s))
  | None =>
    match GetHandleIndex p s with
    | None => Some s
    | Some i =>
      h ← handles_ s !! i;
      match callback h with
      | None => Some s
      | Some cb => Some (with_worker (Unknown i cb completed) s)
      end
    end
  end.

(** The handles that were allocated long ago and for which libcurl tells the total time 0
    ([idle]). *)
Definition lost_handles (now : Z) (idle : CURL -> bool) (s : Network) : list CURL :=
  handle <$> filter (fun h => in_use h && (now - send_time h >? kHandleLostTimeout) && idle (handle h) = true)
    (handles_ s).

(** One lost handle; [ok]: libcurl could remove it. *)
Definition lose (p : CURL) (lost : list CURL) (ok : bool) (s : Network) : option Network :=
  if ok then
    Some (with_worker (Completing p CURLE_OPERATION_TIMEDOUT (AfterLost lost)) (curl_multi_remove_handle p s))
  else
    match GetHandleIndex p s with
    | None => Some (with_worker (Losing lost) s)
    | Some i =>
      h ← handles_ s !! i;
      Some (with_worker (Dropping i lost)
             (match callback h with
              | Some cb => log_event (Called cb (io_error_response h)) s
              | None => s
              end))
    end.

(** The handles that were not used for some time are closed, but for the static ones. *)
Definition unused (now : Z) (i : nat) (h : RequestHandle) : bool :=
  (kStaticHandleCount <=? i)%nat && negb (handle h =? 0)%nat && negb (in_use h)
  && (send_time h + kHandleReuseTimeout <? now).
Definition sweep (now : Z) (s : Network) : Network :=
  let closed := list_to_set (handle <$> (filter (fun ih => unused now ih.1 ih.2 = true)
                               (imap pair (handles_ s))).*2) : gset CURL in
  with_multi (multi s ∖ closed)
    (with_easy (filter (fun po => po.1 ∉ closed) (easy s))
       (with_handles (imap (fun i h => if unused now i h then with_handle 0 h else h) (handles_ s)) s)).

(** [Teardown] up to the end of its critical section. *)
Definition Teardown (s : Network) : Network :=
  let opened := filter (fun h => handle h <> 0%nat) (handles_ s) in
  let completed_messages :=
    (fun h => (handle_id h, callback h)) <$> filter (fun h => in_use h = true) opened in
  with_worker (Tearing completed_messages)
    (with_multi ∅
      (with_easy (filter (fun po => po.1 ∉ handle <$> opened) (easy s))
        (with_handles ((fun h => if (handle h =? 0)%nat then h else torn_down h) <$> handles_ s)
          (with_events [] s)))).

(** A step of the worker that decides nothing. *)
Definition worker_step (s : Network) : option Network :=
  match worker s with
  | Starting => Some (with_worker Top (with_state STARTED s))
  | Top => Some (with_worker (if IsStarted s then Events [] else Leaving) s)
  | Failing [] => Some (with_worker Performing s)
  | Failing (p :: msgs) => Some (with_worker (Completing p CURLE_COULDNT_CONNECT (AfterFailing msgs)) s)
  | Completing p result k => CompleteMessage p result k s
  | Requeueing i k => Some (resume k (with_events (events_ s ++ [MkEventInfo SEND_EVENT i]) s))
  | Answering i response cb k =>
    Some (with_worker (Calling (Some cb) response k) (ReleaseHandleUnlocked i s))
  | Calling cb response k => Some (resume k (call cb response s))
  | Performing => Some (with_worker (Reading false) s)
  | Reading completed =>
    Some (with_worker (if negb (IsStarted s) || completed then Top else Selecting) s)
  | Unknown i cb completed =>
    h ← handles_ s !! i;
    Some (with_worker (Reading completed)
           (curl_multi_remove_handle (handle h) (log_event (Called cb (io_error_response h)) s)))
  | Losing [] => Some (with_worker (if IsStarted s then Sweeping else Top) s)
  | Dropping i lost => Some (with_worker (Losing lost) (ReleaseHandleUnlocked i s))
  | Leaving => Some (Teardown s)
  | Tearing ((id, cb) :: messages) => Some (with_worker (Tearing messages) (call cb (offline_response id) s))
  | Tearing [] => Some (with_worker Stopping s)
  | Stopping => Some (with_worker NoWorker (with_state STOPPED s))
  | _ => None
  end.

(** ** The lifetime of the network *)

(** [Deinitialize], up to the join; the worker itself is detached. *)
Definition Deinitialize (on_worker : bool) (s : Network) : Network :=
  if negb (IsStarted s) then with_owner Destroyed s
  else if on_worker then with_owner Destroyed (with_thread false (with_state STOPPING s))
  else with_owner Joining (with_state STOPPING s).

(** [~NetworkCurl]; the members are destroyed after it, and a [std::thread] that is neither
    joined nor detached ends the process. *)
Definition destructor (on_worker : bool) (s : Network) : Network :=
  let s := Deinitialize on_worker s in
  if bool_decide (owner s = Destroyed) && thread_ s then with_aborted true s else s.

(** The clients drop their last pointer, which no thread in a call does; the worker holds
    another one until [Run] returns. *)
Definition drop_pointer (s : Network) : option Network :=
  if bool_decide (owner s = Alive) && bool_decide (callers s = ∅) then
    Some (match worker s with
          | NoWorker => destructor false s
          | _ => with_owner Dropped s
          end)
  else None.
Definition leave_run (s : Network) : Network :=
  match owner s with Dropped => destructor true s | _ => s end.

(** ** Steps *)

Inductive Label :=
(** a thread calls [Send] or [Cancel] *)
| Send (t : nat) (r : NetworkRequest) (a : SendArgs)
| Cancel (t : nat) (id : Z)
(** a thread goes on *)
| Caller_ (t : nat)
| Caller_setup (t : nat) (pipe_ok multi_ok : bool) (ptrs : list CURL)
| Caller_handle (t : nat) (now : Z) (ptr : CURL)
| Caller_options (t : nat) (ca_ok : bool)
(** the worker goes on *)
| Worker_
| Worker_pop (res : CURLMcode)
| Worker_decide (t : Transfer)
| Worker_header (p : CURL) (ptr : text)
| Worker_data (p : CURL) (status : Z) (ptr : text)
| Worker_message (p : CURL) (done : option CURLcode)
| Worker_select (fdset_ok timeout_ok waiting : bool) (now : Z) (idle : CURL -> bool)
| Worker_lose (ok : bool)
| Worker_sweep (now : Z)
(** the clients drop the network; the destructor joined the worker *)
| Drop_
| Join.

Definition enter (t : nat) (c : Caller) (s : Network) : option Network :=
  if bool_decide (owner s = Alive) && bool_decide (callers s !! t = None)
  then Some (with_caller t c s) else None.

Definition choose_step (l : Label) (s : Network) : option Network :=
  match l with
  | Send t r a => enter t (Sending r a) s
  | Cancel t id => if IsStarted s then enter t (Cancelling id) s else Some s
  | Caller_ t => caller_step t s
  | Caller_setup t pipe_ok multi_ok ptrs =>
    match callers s !! t with
    | Some (Locking r a) => Setup t r a pipe_ok multi_ok ptrs s
    | _ => None
    end
  | Caller_handle t now ptr =>
    match callers s !! t with
    | Some (Searching r a id) => if event_locked s then None else GetHandle t r a id now ptr s
    | _ => None
    end
  | Caller_options t ca_ok =>
    match callers s !! t with
    | Some (Configuring r id i) => Some (Configure t r id i ca_ok s)
    | _ => None
    end
  | Worker_ => s' ← worker_step s;
               Some (match worker s with Stopping => leave_run s' | _ => s' end)
  | Worker_pop res => match worker s with Events msgs => pop_event msgs res s | _ => None end
  | Worker_decide t =>
    match worker s with Deciding i result cb k => decide_completion i result cb k t s | _ => None end
  | Worker_header p ptr => match worker s with Performing => receive_header p ptr s | _ => None end
  | Worker_data p status ptr =>
    match worker s with Performing => receive_data p status ptr s | _ => None end
  | Worker_message p done =>
    match worker s with Reading completed => read_message p done completed s | _ => None end
  | Worker_select fdset_ok timeout_ok waiting now idle =>
    match worker s with
    | Selecting =>
      Some (with_worker
             (if negb fdset_ok || negb timeout_ok then Top
              else if IsStarted s && waiting then Losing (lost_handles now idle s)
              else Sweeping) s)
    | _ => None
    end
  | Worker_lose ok => match worker s with Losing (p :: lost) => lose p lost ok s | _ => None end
  | Worker_sweep now =>
    match worker s with Sweeping => Some (with_worker Top (sweep now s)) | _ => None end
  | Drop_ => drop_pointer s
  | Join =>
    match owner s, worker s with
    | Joining, NoWorker => Some (with_owner Destroyed (with_thread false s))
    | _, _ => None
    end
  end.

(** Nothing happens after [std::terminate]. *)
Definition step (l : Label) (s : Network) : option Network :=
  if aborted s then None else choose_step l s.

Fixpoint run (ls : list Label) (s : Network) : option Network :=
  match ls with
  | [] => Some s
  | l :: ls => s ← step l s; run ls s
  end.
End network.
