(* ===== verification/CurlReceptionFacts.v ===== *)
(** * Headers, bodies and statuses

    A line of the header has the meaning of its name and value, a body reaches the payload
    and the data callback as it is sent, and a completed transfer gets its status, or another
    attempt. *)

From Stdlib Require Import ZArith Lia Bool Ascii QArith.
From stdpp Require Import base numbers strings list option.
From S2P Require Import Prelude Decimal Http HttpTypes CurlHandle.
Import HttpTypes.
Local Open Scope Z_scope.
Local Open Scope olp_scope.

(** ** Lines of the header *)

(** What follows the first [max-age=] that is not at the end. *)
Fixpoint after_max_age (s : text) : option text :=
  if bool_decide (upper (take 8 s) = upper (str "max-age=")) && (8 <? length s)%nat
  then Some (drop 8 s)
  else match s with [] => None | _ :: t => after_max_age t end.

(** The names of the headers have any case. *)
Definition is_name (name : text) (known : String.string) : bool :=
  bool_decide (upper name = upper (str known)).

(** The meaning of a header by its name and what follows the colon: a character that is
    skipped, meant for the space, and the value. *)
Definition header_meaning (curl_getdate : text -> Z) (name : text) (skipped : ascii) (value : text)
    (r : Reception) : option Reception :=
  if is_name name "Date" then Some (with_date value r)
  else if is_name name "Cache-Control" then
    match after_max_age (skipped :: value) with
    | None => Some r
    | Some t => age ← stoi t; Some (with_max_age age r)
    end
  else if is_name name "Expires" then
    Some (with_expires
      (if bool_decide (value = str "0") then 0
       else if bool_decide (value = str "-1") then -1 else curl_getdate value) r)
  else if is_name name "ETag" then Some (with_etag value r)
  else if is_name name "Content-Type" then Some (with_content_type value r)
  else if is_name name "Content-Range" then
    if bool_decide (upper (take 6 value) = upper (str "bytes ")) then
      match drop 6 value with
      | c :: t =>
        if is_char 42 c then
          Some match t with c' :: _ => if is_char 47 c' then with_range_out true r else r | [] => r end
        else if is_digit c then n ← stol (c :: t); Some (with_offset (u64 n) r)
        else Some r
      | [] => Some r
      end
    else Some r
  else Some r.

Definition colon_free (s : text) : Prop := Forall (fun c => is_char 58 c = false) s.
Definition line_end (c : ascii) : bool := is_char 10 c || is_char 13 c.

Lemma upper_app s t : upper (s ++ t) = upper s ++ upper t.
Proof. apply fmap_app. Qed.

Lemma upper_length s : length (upper s) = length s.
Proof. apply length_fmap. Qed.

Lemma upper_lookup s i : upper s !! i = SimpleToUpper <$> s !! i.
Proof. apply list_lookup_fmap. Qed.

(** Only the colon becomes a colon. *)
Lemma upper_colon c : is_char 58 (SimpleToUpper c) = is_char 58 c.
Proof. destruct c as [[] [] [] [] [] [] [] []]; reflexivity. Qed.

Lemma colon_free_lookup s i c : colon_free s -> s !! i = Some c -> is_char 58 c = false.
Proof. intros Hs Hi. by apply (Forall_lookup_1 _ _ _ _ Hs Hi). Qed.

Abbreviation colon := (char_of 58).

(** The line starts with a known name and a colon exactly if this is its name. *)
Lemma starts_with_name name rest known :
  colon_free name -> colon_free known ->
  Z.of_nat (length (name ++ colon :: rest)) < 2 ^ 64 ->
  CaseInsensitiveStartsWith (name ++ colon :: rest) (known ++ [colon]) 0 =
  Some (bool_decide (upper name = upper known)).
Proof.
  intros Hname Hknown H64. change 0 with (Z.of_nat 0).
  assert (upper name = upper known -> length name = length known) as Hlen.
  { intros E%(f_equal length). by rewrite !upper_length in E. }
  destruct (decide (length (name ++ colon :: rest) < length (known ++ [colon]))%nat) as [Hs|Hs].
  { rewrite starts_with_short by (lia || done). f_equal. symmetry. apply bool_decide_eq_false.
    intros E%Hlen. rewrite !length_app in Hs. simpl in Hs. lia. }
  rewrite starts_with_eq by (lia || done). f_equal. apply bool_decide_ext. rewrite drop_0, length_app.
  rewrite upper_app. cbn [length]. split; intros E.
  - destruct (Nat.lt_trichotomy (length name) (length known)) as [Hl|[Hl|Hl]].
    + apply (f_equal (.!! length name)) in E. exfalso.
      rewrite upper_lookup, lookup_take_lt, lookup_app_r, Nat.sub_diag, lookup_app_l, upper_lookup in E
        by (rewrite ?upper_length; lia).
      destruct (known !! length name) as [c|] eqn:Ec; [|done]. injection E as E.
      apply (f_equal (is_char 58)) in E. rewrite !upper_colon, (colon_free_lookup _ _ _ Hknown Ec) in E. done.
    + rewrite <- Hl, take_app_add, upper_app in E. by apply app_inj_2 in E as [E _].
    + apply (f_equal (.!! length known)) in E. exfalso.
      rewrite upper_lookup, lookup_take_lt, lookup_app_l, lookup_app_r, upper_length, Nat.sub_diag in E
        by (rewrite ?upper_length; lia).
      destruct (name !! length known) as [c|] eqn:Ec; [|by apply lookup_ge_None in Ec; lia].
      injection E as E. apply (f_equal (is_char 58)) in E.
      rewrite !upper_colon, (colon_free_lookup _ _ _ Hname Ec) in E. done.
  - pose proof (Hlen E) as Hl. replace (length known + 1)%nat with (length name + 1)%nat by lia.
    rewrite take_app_add. rewrite upper_app, E. done.
Qed.

(** [line_length] drops exactly the end of the line. *)
Lemma line_length_end s eol c :
  Forall (fun c => line_end c = true) eol -> line_end c = false ->
  line_length ((s ++ [c]) ++ eol) (length ((s ++ [c]) ++ eol)) = length (s ++ [c]).
Proof.
  intros Heol Hc. enough (forall n, (n <= length eol)%nat ->
    line_length ((s ++ [c]) ++ eol) (length (s ++ [c]) + n) = length (s ++ [c])) as H.
  { rewrite length_app. apply H. lia. }
  induction n as [|n IH]; intros Hn.
  - rewrite length_app, Nat.add_0_r, Nat.add_1_r. destruct s as [|c0 s]; [done|].
    cbn [length line_length]. rewrite lookup_app_l by (rewrite length_app; simpl; lia).
    change (S (length s)) with (length (c0 :: s)). rewrite lookup_app_r, Nat.sub_diag by lia.
    cbn [lookup list_lookup]. unfold line_end in Hc. by rewrite Hc.
  - rewrite Nat.add_succ_r. rewrite <- (IH ltac:(lia)) at 2.
    assert (exists m, (length (s ++ [c]) + n = S m)%nat) as [m Em]
      by (rewrite length_app; simpl; exists (length s + n)%nat; lia).
    rewrite Em. cbn [line_length]. rewrite <- Em.
    rewrite lookup_app_r, Nat.add_comm, Nat.add_sub by lia.
    destruct (lookup_lt_is_Some_2 eol n) as [d Ed]; [lia|]. rewrite Ed.
    pose proof (Forall_lookup_1 _ _ _ _ Heol Ed) as Hd. unfold line_end in Hd. by rewrite Hd.
Qed.

Lemma find_char_name name rest : colon_free name -> find_char 58 (name ++ colon :: rest) = Some (length name).
Proof.
  induction 1 as [|c name Hc _ IH]; [done|]. cbn [app find_char length]. by rewrite Hc, IH.
Qed.

Lemma substr_app s t : substr (length s) (s ++ t) = Some t.
Proof.
  unfold substr. destruct (Nat.ltb_spec (length (s ++ t)) (length s)) as [H|_].
  - rewrite length_app in H. lia.
  - by rewrite drop_app_length.
Qed.

(** ** [max-age] *)

Lemma occurs_drop s t o i : occurs_at (drop o s) t i = occurs_at s t (o + i).
Proof. unfold occurs_at. by rewrite drop_drop. Qed.

Lemma occurs_cons c s t i : occurs_at (c :: s) t (S i) = occurs_at s t i.
Proof. done. Qed.

Lemma after_max_age_none s :
  (forall i, (i < length s - 8)%nat -> occurs_at s (str "max-age=") i = false) -> after_max_age s = None.
Proof.
  induction s as [|c s IH]; intros Hs; [done|]. cbn [after_max_age].
  assert (bool_decide (upper (take 8 (c :: s)) = upper (str "max-age=")) && (8 <? length (c :: s))%nat = false) as ->.
  { destruct (Nat.ltb_spec 8 (length (c :: s))); [|by rewrite andb_false_r].
    pose proof (Hs 0%nat ltac:(lia)) as H0. unfold occurs_at in H0. rewrite drop_0 in H0.
    change (length (str "max-age=")) with 8%nat in H0. by rewrite H0. }
  apply IH. intros i Hi. rewrite <- (occurs_cons c). apply Hs. simpl. lia.
Qed.

Lemma after_max_age_some s j :
  (j < length s - 8)%nat -> occurs_at s (str "max-age=") j = true ->
  (forall i, (i < j)%nat -> occurs_at s (str "max-age=") i = false) ->
  after_max_age s = Some (drop (j + 8) s).
Proof.
  revert j. induction s as [|c s IH]; intros j Hj Ho Hb; [simpl in Hj; lia|]. cbn [after_max_age].
  destruct j as [|j].
  - unfold occurs_at in Ho. rewrite drop_0 in Ho. change (length (str "max-age=")) with 8%nat in Ho.
    rewrite Ho. by replace (8 <? length (c :: s))%nat with true by (symmetry; apply Nat.ltb_lt; lia).
  - pose proof (Hb 0%nat ltac:(lia)) as H0. unfold occurs_at in H0. rewrite drop_0 in H0.
    change (length (str "max-age=")) with 8%nat in H0. rewrite H0. cbn [andb].
    rewrite (IH j).
    + done.
    + simpl in Hj. lia.
    + by rewrite <- (occurs_cons c).
    + intros i Hi. rewrite <- (occurs_cons c). apply Hb. lia.
Qed.

Lemma find_max_age s (o : nat) :
  (8 <= length s)%nat -> (o <= length s)%nat -> Z.of_nat (length s) < 2 ^ 63 ->
  exists r, CaseInsensitiveFind s (str "max-age=") (Z.of_nat o) = Some r /\
    match after_max_age (drop o s) with
    | None => r = npos
    | Some t => r <> npos /\ substr (Z.to_nat (r + 8)) s = Some t
    end.
Proof.
  intros H8 Ho H63. unfold CaseInsensitiveFind.
  destruct (find_loop_eq s (str "max-age=") (length s + 2) o) as (r & E & Hr); [done|done|lia|lia|].
  change (length (str "max-age=")) with 8%nat in Hr.
  exists r. split; [done|]. destruct Hr as [[-> Hr] | (j & -> & Hj & Hoc & Hr)].
  - rewrite after_max_age_none; [done|]. intros i Hi. rewrite length_drop in Hi. rewrite occurs_drop.
    apply Hr. lia.
  - rewrite (after_max_age_some _ (j - o)).
    + split; [unfold npos, size_max; lia|]. replace (Z.to_nat (Z.of_nat j + 8)) with (j + 8)%nat by lia.
      unfold substr. destruct (Nat.ltb_spec (length s) (j + 8)); [lia|].
      rewrite drop_drop. do 2 f_equal. lia.
    + rewrite length_drop. lia.
    + rewrite occurs_drop. replace (o + (j - o))%nat with j by lia. done.
    + intros i Hi. rewrite occurs_drop. apply Hr. lia.
Qed.

Lemma after_max_age_skip c s : SimpleToUpper c <> "M"%char -> after_max_age (c :: s) = after_max_age s.
Proof.
  intros Hc. cbn [after_max_age].
  assert (bool_decide (upper (take 8 (c :: s)) = upper (str "max-age=")) = false) as ->; [|done].
  apply bool_decide_eq_false. intros E. by injection E.
Qed.

(** There is no [max-age=] in the name. *)
Lemma after_cache_control name x value :
  upper name = upper (str "Cache-Control") ->
  after_max_age (drop 8 (name ++ colon :: x :: value)) = after_max_age (x :: value).
Proof.
  intros E. pose proof (f_equal length E) as Hl. rewrite upper_length in Hl.
  do 13 (destruct name as [|? name]; [discriminate Hl|]). destruct name; [|discriminate Hl].
  unfold upper in E. cbn in E. injection E as ?????????????.
  cbn [app drop].
  repeat (rewrite after_max_age_skip; [|match goal with
    | H : SimpleToUpper ?c = _ |- SimpleToUpper ?c <> _ => rewrite H
    | _ => idtac end; vm_compute; discriminate]).
  done.
Qed.

(** ** The meaning of a line *)

(** The character of a line at a place of its value, or the terminating NUL. *)
Lemma char_at_value name x value k :
  length name = 13%nat -> (k <= length value)%nat ->
  char_at (name ++ colon :: x :: value) (15 + Z.of_nat k) =
  Some match drop k value with c :: _ => c | [] => char_of 0 end.
Proof.
  intros Hn Hk. unfold char_at. rewrite length_app, Hn. cbn [length].
  destruct (Z.eqb_spec (15 + Z.of_nat k) (Z.of_nat (13 + S (S (length value))))) as [E|E].
  - by rewrite drop_ge by lia.
  - replace (Z.to_nat (15 + Z.of_nat k)) with (length name + (2 + k))%nat by lia.
    rewrite lookup_app_r, Nat.add_comm, Nat.add_sub by lia.
    destruct (lookup_lt_is_Some_2 value k) as [c Ec]; [lia|]. rewrite (drop_S _ _ _ Ec).
    change ((colon :: x :: value) !! (2 + k)%nat) with (value !! k). done.
Qed.

Lemma content_range name x value r :
  length name = 13%nat -> value <> [] ->
  Z.of_nat (length (name ++ colon :: x :: value)) < 2 ^ 63 ->
  (is_bytes ← CaseInsensitiveStartsWith (name ++ colon :: x :: value) (str "bytes ") 15;
   if (is_bytes : bool) then
     c ← char_at (name ++ colon :: x :: value) 21;
     if is_char 42 c then
       c' ← char_at (name ++ colon :: x :: value) 22;
       if is_char 47 c' then Some (with_range_out true r) else Some r
     else if is_digit c then
       v ← substr 21 (name ++ colon :: x :: value); n ← stol v; Some (with_offset (u64 n) r)
     else Some r
   else Some r) =
  (if bool_decide (upper (take 6 value) = upper (str "bytes ")) then
     match drop 6 value with
     | c :: t =>
       if is_char 42 c then
         Some match t with c' :: _ => if is_char 47 c' then with_range_out true r else r | [] => r end
       else if is_digit c then n ← stol (c :: t); Some (with_offset (u64 n) r)
       else Some r
     | [] => Some r
     end
   else Some r).
Proof.
  intros Hn Hv H63. set (s := name ++ colon :: x :: value) in *.
  assert (length s = 15 + length value)%nat as Hs by (unfold s; rewrite length_app, Hn; done).
  assert (forall k, drop (15 + k) s = drop k value) as Hdrop.
  { intros k. unfold s. replace (15 + k)%nat with (length name + (2 + k))%nat by lia. by rewrite drop_app_add. }
  change 15 with (Z.of_nat 15).
  destruct (decide (length value < 6)%nat) as [Hl|Hl].
  { rewrite starts_with_short by (simpl; lia). cbn [mbind option_bind].
    rewrite bool_decide_false; [done|]. intros E%(f_equal length).
    rewrite !upper_length, length_take in E. change (length (str "bytes ")) with 6%nat in E. lia. }
  rewrite starts_with_eq by (simpl; lia). cbn [mbind option_bind]. unfold occurs_at.
  change (length (str "bytes ")) with 6%nat. change (drop 15 s) with (drop (15 + 0) s).
  rewrite Hdrop, drop_0.
  case_bool_decide; [|done].
  pose proof (char_at_value name x value 6 Hn ltac:(lia)) as E21. fold s in E21.
  change (15 + Z.of_nat 6) with 21 in E21. rewrite E21.
  cbn [mbind option_bind]. destruct (drop 6 value) as [|c t] eqn:Ed; [done|].
  assert (length value = 7 + length t)%nat as Hvt.
  { apply (f_equal length) in Ed. rewrite length_drop in Ed. simpl in Ed. lia. }
  destruct (is_char 42 c).
  - pose proof (char_at_value name x value (6 + 1) Hn ltac:(lia)) as E22. fold s in E22.
    change (15 + Z.of_nat (6 + 1)) with 22 in E22. rewrite E22, <- drop_drop, Ed, skipn_cons, drop_0.
    cbn [mbind option_bind].
    destruct t as [|c' t]; [done|]. by destruct (is_char 47 c').
  - destruct (is_digit c); [|done]. unfold substr.
    destruct (Nat.ltb_spec (length s) 21); [lia|]. cbn [mbind option_bind].
    by rewrite <- Ed, <- (Hdrop 6%nat).
Qed.

Lemma remember_line curl_getdate name x value r :
  colon_free name -> value <> [] -> Z.of_nat (length (name ++ colon :: x :: value)) < 2 ^ 63 ->
  remember curl_getdate (name ++ colon :: x :: value) r = header_meaning curl_getdate name x value r.
Proof.
  intros Hname Hv H63. set (s := name ++ colon :: x :: value) in *.
  assert (forall known, colon_free known ->
    CaseInsensitiveStartsWith s (known ++ [colon]) 0 = Some (bool_decide (upper name = upper known)))
    as Hstart by (intros; apply starts_with_name; (done || fold s; lia)).
  assert (forall known n, upper name = upper known -> n = (length known + 2)%nat -> substr n s = Some value) as Hsub.
  { intros known n E Hn. apply (f_equal length) in E. rewrite !upper_length in E.
    replace s with (((name ++ [colon]) ++ [x]) ++ value) by (unfold s; by rewrite <- !app_assoc).
    rewrite Hn. replace (length known + 2)%nat with (length ((name ++ [colon]) ++ [x])) by (rewrite !length_app; simpl; lia).
    apply substr_app. }
  unfold remember, header_meaning, is_name.
  change (str "Date:") with (str "Date" ++ [colon]). rewrite Hstart by (repeat constructor). cbn [mbind option_bind].
  case_bool_decide as E1; [by rewrite (Hsub _ 6%nat E1 eq_refl)|].
  change (str "Cache-Control:") with (str "Cache-Control" ++ [colon]). rewrite Hstart by (repeat constructor).
  cbn [mbind option_bind].
  case_bool_decide as E2.
  { assert (15 <= length s)%nat.
    { pose proof (f_equal length E2) as El. rewrite !upper_length in El. unfold s. rewrite length_app, El. simpl. lia. }
    destruct (find_max_age s 8) as (i & Ei & Hi); [lia..|]. change (Z.of_nat 8) with 8 in Ei. rewrite Ei.
    cbn [mbind option_bind]. unfold s in Hi at 1. rewrite after_cache_control in Hi by done.
    destruct (after_max_age (x :: value)) as [t|].
    - destruct Hi as [Hi ->]. replace (i =? npos) with false by lia. done.
    - subst i. by rewrite Z.eqb_refl. }
  change (str "Expires:") with (str "Expires" ++ [colon]). rewrite Hstart by (repeat constructor).
  cbn [mbind option_bind].
  case_bool_decide as E3; [rewrite (Hsub _ 9%nat E3 eq_refl); cbn [mbind option_bind]; by repeat case_bool_decide|].
  change (str "ETag:") with (str "ETag" ++ [colon]). rewrite Hstart by (repeat constructor). cbn [mbind option_bind].
  case_bool_decide as E4; [by rewrite (Hsub _ 6%nat E4 eq_refl)|].
  change (str "Content-Type:") with (str "Content-Type" ++ [colon]). rewrite Hstart by (repeat constructor).
  cbn [mbind option_bind].
  case_bool_decide as E5; [by rewrite (Hsub _ 14%nat E5 eq_refl)|].
  change (str "Content-Range:") with (str "Content-Range" ++ [colon]). rewrite Hstart by (repeat constructor).
  cbn [mbind option_bind].
  case_bool_decide as E6; [|done].
  apply content_range; [|done..]. apply (f_equal length) in E6. by rewrite !upper_length in E6.
Qed.

(** ** Lines *)

(** The text consists of a line and its end.  The first character of a text always belongs
    to the line. *)
Definition line_and_end (ptr line eol : text) : Prop :=
  ptr = line ++ eol /\ Forall (fun c => line_end c = true) eol /\ (line = [] -> eol = []) /\
  (forall s c, line = s ++ [c] -> s <> [] -> line_end c = false).

(** Every text does. *)
Lemma line_and_end_exists ptr : exists line eol, line_and_end ptr line eol.
Proof.
  induction ptr as [|c ptr IH] using rev_ind; [exists [], []; split_and!; [done..|]; by intros [] ?|].
  destruct (line_end c) eqn:Ec.
  - destruct IH as (line & eol & -> & Heol & Hne & Hlast). destruct line as [|d line].
    + rewrite (Hne eq_refl). exists [c], []. split_and!; [done..|]. intros [|e s] c' E Hs; [done|]. by destruct s.
    + exists (d :: line), (eol ++ [c]). split_and!; [by rewrite app_assoc| |done|done].
      apply Forall_app. split; [done|]. by constructor.
  - exists (ptr ++ [c]), []. split_and!; [by rewrite app_nil_r|done|by destruct ptr|].
    by intros s c' [_ [= <-]]%app_inj_2 _.
Qed.

(** [line_length] finds the line. *)
Lemma line_length_line ptr line eol :
  line_and_end ptr line eol -> line_length ptr (length ptr) = length line.
Proof.
  intros (-> & Heol & Hne & Hlast). destruct line as [|c line _] using rev_ind; [by rewrite (Hne eq_refl)|].
  destruct (line_end c) eqn:Ec; [|by apply line_length_end].
  destruct line as [|d line]; [|rewrite (Hlast (d :: line) c) in Ec by done; done].
  cbn [app]. clear Hne Hlast. assert (forall n, (n <= length eol)%nat -> line_length (c :: eol) (S n) = 1%nat) as Hn.
  { induction n as [|n IH]; intros Hn; [done|]. cbn [line_length].
    change ((c :: eol) !! S n) with (eol !! n). destruct (lookup_lt_is_Some_2 eol n) as [d Ed]; [lia|]. rewrite Ed.
    pose proof (Forall_lookup_1 _ _ _ _ Heol Ed) as Hd. unfold line_end in Hd. rewrite Hd. apply IH. lia. }
  by apply Hn.
Qed.

(** The name before the first colon, and what follows it. *)
Fixpoint split_colon (s : text) : option (text * text) :=
  match s with
  | [] => None
  | c :: t => if is_char 58 c then Some ([], t) else '(name, rest) ← split_colon t; Some (c :: name, rest)
  end.

Lemma split_colon_some s name rest :
  split_colon s = Some (name, rest) -> s = name ++ colon :: rest /\ colon_free name.
Proof.
  revert name. induction s as [|c s IH]; intros name; [done|]. cbn [split_colon]. destruct (is_char 58 c) eqn:Ec.
  - intros [= <- ->]. split; [|constructor]. cbn. f_equal. apply Z.eqb_eq in Ec.
    rewrite <- (char_of_code c). by rewrite Ec.
  - destruct (split_colon s) as [[name' rest']|]; [|done]. cbn [mbind option_bind]. intros [= <- <-].
    destruct (IH _ eq_refl) as [-> Hf]. split; [done|by constructor].
Qed.

Lemma split_colon_none s : split_colon s = None -> find_char 58 s = None.
Proof.
  induction s as [|c s IH]; [done|]. cbn [split_colon find_char]. destruct (is_char 58 c); [done|].
  destruct (split_colon s) as [[]|]; [done|]. intros _. by rewrite IH.
Qed.

(** What is done with a line: nothing without a colon or without at least two characters
    after it; the first of these is skipped, and the others are the value. *)
Definition line_meaning (curl_getdate : text -> Z) (line : text) (h : RequestHandle)
    : option (Reception * option (nat * text * text)) :=
  match split_colon line with
  | Some (name, skipped :: (_ :: _) as value) =>
    (fun r => (r, (fun cb => (cb, name, value)) <$> header_callback h)) <$>
      header_meaning curl_getdate name skipped value (reception h)
  | _ => Some (reception h, None)
  end.

(** C20. Whatever libcurl passes as a line of the header, the end of the line is dropped, and
    the line is ignored if the network is gone or stopped or the request is cancelled, and
    if it has no colon or less than two characters behind its first colon.  Otherwise the
    name is what precedes the first colon, and the value what follows the character behind
    the colon: this character is dropped whether it is the optional space or not.  The
    header callback gets this name and value, and what the request remembers is decided by
    the name in any case: the values of [Date], [ETag] and [Content-Type] as they are, the
    number after [max-age=], the expiry, and the start of a range.  Nothing is read outside
    the line; only a number that [stoi] or [stoll] rejects makes the function throw. *)
Theorem header_lines_understood curl_getdate started ptr h :
  Z.of_nat (length ptr) < 2 ^ 63 ->
  exists line eol, line_and_end ptr line eol /\
    HeaderFunction curl_getdate started ptr h =
    if negb (self h) || negb started || cancelled h then Some (reception h, None)
    else line_meaning curl_getdate line h.
Proof.
  intros H63. destruct (line_and_end_exists ptr) as (line & eol & Hl). exists line, eol. split; [done|].
  unfold HeaderFunction. destruct (_ || _); [done|]. rewrite (line_length_line _ _ _ Hl). cbv zeta.
  destruct Hl as (-> & _). unfold line_meaning.
  destruct (Nat.eqb_spec (length line) 0) as [E|_]; [by apply nil_length_inv in E as ->|].
  rewrite take_app_length. destruct (split_colon line) as [[name rest]|] eqn:Es; [|by rewrite split_colon_none].
  apply split_colon_some in Es as [-> Hname]. rewrite find_char_name by done.
  rewrite !length_app in *. cbn [length] in *.
  destruct rest as [|x [|v value]]; cbn [length] in *.
  { destruct (Nat.leb_spec (length name + 1) (length name + 2)); [done|lia]. }
  { destruct (Nat.leb_spec (length name + 2) (length name + 2)); [done|lia]. }
  destruct (Nat.leb_spec (length name + S (S (S (length value)))) (length name + 2)); [lia|].
  rewrite remember_line; [|done|done|rewrite length_app; cbn [length]; lia].
  assert (substr (length name + 2) (name ++ colon :: x :: v :: value) = Some (v :: value)) as ->.
  { unfold substr. destruct (Nat.ltb_spec (length (name ++ colon :: x :: v :: value)) (length name + 2)) as [Hlt|_].
    - rewrite length_app in Hlt. cbn [length] in Hlt. lia.
    - by rewrite drop_app_add. }
  cbn [mbind option_bind]. rewrite take_app_length.
  by destruct (header_meaning curl_getdate name x (v :: value) (reception h)).
Qed.

(** ** Bodies *)

(** The parts of a body, one call of [RxFunction] after the other. *)
Fixpoint receive_body (status : Z) (chunks : list text) (h : RequestHandle) (s : option OStream)
    : RequestHandle * option OStream * list (nat * Z * text) :=
  match chunks with
  | [] => (h, s, [])
  | chunk :: chunks =>
    let '(r, s, called) := RxFunction true status chunk h s in
    let '(h, s, calls) := receive_body status chunks (with_reception r h) s in
    (h, s, option_list called ++ calls)
  end.

(** The calls of the data callback for parts from a position on. *)
Fixpoint data_calls (cb : nat) (position : Z) (chunks : list text) : list (nat * Z * text) :=
  match chunks with
  | [] => []
  | chunk :: chunks => (cb, position, chunk) :: data_calls cb (position + Z.of_nat (length chunk)) chunks
  end.

Lemma write_payload_at (n : nat) chunk b p :
  (n <= length b)%nat ->
  write_payload false (Z.of_nat n) chunk (MkOStream b p true false) =
  MkOStream (take n b ++ chunk ++ drop (n + length chunk) b) (n + length chunk) true false.
Proof.
  intros Hn. unfold write_payload, tellp. cbn [failed seekable negb orb andb put bytes].
  destruct (Z.eqb_spec (Z.of_nat p) (Z.of_nat n)) as [E|E]; cbn [negb].
  - apply Nat2Z.inj in E as ->. done.
  - unfold seekp. cbn [failed seekable bytes put].
    replace (true && (0 <=? Z.of_nat n) && (Z.of_nat n <=? Z.of_nat (length b))) with true by lia.
    cbn [failed]. unfold write. cbn [failed put bytes seekable]. by rewrite Nat2Z.id.
Qed.

(** A request that receives its body, the first [n] bytes of which it has. *)
Record receiving (h : RequestHandle) (n : nat) : Prop := {
  rc_self : self h = true; rc_cancelled : cancelled h = false;
  rc_skip : skip_content h = false; rc_ignore : ignore_offset h = false;
  rc_range : range_out (reception h) = false; rc_count : count (reception h) = Z.of_nat n }.

Lemma receive_chunk status chunk h n b p :
  receiving h n -> (n <= length b)%nat ->
  0 <= offset (reception h) -> offset (reception h) + Z.of_nat (n + length chunk) < 2 ^ 64 ->
  RxFunction true status chunk h (Some (MkOStream b p true false)) =
  (with_count (Z.of_nat (n + length chunk)) (reception h),
   Some (MkOStream (take n b ++ chunk ++ drop (n + length chunk) b) (n + length chunk) true false),
   (fun cb => (cb, offset (reception h) + Z.of_nat n, chunk)) <$> data_callback h).
Proof.
  intros [] Hn Ho H64. unfold RxFunction. rewrite rc_self0, rc_cancelled0, rc_skip0, rc_ignore0, rc_range0, rc_count0.
  cbn [negb andb fmap option_fmap option_map]. rewrite write_payload_at by done.
  rewrite !wrap_small by (unfold in_range; lia). by rewrite Nat2Z.inj_add.
Qed.

Lemma receive_body_at status chunks h n b p :
  receiving h n -> (n <= length b)%nat -> chunks <> [] ->
  0 <= offset (reception h) -> offset (reception h) + Z.of_nat (n + length (concat chunks)) < 2 ^ 64 ->
  receive_body status chunks h (Some (MkOStream b p true false)) =
  (with_reception (with_count (Z.of_nat (n + length (concat chunks))) (reception h)) h,
   Some (MkOStream (take n b ++ concat chunks ++ drop (n + length (concat chunks)) b)
           (n + length (concat chunks)) true false),
   match data_callback h with
   | Some cb => data_calls cb (offset (reception h) + Z.of_nat n) chunks
   | None => []
   end).
Proof.
  revert h n b p. induction chunks as [|chunk chunks IH]; intros h n b p Hr Hn Hne Ho H64; [done|].
  cbn [receive_body concat] in *. rewrite length_app in *.
  rewrite (receive_chunk _ _ _ n) by (done || lia).
  destruct (decide (chunks = [])) as [->|Hne'].
  - cbn [receive_body concat length data_calls]. rewrite !Nat.add_0_r, !app_nil_r.
    by destruct (data_callback h).
  - rewrite (IH _ (n + length chunk)%nat).
    + cbn [reception with_reception with_count offset data_callback]. rewrite Nat.add_assoc.
      f_equal; [f_equal|].
      * f_equal. f_equal.
        rewrite (app_assoc (take n b)), take_app_length', drop_app_add', drop_drop
          by (rewrite length_app, length_take; lia).
        by rewrite <- !app_assoc.
      * destruct (data_callback h); [|done]. cbn [fmap option_fmap option_map option_list app data_calls].
        f_equal. f_equal. lia.
    + destruct Hr. constructor; done.
    + rewrite !length_app, length_take, length_drop. lia.
    + done.
    + done.
    + cbn [reception with_reception with_count offset]. lia.
Qed.

(** C19. The body of a response, in parts of any size, for a request that has received nothing
    of it yet: the data callback is called for every part at its position behind the offset of
    the range, and the payload holds the body from its start, followed by what it held beyond
    that before; so a payload that was not longer than the body holds the body and nothing
    else. *)
Theorem body_is_delivered status chunks h b p :
  receiving h 0 -> chunks <> [] -> 0 <= offset (reception h) ->
  offset (reception h) + Z.of_nat (length (concat chunks)) < 2 ^ 64 ->
  let body := concat chunks in
  exists h' s',
    receive_body status chunks h (Some (MkOStream b p true false)) =
      (h', Some s', match data_callback h with
                    | Some cb => data_calls cb (offset (reception h)) chunks
                    | None => []
                    end) /\
    bytes s' = body ++ drop (length body) b /\
    ((length b <= length body)%nat -> bytes s' = body) /\
    receiving h' (length body).
Proof.
  intros Hr Hne Ho H64. cbv zeta. rewrite (receive_body_at _ _ _ 0) by (done || lia).
  do 2 eexists. split_and!.
  - by rewrite Z.add_0_r.
  - cbn [bytes]. by rewrite take_0.
  - intros Hb. cbn [bytes]. rewrite take_0, drop_ge by (simpl; lia). by rewrite app_nil_r.
  - destruct Hr. by constructor.
Qed.

(** ** Attempts *)

Section attempts.
Context (platform : Platform) (curl_easy_strerror : CURLcode -> text).

(** An attempt: what the request received, and how libcurl completed the transfer. *)
Definition Attempt : Type := Reception * CURLcode * Transfer.

(** The status of an attempt. *)
Definition attempt_status (h : RequestHandle) (a : Attempt) : Z :=
  let '(r, result, t) := a in
  (completion platform curl_easy_strerror result t (with_reception r h)).1.

(** The attempts that [CompleteMessage] makes: their number, and the response. *)
Fixpoint attempts (l : list Attempt) (h : RequestHandle) : option (nat * NetworkResponse) :=
  match l with
  | [] => None
  | (r, result, t) :: l =>
    let h := with_reception r h in
    if failed_by_server (completion platform curl_easy_strerror result t h).1 && retries_left h
    then (fun '(n, response) => (S n, response)) <$> attempts l (retried h)
    else Some (1%nat, completed platform curl_easy_strerror result t h)
  end.

Lemma completed_status result t h :
  status_ (completed platform curl_easy_strerror result t h) =
  (completion platform curl_easy_strerror result t h).1.
Proof. unfold completed. by destruct (completion _ _ _ _ _). Qed.

(** C21. A request that is not cancelled is sent at most once more than its retries, whatever
    the transfers bring, and it is answered with the status of its last attempt: the first
    that is not a failure of the server, or the one after which no retry is left. *)
Theorem retries_bounded l h :
  cancelled h = false -> 0 <= retry_count h <= max_retries h -> max_retries h < 2 ^ 64 ->
  max_retries h - retry_count h < Z.of_nat (length l) ->
  exists n response a,
    attempts l h = Some (S n, response) /\ Z.of_nat n <= max_retries h - retry_count h /\
    l !! n = Some a /\ status_ response = attempt_status h a /\
    request_id_ response = u64 (handle_id h) /\
    (forall m a, (m < n)%nat -> l !! m = Some a -> failed_by_server (attempt_status h a) = true) /\
    (failed_by_server (attempt_status h a) = true -> Z.of_nat n = max_retries h - retry_count h).
Proof.
  revert h. induction l as [|[[r result] t] l IH]; intros h Hc Hr Hm Hl; [simpl in Hl; lia|].
  cbn [attempts]. set (st := (completion platform curl_easy_strerror result t (with_reception r h)).1).
  assert (retries_left (with_reception r h) = (retry_count h <? max_retries h)) as ->
    by (unfold retries_left; cbn [cancelled with_reception retry_count max_retries]; by rewrite Hc).
  destruct (failed_by_server st) eqn:Ef; cbn [andb]; [destruct (Z.ltb_spec (retry_count h) (max_retries h)) as [Hlt|]|].
  - assert (u64 (retry_count h + 1) = retry_count h + 1) as E64
      by (apply wrap_small; unfold in_range; lia).
    destruct (IH (retried (with_reception r h))) as (n & response & a & -> & Hn & Ha & Hst & Hid & Hbefore & Hlast).
    + done.
    + cbn [retried with_reception with_retry_count retry_count max_retries]. lia.
    + done.
    + cbn [retried with_reception with_retry_count retry_count max_retries length] in *. lia.
    + cbn [retried with_reception with_retry_count retry_count max_retries handle_id] in *.
      assert (forall a, attempt_status (retried (with_reception r h)) a = attempt_status h a) as Hs.
      { by intros [[r' result'] t']. }
      rewrite Hs in *. exists (S n), response, a. cbn [fmap option_fmap option_map lookup list_lookup].
      split_and!; [done | lia | done..| |].
      * intros [|m] a' Hm' Ha'; [injection Ha' as <-; done|].
        rewrite <- Hs. apply (Hbefore m); [lia | done].
      * intros Hf. specialize (Hlast Hf). lia.
  - exists 0%nat, (completed platform curl_easy_strerror result t (with_reception r h)), (r, result, t).
    rewrite completed_status. split_and!; try done; [lia| |intros; lia|intros; lia].
    unfold completed. by destruct (completion _ _ _ _ _).
  - exists 0%nat, (completed platform curl_easy_strerror result t (with_reception r h)), (r, result, t).
    rewrite completed_status. split_and!; try done; [lia| |intros; lia|].
    + unfold completed. by destruct (completion _ _ _ _ _).
    + unfold attempt_status. fold st. by rewrite Ef.
Qed.

(** A transfer that libcurl could not complete has a negative status, so that it is not tried
    again; otherwise the status is the response code, but for the two that become 200. *)
Lemma completion_outcomes result t h :
  let st := (completion platform curl_easy_strerror result t h).1 in
  if bool_decide (result = CURLE_OK \/ result = CURLE_HTTP_RETURNED_ERROR) then
    st = (if (s32 (http_status t) =? 206) && (offset (reception h) =? 0)
          || (s32 (http_status t) =? 0) && bool_decide (result = CURLE_OK)
          then 200 else s32 (http_status t))
  else error_value UNKNOWN_ERROR < st < 0 /\ failed_by_server st = false.
Proof.
  cbv zeta. unfold completion. case_bool_decide as E.
  - assert (bool_decide (result = CURLE_OK) || bool_decide (result = CURLE_HTTP_RETURNED_ERROR) = true) as ->
      by (destruct E as [-> | ->]; done).
    cbn [fst]. destruct (Z.eqb_spec (offset (reception h)) 0), (Z.eqb_spec (s32 (http_status t)) 206) as [E'|E'];
      rewrite ?E'; cbn [andb orb]; try done; by destruct (_ =? 0), (bool_decide _).
  - rewrite !bool_decide_false by tauto. cbn [orb fst].
    assert (error_value UNKNOWN_ERROR < ConvertErrorCode platform result < 0) as Hc.
    { unfold ConvertErrorCode. rewrite bool_decide_false by tauto.
      repeat match goal with |- context [if ?b then _ else _] => destruct b end; cbn; lia. }
    assert (forall st, st < 0 -> failed_by_server st = false) as Hf.
    { intros st Hst. unfold failed_by_server. by replace (st >? 0) with false by lia. }
    case_bool_decide; [destruct (total_time t); [destruct (Qle_bool _ _)|]|];
      (split; [cbn in *; lia | apply Hf; cbn in *; lia]).
Qed.
End attempts.
