(* ===== verification/NetworkCurlFacts.v ===== *)
(** * What the curl network guarantees

    Every callback that [GetHandle] stores is called at most once, and as long as it is not
    called the request is in a handle, which is known to a thread, to the worker or to libcurl.
    The messages of libcurl are those it documents: a transfer is done. *)

From Stdlib Require Import ZArith Lia Bool Ascii QArith.
From stdpp Require Import base numbers strings list option gmap sets.
From S2P Require Import Prelude Decimal Http HttpTypes CurlHandle NetworkCurl.
Import HttpTypes.
Local Open Scope Z_scope.
Local Open Scope olp_scope.

(** ** Requests and answers *)

(** The id and the callback of the request in a handle. *)
Definition held_at (h : RequestHandle) : list (Z * nat) :=
  if in_use h then match callback h with Some cb => [(u64 (handle_id h), cb)] | None => [] end else [].
Definition held (l : list RequestHandle) : list (Z * nat) := l ≫= held_at.

Definition taken_by (e : Event) : list (Z * nat) :=
  match e with Taken (Some cb) id => [(u64 id, cb)] | _ => [] end.
Definition called_by (e : Event) : list (Z * nat) :=
  match e with Called cb response => [(request_id_ response, cb)] | _ => [] end.
(** The requests that got a handle, and the answers. *)
Definition taken (s : Network) : list (Z * nat) := log s ≫= taken_by.
Definition called (s : Network) : list (Z * nat) := log s ≫= called_by.

(** The answer that the worker is about to give. *)
Definition calling (w : Worker) : list (Z * nat) :=
  match w with Calling (Some cb) response _ => [(request_id_ response, cb)] | _ => [] end.
(** The requests that wait for an answer; one that the worker drops was answered. *)
Definition waiting_handles (w : Worker) (l : list RequestHandle) : list RequestHandle :=
  match w with Dropping i _ => alter released i l | _ => l end.
Definition waiting (s : Network) : list (Z * nat) := held (waiting_handles (worker s) (handles_ s)).

(** A change of a handle that keeps its request and its curl handle. *)
Definition quiet (f : RequestHandle -> RequestHandle) : Prop :=
  forall h, in_use (f h) = in_use h /\ callback (f h) = callback h /\
            handle_id (f h) = handle_id h /\ handle (f h) = handle h.

Lemma held_at_quiet f h : quiet f -> held_at (f h) = held_at h.
Proof. intros Hf. destruct (Hf h) as (E1 & E2 & E3 & _). unfold held_at. by rewrite E1, E2, E3. Qed.

Lemma held_quiet f i l : quiet f -> held (alter f i l) = held l.
Proof.
  intros Hf. revert i. induction l as [|h l IH]; intros [|i]; [done..| |]; unfold held; cbn.
  - by rewrite held_at_quiet.
  - f_equal. apply IH.
Qed.

Lemma held_alter f i l h :
  l !! i = Some h -> held (alter f i l) ++ held_at h ≡ₚ held l ++ held_at (f h).
Proof.
  revert i. induction l as [|h' l IH]; intros [|i] E; [done..| |].
  - injection E as ->. unfold held. cbn. solve_Permutation.
  - apply IH in E. unfold held in *. cbn. rewrite <- !app_assoc. by f_equiv.
Qed.

Lemma held_released i l h : l !! i = Some h -> held l ≡ₚ held_at h ++ held (alter released i l).
Proof. intros E. pose proof (held_alter released i l h E) as H. rewrite app_nil_r in H. rewrite <- H. apply Permutation_app_comm. Qed.

Lemma held_allocated i l h id now p a :
  l !! i = Some h -> in_use h = false ->
  held (alter (allocated id now p a) i l) ≡ₚ taken_by (Taken (arg_callback a) id) ++ held l.
Proof.
  intros E Hu. pose proof (held_alter (allocated id now p a) i l h E) as H.
  unfold held_at in H at 1. rewrite Hu, app_nil_r in H. rewrite H, Permutation_app_comm.
  apply Permutation_app_tail. done.
Qed.

Lemma held_unused l : Forall (fun h => in_use h = false) l -> held l = [].
Proof. induction 1 as [|h l Hh _ IH]; [done|]. unfold held in *. cbn. unfold held_at at 1. by rewrite Hh. Qed.

Lemma held_ext (f : nat -> RequestHandle -> RequestHandle) l :
  (forall i, quiet (f i) \/ forall h, l !! i = Some h -> held_at (f i h) = held_at h) ->
  held (imap f l) = held l.
Proof.
  revert f. induction l as [|h l IH]; intros f Hf; [done|]. unfold held in *. cbn. f_equal.
  - destruct (Hf 0%nat) as [Hq|He]; [by apply held_at_quiet|by apply He].
  - apply (IH (f ∘ S)). intros i. destruct (Hf (S i)) as [Hq|He]; [by left|right]. intros h' E. by apply He.
Qed.

Lemma find_handle_Some p l i :
  find_handle p l = Some i -> exists h, l !! i = Some h /\ p h = true.
Proof.
  revert i. induction l as [|h l IH]; intros i; [done|]. cbn [find_handle]. destruct (p h) eqn:Ep.
  - intros [= <-]. by exists h.
  - intros (j & Ej & ->)%fmap_Some. by apply IH.
Qed.

Lemma find_handle_None p l i h : find_handle p l = None -> l !! i = Some h -> p h = false.
Proof.
  revert i. induction l as [|h' l IH]; intros i; [done|]. cbn [find_handle]. destruct (p h') eqn:Ep; [done|].
  intros Hn%fmap_None. destruct i as [|i]; [by intros [= ->]|]. by apply IH.
Qed.

(** ** The curl handles *)

Record ptrs_ok (l : list RequestHandle) (e : gmap CURL (list CurlOption)) : Prop := {
  po_live i h : l !! i = Some h -> handle h <> 0%nat -> is_Some (e !! handle h);
  po_distinct i j h h' : l !! i = Some h -> l !! j = Some h' -> handle h = handle h' ->
    handle h <> 0%nat -> i = j;
  po_used i h : l !! i = Some h -> in_use h = true -> handle h <> 0%nat }.

Lemma list_lookup_alter_Some {A} (f : A -> A) i j (l : list A) x :
  alter f i l !! j = Some x <-> (exists y, l !! j = Some y /\ x = if bool_decide (i = j) then f y else y).
Proof.
  destruct (decide (i = j)) as [->|Hne].
  - rewrite list_lookup_alter_eq, fmap_Some, bool_decide_true by done. done.
  - rewrite list_lookup_alter_ne, bool_decide_false by done. split; [eauto|]. by intros (? & ? & ->).
Qed.

(** The curl handles stay, and no request gets a handle without one. *)
Lemma ptrs_ok_alter f i l e e' :
  ptrs_ok l e -> (forall p, is_Some (e !! p) -> is_Some (e' !! p)) ->
  (forall h, handle (f h) = handle h /\ (in_use (f h) = true -> in_use h = true)) ->
  ptrs_ok (alter f i l) e'.
Proof.
  intros [Hl Hd Hu] He Hf. split.
  - intros j h (y & Ey & ->)%list_lookup_alter_Some Hz. case_bool_decide; [|by eapply He, Hl].
    destruct (Hf y) as [E _]. rewrite E in *. by eapply He, Hl.
  - intros j k h h' (y & Ey & ->)%list_lookup_alter_Some (y' & Ey' & ->)%list_lookup_alter_Some.
    destruct (Hf y) as [E _], (Hf y') as [E' _].
    repeat case_bool_decide; rewrite ?E, ?E'; by apply Hd.
  - intros j h (y & Ey & ->)%list_lookup_alter_Some. destruct (Hf y) as [E Eu].
    case_bool_decide; rewrite ?E; [|by apply (Hu j)]. intros. by eapply Hu, Eu.
Qed.

Lemma ptrs_ok_same l e e' :
  ptrs_ok l e -> (forall p, is_Some (e !! p) -> is_Some (e' !! p)) -> ptrs_ok l e'.
Proof. intros [Hl Hd Hu] He. split; [|done..]. intros i h E Hz. by eapply He, Hl. Qed.

(** A request gets a handle with its own curl handle, or with a new one. *)
Lemma ptrs_ok_allocated i l e e' h id now p a :
  ptrs_ok l e -> l !! i = Some h -> p <> 0%nat -> is_Some (e' !! p) ->
  (forall q, is_Some (e !! q) -> is_Some (e' !! q)) ->
  p = handle h \/ (handle h = 0%nat /\ e !! p = None) ->
  ptrs_ok (alter (allocated id now p a) i l) e'.
Proof.
  intros [Hl Hd Hu] Ei Hz Hp He Hcase.
  assert (forall j y, l !! j = Some y -> handle y = p -> i = j) as Hown.
  { intros j y Ej Ey. destruct Hcase as [-> | [_ Hnone]].
    - by apply (Hd i j h y).
    - destruct (Hl j y Ej) as [? E]; [by rewrite Ey|]. rewrite Ey in E. congruence. }
  split.
  - intros j y (z & Ez & ->)%list_lookup_alter_Some Hy. case_bool_decide; [done|]. by eapply He, Hl.
  - intros j k y y' (z & Ez & ->)%list_lookup_alter_Some (z' & Ez' & ->)%list_lookup_alter_Some.
    repeat case_bool_decide; subst; try done; intros E Hne.
    + exfalso. apply H0. by eapply Hown.
    + symmetry. by eapply Hown.
    + by eapply Hd.
  - intros j y (z & Ez & ->)%list_lookup_alter_Some. case_bool_decide; [done|]. by eapply Hu.
Qed.

(** ** The invariant *)

Definition running (w : Worker) : bool := match w with NoWorker | Starting => false | _ => true end.

(** Before the first worker runs, no call of [Send] gets past [Initialize]. *)
Definition early (c : Caller) : bool :=
  match c with Sending _ _ | Initializing _ _ | Locking _ _ | Waiting _ _ => true | _ => false end.

Definition idle_ok (w : Worker) (es : list EventInfo) (l : list RequestHandle) (cs : gmap nat Caller) : Prop :=
  running w = false ->
  es = [] /\ Forall (fun h => in_use h = false) l /\ map_Forall (fun _ c => early c = true) cs.

(** The worker ends neither its loop nor, with the messages that libcurl has, a request that
    it does not release. *)
Definition lawful (w : Worker) : Prop :=
  match w with Leaving | Tearing _ | Stopping | Unknown _ _ _ => False | _ => True end.

(** The handle that the worker is at belongs to the request that it works for. *)
Definition at_handle (w : Worker) (l : list RequestHandle) : Prop :=
  match w with
  | Deciding i _ cb _ => exists h, l !! i = Some h /\ in_use h = true /\ callback h = Some cb
  | Requeueing i _ | Dropping i _ => exists h, l !! i = Some h /\ in_use h = true
  | Answering i response cb _ =>
    exists h, l !! i = Some h /\ in_use h = true /\ callback h = Some cb /\
              request_id_ response = u64 (handle_id h)
  | _ => True
  end.

Record Inv (s : Network) : Prop := {
  iv_state : state_ s = if running (worker s) then STARTED else STOPPED;
  iv_lawful : lawful (worker s);
  iv_thread : thread_ s = match worker s with NoWorker => false | _ => true end;
  iv_owner : owner s <> Joining;
  iv_idle : idle_ok (worker s) (events_ s) (handles_ s) (callers s);
  iv_length : length (handles_ s) = kTotalHandleCount;
  iv_ptrs : ptrs_ok (handles_ s) (easy s);
  iv_at : at_handle (worker s) (handles_ s);
  iv_conserved : taken s ≡ₚ called s ++ calling (worker s) ++ waiting s }.

Lemma inv_started s : Inv s -> IsStarted s = running (worker s).
Proof. intros []. unfold IsStarted. rewrite iv_state0. by destruct (running (worker s)). Qed.

(** The parts of the state that the invariant does not look at. *)
Lemma inv_frame s s' :
  Inv s -> state_ s' = state_ s -> worker s' = worker s -> thread_ s' = thread_ s ->
  owner s' <> Joining -> handles_ s' = handles_ s -> easy s' = easy s ->
  idle_ok (worker s) (events_ s') (handles_ s) (callers s') ->
  taken s' = taken s -> called s' = called s -> Inv s'.
Proof.
  intros [] Es Ew Et Eo Eh Ee Hi Ht Hc. unfold waiting in *.
  constructor; unfold waiting; rewrite ?Es, ?Ew, ?Et, ?Eh, ?Ee, ?Ht, ?Hc; done.
Qed.

(** An event that is neither a request nor an answer. *)
Definition neutral (e : Event) : Prop := taken_by e = [] /\ called_by e = [].

Lemma taken_log s e : taken (log_event e s) = taken s ++ taken_by e.
Proof. unfold taken. cbn. rewrite bind_app. f_equal. cbn. apply app_nil_r. Qed.
Lemma called_log s e : called (log_event e s) = called s ++ called_by e.
Proof. unfold called. cbn. rewrite bind_app. f_equal. cbn. apply app_nil_r. Qed.

Lemma inv_neutral s e : Inv s -> neutral e -> Inv (log_event e s).
Proof.
  intros H [E1 E2]. eapply inv_frame; try done; [apply H..| |]; rewrite ?taken_log, ?called_log, ?E1, ?E2; apply app_nil_r.
Qed.

Lemma inv_caller s t c : Inv s -> (running (worker s) = false -> early c = true) -> Inv (with_caller t c s).
Proof.
  intros H Hc. eapply inv_frame; try done; [apply H|]. intros Hr. destruct (iv_idle _ H Hr) as (? & ? & ?).
  split_and!; [done..|]. cbn. apply map_Forall_insert_2; auto.
Qed.

Lemma inv_finish s t : Inv s -> Inv (finish t s).
Proof.
  intros H. eapply inv_frame; try done; [apply H|]. intros Hr. destruct (iv_idle _ H Hr) as (? & ? & ?).
  split_and!; [done..|]. cbn. by apply map_Forall_delete.
Qed.

Lemma inv_return s t o : Inv s -> Inv (return_ t o s).
Proof. intros H. apply inv_neutral; [by apply inv_finish|done]. Qed.

(** A call that is past [Initialize] shows that the worker runs. *)
Lemma inv_running s t c : Inv s -> callers s !! t = Some c -> early c = false -> running (worker s) = true.
Proof.
  intros H Et Ec. destruct (running (worker s)) eqn:Er; [done|].
  destruct (iv_idle _ H Er) as (_ & _ & Hm). specialize (Hm t c Et). cbn in Hm. congruence.
Qed.

Lemma inv_running_frame s s' :
  Inv s -> running (worker s) = true ->
  state_ s' = state_ s -> worker s' = worker s -> thread_ s' = thread_ s -> owner s' = owner s ->
  handles_ s' = handles_ s -> easy s' = easy s -> log s' = log s -> Inv s'.
Proof.
  intros H Hr Es Ew Et Eo Eh Ee El. eapply inv_frame; try done; unfold taken, called; rewrite ?El; try done.
  - rewrite Eo. apply H.
  - intros Hr'. congruence.
Qed.

(** A quiet change of a handle, while the worker runs. *)
Lemma at_handle_quiet w l f i : quiet f -> at_handle w l -> at_handle w (alter f i l).
Proof.
  intros Hf. assert (forall j h, l !! j = Some h -> exists h', alter f i l !! j = Some h' /\
    in_use h' = in_use h /\ callback h' = callback h /\ handle_id h' = handle_id h) as Hq.
  { intros j h Ej. destruct (decide (i = j)) as [->|Hne].
    - exists (f h). rewrite list_lookup_alter_eq, Ej. destruct (Hf h) as (? & ? & ? & ?). by split_and!.
    - exists h. by rewrite list_lookup_alter_ne. }
  destruct w; cbn; try done.
  - intros (h & E & Hu & Hc). destruct (Hq _ _ E) as (h' & ? & ? & ? & ?). exists h'. split_and!; congruence.
  - intros (h & E & Hu). destruct (Hq _ _ E) as (h' & ? & ? & ? & ?). exists h'. split_and!; congruence.
  - intros (h & E & Hu & Hc & Hid). destruct (Hq _ _ E) as (h' & ? & ? & ? & ?). exists h'. split_and!; congruence.
  - intros (h & E & Hu). destruct (Hq _ _ E) as (h' & ? & ? & ? & ?). exists h'. split_and!; congruence.
Qed.

Lemma held_fmap l l' : held_at <$> l = held_at <$> l' -> held l = held l'.
Proof.
  revert l'. induction l as [|h l IH]; intros [|h' l']; try done. cbn. intros [= E1 E2].
  unfold held in *. cbn. by rewrite E1, (IH l').
Qed.

Lemma fmap_quiet f i (l : list RequestHandle) : quiet f -> held_at <$> alter f i l = held_at <$> l.
Proof.
  intros Hf. revert i. induction l as [|h l IH]; intros [|i]; [done..| |]; cbn; f_equal.
  - by apply held_at_quiet.
  - apply IH.
Qed.

Lemma waiting_fmap w (l l' : list RequestHandle) :
  held_at <$> l = held_at <$> l' -> held (waiting_handles w l) = held (waiting_handles w l').
Proof.
  intros E. apply held_fmap. destruct w; cbn; try done.
  rewrite !(list_fmap_alter held_at released (fun _ => [])) by (by apply Forall_true).
  by rewrite E.
Qed.

Lemma inv_quiet s i f e :
  Inv s -> running (worker s) = true -> quiet f ->
  (forall p, is_Some (easy s !! p) -> is_Some (e !! p)) ->
  Inv (with_easy e (update i f s)).
Proof.
  intros H Hr Hf He. destruct H. constructor; cbn; try done.
  - intros Hr'. congruence.
  - by rewrite length_alter.
  - eapply ptrs_ok_alter; [done..|]. intros h. destruct (Hf h) as (E & _ & _ & ?). by rewrite E.
  - by apply at_handle_quiet.
  - unfold waiting. cbn. by rewrite (waiting_fmap _ _ _ (fmap_quiet f i _ Hf)).
Qed.

(** *** Moves of the worker *)

(** The worker neither answers nor drops a request. *)
Definition plain (w : Worker) : bool :=
  match w with Calling (Some _) _ _ | Dropping _ _ => false | _ => true end.

Lemma plain_calling w : plain w = true -> calling w = [].
Proof. by destruct w as [| | | | | | | | |[]| | | | | | | | | |]. Qed.
Lemma plain_waiting w l : plain w = true -> waiting_handles w l = l.
Proof. by destruct w. Qed.

Lemma inv_move s w :
  Inv s -> running (worker s) = true -> plain (worker s) = true ->
  running w = true -> plain w = true -> lawful w -> at_handle w (handles_ s) ->
  Inv (with_worker w s).
Proof.
  intros [] Hr Hp Hr' Hp' Hl Ha. constructor; cbn; try done.
  - by rewrite iv_state0, Hr, Hr'.
  - rewrite iv_thread0. by destruct (worker s), w.
  - unfold idle_ok. congruence.
  - unfold waiting in *. cbn. rewrite plain_calling, plain_waiting in * by done. done.
Qed.

Lemma resume_worker k s : exists w,
  resume k s = with_worker w s /\ running w = true /\ plain w = true /\ lawful w /\
  forall l, at_handle w l.
Proof. destruct k; eexists; by split_and!. Qed.

Lemma inv_resume k s :
  Inv s -> running (worker s) = true -> plain (worker s) = true -> Inv (resume k s).
Proof.
  intros. destruct (resume_worker k s) as (w & -> & ? & ? & ? & ?). by apply inv_move.
Qed.

(** A release whose request the worker answers next, or which has no callback. *)
Lemma inv_release s i h w :
  Inv s -> running (worker s) = true -> plain (worker s) = true -> handles_ s !! i = Some h ->
  running w = true -> lawful w -> (forall l, at_handle w l) -> (forall l, waiting_handles w l = l) ->
  calling w = held_at h -> Inv (with_worker w (ReleaseHandleUnlocked i s)).
Proof.
  intros [] Hr Hp Ei Hr' Hl Ha Hw Hc. constructor; cbn; try done.
  - by rewrite iv_state0, Hr, Hr'.
  - rewrite iv_thread0. by destruct (worker s), w.
  - unfold idle_ok. congruence.
  - by rewrite length_alter.
  - eapply ptrs_ok_alter; [done| |by intros []]. intros p Hs.
    unfold curl_easy_reset. cbn. by rewrite lookup_alter_is_Some.
  - unfold waiting in *. cbn. rewrite Hw, Hc, plain_calling, plain_waiting in * by done.
    change (taken (with_worker w _)) with (taken s). change (called (with_worker w _)) with (called s).
    rewrite iv_conserved0. by rewrite (held_released i) by done.
Qed.

(** *** Steps of the worker *)

Ltac use_inv H :=
  let Hw := fresh "Hw" in
  pose proof (iv_at _ H) as Hw; pose proof (iv_lawful _ H).

Lemma index_Some p s i :
  GetHandleIndex p s = Some i -> exists h, handles_ s !! i = Some h /\ in_use h = true /\ handle h = p.
Proof.
  intros (h & E & Hp)%find_handle_Some. exists h. apply andb_true_iff in Hp as [Hu Hp].
  apply bool_decide_eq_true in Hp. done.
Qed.

Lemma inv_CompleteMessage p result k s s' :
  Inv s -> running (worker s) = true -> plain (worker s) = true ->
  CompleteMessage p result k s = Some s' -> Inv s'.
Proof.
  intros H Hr Hp. unfold CompleteMessage. destruct (GetHandleIndex p s) as [i|] eqn:Ei.
  2:{ intros [= <-]. by apply inv_resume. }
  apply index_Some in Ei as (h & Ei & Hu & Eh). rewrite Ei. cbn [mbind option_bind].
  destruct (cancelled h) eqn:Ec.
  - intros [= <-]. eapply (inv_release _ _ h); try done. unfold held_at. rewrite Hu. by destruct (callback h).
  - destruct (callback h) as [cb|] eqn:Ecb; intros [= <-].
    + apply inv_move; try done. by exists h.
    + destruct (resume_worker k (ReleaseHandleUnlocked i s)) as (w & -> & ? & ? & ? & ?).
      eapply (inv_release _ _ h); try done.
      * intros. by apply plain_waiting.
      * rewrite plain_calling by done. unfold held_at. by rewrite Hu, Ecb.
Qed.

Lemma inv_event_handles s es :
  Inv s -> running (worker s) = true -> Inv (with_events es s).
Proof. intros H Hr. by eapply inv_running_frame. Qed.

Lemma inv_multi s m : Inv s -> running (worker s) = true -> Inv (with_multi m s).
Proof. intros H Hr. by eapply inv_running_frame. Qed.

Lemma inv_pop_event msgs res s s' :
  Inv s -> worker s = Events msgs -> pop_event msgs res s = Some s' -> Inv s'.
Proof.
  intros H Ew. assert (running (worker s) = true) as Hr by (by rewrite Ew).
  assert (plain (worker s) = true) as Hp by (by rewrite Ew).
  unfold pop_event. rewrite (inv_started _ H), Hr. destruct (events_ s) as [|[type i] es].
  { intros [= <-]. by apply inv_move. }
  cbn [negb]. destruct (handles_ s !! i) as [h|]; [|done]. cbn [mbind option_bind].
  destruct (in_use h); cbn [negb].
  2:{ intros [= <-]. apply inv_move; try done. by apply inv_event_handles. }
  destruct type.
  - destruct (add_allowed _ _ _); [|done]. cbn [negb]. destruct (added res); intros [= <-];
      apply inv_move; try done; [apply inv_multi; try done|]; by apply inv_event_handles.
  - intros [= <-]. apply inv_move; try done. apply inv_multi; [|done]. by apply inv_event_handles.
Qed.

Lemma completed_id platform strerror result t h :
  request_id_ (completed platform strerror result t h) = u64 (handle_id h).
Proof. unfold completed. by destruct (completion _ _ _ _ _). Qed.

Lemma inv_decide platform strerror i result cb k t s s' :
  Inv s -> worker s = Deciding i result cb k ->
  decide_completion platform strerror i result cb k t s = Some s' -> Inv s'.
Proof.
  intros H Ew. assert (running (worker s) = true) as Hr by (by rewrite Ew).
  assert (plain (worker s) = true) as Hp by (by rewrite Ew).
  use_inv H. rewrite Ew in Hw. destruct Hw as (h & Ei & Hu & Ecb).
  unfold decide_completion. rewrite Ei. cbn [mbind option_bind].
  destruct (completion _ _ _ _ _) as [st err]. set (resp := completed _ _ _ _ _).
  assert (request_id_ resp = u64 (handle_id h)) as Eid by apply completed_id.
  assert (forall s', Inv s' -> worker s' = worker s ->
    (exists h', handles_ s' !! i = Some h' /\ in_use h' = true /\ callback h' = Some cb /\ handle_id h' = handle_id h) ->
    Inv (with_worker (Answering i resp cb k) s')) as Hans.
  { intros s1 H1 Ew1 (h' & ? & ? & ? & Eid'). apply inv_move; rewrite ?Ew1; try done.
    exists h'. by rewrite Eid'. }
  assert (forall f, quiet f -> Inv (update i f s)) as Hq.
  { intros f Hf. change (update i f s) with (with_easy (easy s) (update i f s)). by apply inv_quiet. }
  destruct (failed_by_server st).
  - destruct (retries_left h); [intros [= <-]|].
    + apply inv_move; try done; [by apply Hq|]. cbn. rewrite list_lookup_alter_eq, Ei. by eexists.
    + destruct (cancelled h); intros [= <-]; apply Hans; try done.
      * by exists h.
      * by apply Hq.
      * eexists. cbn. rewrite list_lookup_alter_eq, Ei. by split_and!.
  - intros [= <-]. apply Hans; try done. by exists h.
Qed.

Lemma inv_update s i f : Inv s -> running (worker s) = true -> quiet f -> Inv (update i f s).
Proof.
  intros H Hr Hf. change (update i f s) with (with_easy (easy s) (update i f s)). by apply inv_quiet.
Qed.

Lemma inv_header getdate p ptr s s' :
  Inv s -> running (worker s) = true -> receive_header getdate p ptr s = Some s' -> aborted s' = false -> Inv s'.
Proof.
  intros H Hr. unfold receive_header. intros E. simplify_option_eq.
  repeat case_match; simplify_eq; intros Hab; [|by apply inv_update|done].
  apply inv_neutral; [|done]. by apply inv_update.
Qed.

Lemma inv_streams s m : Inv s -> running (worker s) = true -> Inv (with_streams m s).
Proof. intros H Hr. by eapply inv_running_frame. Qed.

Lemma inv_data p status ptr s s' :
  Inv s -> running (worker s) = true -> receive_data p status ptr s = Some s' -> Inv s'.
Proof.
  intros H Hr. unfold receive_data. intros E. simplify_option_eq.
  match type of E with (let '(_, _) := ?e in _) = _ => destruct e as [[r stream] calls] end.
  assert (forall i, Inv (update i (with_reception r) s)) as Hu by (intros; by apply inv_update).
  repeat case_match; simplify_eq; try apply inv_neutral; try done;
    try (apply inv_streams; [|done]); apply Hu.
Qed.

Lemma inv_read p result completed s s' :
  Inv s -> worker s = Reading completed -> read_message p (Some result) completed s = Some s' -> Inv s'.
Proof.
  intros H Ew. unfold read_message. case_match; [done|]. intros [= <-].
  apply inv_move; try (by rewrite ?Ew; cbn; rewrite ?Ew). apply inv_multi; [done|]. by rewrite Ew.
Qed.

(** A lost handle that libcurl cannot remove is answered, and dropped afterwards. *)
Lemma inv_drop s i h lost :
  Inv s -> running (worker s) = true -> plain (worker s) = true ->
  handles_ s !! i = Some h -> in_use h = true ->
  Inv (with_worker (Dropping i lost)
        (match callback h with
         | Some cb => log_event (Called cb (io_error_response h)) s
         | None => s
         end)).
Proof.
  intros [] Hr Hp Ei Hu.
  assert (forall A (f : Network -> A), (forall e, f (log_event e s) = f s) ->
    f (match callback h with Some cb => log_event (Called cb (io_error_response h)) s | None => s end) = f s)
    as Hf by (intros A f Hf; destruct (callback h); auto).
  assert (taken s ≡ₚ called s ++ held (handles_ s)) as Hcons.
  { unfold waiting in *. by rewrite plain_calling, plain_waiting in iv_conserved0 by done. }
  constructor; cbn; try done.
  - rewrite Hf by done. by rewrite iv_state0, Hr.
  - rewrite Hf by done. rewrite iv_thread0. by destruct (worker s).
  - by rewrite Hf by done.
  - by rewrite Hf by done.
  - by rewrite !Hf by done.
  - rewrite Hf by done. by exists h.
  - unfold waiting. cbn. rewrite (Hf _ handles_) by done.
    rewrite (held_released i _ h Ei) in Hcons. unfold held_at in Hcons. rewrite Hu in Hcons.
    destruct (callback h) as [cb|]; [|done].
    set (s' := log_event (Called cb (io_error_response h)) s).
    change (taken s' ≡ₚ called s' ++ held (alter released i (handles_ s))). unfold s'.
    rewrite taken_log, called_log. cbn [taken_by called_by]. rewrite app_nil_r, Hcons, <- app_assoc. done.
Qed.

Lemma inv_lose p lost ok s s' :
  Inv s -> worker s = Losing (p :: lost) -> lose p lost ok s = Some s' -> Inv s'.
Proof.
  intros H Ew. assert (running (worker s) = true) as Hr by (by rewrite Ew).
  assert (plain (worker s) = true) as Hp by (by rewrite Ew).
  unfold lose. destruct ok.
  - intros [= <-]. apply inv_move; try done. by apply inv_multi.
  - destruct (GetHandleIndex p s) as [i|] eqn:Ei; [|intros [= <-]; by apply inv_move].
    apply index_Some in Ei as (h & Ei & Hu & _). rewrite Ei. cbn [mbind option_bind].
    intros [= <-]. by apply inv_drop.
Qed.

(** The worker calls a callback, after it released the handle. *)
Lemma inv_call cb response k s :
  Inv s -> worker s = Calling (Some cb) response k ->
  Inv (resume k (log_event (Called cb response) s)).
Proof.
  intros [] Ew. destruct (resume_worker k (log_event (Called cb response) s)) as (w & -> & Hr & Hp & Hl & Ha).
  rewrite Ew in *. constructor; cbn; try done.
  - by rewrite Hr.
  - rewrite iv_thread0. by destruct w.
  - unfold idle_ok. congruence.
  - unfold waiting in *. cbn. rewrite plain_calling, plain_waiting by done.
    set (s' := log_event (Called cb response) s).
    change (taken s' ≡ₚ called s' ++ held (handles_ s)). unfold s'.
    rewrite taken_log, called_log. rewrite Ew in iv_conserved0. cbn [taken_by called_by].
    rewrite app_nil_r, iv_conserved0. by rewrite <- app_assoc.
Qed.

(** The worker releases the handle of the request it dropped. *)
Lemma inv_dropped i lost s :
  Inv s -> worker s = Dropping i lost -> Inv (with_worker (Losing lost) (ReleaseHandleUnlocked i s)).
Proof.
  intros [] Ew. rewrite Ew in *. constructor; cbn; try done.
  - by rewrite length_alter.
  - eapply ptrs_ok_alter; [done| |by intros []]. intros p Hs.
    unfold curl_easy_reset. cbn. by rewrite lookup_alter_is_Some.
  - unfold waiting in *. cbn. by rewrite Ew in iv_conserved0.
Qed.

Lemma inv_worker s s' :
  Inv s -> worker_step s = Some s' -> aborted s' = false -> Inv s'.
Proof.
  intros H. unfold worker_step. use_inv H.
  destruct (worker s) as [| | |msgs|[|p msgs]|p result k|i result cb k|i k|i response cb k|[cb|] response k| |completed| |
    |[|p lost]|i lost| | |[|[]]|] eqn:Ew; try done.
  all: try (intros [= <-] _; apply inv_move; rewrite ?Ew; done).
  - intros [= <-] _. destruct H. constructor; cbn; rewrite ?Ew in *; try done.
    unfold waiting in *. cbn in *. rewrite Ew in iv_conserved0. done.
  - rewrite (inv_started _ H), Ew. intros [= <-] _. by apply inv_move; rewrite ?Ew.
  - intros E _. eapply inv_CompleteMessage; rewrite ?Ew; done.
  - intros [= <-] _. apply inv_resume; cbn; rewrite ?Ew; try done. apply inv_event_handles; by rewrite ?Ew.
  - destruct Hw as (h & Ei & Hu & Ecb & Eid). intros [= <-] _.
    eapply (inv_release _ _ h); rewrite ?Ew; try done. cbn. unfold held_at. by rewrite Hu, Ecb, Eid.
  - intros [= <-] _. by apply inv_call.
  - intros [= <-] Hab. by destruct k.
  - intros [= <-] _. apply inv_move; rewrite ?Ew; try done; by destruct (_ || _).
  - rewrite (inv_started _ H), Ew. intros [= <-] _. by apply inv_move; rewrite ?Ew.
  - intros [= <-] _. by apply inv_dropped.
Qed.

(** The handles that are closed have no request, and no other handle has their curl handle. *)
Lemma elem_closed now l p :
  p ∈ (list_to_set (handle <$> (filter (fun ih => unused now ih.1 ih.2 = true) (imap pair l)).*2) : gset CURL) <->
  exists i h, l !! i = Some h /\ unused now i h = true /\ p = handle h.
Proof.
  rewrite elem_of_list_to_set, list_elem_of_fmap. split.
  - intros (h & -> & Hh). apply list_elem_of_fmap in Hh as ([i h'] & -> & Hf).
    apply list_elem_of_filter in Hf as [Hun Hin]. apply elem_of_lookup_imap in Hin as (j & h2 & E & Ej).
    injection E as -> ->. by exists j, h2.
  - intros (i & h & Ei & Hun & ->). exists h. split; [done|]. apply list_elem_of_fmap. exists (i, h).
    split; [done|]. apply list_elem_of_filter. split; [done|]. apply elem_of_lookup_imap. eauto.
Qed.

Lemma unused_spec now i h :
  unused now i h = true -> handle h <> 0%nat /\ in_use h = false.
Proof. unfold unused. rewrite !andb_true_iff, !negb_true_iff, Nat.eqb_neq. tauto. Qed.

Lemma inv_sweep now s : Inv s -> worker s = Sweeping -> Inv (with_worker Top (sweep now s)).
Proof.
  intros [] Ew. rewrite Ew in *. unfold sweep. set (closed := list_to_set _). set (f := fun i h => _).
  constructor; cbn -[waiting taken called]; try done.
  - by rewrite length_imap.
  - destruct iv_ptrs0 as [Hl Hd Hu].
    assert (forall i h, imap f (handles_ s) !! i = Some h ->
      exists h', handles_ s !! i = Some h' /\ in_use h = in_use h' /\
        ((unused now i h' = true /\ handle h = 0%nat) \/ (unused now i h' = false /\ h = h'))) as Hs.
    { intros i h. rewrite list_lookup_imap. intros (h' & E & ->)%fmap_Some. exists h'. unfold f.
      destruct (unused now i h') eqn:Eun; split_and!; auto. }
    split.
    + intros i h (h' & E & _ & [[_ Hz]|[Hun ->]])%Hs Hnz; [done|].
      destruct (Hl i h' E Hnz) as [os Eos]. exists os. apply map_lookup_filter_Some. split; [done|].
      cbn. intros (j & h2 & Ej & Hun2 & Eh)%elem_closed. 
      assert (i = j) as <- by by eapply Hd. congruence.
    + intros i j h h' (y & E & _ & [[_ Hz]|[_ ->]])%Hs (y' & E' & _ & [[_ Hz']|[_ ->]])%Hs Eh Hnz;
        try congruence. by eapply Hd.
    + intros i h (h' & E & Eu & Hc)%Hs Hin. rewrite Eu in Hin. destruct Hc as [[Hun _]|[_ ->]].
      * apply unused_spec in Hun as [_ Hun]. congruence.
      * by eapply Hu.
  - unfold waiting in *. cbn -[held taken called] in *. rewrite Ew in iv_conserved0. cbn -[held taken called] in *.
    assert (held (imap f (handles_ s)) = held (handles_ s)) as Eh; [|by rewrite Eh].
    apply held_ext. intros i. right. intros h _. unfold f. by destruct (unused now i h).
Qed.

(** *** Steps of the threads *)

Lemma at_handle_allocated w l i h id now p a :
  l !! i = Some h -> in_use h = false -> at_handle w l -> at_handle w (alter (allocated id now p a) i l).
Proof.
  intros Ei Hu. assert (forall j h', l !! j = Some h' -> in_use h' = true ->
    alter (allocated id now p a) i l !! j = Some h') as Hq.
  { intros j h' Ej Hu'. rewrite list_lookup_alter_ne; [done|]. intros <-. congruence. }
  destruct w; cbn; try done.
  - intros (h' & ? & ? & ?). exists h'. auto.
  - intros (h' & ? & ?). exists h'. auto.
  - intros (h' & ? & ? & ? & ?). exists h'. auto.
  - intros (h' & ? & ?). exists h'. auto.
Qed.

Lemma waiting_allocated w l i h id now p a :
  at_handle w l -> l !! i = Some h -> in_use h = false ->
  held (waiting_handles w (alter (allocated id now p a) i l)) ≡ₚ
  taken_by (Taken (arg_callback a) id) ++ held (waiting_handles w l).
Proof.
  intros Ha Ei Hu. destruct w as [| | | | | | | | | | | | | | |j lost| | | |]; cbn;
    try by eapply (held_allocated _ _ h).
  destruct Ha as (h' & Ej & Hu'). assert (i <> j) by (intros ->; congruence).
  apply (Permutation_app_inv_l (held_at h')).
  rewrite <- held_released by (by rewrite list_lookup_alter_ne).
  rewrite (held_allocated _ _ h) by done. rewrite (held_released j l h') by done. solve_Permutation.
Qed.

Lemma inv_allocated s i h id now p a e :
  Inv s -> running (worker s) = true -> handles_ s !! i = Some h -> in_use h = false ->
  p <> 0%nat -> is_Some (e !! p) -> (forall q, is_Some (easy s !! q) -> is_Some (e !! q)) ->
  p = handle h \/ (handle h = 0%nat /\ easy s !! p = None) ->
  Inv (log_event (Taken (arg_callback a) id) (update i (allocated id now p a) (with_easy e s))).
Proof.
  intros [] Hr Ei Hu Hp Hlive He Hcase. constructor; cbn -[waiting taken called]; try done.
  - unfold idle_ok. congruence.
  - by rewrite length_alter.
  - by eapply ptrs_ok_allocated.
  - by eapply at_handle_allocated.
  - rewrite taken_log, called_log. cbn [called_by]. rewrite app_nil_r.
    change (taken (update _ _ _)) with (taken s). change (called (update _ _ _)) with (called s).
    unfold waiting in *. cbn -[waiting_handles taken_by].
    rewrite (waiting_allocated _ _ _ h) by done. rewrite iv_conserved0. solve_Permutation.
Qed.

Lemma inv_GetHandle t r a id now ptr s s' :
  Inv s -> callers s !! t = Some (Searching r a id) -> GetHandle t r a id now ptr s = Some s' -> Inv s'.
Proof.
  intros H Et. pose proof (inv_running _ _ _ H Et eq_refl) as Hr.
  unfold GetHandle. destruct (find_handle _ _) as [i|] eqn:Ei.
  2:{ intros [= <-]. by apply inv_return. }
  apply find_handle_Some in Ei as (h & Ei & Hu%negb_true_iff). unfold handle_of. rewrite Ei.
  assert (forall p e, p <> 0%nat -> is_Some (e !! p) -> (forall q, is_Some (easy s !! q) -> is_Some (e !! q)) ->
    p = handle h \/ (handle h = 0%nat /\ easy s !! p = None) ->
    Inv (with_caller t (Configuring r id i) (log_event (Taken (arg_callback a) (s32 id))
          (update i (allocated (s32 id) now p a) (with_easy e s))))) as Htake.
  { intros. apply inv_caller; [by eapply inv_allocated|]. cbn. congruence. }
  destruct (Nat.eqb_spec (handle h) 0) as [Ez|Ez].
  - unfold curl_easy_init. case_bool_decide as Ep; [|case_bool_decide as Elive; [done|]]; cbn [mbind option_bind].
    + rewrite Ep. cbn. intros [= <-]. by apply inv_return.
    + replace (ptr =? 0)%nat with false by (symmetry; by apply Nat.eqb_neq). intros [= <-].
      apply Htake; [done| | |].
      * by rewrite lookup_insert_eq.
      * intros q Hq. destruct (decide (ptr = q)) as [->|]; [by rewrite lookup_insert_eq|by rewrite lookup_insert_ne].
      * right. split; [done|]. by apply eq_None_not_Some.
  - intros [= <-]. apply (Htake _ (easy s)); try done; [|by left].
    by eapply (po_live _ _ (iv_ptrs _ H)).
Qed.

Lemma curl_easy_inits_spec ptrs s s' :
  curl_easy_inits ptrs s = Some s' -> exists e, s' = with_easy e s /\
    (forall p, is_Some (easy s !! p) -> is_Some (e !! p)) /\
    (forall p, p ∈ ptrs -> p <> 0%nat -> easy s !! p = None /\ is_Some (e !! p)) /\
    (forall i j p, ptrs !! i = Some p -> ptrs !! j = Some p -> p <> 0%nat -> i = j).
Proof.
  revert s. induction ptrs as [|p ptrs IH]; intros s.
  - intros [= <-]. exists (easy s). split_and!; [by destruct s|done| |done]. intros p Hp. by apply not_elem_of_nil in Hp.
  - cbn [curl_easy_inits]. unfold curl_easy_init. case_bool_decide as Ez.
    + cbn [mbind option_bind]. intros (e & -> & Hk & Hf & Hd)%IH. exists e. split_and!; try done.
      * intros q [->|Hq]%elem_of_cons; [done|by apply Hf].
      * intros [|i] [|j] q; cbn; try congruence. intros. f_equal. by eapply Hd.
    + case_bool_decide as Elive; [done|]. cbn [mbind option_bind].
      intros (e & -> & Hk & Hf & Hd)%IH. cbn in Hk, Hf.
      assert (is_Some (e !! p)) as Hp by (apply Hk; by rewrite lookup_insert_eq).
      exists e. split_and!; try done.
      * intros q Hq. apply Hk. destruct (decide (p = q)) as [->|]; [by rewrite lookup_insert_eq|by rewrite lookup_insert_ne].
      * intros q [->|Hq]%elem_of_cons Hz; [split; [by apply eq_None_not_Some|done]|].
        destruct (Hf q Hq Hz) as [Hn ?]. split; [|done]. by apply lookup_insert_None in Hn as [? _].
      * assert (forall i, ptrs !! i = Some p -> False) as Hnot.
        { intros i Ei. destruct (Hf p) as [Hn _]; [by eapply list_elem_of_lookup_2|done|].
          by rewrite lookup_insert_eq in Hn. }
        intros [|i] [|j] q; cbn; try done.
        -- intros [= <-] Ej _. by apply Hnot in Ej.
        -- intros Ei [= <-] _. by apply Hnot in Ei.
        -- intros. f_equal. by eapply Hd.
Qed.

Lemma inv_Setup t r a pipe_ok multi_ok ptrs s s' :
  Inv s -> callers s !! t = Some (Locking r a) ->
  Setup t r a pipe_ok multi_ok ptrs s = Some s' -> aborted s' = false -> Inv s'.
Proof.
  intros H Et. unfold Setup. destruct (init_mutex_ s); [done|].
  destruct (_ || _); [intros [= <-] _; by apply inv_return|].
  destruct (hooked s); cbn [negb]; [|intros [= <-] _; apply inv_neutral; [by apply inv_finish|done]].
  case_bool_decide as Elen; [|done].
  destruct (curl_easy_inits ptrs (with_multi ∅ s)) as [s1|] eqn:Einit; [|done]. cbn [mbind option_bind].
  apply curl_easy_inits_spec in Einit as (e & -> & Hk & Hf & Hd). cbn in Hk, Hf.
  unfold start_thread. cbn [thread_ with_handles with_init_mutex with_caller with_callers with_easy with_multi].
  destruct H. rewrite iv_thread0. destruct (worker s) eqn:Ew; intros [= <-]; try done. intros _.
  destruct iv_idle0 as (Hes & Hl & Hcs); [done|].
  assert (forall i h, setup_handles ptrs (handles_ s) !! i = Some h -> in_use h = false /\
    (handle h <> 0%nat -> ptrs !! i = Some (handle h))) as Hs.
  { intros i h. unfold setup_handles. rewrite list_lookup_imap. intros (h' & E & ->)%fmap_Some. split; [done|].
    cbn [handle initialized]. destruct (Nat.ltb_spec i kStaticHandleCount); [|done]. intros Hz.
    destruct (lookup_lt_is_Some_2 ptrs i) as [p Ep]; [lia|]. by rewrite (nth_lookup_Some _ _ _ _ Ep). }
  constructor; cbn -[waiting taken called kTotalHandleCount]; try done.
  - intros _. split_and!; [done| |by apply map_Forall_insert_2].
    apply Forall_lookup. intros i h E. by apply Hs in E as [? _].
  - unfold setup_handles. by rewrite length_imap.
  - split.
    + intros i h [_ E]%Hs Hz. apply (Hf (handle h)); [|done]. by eapply list_elem_of_lookup_2, E.
    + intros i j h h' [_ E]%Hs [_ E']%Hs Eh Hz. rewrite <- Eh in E'. eapply Hd; auto.
    + intros i h [E _]%Hs Hu. congruence.
  - unfold waiting in *. cbn -[held taken called] in *. rewrite Ew in *. cbn -[held taken called] in *.
    rewrite (held_unused (setup_handles _ _)); [by rewrite held_unused in iv_conserved0|].
    apply Forall_lookup. intros i h E. by apply Hs in E as [? _].
Qed.

Lemma quiet_configured r : quiet (configured r).
Proof. by intros h. Qed.

Lemma inv_setopt s p o : Inv s -> running (worker s) = true -> Inv (curl_easy_setopt p o s).
Proof.
  intros H Hr. destruct H. constructor; cbn; try done.
  eapply ptrs_ok_same; [done|]. intros q. by rewrite lookup_alter_is_Some.
Qed.

Lemma inv_Configure platform t r id i ca_ok s :
  Inv s -> callers s !! t = Some (Configuring r id i) -> Inv (Configure platform t r id i ca_ok s).
Proof.
  intros H Et. pose proof (inv_running _ _ _ H Et eq_refl) as Hr. unfold Configure.
  assert (Inv (update i (configured r) s)) as H1 by (by apply inv_update).
  repeat case_match; try apply inv_return; try (apply inv_caller; [|cbn; congruence]);
    repeat (apply inv_setopt; [|done]); done.
Qed.

Lemma inv_CancelLocked id s : Inv s -> running (worker s) = true -> Inv (CancelLocked id s).
Proof.
  intros H Hr. unfold CancelLocked. destruct (find_handle _ _) as [i|]; [|done].
  apply inv_event_handles; [|done]. by apply inv_update.
Qed.

Lemma inv_caller_step t s s' : Inv s -> caller_step t s = Some s' -> Inv s'.
Proof.
  intros H. unfold caller_step, Initialized. rewrite (inv_started _ H).
  destruct (callers s !! t) as [c|] eqn:Et; [|done].
  pose proof (inv_running _ t c H Et) as Hrun.
  destruct c; try done; try specialize (Hrun eq_refl).
  - intros [= <-]. apply inv_caller; [done|]. by intros ->.
  - intros [= <-]. apply inv_caller; [done|]. intros Hr. by rewrite (iv_state _ H), Hr.
  - destruct (running (worker s)) eqn:Hr; [|done]. destruct (event_locked s); [done|]. intros [= <-].
    apply inv_caller; [|cbn; congruence]. by eapply inv_running_frame.
  - destruct (event_locked s); [done|]. intros [= <-].
    apply inv_caller; [|cbn; congruence]. by eapply inv_running_frame.
  - rewrite Hrun. intros [= <-]. apply inv_caller; [done|congruence].
  - rewrite Hrun. intros [= <-]. apply inv_caller; [done|congruence].
  - rewrite Hrun. intros [= <-]. apply inv_caller; [done|congruence].
  - destruct (event_locked s); [done|]. intros [= <-]. apply inv_return. by apply inv_event_handles.
  - destruct (event_locked s); [done|]. intros [= <-]. apply inv_finish. by apply inv_CancelLocked.
Qed.

(** *** All steps *)

(** The messages of libcurl are the ones it documents. *)
Definition documented (l : Label) : Prop :=
  match l with Worker_message _ None => False | _ => True end.

Section network.
Context (platform : Platform) (curl_getdate : text -> Z) (curl_easy_strerror : CURLcode -> text).

Abbreviation step := (step platform curl_getdate curl_easy_strerror).
Abbreviation run := (run platform curl_getdate curl_easy_strerror).

Lemma inv_drop_pointer s s' : Inv s -> drop_pointer s = Some s' -> aborted s' = false -> Inv s'.
Proof.
  intros H. unfold drop_pointer. case_bool_decide; [|done]. case_bool_decide; [|done]. cbn [andb].
  assert (Inv (with_owner Dropped s)) as Hdrop by (eapply inv_frame; try done; apply H).
  intros E Hab. destruct (worker s) eqn:Ew; injection E as <-; try done.
  unfold destructor, Deinitialize. rewrite (inv_started _ H), Ew. cbn.
  rewrite (iv_thread _ H), Ew. eapply inv_frame; try done. apply H.
Qed.

Lemma inv_step l s s' :
  Inv s -> documented l -> step l s = Some s' -> aborted s' = false -> Inv s'.
Proof.
  intros H Hdoc. unfold NetworkCurl.step. destruct (aborted s); [done|].
  assert (forall t c, Inv s -> (running (worker s) = false -> early c = true) -> enter t c s = Some s' -> Inv s') as Henter.
  { intros t c _ Hc. unfold enter. case_match; [|done]. intros [= <-]. by apply inv_caller. }
  destruct l; cbn [choose_step].
  - intros E _. eapply Henter, E; done.
  - rewrite (inv_started _ H). destruct (running (worker s)) eqn:Hr; [|by intros [= <-]].
    intros E _. by eapply Henter, E.
  - intros E _. by eapply inv_caller_step.
  - destruct (callers s !! t) as [[]|] eqn:Et; try done. by eapply inv_Setup.
  - destruct (callers s !! t) as [[]|] eqn:Et; try done. destruct (event_locked s); [done|].
    intros E _. by eapply inv_GetHandle.
  - destruct (callers s !! t) as [[]|] eqn:Et; try done. intros [= <-] _. by apply (inv_Configure _ _ r).
  - destruct (worker_step s) as [s1|] eqn:E1; [|done]. cbn [mbind option_bind].
    intros [= E] Hab. pose proof (iv_lawful _ H) as Hl. destruct (worker s) eqn:Ew; subst s'; try done;
      eapply inv_worker; rewrite ?E1; done.
  - destruct (worker s) eqn:Ew; try done. intros E _. by eapply inv_pop_event.
  - destruct (worker s) eqn:Ew; try done. intros E _. by eapply inv_decide.
  - destruct (worker s) eqn:Ew; try done. intros E Hab. eapply inv_header; rewrite ?Ew; done.
  - destruct (worker s) eqn:Ew; try done. intros E _. eapply inv_data; rewrite ?Ew; done.
  - destruct (worker s) eqn:Ew; try done. destruct done as [result|]; [|done]. intros E _. by eapply inv_read.
  - destruct (worker s) eqn:Ew; try done. intros [= <-] _.
    apply inv_move; rewrite ?Ew; try done; by repeat case_match.
  - destruct (worker s) as [| | | | | | | | | | | | | |[|]| | | | |] eqn:Ew; try done. intros E _. by eapply inv_lose.
  - destruct (worker s) eqn:Ew; try done. intros [= <-] _. by apply inv_sweep.
  - by apply inv_drop_pointer.
  - destruct (owner s) eqn:Eo; try done. by destruct (iv_owner _ H).
Qed.

Lemma aborted_stays l s s' : step l s = Some s' -> aborted s = false.
Proof. unfold NetworkCurl.step. by destruct (aborted s). Qed.

Lemma inv_run ls s s' :
  Inv s -> Forall documented ls -> run ls s = Some s' -> aborted s' = false -> Inv s'.
Proof.
  revert s. induction ls as [|l ls IH]; intros s H Hd; [by intros [= <-]|].
  apply Forall_cons_1 in Hd as [Hl Hd]. cbn. destruct (step l s) as [s1|] eqn:E1; [|done].
  cbn [mbind option_bind]. intros E Hab. apply (IH s1); [|done..]. eapply inv_step; [done..|].
  destruct ls as [|l' ls]; [by injection E as ->|]. cbn in E.
  destruct (step l' s1) as [s2|] eqn:E2; [|done]. by eapply aborted_stays.
Qed.

Lemma inv_initial hooked streams : Inv (initial hooked streams).
Proof.
  assert (forall i h, replicate kTotalHandleCount default_RequestHandle !! i = Some h -> h = default_RequestHandle)
    as Hr by (intros i h [-> _]%lookup_replicate; done).
  constructor; cbn -[replicate waiting kTotalHandleCount]; try done.
  - intros _. split_and!; [done| |done]. apply Forall_lookup. by intros i h ->%Hr.
  - split.
    + by intros i h ->%Hr.
    + by intros i j h h' ->%Hr ->%Hr.
    + by intros i h ->%Hr.
Qed.
End network.
