(* ===== verification/NetworkCurlRequests.v ===== *)
(** * Requests of the curl network

    A request that has a handle is known to a thread that is about to announce it, to the
    worker, or to libcurl, and an id that [Send] returned belongs to such a request. With the
    conservation of the callbacks this gives what the network guarantees to its clients. *)

From Stdlib Require Import ZArith Lia Bool Ascii QArith.
From stdpp Require Import base numbers strings list option gmap sets.
From S2P Require Import Prelude Decimal Http HttpTypes CurlHandle NetworkCurl NetworkCurlFacts.
Import HttpTypes.
Local Open Scope Z_scope.
Local Open Scope olp_scope.

Section network.
Context (platform : Platform) (curl_getdate : text -> Z) (curl_easy_strerror : CURLcode -> text).

Abbreviation step := (step platform curl_getdate curl_easy_strerror).
Abbreviation run := (run platform curl_getdate curl_easy_strerror).

(** ** Requests are not forgotten *)

Definition holds (c : Caller) (i : nat) : Prop :=
  match c with Configuring _ _ j | Announcing _ j | Pushing _ j => j = i | _ => False end.

(** The curl handles that the worker has to complete, and the handle it is at. *)
Definition continued (k : Continuation) : list CURL :=
  match k with AfterEvent msgs | AfterFailing msgs => msgs | _ => [] end.
Definition to_complete (w : Worker) : list CURL :=
  match w with
  | Events msgs | Failing msgs => msgs
  | Completing p _ k => p :: continued k
  | Deciding _ _ _ k | Requeueing _ k | Answering _ _ _ k | Calling _ _ k => continued k
  | _ => []
  end.
Definition worker_at (w : Worker) : option nat :=
  match w with
  | Deciding i _ _ _ | Requeueing i _ | Answering i _ _ _ | Dropping i _ => Some i
  | _ => None
  end.

(** A thread is about to announce the request, it is announced, libcurl has it, or the worker. *)
Definition known (s : Network) (i : nat) (h : RequestHandle) : Prop :=
  (exists t c, callers s !! t = Some c /\ holds c i) \/ MkEventInfo SEND_EVENT i ∈ events_ s \/
  handle h ∈ multi s \/ handle h ∈ to_complete (worker s) \/ worker_at (worker s) = Some i.
Definition Known (s : Network) : Prop :=
  forall i h, handles_ s !! i = Some h -> in_use h = true -> known s i h.

(** The labels of a network whose certificates libcurl accepts. *)
Definition accepting (l : Label) : Prop :=
  documented l /\ match l with Caller_options _ ca_ok => ca_ok = true | _ => True end.

(** A step after which all requests are known: one obligation for each of the ways. *)
Lemma known_step s s' :
  Known s ->
  (forall i h', handles_ s' !! i = Some h' -> in_use h' = true ->
    known s' i h' \/
    exists h, handles_ s !! i = Some h /\ in_use h = true /\ handle h = handle h') ->
  (forall t c, callers s !! t = Some c -> forall i, holds c i ->
    (exists t' c', callers s' !! t' = Some c' /\ holds c' i) \/ MkEventInfo SEND_EVENT i ∈ events_ s') ->
  (forall i h, handles_ s' !! i = Some h -> in_use h = true ->
    MkEventInfo SEND_EVENT i ∈ events_ s -> known s' i h) ->
  (forall i h, handles_ s' !! i = Some h -> in_use h = true -> handle h ∈ multi s -> known s' i h) ->
  (forall i h, handles_ s' !! i = Some h -> in_use h = true ->
    handle h ∈ to_complete (worker s) -> known s' i h) ->
  (forall i h, handles_ s' !! i = Some h -> in_use h = true -> worker_at (worker s) = Some i -> known s' i h) ->
  Known s'.
Proof.
  intros H Hh Hc He Hm Hw Ha i h' E Hu. destruct (Hh i h' E Hu) as [?|(h & Eh & Huh & Ehd)]; [done|].
  destruct (H i h Eh Huh) as [(t & c & Et & Hi) | [Hev | [Hmu | [Hto | Hat]]]]; rewrite ?Ehd in *; auto.
  destruct (Hc t c Et i Hi) as [?|?]; [by left|by right; left].
Qed.

(** The common case: only the worker, the events or quiet members change. *)
Definition same_requests (l l' : list RequestHandle) : Prop :=
  forall i h', l' !! i = Some h' -> in_use h' = true ->
    exists h, l !! i = Some h /\ in_use h = true /\ handle h = handle h'.

Lemma same_requests_refl l : same_requests l l.
Proof. intros i h E Hu. eauto. Qed.

Lemma same_requests_alter f i l :
  (forall h, handle (f h) = handle h /\ (in_use (f h) = true -> in_use h = true)) -> same_requests l (alter f i l).
Proof.
  intros Hf j h' (h & E & ->)%list_lookup_alter_Some Hu. destruct (Hf h) as [Eh Ei].
  exists h. case_bool_decide; rewrite ?Eh; auto.
Qed.

Lemma known_grow s s' :
  Known s -> same_requests (handles_ s) (handles_ s') ->
  callers s' = callers s -> (forall e, e ∈ events_ s -> e ∈ events_ s') ->
  multi s ⊆ multi s' -> (forall p, p ∈ to_complete (worker s) -> p ∈ to_complete (worker s')) ->
  (forall i, worker_at (worker s) = Some i -> worker_at (worker s') = Some i) -> Known s'.
Proof.
  intros H Hh Hc He Hm Hw Ha. eapply known_step; [done|..]; unfold known; rewrite ?Hc; eauto 8.
Qed.

Lemma in_use_released i j (l : list RequestHandle) h :
  alter released i l !! j = Some h -> in_use h = true -> j <> i /\ l !! j = Some h.
Proof.
  intros (h' & E & ->)%list_lookup_alter_Some. case_bool_decide as Eij; [done|]. intros _. by split.
Qed.

(** The worker releases the handle it is at, or that of the curl handle it completes. *)
Lemma known_release s i h w :
  Inv s -> Known s -> handles_ s !! i = Some h -> in_use h = true ->
  (forall p, p ∈ to_complete (worker s) -> p = handle h \/ p ∈ to_complete w) ->
  (forall j, worker_at (worker s) = Some j -> j = i) ->
  Known (with_worker w (ReleaseHandleUnlocked i s)).
Proof.
  intros HI H Ei Hu Hw Ha. eapply known_step; [done|..]; unfold known; cbn.
  - intros j h' E0 Hu'. destruct (in_use_released _ _ _ _ E0 Hu') as [Hne E]. right. eauto.
  - intros t c Et j Hj. left. eauto.
  - auto.
  - auto.
  - intros j h' E0 Hu' Hp. destruct (in_use_released _ _ _ _ E0 Hu') as [Hne E].
    destruct (Hw _ Hp) as [Eh|?]; [|auto]. exfalso. apply Hne.
    eapply (po_distinct _ _ (iv_ptrs _ HI)); [done..|]. rewrite Eh. by eapply (po_used _ _ (iv_ptrs _ HI)).
  - intros j h' E0 Hu' Hat. destruct (in_use_released _ _ _ _ E0 Hu') as [Hne E]. by destruct (Hne (Ha j Hat)).
Qed.

Lemma known_resume k s : Known s -> (forall p, p ∈ to_complete (worker s) -> p ∈ continued k) ->
  worker_at (worker s) = None -> Known (resume k s).
Proof.
  intros H Hw Ha. eapply known_grow; try done; [apply same_requests_refl| |by rewrite Ha].
  intros p Hp%Hw. by destruct k.
Qed.

Lemma known_CompleteMessage p result k s s' :
  Inv s -> Known s -> worker s = Completing p result k ->
  CompleteMessage p result k s = Some s' -> Known s'.
Proof.
  intros HI H Ew. unfold CompleteMessage. destruct (GetHandleIndex p s) as [i|] eqn:Ei.
  - apply index_Some in Ei as (h & Ei & Hu & Eh). rewrite Ei. cbn [mbind option_bind].
    assert (forall w, (forall q, q ∈ continued k -> q ∈ to_complete w) ->
      Known (with_worker w (ReleaseHandleUnlocked i s))) as Hrel.
    { intros w Hw. eapply (known_release s i h); try done; rewrite ?Ew; cbn; [|done].
      intros q [->|Hq]%elem_of_cons; [by left|right; auto]. }
    destruct (cancelled h); [intros [= <-]; by apply Hrel|].
    destruct (callback h); intros [= <-].
    + eapply known_step; [done|..]; unfold known; cbn; eauto 8; rewrite Ew; cbn; [|done].
      intros j h' E Hu' [Ej|Hq]%elem_of_cons; [|auto].
      right; right; right; right. f_equal. rewrite <- Ej in Eh. symmetry.
      eapply (po_distinct _ _ (iv_ptrs _ HI)); eauto. by eapply (po_used _ _ (iv_ptrs _ HI)).
    + apply Hrel. by destruct k.
  - intros [= <-]. eapply known_step; [done|..]; unfold known; cbn; eauto 8; rewrite Ew; cbn; [|done].
    intros j h' E Hu' [Ej|Hq]%elem_of_cons.
    + pose proof (find_handle_None _ _ _ _ Ei E) as Hn. cbn in Hn. rewrite Hu', Ej in Hn.
      by rewrite bool_decide_true in Hn.
    + right; right; right; left. destruct k; cbn in *; try done; by apply not_elem_of_nil in Hq.
Qed.

Lemma known_pop_event msgs res s s' :
  Inv s -> Known s -> worker s = Events msgs -> pop_event msgs res s = Some s' -> Known s'.
Proof.
  intros HI H Ew. unfold pop_event. rewrite (inv_started _ HI), Ew. cbn [running negb].
  destruct (events_ s) as [|[type i] es] eqn:Ees.
  { intros [= <-]. eapply known_grow; try done; [apply same_requests_refl|..]; by rewrite Ew. }
  destruct (handles_ s !! i) as [h|] eqn:Ei; [|done]. cbn [mbind option_bind].
  assert (forall w m, (forall q, q ∈ multi s -> q = handle h \/ q ∈ m) ->
    (forall q, q ∈ msgs -> q ∈ to_complete w) ->
    (in_use h = true -> type = SEND_EVENT -> handle h ∈ m \/ handle h ∈ to_complete w) ->
    (in_use h = true -> handle h ∈ m \/ handle h ∈ to_complete w \/ handle h ∉ multi s) ->
    Known (with_worker w (with_multi m (with_events es s)))) as Hpop.
  { intros w m Hm Hw Hs Hc.
    assert (forall j h', handles_ s !! j = Some h' -> in_use h' = true -> handle h' = handle h -> j = i) as Hi.
    { intros j h' Ej Hu' Eh. eapply (po_distinct _ _ (iv_ptrs _ HI)); eauto. by eapply (po_used _ _ (iv_ptrs _ HI)). }
    eapply known_step; [done|..]; unfold known; cbn; eauto 8; rewrite ?Ew, ?Ees; cbn; try done.
    - intros j h' Ej Hu' [[= Etype ->]|?]%elem_of_cons; [|auto].
      rewrite Ei in Ej. injection Ej as <-. destruct (Hs Hu' (eq_sym Etype)); auto.
    - intros j h' Ej Hu' Hp. destruct (Hm _ Hp) as [Eh|?]; [|auto].
      pose proof (Hi _ _ Ej Hu' Eh) as ->. rewrite Ei in Ej. injection Ej as <-.
      destruct (Hc Hu') as [?|[?|?]]; auto. done.
    - intros j h' Ej Hu' Hp. auto 6. }
  destruct (in_use h) eqn:Hu; cbn [negb].
  2:{ intros [= <-]. change (with_events es s) with (with_multi (multi s) (with_events es s)).
      apply Hpop; try done. by right. }
  destruct type.
  - destruct (add_allowed _ _ _) eqn:Eadd; [|done]. cbn [negb]. destruct (added res); intros [= <-].
    + apply Hpop; cbn; [set_solver|done| |]; intros; left; set_solver.
    + change (with_events es s) with (with_multi (multi s) (with_events es s)).
      apply Hpop; cbn; [by right|set_solver| |]; intros; right; set_solver.
  - intros [= <-]. unfold curl_multi_remove_handle. apply Hpop; cbn; [|set_solver|done|].
    + intros q Hq. destruct (decide (q = handle h)); [by left|right; set_solver].
    + intros _. right. left. set_solver.
Qed.

Lemma known_decide strerror i result cb k t s s' :
  Known s -> worker s = Deciding i result cb k ->
  decide_completion platform strerror i result cb k t s = Some s' -> Known s'.
Proof.
  intros H Ew E. unfold decide_completion in E. simplify_option_eq.
  destruct (completion _ _ _ _ _) as [st err]. repeat case_match; simplify_eq;
    (eapply known_grow; [done| |done|done|done|..]; rewrite ?Ew; cbn; try done;
     first [apply same_requests_refl | by apply same_requests_alter]).
Qed.

Lemma known_receive s s' :
  Known s -> worker s = Performing -> worker s' = Performing -> same_requests (handles_ s) (handles_ s') ->
  callers s' = callers s -> events_ s' = events_ s -> multi s' = multi s -> Known s'.
Proof.
  intros H Ew Ew' Hh Hc He Hm. eapply known_grow; try done; rewrite ?He, ?Hm, ?Ew, ?Ew'; done.
Qed.

Lemma known_header p ptr s s' :
  Known s -> worker s = Performing -> receive_header curl_getdate p ptr s = Some s' -> Known s'.
Proof.
  intros H Ew. unfold receive_header. intros E. simplify_option_eq.
  repeat case_match; simplify_eq; (eapply known_receive; [exact H | exact Ew | exact Ew | | done | done | done]);
    first [apply same_requests_refl | by apply same_requests_alter].
Qed.

Lemma known_data p status ptr s s' :
  Known s -> worker s = Performing -> receive_data p status ptr s = Some s' -> Known s'.
Proof.
  intros H Ew. unfold receive_data. intros E. simplify_option_eq.
  match type of E with (let '(_, _) := ?e in _) = _ => destruct e as [[r stream] calls] end.
  repeat case_match; simplify_eq; (eapply known_receive; [exact H | exact Ew | exact Ew | | done | done | done]);
    by apply same_requests_alter.
Qed.

(** libcurl gives up a curl handle that the worker then completes. *)
Lemma known_complete s p result k :
  Known s -> worker_at (worker s) = None ->
  (forall q, q ∈ to_complete (worker s) -> q = p \/ q ∈ continued k) ->
  Known (with_worker (Completing p result k) (curl_multi_remove_handle p s)).
Proof.
  intros H Ha Hw. eapply known_step; [done|..]; unfold known; cbn; eauto 8; rewrite ?Ha; try done.
  - intros i h E Hu Hp. destruct (decide (handle h = p)) as [->|]; [right; right; right; left; set_solver|].
    right; right; left. set_solver.
  - intros i h E Hu Hp. right; right; right; left. destruct (Hw _ Hp) as [->|]; set_solver.
Qed.

Lemma known_lose p lost ok s s' :
  Known s -> worker s = Losing (p :: lost) -> lose p lost ok s = Some s' -> Known s'.
Proof.
  intros H Ew. unfold lose. destruct ok.
  - intros [= <-]. apply known_complete; rewrite ?Ew; cbn; set_solver.
  - destruct (GetHandleIndex p s) as [i|].
    + intros E. simplify_option_eq.
      match goal with |- context [callback ?h] => destruct (callback h) end;
        (eapply known_grow; rewrite ?Ew; try done; apply same_requests_refl).
    + intros [= <-]. eapply known_grow; try done; rewrite ?Ew; try done. apply same_requests_refl.
Qed.

Lemma known_sweep now s : Inv s -> Known s -> worker s = Sweeping -> Known (with_worker Top (sweep now s)).
Proof.
  intros HI H Ew. set (f := fun i h => if unused now i h then with_handle 0 h else h).
  assert (forall i h, imap f (handles_ s) !! i = Some h -> in_use h = true ->
    handles_ s !! i = Some h /\ unused now i h = false) as Hs.
  { intros i h. rewrite list_lookup_imap. intros (h' & E & ->)%fmap_Some Hu. unfold f in *.
    destruct (unused now i h') eqn:Eun; [|done]. apply unused_spec in Eun as [_ Eun]. cbn in Hu. congruence. }
  eapply known_step; [done|..]; unfold known; cbn -[filter]; fold f; rewrite ?Ew; eauto 8; try done.
  - intros i h E0 Hu. destruct (Hs _ _ E0 Hu) as [E _]. eauto.
  - intros i h E0 Hu Hp. destruct (Hs _ _ E0 Hu) as [E Hun]. right; right; left.
    apply elem_of_difference. split; [done|]. intros (j & h2 & Ej & Hun2 & Eh)%elem_closed.
    assert (i = j) as <-; [|congruence].
    eapply (po_distinct _ _ (iv_ptrs _ HI)); eauto. by eapply (po_used _ _ (iv_ptrs _ HI)).
Qed.

Lemma known_worker s s' :
  Inv s -> Known s -> worker_step s = Some s' -> aborted s' = false -> Known s'.
Proof.
  intros HI H. unfold worker_step. pose proof (iv_lawful _ HI) as Hl. pose proof (iv_at _ HI) as Hat.
  destruct (worker s) as [| | |msgs|[|p msgs]|p result k|i result cb k|i k|i response cb k|[cb|] response k| |completed| |
    |[|p lost]|i lost| | |[|[]]|] eqn:Ew; try done.
  - intros [= <-] _. eapply known_grow; try done; [apply same_requests_refl|..]; rewrite Ew; by repeat case_match.
  - rewrite (inv_started _ HI), Ew. intros [= <-] _.
    eapply known_grow; try done; [apply same_requests_refl|..]; rewrite Ew; by repeat case_match.
  - intros [= <-] _. eapply known_grow; try done; [apply same_requests_refl|..]; rewrite Ew; by repeat case_match.
  - intros [= <-] _. eapply known_grow; try done; [apply same_requests_refl|..]; rewrite Ew; by repeat case_match.
  - intros E _. by eapply known_CompleteMessage.
  - intros [= <-] _. eapply known_step; [done|..]; unfold known, resume; cbn; rewrite ?Ew; cbn; eauto 8.
    + intros j h' _ _ Hj. right; left. apply elem_of_app. by left.
    + intros j h' _ _ Hp. right; right; right; left. by destruct k.
    + intros j h' _ _ [= <-]. right; left. apply elem_of_app. right. constructor.
  - destruct Hat as (h & Ei & Hu & _). intros [= <-] _. eapply (known_release s i h); rewrite ?Ew; try done.
    + by right.
    + by intros j [= <-].
  - intros [= <-] _. unfold resume.
    eapply known_grow; try done; [apply same_requests_refl| |by rewrite Ew]. rewrite Ew. by destruct k.
  - intros [= <-] Hab. by destruct k.
  - intros [= <-] _. eapply known_grow; try done; [apply same_requests_refl|..]; rewrite Ew; by repeat case_match.
  - intros [= <-] _. eapply known_grow; try done; [apply same_requests_refl|..]; rewrite Ew; by repeat case_match.
  - intros [= <-] _. eapply known_grow; try done; [apply same_requests_refl|..]; rewrite Ew; by repeat case_match.
  - destruct Hat as (h & Ei & Hu). intros [= <-] _. eapply (known_release s i h); rewrite ?Ew; try done.
    + cbn. set_solver.
    + by intros j [= <-].
Qed.

(** *** The threads *)

(** A thread that holds no handle moves to a place without one. *)
Lemma known_thread s s' t :
  Known s -> (forall c i, callers s !! t = Some c -> ~ holds c i) ->
  (forall t', t <> t' -> callers s' !! t' = callers s !! t') ->
  same_requests (handles_ s) (handles_ s') -> (forall e, e ∈ events_ s -> e ∈ events_ s') ->
  multi s' = multi s -> worker s' = worker s -> Known s'.
Proof.
  intros H Ht Hc Hh He Hm Hw. eapply known_step; [done|..]; unfold known; rewrite ?Hm, ?Hw; eauto 8.
  intros t' c Et i Hi. left. exists t', c. split; [|done]. rewrite Hc; [done|]. intros <-. by eapply Ht.
Qed.

(** A thread keeps its handle, or announces it. *)
Lemma known_holder s s' t c i :
  Known s -> callers s !! t = Some c -> holds c i ->
  (forall j, holds c j -> j = i) ->
  (exists c', callers s' !! t = Some c' /\ holds c' i) \/ MkEventInfo SEND_EVENT i ∈ events_ s' ->
  (forall t', t <> t' -> callers s' !! t' = callers s !! t') ->
  same_requests (handles_ s) (handles_ s') -> (forall e, e ∈ events_ s -> e ∈ events_ s') ->
  multi s' = multi s -> worker s' = worker s -> Known s'.
Proof.
  intros H Et Hi Huniq Hk Hc Hh He Hm Hw. eapply known_step; [done|..]; unfold known; rewrite ?Hm, ?Hw; eauto 8.
  intros t' c' Et' j Hj. destruct (decide (t = t')) as [<-|Hne].
  - rewrite Et in Et'. injection Et' as <-. rewrite (Huniq _ Hj). destruct Hk as [(c' & ? & ?)|?]; eauto.
  - left. exists t', c'. by rewrite Hc.
Qed.

Lemma known_caller_step t s s' : Inv s -> Known s -> caller_step t s = Some s' -> Known s'.
Proof.
  intros HI H. unfold caller_step, Initialized. rewrite (inv_started _ HI).
  destruct (callers s !! t) as [c|] eqn:Et; [|done].
  pose proof (inv_running _ t c HI Et) as Hrun.
  assert (forall c', (forall i, holds c i -> False) ->
    forall s1, callers s1 = callers s -> handles_ s1 = handles_ s -> events_ s1 = events_ s ->
    multi s1 = multi s -> worker s1 = worker s -> Known (with_caller t c' s1)) as Hmove.
  { intros c' Hno s1 Ec Eh Ee Em Ew. eapply (known_thread s _ t); cbn; rewrite ?Ec, ?Eh, ?Ee, ?Em, ?Ew; try done.
    - intros c1 i E1. rewrite Et in E1. injection E1 as <-. exact (Hno i).
    - intros t' Hne. by rewrite lookup_insert_ne.
    - apply same_requests_refl. }
  destruct c; try done; try specialize (Hrun eq_refl).
  - intros [= <-]. by apply Hmove.
  - intros [= <-]. by apply Hmove.
  - destruct (_ && _); [|done]. intros [= <-]. by apply Hmove.
  - destruct (event_locked s); [done|]. intros [= <-]. by apply Hmove.
  - rewrite Hrun. intros [= <-]. by apply Hmove.
  - rewrite Hrun. intros [= <-]. by apply Hmove.
  - rewrite Hrun. intros [= <-]. eapply (known_holder s _ t _ i); try done.
    + left. eexists. cbn. by rewrite lookup_insert_eq.
    + intros t' Hne. cbn. by rewrite lookup_insert_ne.
    + apply same_requests_refl.
  - destruct (event_locked s); [done|]. intros [= <-]. eapply (known_holder s _ t _ i); try done.
    + right. cbn. set_solver.
    + intros t' Hne. cbn. by rewrite lookup_delete_ne.
    + apply same_requests_refl.
    + cbn. set_solver.
  - destruct (event_locked s); [done|]. intros [= <-]. eapply (known_thread s _ t); try done.
    + intros c1 i E1. rewrite Et in E1. injection E1 as <-. by intros [].
    + intros t' Hne. unfold CancelLocked. destruct (find_handle _ _); cbn; by rewrite lookup_delete_ne.
    + unfold CancelLocked. destruct (find_handle _ _); [|apply same_requests_refl]. by apply same_requests_alter.
    + unfold CancelLocked. destruct (find_handle _ _); cbn; set_solver.
    + unfold CancelLocked. by destruct (find_handle _ _).
    + unfold CancelLocked. by destruct (find_handle _ _).
Qed.

Lemma known_GetHandle t r a id now ptr s s' :
  Known s -> callers s !! t = Some (Searching r a id) -> GetHandle t r a id now ptr s = Some s' -> Known s'.
Proof.
  intros H Et. unfold GetHandle.
  assert (forall e o, Known (return_ t o (with_easy e s))) as Hret.
  { intros e o. eapply (known_thread s _ t); try done.
    - intros c i E. rewrite Et in E. injection E as <-. by intros [].
    - intros t' Hne. cbn. by rewrite lookup_delete_ne.
    - apply same_requests_refl. }
  destruct (find_handle _ _) as [i|]; [|intros [= <-]; apply (Hret (easy s))].
  assert (forall p e, Known (with_caller t (Configuring r id i) (log_event (Taken (arg_callback a) (s32 id))
          (update i (allocated (s32 id) now p a) (with_easy e s))))) as Htake.
  { intros p e. eapply known_step; [done|..]; unfold known; cbn; eauto 8.
    - intros j h' (h & Ej & ->)%list_lookup_alter_Some Hu. case_bool_decide as Eij; subst.
      + left. left. exists t, (Configuring r id j). by rewrite lookup_insert_eq.
      + right. eauto.
    - intros t' c E j Hj. left. exists t', c. split; [|done]. rewrite lookup_insert_ne; [done|].
      intros <-. rewrite Et in E. by injection E as <-. }
  destruct (_ =? 0)%nat; [|intros [= <-]; apply (Htake _ (easy s))].
  unfold curl_easy_init. case_bool_decide as Ez; [subst; intros [= <-]; apply (Hret (easy s))|].
  case_bool_decide; [done|]. cbn [mbind option_bind].
  replace (ptr =? 0)%nat with false by (symmetry; by apply Nat.eqb_neq). intros [= <-]. apply Htake.
Qed.

Lemma known_Configure t r id i s :
  Known s -> callers s !! t = Some (Configuring r id i) ->
  Known (Configure platform t r id i true s).
Proof.
  intros H Et. unfold Configure.
  assert (forall os p, Known (with_caller t (Announcing id i) (curl_easy_setopt p os
    (curl_easy_setopt (handle_of (update i (configured r) s) i)
      (first_options r match handles_ (update i (configured r) s) !! i with Some h => chunk h | None => [] end)
      (update i (configured r) s))))) as Hk.
  { intros os p. eapply (known_holder s _ t _ i); try done.
    - left. eexists. cbn. by rewrite lookup_insert_eq.
    - intros t' Hne. cbn. by rewrite lookup_insert_ne.
    - by apply same_requests_alter. }
  destruct (ca_option platform); apply Hk.
Qed.

Lemma known_Setup t r a pipe_ok multi_ok ptrs s s' :
  Inv s -> Known s -> callers s !! t = Some (Locking r a) ->
  Setup t r a pipe_ok multi_ok ptrs s = Some s' -> aborted s' = false -> Known s'.
Proof.
  intros HI H Et. unfold Setup. destruct (init_mutex_ s); [done|].
  assert (forall e, Known (log_event e (finish t s))) as Hret.
  { intros e. eapply (known_thread s _ t); try done.
    - intros c i E. rewrite Et in E. injection E as <-. by intros [].
    - intros t' Hne. cbn. by rewrite lookup_delete_ne.
    - apply same_requests_refl. }
  destruct (_ || _); [intros [= <-] _; apply Hret|]. destruct (hooked s); [|intros [= <-] _; apply Hret].
  cbn [negb]. case_bool_decide; [|done]. destruct (curl_easy_inits _ _) as [s1|] eqn:E1; [|done].
  cbn [mbind option_bind]. unfold start_thread. case_match; intros [= <-] Hab; [done|].
  intros i h. cbn. unfold setup_handles. rewrite list_lookup_imap. intros (h' & _ & ->)%fmap_Some. done.
Qed.

Lemma known_run_step l s s' :
  Inv s -> Known s -> accepting l -> step l s = Some s' -> aborted s' = false -> Known s'.
Proof.
  intros HI H [Hdoc Hacc]. unfold NetworkCurl.step. destruct (aborted s); [done|].
  assert (forall t c, enter t c s = Some s' -> Known s') as Henter.
  { intros t c. unfold enter. case_bool_decide; [|done]. case_bool_decide as Et; [|done]. intros [= <-].
    eapply (known_thread s _ t); try done; [by rewrite Et|..].
    - intros t' Hne. cbn. by rewrite lookup_insert_ne.
    - apply same_requests_refl. }
  destruct l; cbn [choose_step].
  - intros E _. by eapply Henter.
  - destruct (IsStarted s); [|by intros [= <-]]. intros E _. by eapply Henter.
  - intros E _. by eapply known_caller_step.
  - destruct (callers s !! t) as [[]|] eqn:Et; try done. by eapply known_Setup.
  - destruct (callers s !! t) as [[]|] eqn:Et; try done. destruct (event_locked s); [done|].
    intros E _. by eapply known_GetHandle.
  - destruct (callers s !! t) as [[]|] eqn:Et; try done. cbn in Hacc. subst ca_ok. intros [= <-] _.
    by apply known_Configure.
  - destruct (worker_step s) as [s1|] eqn:E1; [|done]. cbn [mbind option_bind].
    intros [= E] Hab. pose proof (iv_lawful _ HI) as Hl. destruct (worker s) eqn:Ew; subst s'; try done;
      eapply known_worker; rewrite ?E1; done.
  - destruct (worker s) eqn:Ew; try done. intros E _. by eapply known_pop_event.
  - destruct (worker s) eqn:Ew; try done. intros E _. by eapply known_decide.
  - destruct (worker s) eqn:Ew; try done. intros E _. by eapply known_header.
  - destruct (worker s) eqn:Ew; try done. intros E _. by eapply known_data.
  - destruct (worker s) eqn:Ew; try done. destruct done as [result|]; [|done]. unfold read_message.
    case_match; [done|]. intros [= <-] _. apply known_complete; rewrite ?Ew; cbn; set_solver.
  - destruct (worker s) eqn:Ew; try done. intros [= <-] _.
    eapply known_grow; try done; [apply same_requests_refl|..]; rewrite Ew; cbn; by repeat case_match.
  - destruct (worker s) as [| | | | | | | | | | | | | |[|]| | | | |] eqn:Ew; try done. intros E _. by eapply known_lose.
  - destruct (worker s) eqn:Ew; try done. intros [= <-] _. by apply known_sweep.
  - unfold drop_pointer. case_match; [|done]. pose proof (iv_lawful _ HI) as Hl.
    assert (IsStarted s = running (worker s)) as Est by by apply inv_started.
    intros [= <-] Hab. unfold destructor, Deinitialize in *. rewrite Est in *.
    destruct (worker s) eqn:Ew; cbn in *; repeat case_match; try done;
      (eapply known_grow; try done; [apply same_requests_refl|..]; cbn; by rewrite Ew).
  - destruct (owner s) eqn:Eo; try done. by destruct (iv_owner _ HI).
Qed.

(** ** Accepted requests have a handle *)

Definition granted_id (c : Caller) : option Z :=
  match c with Configuring _ id _ | Announcing id _ | Pushing id _ => Some id | _ => None end.

Definition has_handle (s : Network) (id : Z) : Prop := exists cb, Taken cb (s32 id) ∈ log s.

Definition Granted (s : Network) : Prop :=
  (forall t c id, callers s !! t = Some c -> granted_id c = Some id -> has_handle s id) /\
  (forall t id, Returned t (SendOutcome_id id) ∈ log s -> has_handle s id).

(** An event that accepts no request. *)
Definition accepts_none (e : Event) : Prop := forall t id, e <> Returned t (SendOutcome_id id).

(** What the worker does to the calls and the log. *)
Definition appends (s s' : Network) : Prop :=
  callers s' = callers s /\ (log s' = log s \/ exists e, log s' = log s ++ [e] /\ accepts_none e).

Lemma appends_granted s s' : appends s s' -> Granted s -> Granted s'.
Proof.
  intros [Hc Hl] [H1 H2]. assert (forall id, has_handle s id -> has_handle s' id) as Hmono.
  { intros id [cb Hcb]. exists cb. destruct Hl as [-> | (e & -> & _)]; [done|]. apply elem_of_app. by left. }
  split.
  - intros t c id. rewrite Hc. eauto.
  - intros t id Hin. apply Hmono. destruct Hl as [Hl | (e & Hl & He)]; rewrite Hl in Hin; [by eapply H2|].
    apply elem_of_app in Hin as [Hin|Hin]; [by eapply H2|]. apply list_elem_of_singleton in Hin.
    by destruct (He t id).
Qed.

Ltac appends_tac :=
  repeat first [progress simplify_option_eq | case_match]; simplify_eq;
  (split; [done|]; cbn; first [by left | right; eexists; split; [reflexivity|intros ??; discriminate]]).

Lemma appends_worker s s' : worker_step s = Some s' -> appends s s'.
Proof.
  unfold worker_step, CompleteMessage, resume, call. intros E.
  destruct (worker s) as [| | |msgs|[|p msgs]|p result k|i result cb k|i k|i response cb k|[cb|] response k| |completed| |
    |[|p lost]|i lost| | |[|[id [cb|]]]|]; appends_tac.
Qed.

Lemma appends_step l s s' :
  step l s = Some s' ->
  match l with Send _ _ _ | Cancel _ _ | Caller_ _ | Caller_setup _ _ _ _ | Caller_handle _ _ _
             | Caller_options _ _ => True
  | _ => appends s s' end.
Proof.
  unfold NetworkCurl.step. destruct (aborted s); [done|]. destruct l; cbn [choose_step]; try done; intros E.
  - destruct (worker_step s) as [s1|] eqn:E1; [|done]. apply appends_worker in E1. cbn in E.
    injection E as <-. destruct E1 as [Ec El]. unfold leave_run, destructor, Deinitialize.
    destruct (worker s), (owner s1); try done; repeat case_match; done.
  - unfold pop_event in E. destruct (worker s); appends_tac.
  - unfold decide_completion in E. destruct (worker s); appends_tac.
  - unfold receive_header in E. destruct (worker s); appends_tac.
  - unfold receive_data in E. destruct (worker s); appends_tac.
  - unfold read_message in E. destruct (worker s); appends_tac.
  - destruct (worker s); appends_tac.
  - unfold lose in E. destruct (worker s) as [| | | | | | | | | | | | | |[|]| | | | |]; appends_tac.
  - destruct (worker s); appends_tac.
  - unfold drop_pointer, destructor, Deinitialize in E. appends_tac.
  - appends_tac.
Qed.

(** A thread goes on, or returns, with the id it had. *)
Lemma granted_caller s s' t (c' : option Caller) es :
  Granted s -> callers s' = partial_alter (fun _ => c') t (callers s) -> log s' = log s ++ es ->
  (forall c id, c' = Some c -> granted_id c = Some id -> has_handle s' id) ->
  (forall t id, Returned t (SendOutcome_id id) ∈ es -> has_handle s' id) -> Granted s'.
Proof.
  intros [H1 H2] Hc Hl Hid Hret. assert (forall id, has_handle s id -> has_handle s' id) as Hmono.
  { intros id [cb Hcb]. exists cb. rewrite Hl. apply elem_of_app. by left. }
  split.
  - intros t' c id. rewrite Hc. destruct (decide (t = t')) as [<-|Hne].
    + rewrite lookup_partial_alter_eq. intros -> Hg. by eapply Hid.
    + rewrite lookup_partial_alter_ne by done. eauto.
  - intros t' id. rewrite Hl, elem_of_app. intros [?|?]; eauto.
Qed.

Lemma granted_return s s' t o :
  Granted s -> callers s' = callers (finish t s) -> log s' = log s ++ [Returned t o] ->
  (forall id, o = SendOutcome_id id -> has_handle s id) -> Granted s'.
Proof.
  intros H Hc Hl Ho. eapply (granted_caller s s' t None); [done..|]. intros t' id Hin.
  apply list_elem_of_singleton in Hin. injection Hin as _ Eo. destruct (Ho id (eq_sym Eo)) as [cb Hcb]. exists cb.
  rewrite Hl. apply elem_of_app. by left.
Qed.

Lemma granted_move s s' t c :
  Granted s -> callers s' = <[t := c]> (callers s) -> log s' = log s ->
  (forall id, granted_id c = Some id -> has_handle s id) -> Granted s'.
Proof.
  intros H Hc Hl Ho. eapply (granted_caller s s' t (Some c) []); [done|done|by rewrite app_nil_r| |].
  - intros c' id [= <-] Hg. destruct (Ho id Hg) as [cb Hcb]. exists cb. by rewrite Hl.
  - intros t' id Hin. by apply not_elem_of_nil in Hin.
Qed.

Lemma granted_same s s' : Granted s -> callers s' = callers s -> log s' = log s -> Granted s'.
Proof. intros H Hc Hl. eapply appends_granted, H. split; auto. Qed.

Lemma granted_step l s s' : Granted s -> step l s = Some s' -> Granted s'.
Proof.
  intros H E. pose proof (appends_step _ _ _ E) as Ha. pose proof H as [H1 _].
  assert (forall t c, enter t c s = Some s' -> granted_id c = None -> Granted s') as Henter.
  { intros t c. unfold enter. destruct (_ && _); [|done]. intros [= <-] Hc.
    eapply (granted_move s _ t c); try done. intros id. by rewrite Hc. }
  unfold NetworkCurl.step in E. destruct (aborted s); [done|].
  destruct l; cbn [choose_step] in E; try (by eapply appends_granted); clear Ha.
  - by eapply Henter.
  - destruct (IsStarted s); [by eapply Henter|by injection E as <-].
  - unfold caller_step in E. destruct (callers s !! t) as [[]|] eqn:Et;
      repeat first [progress simplify_option_eq | case_match];
      try (eapply (granted_move s _ t); [done|reflexivity|done|cbn; repeat case_match; done]);
      try (eapply (granted_return s _ t); [done|reflexivity|reflexivity|intros ? [=]]).
    + eapply (granted_move s _ t); [done|reflexivity|done|]. intros id' Hid. by apply (H1 t _ id' Et).
    + subst. by eapply (H1 t _ _ Et).
    + unfold CancelLocked. eapply (granted_caller s _ t None []); try done.
      * by destruct (find_handle _ _).
      * rewrite app_nil_r. by destruct (find_handle _ _).
      * intros ? ? Hin. by apply not_elem_of_nil in Hin.
  - destruct (callers s !! t) as [[]|] eqn:Et; try done. unfold Setup in E.
    destruct (init_mutex_ s); [done|]. destruct (_ || _); [injection E as <-|destruct (hooked s); cbn [negb] in E].
    + eapply (granted_return s _ t); [done|reflexivity|reflexivity|intros ? [=]].
    + case_bool_decide; [|done]. destruct (curl_easy_inits _ _) as [s1|] eqn:E1; [|done].
      apply curl_easy_inits_spec in E1 as (e & -> & _). injection E as <-. unfold start_thread.
      eapply (granted_move s _ t (Waiting r a)); try done; by destruct (thread_ _).
    + injection E as <-. eapply (granted_caller s _ t None); [done|reflexivity|reflexivity|done|].
      intros ? ? Hin. by apply list_elem_of_singleton in Hin.
  - destruct (callers s !! t) as [[]|] eqn:Et; try done. destruct (event_locked s); [done|].
    unfold GetHandle, curl_easy_init in E.
    assert (forall i p e, Granted (with_caller t (Configuring r id i) (log_event (Taken (arg_callback a) (s32 id))
          (update i (allocated (s32 id) now p a) (with_easy e s))))) as Htake.
    { intros i p e. eapply (granted_caller s _ t (Some (Configuring r id i))); [done|reflexivity|reflexivity| |].
      - intros c id' [= <-] [= <-]. exists (arg_callback a). cbn. apply elem_of_app. right. constructor.
      - intros ? ? Hin. by apply list_elem_of_singleton in Hin. }
    assert (Granted (return_ t (SendOutcome_error UNKNOWN_ERROR) s)) as Hret
      by (eapply (granted_return s _ t); [done|reflexivity|reflexivity|intros ? [=]]).
    destruct (find_handle _ _) as [i|]; [|by injection E as <-].
    destruct (_ =? 0)%nat; [|injection E as <-; apply (Htake _ _ (easy s))].
    case_bool_decide as Ez; [subst; by injection E as <-|]. case_bool_decide; [done|]. cbn in E.
    replace (ptr =? 0)%nat with false in E by (symmetry; by apply Nat.eqb_neq). injection E as <-. apply Htake.
  - destruct (callers s !! t) as [[]|] eqn:Et; try done. injection E as <-. unfold Configure.
    repeat case_match; try (by eapply (granted_return s _ t); [done|reflexivity|reflexivity|intros ? [=]]);
      (eapply (granted_move s _ t); [done|reflexivity|done|]; intros id' [= <-]; by eapply (H1 t _ _ Et)).
Qed.

(** ** What the clients may rely on *)

Lemma run_snoc_inv P ls s s' :
  (forall l s s', P s -> step l s = Some s' -> P s') -> P s -> run ls s = Some s' -> P s'.
Proof.
  intros Hstep. revert s. induction ls as [|l ls IH]; intros s H; [by intros [= <-]|].
  cbn. destruct (step l s) as [s1|] eqn:E1; [|done]. cbn [mbind option_bind]. apply IH. by eapply Hstep.
Qed.

Lemma known_run ls s s' :
  Inv s -> Known s -> Forall accepting ls -> run ls s = Some s' -> aborted s' = false -> Known s'.
Proof.
  revert s. induction ls as [|l ls IH]; intros s HI H Hd; [by intros [= <-]|].
  apply Forall_cons_1 in Hd as [Hl Hd]. cbn. destruct (step l s) as [s1|] eqn:E1; [|done].
  cbn [mbind option_bind]. intros E Hab.
  assert (aborted s1 = false) as Hab1.
  { destruct ls as [|l' ls]; [by injection E as ->|]. cbn in E.
    destruct (step l' s1) as [s2|] eqn:E2; [|done]. by eapply aborted_stays. }
  apply (IH s1); [|by eapply known_run_step|done..]. eapply inv_step; [done| |done..]. apply Hl.
Qed.

(** C7. As long as the process is not ended, in any interleaving of the threads, the worker and
    libcurl, the requests that got a handle are exactly those whose callbacks were called, the
    one that is being called and those that wait in a handle, each with its id: no callback is
    called twice, and none is lost. Every id that [Send] returned belongs to such a request,
    and no two handles share a curl handle. *)
Theorem curl_requests_answered_once hooked streams ls s :
  Forall documented ls -> run ls (initial hooked streams) = Some s -> aborted s = false ->
  taken s ≡ₚ called s ++ calling (worker s) ++ waiting s /\
  (forall t id, Returned t (SendOutcome_id id) ∈ log s -> exists cb, Taken cb (s32 id) ∈ log s) /\
  (forall i j h h', handles_ s !! i = Some h -> handles_ s !! j = Some h' ->
     handle h = handle h' -> handle h <> 0%nat -> i = j).
Proof.
  intros Hd E Hab.
  assert (Inv s) as HI by (eapply inv_run; [apply inv_initial|done..]).
  assert (Granted s) as [_ HG].
  { eapply (run_snoc_inv Granted); [apply granted_step| |done]. split; [done|].
    intros t id Hin. by apply not_elem_of_nil in Hin. }
  split_and!; [apply HI|exact HG|apply (po_distinct _ _ (iv_ptrs _ HI))].
Qed.

(** C8. If libcurl accepts the certificates, no request is stranded: one that waits for its
    answer is held by a thread that is about to announce it, or announced to the worker, or
    with libcurl, or the worker is about to complete it; when the threads and the worker
    have nothing to do, libcurl has all of them. *)
Theorem curl_requests_not_stranded hooked streams ls s i h :
  Forall accepting ls -> run ls (initial hooked streams) = Some s -> aborted s = false ->
  handles_ s !! i = Some h -> in_use h = true ->
  known s i h /\
  ((forall t c, callers s !! t = Some c -> ~ holds c i) -> events_ s = [] ->
   to_complete (worker s) = [] -> worker_at (worker s) = None -> handle h ∈ multi s).
Proof.
  intros Hd E Hab Ei Hu.
  assert (Known s) as HK.
  { eapply known_run; [apply inv_initial| |done..].
    intros j h' [-> _]%lookup_replicate Hu'. done. }
  pose proof (HK i h Ei Hu) as Hk. split; [done|]. intros Hc He Hw Ha.
  destruct Hk as [(t & c & Et & Hi) | [Hev | [Hmu | [Hto | Hat]]]]; [by destruct (Hc t c Et)| |done|..].
  - rewrite He in Hev. by apply not_elem_of_nil in Hev.
  - rewrite Hw in Hto. by apply not_elem_of_nil in Hto.
  - congruence.
Qed.

(** The worker is never told to stop: the worker itself keeps the network alive, and only the
    destructor stops it. *)
Lemma worker_never_stops hooked streams ls s :
  Forall documented ls -> run ls (initial hooked streams) = Some s -> aborted s = false ->
  state_ s <> STOPPING /\ match worker s with Leaving | Tearing _ | Stopping => False | _ => True end.
Proof.
  intros Hd E Hab. assert (Inv s) as HI by (eapply inv_run; [apply inv_initial|done..]).
  split; [|by pose proof (iv_lawful _ HI); destruct (worker s)].
  rewrite (iv_state _ HI). by destruct (running (worker s)).
Qed.

(** Without the hook of [shared_from_this] no worker is ever started. *)
Record Unhooked (s : Network) : Prop := {
  uh_hooked : hooked s = false; uh_state : state_ s = STOPPED; uh_worker : worker s = NoWorker;
  uh_callers : map_Forall (fun _ c => early c = true) (callers s); uh_owner : owner s <> Joining;
  uh_log : Forall accepts_none (log s) }.

Lemma unhooked_step l s s' : Unhooked s -> step l s = Some s' -> Unhooked s'.
Proof.
  intros [Hh Hs Hw Hc Ho Hl]. unfold NetworkCurl.step. destruct (aborted s); [done|].
  assert (forall t c, callers s !! t = Some c -> early c = true) as Hearly by (intros t c; apply Hc).
  assert (forall t c, early c = true -> Unhooked (with_caller t c s)) as Hcall.
  { intros t c Hec. constructor; try done. cbn. by apply map_Forall_insert_2. }
  assert (forall t e, accepts_none e -> Unhooked (log_event e (finish t s))) as Hret.
  { intros t e He. constructor; try done; cbn; [by apply map_Forall_delete|].
    apply Forall_app. split; [done|]. by constructor. }
  destruct l; cbn [choose_step]; rewrite ?Hw; try done.
  - unfold enter. destruct (_ && _); [|done]. intros [= <-]. by apply Hcall.
  - unfold IsStarted. rewrite Hs. intros [= <-]. by constructor.
  - unfold caller_step, Initialized, IsStarted. rewrite Hs. destruct (callers s !! t) as [c|] eqn:Et; [|done].
    pose proof (Hearly _ _ Et). destruct c; try done; intros [= <-]; by apply Hcall.
  - destruct (callers s !! t) as [[]|]; try done. unfold Setup. rewrite Hh.
    destruct (init_mutex_ s); [done|]. destruct (_ || _); intros [= <-]; apply Hret; intros ??; discriminate.
  - destruct (callers s !! t) as [[]|] eqn:Et; try done. by apply Hearly in Et.
  - destruct (callers s !! t) as [[]|] eqn:Et; try done. by apply Hearly in Et.
  - unfold worker_step. by rewrite Hw.
  - unfold drop_pointer. destruct (_ && _); [|done]. rewrite Hw. intros [= <-].
    unfold destructor, Deinitialize, IsStarted. rewrite Hs, (bool_decide_false (STOPPED = STARTED)) by done.
    cbn [negb]. by destruct (_ && _); constructor.
  - by destruct (owner s).
Qed.

(** A network that is not owned through a [shared_ptr] made of a [NetworkCurl], as the one that
    [CreateDefaultNetwork] makes, accepts no request. *)
Lemma unhooked_accepts_none streams ls s t id :
  run ls (initial false streams) = Some s -> Returned t (SendOutcome_id id) ∉ log s.
Proof.
  intros E Hin. assert (Unhooked s) as [_ _ _ _ _ Hl].
  { eapply (run_snoc_inv Unhooked); [apply unhooked_step| |done]. by constructor. }
  rewrite Forall_forall in Hl. by eapply (Hl _ Hin).
Qed.
End network.
