(* ===== verification/NetworkCurlExamples.v ===== *)
(** * The curl network on concrete inputs

    The theorems on the curl network applied to concrete requests and runs, and runs in which
    the network does not do what its clients expect. *)

From Stdlib Require Import ZArith Lia Bool Ascii QArith.
From stdpp Require Import base numbers strings list option gmap sets.
From S2P Require Import Prelude Decimal Http HttpTypes CurlHandle CurlReceptionFacts NetworkCurl NetworkCurlFacts NetworkCurlRequests.
Import HttpTypes.
Local Open Scope Z_scope.
Local Open Scope olp_scope.

(** ** Receiving *)

Definition curl_platform : Platform := MkPlatform 7 68 true (fun _ => true).
Definition no_date : text -> Z := fun _ => -1.
Definition no_error : CURLcode -> text := fun _ => str "error".

Definition receiver : RequestHandle :=
  with_retry_count 0 (configured (NewNetworkRequest (str "http://here.com"))
    (allocated 7 0 1 (MkSendArgs (Some 0%nat) (Some 1%nat) (Some 2%nat) (Some 3%nat))
      (initialized 1 default_RequestHandle))).

Abbreviation crlf := [char_of 13; char_of 10].

Lemma header_lines_understood_witness :
  exists line eol, line_and_end (str "cache-control: no-store, Max-Age=360" ++ crlf) line eol /\
    HeaderFunction no_date true (str "cache-control: no-store, Max-Age=360" ++ crlf) receiver =
    line_meaning no_date line receiver.
Proof.
  apply (header_lines_understood no_date true (str "cache-control: no-store, Max-Age=360" ++ crlf) receiver).
  vm_compute. reflexivity.
Defined.

(** Its effect; without the space [max-age] is still read, but the value has lost its first
    character. *)
Example max_age_read :
  line_meaning no_date (str "cache-control: no-store, Max-Age=360") receiver =
  Some (with_max_age 360 (reception receiver), Some (2%nat, str "cache-control", str "no-store, Max-Age=360")) /\
  line_meaning no_date (str "cache-control:max-age=360") receiver =
  Some (with_max_age 360 (reception receiver), Some (2%nat, str "cache-control", str "ax-age=360")).
Proof. by split. Qed.

Lemma body_is_delivered_witness :
  let chunks := [str "he"; str "llo"] in
  exists h' s',
    receive_body 200 chunks receiver (Some (MkOStream (str "abc") 3 true false)) =
      (h', Some s', match data_callback receiver with
                    | Some cb => data_calls cb (offset (reception receiver)) chunks
                    | None => []
                    end) /\
    bytes s' = concat chunks ++ drop (length (concat chunks)) (str "abc") /\
    ((length (str "abc") <= length (concat chunks))%nat -> bytes s' = concat chunks) /\
    receiving h' (length (concat chunks)).
Proof.
  intros chunks. apply (body_is_delivered 200 chunks receiver (str "abc") 3); by (constructor || vm_compute).
Defined.

Definition server_error : Attempt := (default_Reception, CURLE_OK, MkTransfer 503 None []).
Definition ok_answer : Attempt := (default_Reception, CURLE_OK, MkTransfer 200 None []).
Definition four_attempts : list Attempt := [server_error; server_error; ok_answer; ok_answer].

Lemma retries_bounded_witness :
  exists n response a,
    attempts curl_platform no_error four_attempts receiver = Some (S n, response) /\
    Z.of_nat n <= max_retries receiver - retry_count receiver /\
    four_attempts !! n = Some a /\ status_ response = attempt_status curl_platform no_error receiver a /\
    request_id_ response = u64 (handle_id receiver) /\
    (forall m a, (m < n)%nat -> four_attempts !! m = Some a ->
       failed_by_server (attempt_status curl_platform no_error receiver a) = true) /\
    (failed_by_server (attempt_status curl_platform no_error receiver a) = true ->
       Z.of_nat n = max_retries receiver - retry_count receiver).
Proof. apply (retries_bounded curl_platform no_error four_attempts receiver); vm_compute; by (done || split). Defined.

Example third_attempt :
  fst <$> attempts curl_platform no_error four_attempts receiver = Some 3%nat.
Proof. reflexivity. Qed.

(** The body of a failed attempt stays behind a shorter body of the next one. *)
Example old_body_remains :
  let '(h, s, _) := receive_body 503 [str "Service Unavailable"] receiver (Some (MkOStream [] 0 true false)) in
  let '(_, s, _) := receive_body 200 [str "OK"] (retried h) s in
  bytes <$> s = Some (str "OKrvice Unavailable").
Proof. reflexivity. Qed.

(** A header of the server that [std::stoi] rejects ends the process. *)
Example max_age_throws :
  HeaderFunction no_date true (str "Cache-Control: max-age=9999999999" ++ crlf) receiver = None /\
  HeaderFunction no_date true (str "Cache-Control: max-age=x" ++ crlf) receiver = None.
Proof. split; reflexivity. Qed.

(** The space after the colon is optional in HTTP, and the first character is lost without it. *)
Example first_character_lost :
  (fun r => (etag r.1, r.2)) <$> HeaderFunction no_date true (str "ETag:abcd" ++ crlf) receiver =
  Some (str "bcd", Some (2%nat, str "ETag", str "bcd")).
Proof. reflexivity. Qed.

(** ** Options *)

(** The certificate of the server is never verified. *)
Lemma certificates_not_verified p i r :
  CURLOPT_SSL_VERIFYPEER 0 ∈ last_options p i r /\ CURLOPT_SSL_VERIFYPEER 1 ∉ last_options p i r.
Proof.
  unfold last_options. split; [by left|]. rewrite !elem_of_app. cbn.
  intros [H|[H|[H|H]]]; repeat (apply elem_of_cons in H as [H|H]; [discriminate|]);
    try (by apply not_elem_of_nil in H); destruct (version_at_least _ _); cbn in H;
    repeat (apply elem_of_cons in H as [H|H]; [discriminate|]); by apply not_elem_of_nil in H.
Qed.

(** libcurl 8.0 to 8.24 is taken for one that is older than 7.25. *)
Example version_8_is_old :
  version_at_least (MkPlatform 8 9 true (fun _ => true)) 25 = false /\
  version_at_least (MkPlatform 7 25 true (fun _ => true)) 25 = true.
Proof. split; reflexivity. Qed.

(** ** Ids *)

(** An id is kept in an [int]: it comes back only if it fits one. *)
Lemma id_comes_back id : in_range 64 id ->
  request_id_ (WithRequestId (s32 id) default_NetworkResponse) = id <-> id < 2 ^ 31 \/ 2 ^ 64 - 2 ^ 31 <= id.
Proof.
  intros H. unfold in_range in H. cbn [request_id_ WithRequestId]. unfold swrap. cbv zeta.
  change (2 ^ (32 - 1)) with (2 ^ 31). unfold wrap.
  pose proof (Z.mod_pos_bound id (2 ^ 32) ltac:(lia)) as Hb. pose proof (Z.div_mod id (2 ^ 32) ltac:(lia)) as Hdm.
  destruct (Z.ltb_spec (id mod 2 ^ 32) (2 ^ 31)).
  - rewrite Z.mod_small by lia. lia.
  - rewrite <- (Z.mod_unique (id mod 2 ^ 32 - 2 ^ 32) (2 ^ 64) (-1) (id mod 2 ^ 32 - 2 ^ 32 + 2 ^ 64)) by lia.
    assert (0 <= id / 2 ^ 32 < 2 ^ 32) by (split; [apply Z.div_pos; lia | apply Z.div_lt_upper_bound; lia]).
    lia.
Qed.

(** [Cancel] finds no request with another id. *)
Lemma cancel_finds_nothing id s :
  Forall (fun h => in_use h = true -> handle_id h = s32 id) (handles_ s) -> in_range 64 id ->
  2 ^ 31 <= id < 2 ^ 64 - 2 ^ 31 -> CancelLocked id s = s.
Proof.
  intros Hl H64 Hid. unfold CancelLocked. destruct (find_handle _ _) as [i|] eqn:E; [|done].
  apply find_handle_Some in E as (h & Ei & [Hu Eid]%andb_true_iff). apply Z.eqb_eq in Eid.
  rewrite (Forall_lookup_1 _ _ _ _ Hl Ei Hu) in Eid. apply (id_comes_back id H64) in Eid. lia.
Qed.

(** ** Runs *)

Abbreviation run_curl := (run curl_platform no_date no_error).
Definition start : Network := initial true ∅.
(** The state after a run. *)
Definition after (ls : list Label) : Network := default start (run_curl ls start).
(** The statuses that the callbacks were called with. *)
Definition statuses (s : Network) : list (nat * Z) :=
  log s ≫= (fun e => match e with Called cb response => [(cb, status_ response)] | _ => [] end).
Definition outcomes (s : Network) : list (nat * SendOutcome) :=
  log s ≫= (fun e => match e with Returned t o => [(t, o)] | _ => [] end).

Definition get : NetworkRequest := NewNetworkRequest (str "http://here.com").
Definition args (cb : nat) : SendArgs := MkSendArgs None (Some cb) None None.

(** The first call starts the worker; later ones need no [Initialize]. *)
Definition initialize (t : nat) : list Label :=
  [Caller_ t; Caller_ t; Caller_setup t true true (seq 1 8); Worker_; Caller_ t].
Definition send (t cb : nat) (setup : list Label) : list Label :=
  Send t get (args cb) :: setup ++
  [Caller_ t; Caller_ t; Caller_ t; Caller_handle t 5 9; Caller_options t true; Caller_ t; Caller_ t].
Definition cancel (t : nat) (id : Z) : list Label := [Cancel t id; Caller_ t].

(** The worker takes one event, and has the transfer started. *)
Definition take_up : list Label := [Worker_; Worker_pop CURLM_OK; Worker_pop CURLM_OK; Worker_].
(** libcurl completes the transfer of the handle 1. *)
Definition complete (t : Transfer) : list Label :=
  [Worker_; Worker_message 1 (Some CURLE_OK); Worker_; Worker_decide t].
(** The rest of a turn of the worker's loop. *)
Definition turn : list Label :=
  [Worker_; Worker_select true true true 100 (fun _ => false); Worker_; Worker_sweep 100; Worker_].

Definition two_requests : list Label :=
  send 1 10 (initialize 1) ++ take_up ++ send 2 20 [Caller_ 2] ++
  complete (MkTransfer 200 None []) ++ [Worker_].

Example first_is_being_answered :
  called (after two_requests) = [] /\ calling (worker (after two_requests)) = [(1, 10%nat)] /\
  waiting (after two_requests) = [(2, 20%nat)] /\
  outcomes (after two_requests) = [(1%nat, SendOutcome_id 1); (2%nat, SendOutcome_id 2)].
Proof. vm_compute. split_and!; reflexivity. Qed.

Lemma curl_requests_answered_once_witness :
  taken (after two_requests) ≡ₚ
    called (after two_requests) ++ calling (worker (after two_requests)) ++ waiting (after two_requests) /\
  (forall t id, Returned t (SendOutcome_id id) ∈ log (after two_requests) ->
     exists cb, Taken cb (s32 id) ∈ log (after two_requests)) /\
  (forall i j h h', handles_ (after two_requests) !! i = Some h -> handles_ (after two_requests) !! j = Some h' ->
     handle h = handle h' -> handle h <> 0%nat -> i = j).
Proof.
  apply (curl_requests_answered_once curl_platform no_date no_error true ∅ two_requests (after two_requests));
    [repeat constructor | vm_compute; reflexivity | vm_compute; reflexivity].
Defined.

Definition second_handle : RequestHandle := default default_RequestHandle (handles_ (after two_requests) !! 1%nat).

Lemma curl_requests_not_stranded_witness :
  known (after two_requests) 1 second_handle /\
  ((forall t c, callers (after two_requests) !! t = Some c -> ~ holds c 1) -> events_ (after two_requests) = [] ->
   to_complete (worker (after two_requests)) = [] -> worker_at (worker (after two_requests)) = None ->
   handle second_handle ∈ multi (after two_requests)).
Proof.
  apply (curl_requests_not_stranded curl_platform no_date no_error true ∅ two_requests (after two_requests) 1
           second_handle);
    [repeat (constructor; [by split|]); constructor | vm_compute; reflexivity..].
Defined.

(** A second [Cancel] of a request is still queued when the handle is given to another request,
    which fails with a timeout before it is sent. *)
Example stale_cancel :
  let ls := send 1 10 (initialize 1) ++ take_up ++ cancel 3 1 ++ cancel 3 1 ++ [Worker_] ++ turn ++
            [Worker_pop CURLM_OK; Worker_] ++ send 2 20 [Caller_ 2] ++
            [Worker_; Worker_pop CURLM_OK; Worker_; Worker_decide (MkTransfer 0 None []); Worker_; Worker_] in
  outcomes (after ls) = [(1%nat, SendOutcome_id 1); (2%nat, SendOutcome_id 2)] /\
  statuses (after ls) = [(10%nat, error_value CANCELLED_ERROR); (20%nat, error_value TIMEOUT_ERROR)].
Proof. vm_compute. split; reflexivity. Qed.

(** A cancelled request whose callback is empty ends the process. *)
Example cancelled_without_callback :
  aborted (after (Send 1 get (MkSendArgs None None None None) :: initialize 1 ++
    [Caller_ 1; Caller_ 1; Caller_ 1; Caller_handle 1 5 9; Caller_options 1 true; Caller_ 1; Caller_ 1] ++
    take_up ++ cancel 1 1 ++ [Worker_] ++ turn ++ [Worker_pop CURLM_OK; Worker_; Worker_])) = true.
Proof. vm_compute. reflexivity. Qed.

(** Two threads that send first both pass the check of [Initialize]: the second assigns to a
    [std::thread] that is running, which ends the process. *)
Example concurrent_first_sends :
  aborted (after [Send 1 get (args 10); Send 2 get (args 20); Caller_ 1; Caller_ 2; Caller_ 1; Caller_ 2;
    Caller_setup 1 true true (seq 1 8); Worker_; Caller_ 1; Caller_setup 2 true true (seq 11 8)]) = true.
Proof. vm_compute. reflexivity. Qed.

(** If libcurl rejects the certificates, [Send] fails but the handle stays in use, and after 30
    seconds the callback of the failed call is called all the same. *)
Example rejected_certificates :
  let ls := Send 1 get (args 10) :: initialize 1 ++
    [Caller_ 1; Caller_ 1; Caller_ 1; Caller_handle 1 5 9; Caller_options 1 false;
     Worker_; Worker_pop CURLM_OK; Worker_; Worker_; Worker_;
     Worker_select true true true 30006 (fun _ => true); Worker_lose true; Worker_;
     Worker_decide (MkTransfer 0 None []); Worker_; Worker_] in
  outcomes (after ls) = [(1%nat, SendOutcome_error UNKNOWN_ERROR)] /\
  statuses (after ls) = [(10%nat, error_value TIMEOUT_ERROR)].
Proof. vm_compute. split; reflexivity. Qed.

(** Without a free handle [Send] does not fail with the error for this case. *)
Lemma full_network_fails t r a id now ptr s :
  Forall (fun h => in_use h = true) (handles_ s) ->
  GetHandle t r a id now ptr s = Some (return_ t (SendOutcome_error UNKNOWN_ERROR) s).
Proof.
  intros Hl. unfold GetHandle. destruct (find_handle _ _) as [i|] eqn:E; [|done].
  apply find_handle_Some in E as (h & Ei & Hn). by rewrite (Forall_lookup_1 _ _ _ _ Hl Ei) in Hn.
Qed.

(** The response to a cancelled request does not say that it was cancelled. *)
Example cancelled_response_flag : cancelled_ (cancelled_response receiver) = false.
Proof. reflexivity. Qed.
