(* ===== verification/Logging.v ===== *)
(** * Logging

    [olp::logging] of the core: the levels of tags and the appenders
    ([logging/Log.cpp], [Log.h], [Configuration]), files of filters ([FilterGroup]),
    the text of a message ([MessageFormatter], [Format.cpp]) and the appenders for
    files, the console and the log of Android.  Every call of [Log] holds one lock, so
    that a history of all threads is a list of calls.  What the C library writes for a
    time is a parameter; of [printf] the conversions of text and numbers with a width
    are modelled, others are [None]. *)

From Stdlib Require Import ZArith Lia Bool Ascii.
From stdpp Require Import base gmap numbers strings list option sorting.
From S2P Require Import Prelude Decimal.
Local Open Scope Z_scope.
Local Open Scope olp_scope.

(** ** Levels and messages *)

Inductive Level := Trace | Debug | Info | Warning | Error | Fatal | Off.

#[global] Instance Level_eq_dec : EqDecision Level.
Proof. solve_decision. Defined.

(** [static_cast<int>(level)] *)
Definition level_value (level : Level) : Z :=
  match level with
  | Trace => 0 | Debug => 1 | Info => 2 | Warning => 3 | Error => 4 | Fatal => 5 | Off => 6
  end.
Definition levelCount : Z := level_value Fatal + 1.

(** The members that are C strings are their text; [None] is the null pointer.  The time
    is in nanoseconds of the system clock. *)
Record LogMessage := MkLogMessage {
  level : Level; tag : option text; message : text; file : text; line : Z;
  function : text; fullFunction : text; time : Z; threadId : Z }.

(** ** Filters *)

Record FilterGroup := MkFilterGroup {
  group_defaultLevel : option Level;
  group_tagLevels : gmap text Level }.

Definition new_FilterGroup : FilterGroup := MkFilterGroup None ∅.
Definition group_getLevel (g : FilterGroup) : option Level := group_defaultLevel g.
Definition group_setLevel (l : Level) (g : FilterGroup) : FilterGroup :=
  MkFilterGroup (Some l) (group_tagLevels g).
Definition group_clearLevel (g : FilterGroup) : FilterGroup :=
  MkFilterGroup None (group_tagLevels g).
Definition group_getTagLevel (t : text) (g : FilterGroup) : option Level :=
  group_tagLevels g !! t.
Definition group_setTagLevel (l : Level) (t : text) (g : FilterGroup) : FilterGroup :=
  MkFilterGroup (group_defaultLevel g) (<[t := l]> (group_tagLevels g)).
Definition group_clearTagLevel (t : text) (g : FilterGroup) : FilterGroup :=
  MkFilterGroup (group_defaultLevel g) (delete t (group_tagLevels g)).
Definition group_clear (g : FilterGroup) : FilterGroup := MkFilterGroup None ∅.

Definition newline : ascii := char_of 10.

Definition split (s : text) (c : ascii) : text * text :=
  match list_find (eq c) s with
  | None => (s, [])
  | Some (index, _) => (take index s, drop (S index) s)
  end.

Definition whitespace : text := [char_of 32; newline; char_of 13; char_of 9; char_of 12; char_of 11].

(** The search from the end finds [last] as a distance from the end. *)
Definition trim (s : text) : text :=
  match list_find (fun c => c ∉ whitespace) s with
  | None => []
  | Some (first, _) =>
    match list_find (fun c => c ∉ whitespace) (rev s) with
    | None => []
    | Some (from_end, _) => take (length s - from_end - first) (drop first s)
    end
  end.

Definition equalsIgnoreCase (left right : text) : bool :=
  bool_decide (tolower <$> c_str left = tolower <$> c_str right).

Definition stringToLevel (levelStr : text) : option Level :=
  if equalsIgnoreCase levelStr (str "trace") then Some Trace
  else if equalsIgnoreCase levelStr (str "debug") then Some Debug
  else if equalsIgnoreCase levelStr (str "info") then Some Info
  else if equalsIgnoreCase levelStr (str "warning") then Some Warning
  else if equalsIgnoreCase levelStr (str "error") then Some Error
  else if equalsIgnoreCase levelStr (str "fatal") then Some Fatal
  else if equalsIgnoreCase levelStr (str "off") then Some Off
  else None.

(** An input stream: what is left of it, and its state. *)
Record istream := MkIstream { unread : text; eofbit : bool; failbit : bool }.

Definition open_stream (contents : text) : istream := MkIstream contents false false.

Inductive Stop := AtEnd | AtDelimiter | BufferFull.

(** The characters of a line, of which [room] fit, what follows them, and why it ended;
    the delimiter is tested before the room. *)
Fixpoint read_line (room : nat) (s : text) {struct s} : text * text * Stop :=
  match s with
  | [] => ([], [], AtEnd)
  | c :: t =>
    if decide (c = newline) then ([], t, AtDelimiter)
    else match room with
         | O => ([], s, BufferFull)
         | S r => let '(l, t', stop) := read_line r t in (c :: l, t', stop)
         end
  end.

(** [stream.getline(buffer, n)]: a stream that is not good fails; so does one without a
    character to extract, and one whose line does not fit. *)
Definition getline (n : nat) (s : istream) : text * istream :=
  if eofbit s || failbit s then ([], MkIstream (unread s) (eofbit s) true)
  else let '(l, t, stop) := read_line (n - 1) (unread s) in
       (l, match stop with
           | AtEnd => MkIstream t true (bool_decide (l = []))
           | AtDelimiter => MkIstream t false false
           | BufferFull => MkIstream t false true
           end).

Definition bufferSize_line : nat := 1024.

(** The body of the loop; [None] leaves [load] with false. *)
Definition load_line (buffer : text) (g : FilterGroup) : option FilterGroup :=
  let l := trim (c_str buffer) in
  if bool_decide (l = []) || bool_decide (head l = Some (char_of 35)) then Some g
  else let '(first, second) := split l (char_of 58) in
       let t := trim first in
       match stringToLevel (trim second) with
       | None => None
       | Some lv => Some (if bool_decide (t = []) then group_setLevel lv g else group_setTagLevel lv t g)
       end.

Fixpoint load_lines (fuel : nat) (s : istream) (g : FilterGroup) : option (bool * FilterGroup) :=
  match fuel with
  | O => None
  | S f =>
    let '(buffer, s') := getline bufferSize_line s in
    if failbit s' then Some (true, g)
    else match load_line buffer g with
         | None => Some (false, g)
         | Some g' => load_lines f s' g'
         end
  end.

Definition load (s : istream) (g : FilterGroup) : option (bool * FilterGroup) :=
  load_lines (S (length (unread s))) s (group_clear g).

(** [None]: the file cannot be opened. *)
Definition load_file (stream : option istream) (g : FilterGroup) : option (bool * FilterGroup) :=
  match stream with
  | None => Some (false, group_clear g)
  | Some s => load s g
  end.

(** ** Appenders *)

(** The identity of an appender; [UserAppender] is one of the program's own. *)
Inductive IAppender := ConsoleAppender | DebugAppender | UserAppender (id : nat).

Record AppenderWithLogLevel := MkAppender { logLevel : Level; appender : option IAppender }.

Definition appender_isEnabled (l : Level) (a : AppenderWithLogLevel) : bool :=
  bool_decide (is_Some (appender a)) && (level_value (logLevel a) <=? level_value l).

Definition Configuration := list AppenderWithLogLevel.

Definition isValid (c : Configuration) : bool := negb (bool_decide (c = [])).
Definition addAppender (a : option IAppender) (l : Level) (c : Configuration) : Configuration :=
  match a with Some _ => c ++ [MkAppender l a] | None => c end.
Definition createDefault (debug_implemented : bool) : Configuration :=
  let c := addAppender (Some ConsoleAppender) Trace [] in
  if debug_implemented then addAppender (Some DebugAppender) Trace c else c.

(** ** The log *)

Record LogImpl := MkLogImpl {
  m_configuration : Configuration; m_logLevels : gmap text Level; m_defaultLevel : Level }.

Definition new_LogImpl (debug_implemented : bool) : LogImpl :=
  MkLogImpl (createDefault debug_implemented) ∅ Debug.

Definition impl_configure (c : Configuration) (i : LogImpl) : bool * LogImpl :=
  if isValid c then (true, MkLogImpl c (m_logLevels i) (m_defaultLevel i)) else (false, i).

Definition impl_setLevel (l : Level) (i : LogImpl) : LogImpl :=
  MkLogImpl (m_configuration i) (m_logLevels i) l.
Definition impl_setTagLevel (l : Level) (t : text) (i : LogImpl) : LogImpl :=
  if bool_decide (t = []) then impl_setLevel l i
  else MkLogImpl (m_configuration i) (<[t := l]> (m_logLevels i)) (m_defaultLevel i).
Definition impl_getTagLevel (t : text) (i : LogImpl) : option Level :=
  if bool_decide (t = []) then Some (m_defaultLevel i) else m_logLevels i !! t.
Definition impl_clearLevel (t : text) (i : LogImpl) : LogImpl :=
  if bool_decide (t = []) then i
  else MkLogImpl (m_configuration i) (delete t (m_logLevels i)) (m_defaultLevel i).
Definition impl_clearLevels (i : LogImpl) : LogImpl :=
  MkLogImpl (m_configuration i) ∅ (m_defaultLevel i).

Definition impl_isEnabled (l : Level) (i : LogImpl) : bool :=
  if bool_decide (l = Off) then false else level_value (m_defaultLevel i) <=? level_value l.
Definition impl_isTagEnabled (l : Level) (t : text) (i : LogImpl) : bool :=
  if bool_decide (l = Off) then false
  else let targetLevel := match m_logLevels i !! t with None => m_defaultLevel i | Some l' => l' end in
       level_value targetLevel <=? level_value l.

(** What is given to [append] of which appender, in order. *)
Definition appendLogItem (m : LogMessage) (i : LogImpl) : list (IAppender * LogMessage) :=
  omap (fun a => if appender_isEnabled (level m) a then (fun x => (x, m)) <$> appender a else None)
    (m_configuration i).

(** Where a message is logged: [__FILE__], [__LINE__], [__FUNCTION__] and the signature;
    and the clock and the thread. *)
Record Location := MkLocation {
  loc_file : text; loc_line : Z; loc_function : text; loc_fullFunction : text;
  loc_now : Z; loc_thread : Z }.

Definition the_message (l : Level) (t m : text) (loc : Location) : LogMessage :=
  MkLogMessage l (Some (c_str t)) (c_str m) (loc_file loc) (loc_line loc) (loc_function loc)
    (loc_fullFunction loc) (loc_now loc) (loc_thread loc).

(** The static object, whether it still is alive, and what its appenders were given. *)
Record Log := MkLog { aliveStatus : bool; impl : LogImpl; appended : list (IAppender * LogMessage) }.

Definition new_Log (debug_implemented : bool) : Log := MkLog true (new_LogImpl debug_implemented) [].

(** [LogImpl::getInstance().locked(f)] for an alive object. *)
Definition locked (f : LogImpl -> LogImpl) (L : Log) : Log :=
  if aliveStatus L then MkLog true (f (impl L)) (appended L) else L.
Definition asked {A} (dead : A) (f : LogImpl -> A) (L : Log) : A :=
  if aliveStatus L then f (impl L) else dead.

Definition configure (c : Configuration) (L : Log) : bool * Log :=
  (asked false (fun i => fst (impl_configure c i)) L, locked (fun i => snd (impl_configure c i)) L).
Definition getConfiguration : Log -> Configuration := asked [] m_configuration.
Definition setLevel (l : Level) : Log -> Log := locked (impl_setLevel l).
Definition getLevel : Log -> Level := asked Off m_defaultLevel.
Definition setTagLevel (l : Level) (t : text) : Log -> Log := locked (impl_setTagLevel l t).
Definition setTextLevel (l t : text) (L : Log) : Log :=
  match stringToLevel l with None => L | Some lv => locked (impl_setTagLevel lv t) L end.
Definition getTagLevel (t : text) : Log -> option Level := asked None (impl_getTagLevel t).
Definition clearLevel (t : text) : Log -> Log := locked (impl_clearLevel t).
Definition clearLevels : Log -> Log := locked impl_clearLevels.
Definition isEnabled (l : Level) : Log -> bool := asked false (impl_isEnabled l).
Definition isTagEnabled (l : Level) (t : text) : Log -> bool := asked false (impl_isTagEnabled l t).

(** The filters in the order [tagLevels] in which the unordered map gives them. *)
Definition apply_in_order (defaultLevel : option Level) (tagLevels : list (text * Level))
    (i : LogImpl) : LogImpl :=
  let i := impl_clearLevels (impl_clearLevels i) in
  let i := match defaultLevel with Some l => impl_setLevel l i | None => i end in
  foldl (fun i tl => impl_setTagLevel tl.2 tl.1 i) i tagLevels.
Definition applyFilterGroup (g : FilterGroup) : Log -> Log :=
  locked (apply_in_order (group_getLevel g) (map_to_list (group_tagLevels g))).

Definition logMessage (l : Level) (t m : text) (loc : Location) (L : Log) : Log :=
  if aliveStatus L
  then MkLog true (impl L) (appended L ++ appendLogItem (the_message l t m loc) (impl L))
  else L.

(** [EDGE_SDK_LOG], compiled with or without [EDGE_SDK_LOGGING_DISABLED]; its two calls are
    two critical sections, here without a call of another thread between them. *)
Definition EDGE_SDK_LOG (disabled : bool) (l : Level) (t m : text) (loc : Location) (L : Log) : Log :=
  if disabled then L
  else if isTagEnabled l t L then logMessage l t m loc L else L.

(** The calls that change the log, and its destruction at the end of the process. *)
Inductive LogCall :=
| Configure (c : Configuration) | SetLevel (l : Level) | SetTagLevel (l : Level) (t : text)
| SetTextLevel (l t : text) | ClearLevel (t : text) | ClearLevels
| ApplyFilterGroup (g : FilterGroup) | LogAMessage (l : Level) (t m : text) (loc : Location)
| Destroy.

Definition call (L : Log) (c : LogCall) : Log :=
  match c with
  | Configure c => snd (configure c L)
  | SetLevel l => setLevel l L
  | SetTagLevel l t => setTagLevel l t L
  | SetTextLevel l t => setTextLevel l t L
  | ClearLevel t => clearLevel t L
  | ClearLevels => clearLevels L
  | ApplyFilterGroup g => applyFilterGroup g L
  | LogAMessage l t m loc => logMessage l t m loc L
  | Destroy => MkLog false (impl L) (appended L)
  end.
Definition calls (L : Log) (cs : list LogCall) : Log := foldl call L cs.

(** ** The text of a message *)

Definition ellipsis : text := str "...".

(** The lengths are those of C strings, below 2^31. *)
Definition limitString (s : text) (limit : Z) : text :=
  if limit <? 0 then
    let len := s32 (Z.of_nat (length s)) in
    let start := Z.max (len + limit) 0 in
    if start =? 0 then s
    else if len - start >? 3
         then ellipsis ++ take (Z.to_nat (len - (start + 3))) (drop (Z.to_nat (start + 3)) s)
         else take (Z.to_nat (len - start)) (drop (Z.to_nat start) s)
  else if limit >? 0 then
    let strLen := Z.of_nat (length s) in
    let finalLength := Z.min strLen limit in
    if finalLength =? strLen then s
    else if finalLength >? 3 then take (Z.to_nat (finalLength - 3)) s ++ ellipsis
         else take (Z.to_nat finalLength) s
  else s.

(** *** [printf] *)

Inductive PrintfArg := ArgString (s : text) | ArgUnsigned (n : Z) | ArgUnsignedLong (n : Z).

(** The digits of a width, and what follows them. *)
Fixpoint read_width (acc : Z) (fmt : text) : Z * text :=
  match fmt with
  | c :: t => if is_digit c then read_width (10 * acc + (char_code c - 48)) t else (acc, fmt)
  | [] => (acc, [])
  end.

Definition padded (zero : bool) (width : Z) (s : text) : text :=
  repeat (char_of (if zero then 48 else 32)) (Z.to_nat width - length s) ++ s.

(** A conversion after its percent sign: an optional zero, a width, and [s], [u] or [lu]
    with an argument of that type. *)
Definition conversion (fmt : text) (arg : option PrintfArg) : option (text * option PrintfArg * text) :=
  let '(zero, fmt) := match fmt with
                      | c :: t => if char_code c =? 48 then (true, t) else (false, fmt)
                      | [] => (false, [])
                      end in
  let '(width, fmt) := read_width 0 fmt in
  match fmt, arg with
  | c :: t, Some (ArgString s) =>
      if (char_code c =? 115) && negb zero then Some (padded false width s, None, t) else None
  | c :: t, Some (ArgUnsigned n) =>
      if char_code c =? 117 then Some (padded zero width (print_u64 n), None, t) else None
  | c :: c' :: t, Some (ArgUnsignedLong n) =>
      if (char_code c =? 108) && (char_code c' =? 117)
      then Some (padded zero width (print_u64 n), None, t) else None
  | _, _ => None
  end.

Fixpoint printf_fuel (fuel : nat) (fmt : text) (arg : option PrintfArg) : option text :=
  match fuel with
  | O => None
  | S f =>
    match fmt with
    | [] => Some []
    | c :: t =>
      if negb (char_code c =? 37) then cons c <$> printf_fuel f t arg
      else match t with
           | c' :: t' =>
             if char_code c' =? 37 then cons c <$> printf_fuel f t' arg
             else '(out, arg', rest) ← conversion t arg;
                  app out <$> printf_fuel f rest arg'
           | [] => None
           end
    end
  end.

(** Each conversion takes a character of the format. *)
Definition printf (fmt : text) (arg : option PrintfArg) : option text :=
  printf_fuel (S (length fmt)) fmt arg.

Definition int_max : Z := 2 ^ 31 - 1.

(** [vsnprintf(buffer, size, ...)] for text that is [full]: the text in the buffer and the
    result, which is negative for a text that is too long for an [int]. *)
Definition vsnprintf (size : Z) (full : text) : text * Z :=
  (take (Z.to_nat (size - 1)) full,
   if Z.of_nat (length full) <=? int_max then Z.of_nat (length full) else -1).

Definition bufferSize : Z := 256.

(** [FormatBuffer::formatv]; [numCharsWritten + 1] overflows for the greatest [int]. *)
Definition formatv (formatStr : option text) (arg : option PrintfArg) : option text :=
  match formatStr with
  | None => Some []
  | Some fmt =>
    full ← printf fmt arg;
    let '(m_buffer, numCharsWritten) := vsnprintf bufferSize full in
    if numCharsWritten <? 0 then Some m_buffer
    else if numCharsWritten >=? bufferSize
         then if numCharsWritten =? int_max then None
              else Some (fst (vsnprintf (numCharsWritten + 1) full))
         else Some m_buffer
  end.

(** *** Times *)

Inductive Timezone := Local | Utc.

(** What [strftime] writes for a format and a time in seconds, with room for it. *)
Class TimeFormat := strftime_text : Timezone -> text -> Z -> text.

Section times.
Context `{TimeFormat}.

(** [strftime(buffer, size, ...)]: the number of characters, 0 when they and the NUL do
    not fit. *)
Definition strftime (size : Z) (zone : Timezone) (fmt : text) (t : Z) : Z :=
  let n := Z.of_nat (length (strftime_text zone fmt t)) in
  if n + 1 <=? size then n else 0.

Definition toTimeT (timestamp : Z) : Z := Z.quot timestamp 1000000000.

Fixpoint formatTm_loop (fuel : nat) (size : Z) (zone : Timezone) (fmt : text) (t : Z) : option text :=
  match fuel with
  | O => None
  | S f => if negb (strftime size zone fmt t =? 0) then Some (strftime_text zone fmt t)
           else formatTm_loop f (size * 2) zone fmt t
  end.

Definition formatTm (fuel : nat) (zone : Timezone) (fmt : text) (t : Z) : option text :=
  if negb (strftime bufferSize zone fmt t =? 0) then Some (strftime_text zone fmt t)
  else formatTm_loop fuel (bufferSize * 2) zone fmt t.

(** [formatLocalTime] and [formatUtcTime] *)
Definition formatTime (fuel : nat) (zone : Timezone) (timestamp : Z) (fmt : text) : option text :=
  formatTm fuel zone fmt (toTimeT timestamp).

(** *** Elements *)

Inductive ElementType :=
| ElString | ElLevel | ElTag | ElMessage | ElFile | ElLine | ElFunction | ElFullFunction
| ElTime | ElTimeMs | ElThreadId.

Record Element := MkElement { element_type : ElementType; element_format : text; element_limit : Z }.

(** [Element(type)] *)
Definition Element_of_type (t : ElementType) : Element :=
  MkElement t
    match t with
    | ElLevel | ElTag | ElMessage | ElFile | ElFunction | ElFullFunction => str "%s"
    | ElLine => str "%u"
    | ElTime => str "%Y-%m-%d %H:%M:%S"
    | ElTimeMs => str "%u"
    | ElThreadId => str "%lu"
    | ElString => []
    end 0.

Record MessageFormatter := MkMessageFormatter {
  m_elements : list Element; m_levelNameMap : list text; m_timezone : Timezone }.

Definition defaultLevelNameMap : list text :=
  str <$> ["[TRACE]"; "[DEBUG]"; "[INFO]"; "[WARN]"; "[ERROR]"; "[FATAL]"]%string.

Definition default_MessageFormatter : MessageFormatter :=
  MkMessageFormatter
    [MkElement ElLevel (str "%s ") 0; MkElement ElTag (str "%s - ") 0; Element_of_type ElMessage]
    defaultLevelNameMap Local.

Definition formatted (e : Element) (arg : PrintfArg) : option text :=
  formatv (Some (c_str (element_format e))) (Some arg).
Definition limited (e : Element) (s : text) : option text :=
  formatted e (ArgString (limitString s (element_limit e))).

(** One pass of the loop: what an element adds; [None] is a level without a name, a format
    that is not modelled, or a time without an end. *)
Definition element_text (fuel : nat) (f : MessageFormatter) (m : LogMessage) (e : Element) : option text :=
  match element_type e with
  | ElString => Some (c_str (element_format e))
  | ElLevel => name ← m_levelNameMap f !! Z.to_nat (level_value (level m));
               formatted e (ArgString (c_str name))
  | ElTag => match tag m with
             | None | Some [] => Some []
             | Some t => limited e t
             end
  | ElMessage => limited e (message m)
  | ElFile => limited e (file m)
  | ElLine => formatted e (ArgUnsigned (line m))
  | ElFunction => limited e (function m)
  | ElFullFunction => limited e (fullFunction m)
  | ElTime => formatTime fuel (m_timezone f) (time m) (c_str (element_format e))
  | ElTimeMs => formatted e (ArgUnsigned (u32 (Z.rem (Z.quot (time m) 1000000) 1000)))
  | ElThreadId => formatted e (ArgUnsignedLong (threadId m))
  end.

Definition format (fuel : nat) (f : MessageFormatter) (m : LogMessage) : option text :=
  (fun texts => mjoin texts) <$> mapM (element_text fuel f m) (m_elements f).

(** *** Appenders with a formatter *)

(** A file that was opened: whether its stream is good, and its contents. *)
Record FileAppender := MkFileAppender { stream_good : bool; contents : text }.

Definition open_file (opened append : bool) (before : text) : FileAppender :=
  MkFileAppender opened (if append then before else []).

Definition file_append (fuel : nat) (f : MessageFormatter) (m : LogMessage) (a : FileAppender)
    : option FileAppender :=
  if stream_good a
  then (fun s => MkFileAppender true (contents a ++ s ++ [newline])) <$> format fuel f m
  else Some a.

(** What the console appender writes to the standard output. *)
Definition console_append (fuel : nat) (f : MessageFormatter) (m : LogMessage) (out : text) : option text :=
  (fun s => out ++ s ++ [newline]) <$> format fuel f m.

End times.

(** The parts of a message in the log of Android: the quotient of the doubles is rounded
    up, exactly for every length of a text in memory. *)
Definition android_append_in_chunks (s : text) : list text :=
  let max_length := 900%nat in
  let chunk_num := ((length s + (max_length - 1)) / max_length)%nat in
  (fun chunk => let from := (chunk * max_length)%nat in
                let to := Nat.min (from + max_length) (length s) in
                c_str (take (to - from) (drop from s))) <$> seq 0 chunk_num.

(** ** Files of filters *)

(** The lines of a text; a last line need not end with a newline. *)
Fixpoint lines (s : text) : list text :=
  match s with
  | [] => []
  | c :: t => if decide (c = newline) then [] :: lines t
              else match lines t with [] => [[c]] | l :: ls => (c :: l) :: ls end
  end.

(** A line that fits the buffer of [load]. *)
Definition fits (l : text) : Prop := (length l < bufferSize_line)%nat.

#[global] Instance fits_dec l : Decision (fits l).
Proof. unfold fits. apply _. Defined.

(** What a line says: [None] is a line that is refused, [Some None] one that is ignored; the
    empty tag stands for the default level. *)
Definition line_entry (l : text) : option (option (text * Level)) :=
  let l := trim (c_str l) in
  if bool_decide (l = []) || bool_decide (head l = Some (char_of 35)) then Some None
  else let '(first, second) := split l (char_of 58) in
       lv ← stringToLevel (trim second); Some (Some (trim first, lv)).

Definition set_entry (g : FilterGroup) (e : text * Level) : FilterGroup :=
  if bool_decide (e.1 = []) then group_setLevel e.2 g else group_setTagLevel e.2 e.1 g.

(** The entries of the lines before the first that is refused, and whether one is. *)
Fixpoint entries (ls : list text) : bool * list (text * Level) :=
  match ls with
  | [] => (true, [])
  | l :: ls =>
    match line_entry l with
    | None => (false, [])
    | Some None => entries ls
    | Some (Some e) => let '(ok, es) := entries ls in (ok, e :: es)
    end
  end.

(** The level of the last entry with a tag. *)
Definition last_level (t : text) (es : list (text * Level)) : option Level :=
  snd <$> last (filter (fun e => e.1 = t) es).

Lemma load_line_entry l g :
  load_line l g = match line_entry l with
                  | None => None
                  | Some None => Some g
                  | Some (Some e) => Some (set_entry g e)
                  end.
Proof.
  unfold load_line, line_entry, set_entry. destruct (_ || _); [done|].
  destruct (split _ _) as [first second]. by destruct (stringToLevel _).
Qed.

(** What the loop makes of lines that fit: the entries before the first refused line. *)
Definition loaded (ls : list text) (g : FilterGroup) : bool * FilterGroup :=
  let '(ok, es) := entries ls in (ok, foldl set_entry g es).

Lemma loaded_cons l ls g :
  loaded (l :: ls) g = match load_line l g with None => (false, g) | Some g' => loaded ls g' end.
Proof.
  unfold loaded. rewrite load_line_entry. simpl.
  destruct (line_entry l) as [[e|]|]; destruct (entries ls); reflexivity.
Qed.

(** Reading a line of a text that has one: [lines] gives the same line. *)
Lemma read_line_fits room s l ls :
  lines s = l :: ls -> (length l <= room)%nat ->
  exists t stop, read_line room s = (l, t, stop) /\ lines t = ls /\
    (length t < length s)%nat /\
    (stop = AtDelimiter \/ stop = AtEnd /\ l <> [] /\ t = []).
Proof.
  revert room l ls. induction s as [|c s IH]; intros room l ls E Hl; [done|].
  simpl in *. destruct (decide (c = newline)) as [->|Hc].
  { injection E as <- <-. exists s, AtDelimiter. split_and!; [done..|lia|by left]. }
  destruct (lines s) as [|l' ls'] eqn:Es; injection E as <- <-; simpl in Hl.
  - destruct s as [|c' s]; [|simpl in Es; destruct (decide _); [done|by destruct (lines s)]].
    destruct room; [lia|]. exists [], AtEnd. split_and!; [done..|simpl; lia|right; done].
  - destruct room as [|room]; [lia|].
    destruct (IH room l' ls' eq_refl) as (t & stop & -> & Ht & Hlen & Hstop); [lia|].
    exists t, stop. split_and!; [done..|lia|]. destruct Hstop as [?|(? & ? & ?)]; [by left|right; done].
Qed.

Lemma read_line_full room s l ls :
  lines s = l :: ls -> (room < length l)%nat ->
  exists p t, read_line room s = (p, t, BufferFull).
Proof.
  revert room l ls. induction s as [|c s IH]; intros room l ls E Hl; [done|].
  simpl in *. destruct (decide (c = newline)) as [->|Hc].
  { injection E as <- <-. simpl in Hl. lia. }
  destruct room as [|room]; [by eexists _, _|].
  destruct (lines s) as [|l' ls'] eqn:Es; injection E as <- <-; simpl in Hl; [lia|].
  destruct (IH room l' ls' eq_refl) as (p & t & ->); [lia|]. by eexists _, _.
Qed.

Lemma lines_nil s : lines s = [] -> s = [].
Proof.
  destruct s as [|c s]; [done|]. simpl. destruct (decide _); [done|]. by destruct (lines s).
Qed.

(** The loop reads the lines that fit, and ends without an error at the first that does
    not. *)
Lemma load_lines_fit fuel s g ls rest :
  (length s < fuel)%nat -> lines s = ls ++ rest -> Forall fits ls ->
  match head rest with Some l => ~ fits l | None => True end ->
  load_lines fuel (open_stream s) g = Some (loaded ls g).
Proof.
  revert s g ls. induction fuel as [|fuel IH]; intros s g ls Hfuel Els Hfit Hrest; [lia|].
  simpl. unfold getline. simpl. destruct ls as [|l ls].
  - simpl in Els. destruct rest as [|l rest]; simpl in Hrest.
    + apply lines_nil in Els as ->. done.
    + destruct (read_line_full (bufferSize_line - 1) s l rest Els) as (p & t & E);
        [unfold fits, bufferSize_line in *; lia|]. simpl in E. by rewrite E.
  - apply Forall_cons in Hfit as [Hl Hfit]. rewrite loaded_cons.
    destruct (read_line_fits (bufferSize_line - 1) s l (ls ++ rest) Els)
      as (t & stop & E & Et & Hlen & Hstop); [unfold fits, bufferSize_line in *; lia|].
    simpl in E. rewrite E. destruct Hstop as [->|(-> & Hne & ->)]; simpl.
    + destruct (load_line l g) as [g'|]; [|done]. apply (IH t g' ls); auto; lia.
    + rewrite bool_decide_false by done. destruct (load_line l g) as [g'|]; [|done].
      simpl in Et. symmetry in Et. apply app_eq_nil in Et as [-> ->].
      destruct fuel as [|fuel]; [simpl in *; lia|]. done.
Qed.

(** [load] always ends: its fuel is enough for every text. *)
Lemma load_ends s g : exists r, load (open_stream s) g = Some r.
Proof.
  assert (exists ls rest, lines s = ls ++ rest /\ Forall fits ls /\
    match head rest with Some l => ~ fits l | None => True end) as (ls & rest & E & Hfit & Hrest).
  { induction (lines s) as [|l ls IH]; [by exists [], []|].
    destruct (decide (length l < bufferSize_line)%nat) as [Hl|Hl].
    - destruct IH as (ls1 & rest & -> & ? & ?). exists (l :: ls1), rest. auto.
    - by exists [], (l :: ls). }
  exists (loaded ls (group_clear g)). apply (load_lines_fit _ _ _ ls rest); [simpl; lia|done..].
Qed.

(** ** Levels after a sequence of settings *)

(** A second choice. *)
Definition or_else {A} (o o' : option A) : option A := match o with Some _ => o | None => o' end.

Lemma or_else_assoc {A} (a b c : option A) : or_else (or_else a b) c = or_else a (or_else b c).
Proof. by destruct a. Qed.

Lemma last_level_snoc t es e :
  last_level t (es ++ [e]) = if decide (e.1 = t) then Some e.2 else last_level t es.
Proof.
  unfold last_level. rewrite filter_app, filter_cons, filter_nil.
  destruct (decide (e.1 = t)); [by rewrite last_snoc|by rewrite app_nil_r].
Qed.

Lemma last_level_elem t es lv : last_level t es = Some lv -> (t, lv) ∈ es.
Proof.
  unfold last_level. intros ([t' l'] & E & ->)%fmap_Some.
  apply last_Some_elem_of, list_elem_of_filter in E as [<- ?]. done.
Qed.

Lemma last_level_none t es : last_level t es = None -> t ∉ es.*1.
Proof.
  unfold last_level. intros E%fmap_None%last_None Ht.
  apply list_elem_of_fmap in Ht as (e & -> & He).
  assert (e ∈ filter (fun e' : text * Level => e'.1 = e.1) es) as H by by apply list_elem_of_filter.
  rewrite E in H. by apply not_elem_of_nil in H.
Qed.

(** The entries of a map, in any order. *)
Lemma last_level_map (M : gmap text Level) tls t :
  tls ≡ₚ map_to_list M -> last_level t tls = M !! t.
Proof.
  intros HP. destruct (last_level t tls) as [lv|] eqn:E.
  - apply last_level_elem in E. rewrite HP in E. by apply elem_of_map_to_list in E.
  - apply last_level_none in E. destruct (M !! t) as [lv|] eqn:EM; [|done].
    exfalso. apply E. apply list_elem_of_fmap. exists (t, lv). split; [done|].
    rewrite HP. by apply elem_of_map_to_list.
Qed.

Lemma loaded_levels es g t :
  group_getLevel (foldl set_entry g es) = or_else (last_level [] es) (group_getLevel g) /\
  group_getTagLevel t (foldl set_entry g es) =
    or_else (if decide (t = []) then None else last_level t es) (group_getTagLevel t g).
Proof.
  induction es as [|e es [IH1 IH2]] using rev_ind; [by simpl; case_decide|].
  rewrite foldl_app. simpl. unfold set_entry at 1 3. rewrite !last_level_snoc.
  case_bool_decide as He; unfold group_setLevel, group_setTagLevel,
    group_getLevel, group_getTagLevel in *; simpl.
  - split; [by rewrite decide_True|]. rewrite IH2.
    destruct (decide (t = [])) as [->|]; [done|]. rewrite decide_False by congruence. done.
  - split; [by rewrite decide_False|]. destruct (decide (e.1 = t)) as [<-|].
    + by rewrite lookup_insert_eq, decide_False.
    + by rewrite lookup_insert_ne.
Qed.

Lemma settings_in_order tls i t :
  let i' := foldl (fun i tl => impl_setTagLevel tl.2 tl.1 i) i tls in
  m_configuration i' = m_configuration i /\
  m_defaultLevel i' = default (m_defaultLevel i) (last_level [] tls) /\
  m_logLevels i' !! t = or_else (if decide (t = []) then None else last_level t tls) (m_logLevels i !! t).
Proof.
  simpl. induction tls as [|e es IH] using rev_ind; [by simpl; case_decide|].
  destruct IH as (IH1 & IH2 & IH3). rewrite foldl_app. simpl.
  unfold impl_setTagLevel at 1 3 5. rewrite !last_level_snoc.
  case_bool_decide as He; simpl; (split; [done|]).
  - split; [by rewrite decide_True|]. rewrite IH3.
    destruct (decide (t = [])) as [->|]; [done|]. by rewrite decide_False by congruence.
  - split; [by rewrite decide_False|]. destruct (decide (e.1 = t)) as [<-|].
    + by rewrite lookup_insert_eq, decide_False.
    + by rewrite lookup_insert_ne.
Qed.

(** Whatever the order of the unordered map is, applying a group gives the same levels: those
    of the group, without those set before; an entry for the empty tag sets the default
    level. *)
Lemma applied_levels g tls i t :
  tls ≡ₚ map_to_list (group_tagLevels g) ->
  let i' := apply_in_order (group_getLevel g) tls i in
  m_configuration i' = m_configuration i /\
  m_defaultLevel i' =
    default (m_defaultLevel i) (or_else (group_getTagLevel [] g) (group_getLevel g)) /\
  m_logLevels i' !! t = if decide (t = []) then None else group_getTagLevel t g.
Proof.
  intros HP. unfold apply_in_order. simpl.
  match goal with |- context [foldl _ ?i1 tls] => set (i0 := i1) end.
  destruct (settings_in_order tls i0 t) as (-> & -> & ->).
  rewrite !(last_level_map _ _ _ HP). unfold group_getTagLevel, i0.
  destruct (group_getLevel g); (split; [done|]); (split;
    [by destruct (group_tagLevels g !! [])|]);
    destruct (decide _); simpl; rewrite ?lookup_empty; try done; by destruct (_ !! t).
Qed.

(** What the appenders are given: those that are enabled, in the order of the
    configuration. *)
Definition deliveries (l : Level) (c : Configuration) : list IAppender :=
  omap (fun a => if level_value (logLevel a) <=? level_value l then appender a else None) c.

Lemma appendLogItem_deliveries m i :
  appendLogItem m i = (fun a => (a, m)) <$> deliveries (level m) (m_configuration i).
Proof.
  unfold appendLogItem, deliveries. induction (m_configuration i) as [|a c IH]; [done|].
  csimpl. rewrite IH. unfold appender_isEnabled. destruct a as [lv [x|]]; csimpl;
    by destruct (_ <=? _).
Qed.

(** C38. A file of filters decides what is logged.  For a file whose lines fit the buffer of
    1024 characters and are all understood, [load] succeeds whatever the group held before,
    and after [applyFilterGroup] a message is given to the enabled appenders, each once and
    in their order, exactly if its level is not [Off] and not below the level of its tag: that of the last line with the tag, else of
    the last line without a tag, else the default level from before; levels set earlier for
    tags no longer count. *)
Theorem filter_files_decide s es g0 L l t m loc :
  Forall fits (lines s) -> entries (lines s) = (true, es) -> aliveStatus L = true ->
  exists g, load (open_stream s) g0 = Some (true, g) /\
  let L1 := applyFilterGroup g L in
  let threshold := default (m_defaultLevel (impl L)) (or_else (last_level t es) (last_level [] es)) in
  EDGE_SDK_LOG false l t m loc L1 =
    MkLog true (impl L1)
      (appended L ++
       if negb (bool_decide (l = Off)) && (level_value threshold <=? level_value l)
       then (fun a => (a, the_message l t m loc)) <$> deliveries l (m_configuration (impl L))
       else []).
Proof.
  intros Hfit He Halive. exists (foldl set_entry (group_clear g0) es). split.
  { unfold load. rewrite (load_lines_fit _ _ _ (lines s) []); [|simpl; lia|by rewrite app_nil_r|done..].
    unfold loaded. by rewrite He. }
  set (g := foldl _ _ es).
  unfold EDGE_SDK_LOG, isTagEnabled, asked, logMessage, applyFilterGroup, locked, impl_isTagEnabled.
  rewrite Halive. simpl. rewrite appendLogItem_deliveries.
  destruct (applied_levels g (map_to_list (group_tagLevels g)) (impl L) t) as (-> & -> & ->); [done|].
  destruct (loaded_levels es (group_clear g0) t) as [E1 E2].
  destruct (loaded_levels es (group_clear g0) []) as [_ E3].
  fold g in E1, E2, E3. rewrite E1, E2, E3. unfold group_clear, group_getTagLevel, group_getLevel. simpl.
  rewrite lookup_empty. simpl. case_bool_decide; simpl; [by rewrite app_nil_r|].
  match goal with |- context [if ?a <=? _ then _ else _] => match goal with
    |- _ = MkLog _ _ (_ ++ if ?b <=? _ then _ else _) => replace a with b end end.
  - destruct (_ <=? _); [done|by rewrite app_nil_r].
  - destruct (decide (t = [])) as [->|]; [by destruct (last_level [] es)|].
    by destruct (last_level t es), (last_level [] es).
Qed.

Definition example_filters : text := str "# levels
 mylib : Warning
: error
theirlib:OFF
mylib:debug".
Definition example_location : Location := MkLocation (str "main.cpp") 12 (str "main") (str "int main()") 0 1.
Definition example_Log : Log :=
  setTagLevel Fatal (str "other")
    (snd (configure [MkAppender Trace (Some ConsoleAppender); MkAppender Error (Some (UserAppender 1));
                     MkAppender Debug (Some (UserAppender 2))] (new_Log false))).

Lemma filter_files_decide_witness :
  exists g, load (open_stream example_filters) new_FilterGroup = Some (true, g) /\
  (fun call => call.1) <$> appended (EDGE_SDK_LOG false Info (str "mylib") (str "x") example_location
    (applyFilterGroup g example_Log)) = [ConsoleAppender; UserAppender 2] /\
  appended (EDGE_SDK_LOG false Info (str "other") (str "x") example_location
    (applyFilterGroup g example_Log)) = [].
Proof.
  set (es := [(str "mylib", Warning); ([], Error); (str "theirlib", Off); (str "mylib", Debug)]).
  destruct (filter_files_decide example_filters es new_FilterGroup example_Log Info (str "mylib") (str "x")
    example_location) as (g & E & H1).
  - apply (bool_decide_unpack _). vm_compute. exact I.
  - vm_compute. reflexivity.
  - reflexivity.
  - destruct (filter_files_decide example_filters es new_FilterGroup example_Log Info (str "other") (str "x")
      example_location) as (g' & E' & H2).
    + apply (bool_decide_unpack _). vm_compute. exact I.
    + vm_compute. reflexivity.
    + reflexivity.
    + rewrite E in E'. injection E' as <-. exists g. split; [done|].
      rewrite H1, H2. split; vm_compute; reflexivity.
Defined.

(** The fuel of [load] does not matter: it ends for every stream that was opened. *)
Lemma load_file_ends stream g :
  (forall s, stream = Some s -> exists contents, s = open_stream contents) ->
  exists r, load_file stream g = Some r.
Proof.
  intros H. destruct stream as [s|]; [|by eexists].
  destruct (H s eq_refl) as [contents ->]. apply load_ends.
Qed.

(** A line that is refused ends [load] with false, and the entries before it stay in the
    group, which the documentation says is cleared. *)
Lemma refused_line_keeps_entries s es g0 :
  Forall fits (lines s) -> entries (lines s) = (false, es) ->
  load (open_stream s) g0 = Some (false, foldl set_entry new_FilterGroup es).
Proof.
  intros Hfit He. unfold load.
  rewrite (load_lines_fit _ _ _ (lines s) []); [|simpl; lia|by rewrite app_nil_r|done..].
  unfold loaded. by rewrite He.
Qed.

Example refused_group_is_not_cleared :
  exists g, load (open_stream (str "mylib: off
theirlib: loud")) new_FilterGroup = Some (false, g) /\
  group_getTagLevel (str "mylib") g = Some Off.
Proof. eexists. split; vm_compute; reflexivity. Qed.

(** A line of 1024 characters or more ends [load] with true: it and the lines after it are
    left out. *)
Lemma long_line_ends_load s ls l rest es g0 :
  lines s = ls ++ l :: rest -> Forall fits ls -> ~ fits l -> entries ls = (true, es) ->
  load (open_stream s) g0 = Some (true, foldl set_entry new_FilterGroup es).
Proof.
  intros E Hfit Hl He. unfold load.
  rewrite (load_lines_fit _ _ _ ls (l :: rest)); [|simpl; lia|done..]. unfold loaded. by rewrite He.
Qed.

(** ** Levels as text *)

Definition level_name (l : Level) : text :=
  match l with
  | Trace => str "trace" | Debug => str "debug" | Info => str "info" | Warning => str "warning"
  | Error => str "error" | Fatal => str "fatal" | Off => str "off"
  end.

(** [stringToLevel] knows the names of the levels in any case, and no other text. *)
Lemma stringToLevel_spec s l :
  stringToLevel s = Some l <-> tolower <$> c_str s = level_name l.
Proof.
  unfold stringToLevel, equalsIgnoreCase.
  repeat (case_bool_decide;
    [match goal with H : tolower <$> _ = _ |- _ => rewrite H end;
     split; [by intros [= <-]|by destruct l]|]).
  split; [done|]. intros E. exfalso.
  destruct l; match goal with H : ~ _ |- _ => apply H; rewrite E; reflexivity end.
Qed.

(** ** The log over its calls *)

(** The configuration has an appender, and every level belongs to a tag. *)
Definition log_ok (L : Log) : Prop :=
  m_configuration (impl L) <> [] /\ m_logLevels (impl L) !! [] = None.

Lemma impl_setTagLevel_ok l t i :
  m_configuration i <> [] /\ m_logLevels i !! [] = None ->
  m_configuration (impl_setTagLevel l t i) <> [] /\ m_logLevels (impl_setTagLevel l t i) !! [] = None.
Proof.
  unfold impl_setTagLevel. case_bool_decide; [done|]. simpl. by rewrite lookup_insert_ne.
Qed.

Lemma locked_ok f L :
  (m_configuration (impl L) <> [] /\ m_logLevels (impl L) !! [] = None ->
   m_configuration (f (impl L)) <> [] /\ m_logLevels (f (impl L)) !! [] = None) ->
  log_ok L -> log_ok (locked f L).
Proof. unfold log_ok, locked. intros Hf H. destruct (aliveStatus L); simpl; auto. Qed.

Lemma call_ok L c : log_ok L -> log_ok (call L c).
Proof.
  intros H. destruct c; simpl; try (apply locked_ok; [intros Hi|done]).
  - unfold impl_configure, isValid. case_bool_decide; simpl; [done|]. by destruct Hi.
  - done.
  - by apply impl_setTagLevel_ok.
  - unfold setTextLevel. destruct (stringToLevel l); [|done].
    apply locked_ok; [apply impl_setTagLevel_ok|done].
  - unfold impl_clearLevel. case_bool_decide; [done|]. simpl. split; [apply Hi|].
    by rewrite lookup_delete_ne by done; apply Hi.
  - by destruct Hi.
  - destruct (applied_levels g (map_to_list (group_tagLevels g)) (impl L) []) as (-> & _ & ->); [done|].
    by destruct Hi.
  - unfold logMessage. by destruct (aliveStatus L).
  - done.
Qed.

(** What was appended stays, and after the destruction nothing is appended and nothing
    changes. *)
Lemma call_appends L c :
  exists new, appended (call L c) = appended L ++ new /\ (aliveStatus L = false -> new = []).
Proof.
  assert (forall f, appended (locked f L) = appended L) as Hl by (intros f; unfold locked; by destruct (aliveStatus L)).
  destruct c; simpl; try (exists []; rewrite app_nil_r; split; [apply Hl|done]).
  - unfold setTextLevel. exists []. rewrite app_nil_r. split; [|done]. by destruct (stringToLevel l).
  - unfold logMessage. destruct (aliveStatus L); simpl; [by eexists|].
    exists []. by rewrite app_nil_r.
  - exists []. by rewrite app_nil_r.
Qed.

Lemma dead_log_is_unchanged L cs : aliveStatus L = false -> calls L cs = L.
Proof.
  intros H. induction cs as [|c cs IH]; [done|]. unfold calls in *. simpl.
  replace (call L c) with L; [done|].
  destruct L as [b i out]. simpl in H. subst b.
  destruct c; try done. simpl. unfold setTextLevel. by destruct (stringToLevel l).
Qed.

(** In every history there is an appender to log to, levels belong to tags, and the messages
    handed over so far are never taken back. *)
Lemma log_histories debug_implemented cs cs' :
  log_ok (calls (new_Log debug_implemented) cs) /\
  appended (calls (new_Log debug_implemented) cs) `prefix_of` appended (calls (new_Log debug_implemented) (cs ++ cs')).
Proof.
  split.
  - unfold calls. induction cs as [|c cs IH] using rev_ind.
    + by destruct debug_implemented.
    + rewrite foldl_app. simpl. by apply call_ok.
  - unfold calls. rewrite foldl_app. generalize (foldl call (new_Log debug_implemented) cs).
    induction cs' as [|c cs' IH]; intros L; simpl; [done|].
    etrans; [|apply IH]. destruct (call_appends L c) as (new & -> & _). by eexists.
Qed.

(** ** Trimming *)

Lemma list_find_split {A} (P : A -> Prop) `{forall x, Decision (P x)} (l : list A) :
  match list_find P l with
  | None => Forall (fun x => ~ P x) l
  | Some (i, x) => exists a b, l = a ++ x :: b /\ length a = i /\ P x /\ Forall (fun y => ~ P y) a
  end.
Proof.
  destruct (list_find P l) as [[i x]|] eqn:E; [|by apply (proj1 (list_find_None _ _))].
  apply list_find_Some in E as (Hi & Hx & Ha). exists (take i l), (drop (S i) l).
  apply lookup_lt_Some in Hi as Hlt. split_and!; [by rewrite take_drop_middle|by rewrite length_take; lia|done|].
  apply Forall_lookup. intros j y Hj. apply lookup_take_Some in Hj as [? ?]. by eapply Ha.
Qed.

(** [trim] takes white space, and all of it, from both ends. *)
Lemma trim_spec s :
  exists a b, s = a ++ trim s ++ b /\
  Forall (fun c => c ∈ whitespace) a /\ Forall (fun c => c ∈ whitespace) b /\
  (forall c, head (trim s) = Some c -> c ∉ whitespace) /\
  (forall c, last (trim s) = Some c -> c ∉ whitespace).
Proof.
  assert (forall l : text, Forall (fun c => ~ (c ∉ whitespace)) l -> Forall (fun c => c ∈ whitespace) l) as Hnn.
  { intros l Hl. eapply Forall_impl; [exact Hl|]. intros c Hc. by destruct (decide (c ∈ whitespace)). }
  unfold trim.
  pose proof (list_find_split (fun c => c ∉ whitespace) s) as Hf.
  destruct (list_find _ s) as [[first c1]|].
  2:{ exists s, []. split_and!; [by rewrite !app_nil_r|by apply Hnn|by apply Forall_nil|done|done]. }
  destruct Hf as (a & b & -> & <- & Hc1 & Ha).
  rewrite rev_app_distr.
  pose proof (list_find_split (fun c => c ∉ whitespace) (rev (c1 :: b))) as Hl.
  destruct (list_find _ (rev (c1 :: b))) as [[from_end c2]|] eqn:El.
  2:{ exfalso. rewrite Forall_forall in Hl. apply (Hl c1); [|done]. simpl. set_solver. }
  rewrite (list_find_app_l _ _ _ _ _ El). destruct Hl as (z & m & E & <- & Hc2 & Hz).
  apply (f_equal (@rev ascii)) in E. rewrite rev_involutive, rev_app_distr in E. simpl in E.
  rewrite drop_app_length, E, !length_app, !length_rev. simpl length.
  replace (_ - _ - _)%nat with (length (rev m ++ [c2])) by (rewrite length_app, length_rev; simpl; lia).
  rewrite take_app_length. exists a, (rev z). split_and!; [done|by apply Hnn| | |].
  - apply Hnn, Forall_rev, Hz.
  - intros c Hh. destruct (rev m) as [|x k]; simpl in *; injection E as -> _; by injection Hh as <-.
  - intros c. rewrite last_snoc. by intros [= <-].
Qed.

(** ** Limits *)

(** A text that is cut keeps its beginning for a positive limit and its end for a negative
    one, with an ellipsis when there is room for it. *)
Definition cut (s : text) (limit : Z) : text :=
  let k := Z.to_nat (Z.abs limit) in
  if limit <? 0
  then if (k <=? 3)%nat then drop (length s - k) s
       else ellipsis ++ drop (length s - (k - 3)) s
  else if (k <=? 3)%nat then take k s else take (k - 3) s ++ ellipsis.

Lemma limitString_spec s limit :
  Z.of_nat (length s) < 2 ^ 31 ->
  limitString s limit =
    if (limit =? 0) || (Z.of_nat (length s) <=? Z.abs limit) then s else cut s limit.
Proof.
  intros Hs. unfold limitString, cut. rewrite swrap_small by lia.
  destruct (Z.ltb_spec limit 0) as [Hl|Hl].
  - replace (limit =? 0) with false by lia. simpl.
    destruct (Z.leb_spec (Z.of_nat (length s)) (Z.abs limit)); [by replace (_ =? 0) with true by lia|].
    replace (_ =? 0) with false by lia.
    destruct (Nat.leb_spec (Z.to_nat (Z.abs limit)) 3).
    + replace (_ >? 3) with false by lia. rewrite firstn_all2; [f_equal; lia|].
      rewrite length_skipn. lia.
    + replace (_ >? 3) with true by lia. rewrite firstn_all2; [apply (f_equal (fun n => ellipsis ++ drop n s)); lia|].
      rewrite length_skipn. lia.
  - destruct (Z.gtb_spec limit 0).
    + replace (limit =? 0) with false by lia. simpl.
      destruct (Z.leb_spec (Z.of_nat (length s)) (Z.abs limit)); [by replace (_ =? Z.of_nat (length s)) with true by lia|].
      replace (_ =? Z.of_nat (length s)) with false by lia.
      destruct (Nat.leb_spec (Z.to_nat (Z.abs limit)) 3).
      * replace (_ >? 3) with false by lia. f_equal; lia.
      * replace (_ >? 3) with true by lia. f_equal. f_equal. lia.
    + by replace (limit =? 0) with true by lia.
Qed.

(** The result has the length that the limit allows, neither more nor less. *)
Lemma limitString_length s limit :
  Z.of_nat (length s) < 2 ^ 31 ->
  Z.of_nat (length (limitString s limit)) =
    if limit =? 0 then Z.of_nat (length s) else Z.min (Z.of_nat (length s)) (Z.abs limit).
Proof.
  intros Hs. rewrite limitString_spec by done. destruct (Z.eqb_spec limit 0); [done|]. simpl.
  destruct (Z.leb_spec (Z.of_nat (length s)) (Z.abs limit)); [lia|]. unfold cut.
  assert (length ellipsis = 3%nat) as He by done.
  destruct (Z.ltb_spec limit 0), (Nat.leb_spec (Z.to_nat (Z.abs limit)) 3);
    rewrite ?length_app, ?length_drop, ?length_take, ?He; lia.
Qed.

(** The fuel of [printf] is enough: what is left of a format gets shorter. *)
Lemma read_width_shorter acc fmt : (length (read_width acc fmt).2 <= length fmt)%nat.
Proof.
  revert acc. induction fmt as [|c t IH]; intros acc; simpl; [done|].
  destruct (is_digit c); simpl; [|done]. etrans; [apply IH|]. lia.
Qed.

Lemma conversion_shorter fmt arg out arg' rest :
  conversion fmt arg = Some (out, arg', rest) -> (length rest < length fmt)%nat.
Proof.
  unfold conversion.
  set (z := match fmt with [] => _ | c :: t => _ end).
  assert (length z.2 <= length fmt)%nat as Hz
    by (unfold z; destruct fmt as [|c t]; simpl; [done|]; destruct (_ =? 48); simpl; lia).
  destruct z as [zero fmt1]. simpl in Hz.
  pose proof (read_width_shorter 0 fmt1) as Hw. destruct (read_width 0 fmt1) as [width fmt2]. simpl in Hw.
  destruct fmt2 as [|c [|c' t]], arg as [[]|]; try done;
    repeat case_match; try done; intros [= _ _ <-]; simpl in *; lia.
Qed.

Lemma printf_fuel_enough f1 f2 fmt arg :
  (length fmt < f1)%nat -> (length fmt < f2)%nat -> printf_fuel f1 fmt arg = printf_fuel f2 fmt arg.
Proof.
  revert f2 fmt arg. induction f1 as [|f1 IH]; intros f2 fmt arg H1 H2; [lia|].
  destruct f2 as [|f2]; [lia|]. simpl. destruct fmt as [|c t]; [done|]. simpl in *.
  destruct (negb _); [by rewrite (IH f2) by lia|]. destruct t as [|c' t]; [done|]. simpl in *.
  destruct (_ =? 37); [by rewrite (IH f2) by lia|].
  destruct (conversion (c' :: t) arg) as [[[out arg'] rest]|] eqn:E; [|done]. simpl.
  apply conversion_shorter in E. simpl in E. by rewrite (IH f2) by lia.
Qed.

(** ** Buffers *)

(** The buffers do not limit a text: [formatv] gives all that [printf] would. *)
Lemma formatv_whole fmt arg full :
  printf fmt arg = Some full -> Z.of_nat (length full) < int_max ->
  formatv (Some fmt) arg = Some full.
Proof.
  intros E Hlen. unfold formatv. rewrite E. simpl. unfold int_max in *.
  destruct (Z.leb_spec (Z.of_nat (length full)) (2 ^ 31 - 1)); [|lia].
  destruct (Z.ltb_spec (Z.of_nat (length full)) 0); [lia|].
  destruct (Z.geb_spec (Z.of_nat (length full)) bufferSize).
  - replace (_ =? 2 ^ 31 - 1) with false by lia. by rewrite firstn_all2 by lia.
  - rewrite firstn_all2; [done|]. unfold bufferSize in *. lia.
Qed.

Section times_facts.
Context `{TimeFormat}.

Lemma strftime_fits size zone fmt t :
  negb (strftime size zone fmt t =? 0) = true <->
  strftime_text zone fmt t <> [] /\ Z.of_nat (length (strftime_text zone fmt t)) < size.
Proof.
  unfold strftime. rewrite negb_true_iff, Z.eqb_neq, <- length_zero_iff_nil.
  destruct (Z.leb_spec (Z.of_nat (length (strftime_text zone fmt t)) + 1) size); lia.
Qed.

Lemma formatTm_loop_ends fuel size zone fmt t :
  strftime_text zone fmt t <> [] -> 0 < size ->
  Z.of_nat (length (strftime_text zone fmt t)) < size * 2 ^ Z.of_nat fuel ->
  formatTm_loop (S fuel) size zone fmt t = Some (strftime_text zone fmt t).
Proof.
  intros Hne. revert size. induction fuel as [|fuel IH]; intros size Hsize Hlen.
  - simpl in *. rewrite (proj2 (strftime_fits _ _ _ _)); [done|]. split; [done|lia].
  - change (formatTm_loop (S (S fuel)) size zone fmt t) with
      (if negb (strftime size zone fmt t =? 0) then Some (strftime_text zone fmt t)
       else formatTm_loop (S fuel) (size * 2) zone fmt t).
    destruct (negb _); [done|]. apply IH; [lia|].
    replace (Z.of_nat (S fuel)) with (1 + Z.of_nat fuel) in Hlen by lia.
    rewrite Z.pow_add_r in Hlen by lia. lia.
Qed.

Lemma formatTm_loop_empty fuel size zone fmt t :
  strftime_text zone fmt t = [] -> formatTm_loop fuel size zone fmt t = None.
Proof.
  intros E. revert size. induction fuel as [|fuel IH]; intros size; [done|]. simpl.
  destruct (negb _) eqn:Ef; [|apply IH]. by apply strftime_fits in Ef as [? _].
Qed.

(** The doubling of the buffer for a time ends with the whole text, after a number of
    passes that is at most the number of bits of its length, if the text is not empty;
    for a format whose text is empty ([strftime] then returns 0 although nothing is
    missing) it never ends. *)
Theorem time_buffers_end zone fmt t :
  let full := strftime_text zone fmt t in
  (full <> [] -> forall fuel, (Z.to_nat (Z.log2 (Z.of_nat (length full))) < fuel)%nat ->
     formatTm fuel zone fmt t = Some full) /\
  (full = [] -> forall fuel, formatTm fuel zone fmt t = None).
Proof.
  simpl. split.
  - intros Hne fuel Hfuel. unfold formatTm. destruct (negb _); [done|].
    destruct fuel as [|fuel]; [lia|].
    assert (0 < Z.of_nat (length (strftime_text zone fmt t))) as Hpos
      by (destruct (strftime_text zone fmt t); [done|simpl; lia]).
    apply formatTm_loop_ends; [done|unfold bufferSize; lia|].
    pose proof (proj2 (Z.log2_spec _ Hpos)) as Hlog.
    pose proof (Z.log2_nonneg (Z.of_nat (length (strftime_text zone fmt t)))).
    rewrite Z.pow_succ_r in Hlog by done.
    assert (2 ^ Z.log2 (Z.of_nat (length (strftime_text zone fmt t))) <= 2 ^ Z.of_nat fuel)
      by (apply Z.pow_le_mono_r; lia).
    unfold bufferSize. lia.
  - intros E fuel. unfold formatTm. destruct (negb _) eqn:Ef; [|by apply formatTm_loop_empty].
    by apply strftime_fits in Ef as [? _].
Qed.

End times_facts.

(** ** The default format *)

Lemma level_named l name :
  defaultLevelNameMap !! Z.to_nat (level_value l) = Some name ->
  (length name <= 7)%nat /\ c_str name = name.
Proof. destruct l; vm_compute; intros E; inversion E; (split; [lia|done]). Qed.

Lemma printf_space s : printf (str "%s ") (Some (ArgString s)) = Some (s ++ str " ").
Proof. reflexivity. Qed.
Lemma printf_dash s : printf (str "%s - ") (Some (ArgString s)) = Some (s ++ str " - ").
Proof. reflexivity. Qed.
Lemma printf_text s : printf (str "%s") (Some (ArgString s)) = Some s.
Proof. transitivity (Some (s ++ [])); [reflexivity|by rewrite app_nil_r]. Qed.

(** Elements whose format adds a suffix to a short text. *)
Lemma formatted_suffix e s suffix :
  printf (c_str (element_format e)) (Some (ArgString s)) = Some (s ++ suffix) ->
  Z.of_nat (length s) < 2 ^ 30 -> Z.of_nat (length suffix) < 2 ^ 30 ->
  formatted e (ArgString s) = Some (s ++ suffix).
Proof.
  intros E Hs Hx. apply (formatv_whole _ _ _ E). rewrite length_app. unfold int_max. lia.
Qed.

Lemma format_three `{TimeFormat} fuel f m e1 e2 e3 :
  m_elements f = [e1; e2; e3] ->
  format fuel f m = s1 ← element_text fuel f m e1; s2 ← element_text fuel f m e2;
                    s3 ← element_text fuel f m e3; Some (s1 ++ s2 ++ s3).
Proof.
  intros E. unfold format. rewrite E. simpl.
  destruct (element_text _ _ _ e1) as [s1|]; [|done]. simpl.
  destruct (element_text _ _ _ e2) as [s2|]; [|done]. simpl.
  destruct (element_text _ _ _ e3) as [s3|]; [|done]. simpl. by rewrite app_nil_r.
Qed.

(** A logged message in the default format: level, tag (if it is not empty) and text; a
    message at level [Off] has no name. *)
Lemma default_format `{TimeFormat} fuel l t m loc :
  Z.of_nat (length t) < 2 ^ 30 -> Z.of_nat (length m) < 2 ^ 30 ->
  format fuel default_MessageFormatter (the_message l t m loc) =
    name ← defaultLevelNameMap !! Z.to_nat (level_value l);
    Some ((name ++ str " ") ++ (match c_str t with [] => [] | t' => t' ++ str " - " end) ++ c_str m).
Proof.
  intros Ht Hm. pose proof (c_str_length t). pose proof (c_str_length m).
  rewrite (format_three fuel default_MessageFormatter _ _ _ _ (eq_refl (m_elements default_MessageFormatter))).
  set (f := default_MessageFormatter). set (msg := the_message l t m loc).
  assert (element_text fuel f msg (Element_of_type ElMessage) = Some (c_str m)) as ->.
  { transitivity (Some (c_str m ++ [])); [|by rewrite app_nil_r].
    apply (formatted_suffix (Element_of_type ElMessage)); [|lia|done].
    rewrite app_nil_r. apply printf_text. }
  assert (element_text fuel f msg (MkElement ElTag (str "%s - ") 0) =
    Some (match c_str t with [] => [] | t' => t' ++ str " - " end)) as ->.
  { unfold element_text. cbn [element_type tag msg the_message].
    destruct (c_str t) as [|c t'] eqn:Et; [done|]. rewrite <- Et.
    apply (formatted_suffix (MkElement ElTag (str "%s - ") 0)); [apply printf_dash|pose proof (c_str_length t); lia|done]. }
  assert (element_text fuel f msg (MkElement ElLevel (str "%s ") 0) =
    name ← defaultLevelNameMap !! Z.to_nat (level_value l); Some (name ++ str " ")) as ->.
  { unfold element_text. cbn [element_type level msg the_message f m_levelNameMap default_MessageFormatter].
    destruct (defaultLevelNameMap !! _) as [name|] eqn:En; [|done].
    destruct (level_named _ _ En) as [Hname Hcs].
    transitivity (formatted (MkElement ElLevel (str "%s ") 0) (ArgString (c_str name))); [done|].
    rewrite Hcs. apply formatted_suffix; [apply printf_space|lia|done]. }
  by destruct (defaultLevelNameMap !! _).
Qed.

(** ** The log of Android *)

(** The parts of a message are at most 900 characters each and together the message. *)
Lemma android_chunks_join s :
  Forall (fun c => char_code c <> 0) s ->
  mjoin (android_append_in_chunks s) = s /\
  Forall (fun part => (length part <= 900)%nat) (android_append_in_chunks s).
Proof.
  intros Hs. unfold android_append_in_chunks. set (n := ((length s + (900 - 1)) / 900)%nat).
  assert ((length s <= n * 900)%nat) as Hn.
  { pose proof (Nat.div_mod (length s + (900 - 1)) 900 ltac:(lia)) as Hdm. fold n in Hdm.
    pose proof (Nat.mod_upper_bound (length s + (900 - 1)) 900 ltac:(lia)). lia. }
  split.
  - etrans; [|apply (firstn_all2 s Hn)]. clear Hn.
    match goal with |- context [?f <$> seq 0 n] => set (part := f) end.
    induction n as [|n IH]; [done|].
    assert (part n = take 900 (drop (n * 900) s)) as Hpart.
    { unfold part. rewrite c_str_whole by by apply Forall_take, Forall_drop.
      destruct (Nat.le_ge_cases (n * 900 + 900) (length s)); [f_equal; lia|].
      rewrite !firstn_all2; [done|rewrite length_drop; lia..]. }
    rewrite seq_S, fmap_app, join_app, IH. cbn [fmap list_fmap mjoin list_join Nat.add].
    rewrite app_nil_r, Hpart, take_take_drop. f_equal. lia.
  - apply Forall_fmap, Forall_forall. intros chunk _. simpl.
    etrans; [apply c_str_length|]. rewrite length_take. lia.
Qed.
