(* ===== verification/Process.v ===== *)
(** * What belongs to the process

    The context of the process ([context/Context.cpp]: a count of scopes and callbacks for
    the first and the last of them), the credentials in addresses that are logged
    ([utils/Credentials.cpp]), named settings ([network/Settings.cpp]) and the creation of
    directories ([utils/Dir.cpp]).  The callbacks of the context are named by their
    identity; the environment and the file system are parameters. *)

From Stdlib Require Import ZArith Lia Bool Ascii.
From stdpp Require Import base gmap numbers strings list option sorting.
From S2P Require Import Prelude Decimal.
Local Open Scope Z_scope.
Local Open Scope olp_scope.

(** ** The context *)

Section context.
Context {Callback : Type}.

Inductive Fired := Initialized (cb : Callback) | Deinitialized (cb : Callback).

(** The data of the context, the flag [gDeInitializing], and the callbacks called so far. *)
Record ContextData := MkContextData {
  initVector : list Callback; deinitVector : list Callback;
  contextInstanceCounter : Z; gDeInitializing : bool; fired : list Fired }.

Definition new_ContextData : ContextData := MkContextData [] [] 0 false [].

Definition initialize (d : ContextData) : ContextData :=
  MkContextData (initVector d) (deinitVector d) (contextInstanceCounter d) (gDeInitializing d)
    (fired d ++ (Initialized <$> initVector d)).

(** The flag is set during the callbacks, and cleared after them. *)
Definition deinitialize (d : ContextData) : ContextData :=
  if gDeInitializing d then d
  else MkContextData (initVector d) (deinitVector d) (contextInstanceCounter d) false
         (fired d ++ (Deinitialized <$> deinitVector d)).

Definition addInitializeCallbacks (initCallback deinitCallback : Callback) (d : ContextData) : ContextData :=
  MkContextData (initVector d ++ [initCallback]) (deinitVector d ++ [deinitCallback])
    (contextInstanceCounter d) (gDeInitializing d) (fired d).

Definition counting (n : Z) (d : ContextData) : ContextData :=
  MkContextData (initVector d) (deinitVector d) n (gDeInitializing d) (fired d).

(** The constructor and the destructor of [Scope], each under the lock of the context;
    [None] is the failed assertion. *)
Definition new_Scope (d : ContextData) : option ContextData :=
  if contextInstanceCounter d =? size_max then None
  else let d' := counting (contextInstanceCounter d + 1) d in
       Some (if contextInstanceCounter d =? 0 then initialize d' else d').
Definition delete_Scope (d : ContextData) : option ContextData :=
  if contextInstanceCounter d =? 0 then None
  else let d' := counting (contextInstanceCounter d - 1) d in
       Some (if contextInstanceCounter d - 1 =? 0 then deinitialize d' else d').

(** What the threads of the process do, one after the other. *)
Inductive ContextCall := AddCallbacks (initCallback deinitCallback : Callback) | NewScope | DeleteScope.

Definition context_call (d : ContextData) (c : ContextCall) : option ContextData :=
  match c with
  | AddCallbacks i e => Some (addInitializeCallbacks i e d)
  | NewScope => new_Scope d
  | DeleteScope => delete_Scope d
  end.

Fixpoint context_calls (d : ContextData) (cs : list ContextCall) : option ContextData :=
  match cs with
  | [] => Some d
  | c :: cs => d' ← context_call d c; context_calls d' cs
  end.

End context.
Arguments Fired : clear implicits.
Arguments ContextData : clear implicits.
Arguments ContextCall : clear implicits.

(** ** Credentials in addresses *)

Definition occurs_at (needle s : text) (p : nat) : bool :=
  bool_decide (take (length needle) (drop p s) = needle).

(** [s.find(needle, pos)] *)
Definition find (needle s : text) (pos : nat) : option nat :=
  snd <$> list_find (fun p => occurs_at needle s p = true) (seq pos (S (length s) - pos)).

Definition star : ascii := char_of 42.
Definition ampersand : text := str "&".

Definition censor_credentials_part (url : text) (arguments_start : nat) (credentials_part_name : text)
    : text :=
  match find credentials_part_name url arguments_start with
  | None => url
  | Some argument_start =>
    let value_start := (argument_start + length credentials_part_name)%nat in
    let value_end := default (length url) (find ampersand url value_start) in
    take value_start url ++ replicate (value_end - value_start) star ++ drop value_end url
  end.

Definition app_id_name : text := str "app_id=".
Definition app_code_name : text := str "app_code=".

Definition CensorCredentialsInUrl (url : text) : text :=
  match find (str "?") url 0 with
  | None => url
  | Some arguments_start_pos =>
    let url := censor_credentials_part url arguments_start_pos app_id_name in
    censor_credentials_part url arguments_start_pos app_code_name
  end.

(** ** Settings *)

(** [gSettings] and the environment of the process. *)
Abbreviation SettingsMap := (gmap text text).

(** The new settings, and the old value. *)
Definition SetValue (key value : text) (settings : SettingsMap) : SettingsMap * text :=
  (<[key := value]> settings, default [] (settings !! key)).

Definition GetEnvString (getenv : text -> option text) (settings : SettingsMap)
    (envStr default_value : text) : text :=
  match settings !! envStr with
  | Some value => value
  | None => match getenv envStr with None => default_value | Some var => var end
  end.

(** [std::atoi] of a C string; [None] is a value that is not an [int]. *)
Definition atoi (s : text) : option Z :=
  let '(neg, (n, _)) := read_number (c_str s) in
  let v := if neg then - n else n in
  if (- 2 ^ 31 <=? v) && (v <? 2 ^ 31) then Some v else None.

Definition GetEnvInt (getenv : text -> option text) (settings : SettingsMap)
    (envStr : text) (default_value : Z) : option Z :=
  match GetEnvString getenv settings envStr [] with
  | [] => Some default_value
  | value => atoi value
  end.

(** ** Directories *)

Inductive FileKind := Directory | RegularFile.

Inductive MkdirResult := MkdirDone | MkdirExists | MkdirFailed.

(** [stat] and [mkdir] of POSIX, and what is documented of them: a directory that was made
    is one, [EEXIST] means that something has the name, and nothing else changes. *)
Class FileSystem (W : Type) := {
  stat : W -> text -> option FileKind;
  mkdir : W -> text -> W * MkdirResult }.

Class FileSystemLaws (W : Type) `{FileSystem W} := {
  mkdir_made w p w' : mkdir w p = (w', MkdirDone) -> stat w' p = Some Directory;
  mkdir_exists w p w' : mkdir w p = (w', MkdirExists) -> w' = w /\ stat w p <> None;
  mkdir_failed w p w' : mkdir w p = (w', MkdirFailed) -> w' = w;
  mkdir_keeps w p w' r q : mkdir w p = (w', r) -> stat w q <> None -> stat w' q = stat w q }.

Section directories.
Context `{FileSystem W}.

Definition slash : ascii := char_of 47.

Definition Dir_exists (w : W) (path : text) : bool :=
  bool_decide (path = []) ||
  match stat w path with Some Directory => true | _ => false end.

(** The loops of [mkdir_all]: [subdir] lies between [ptr] and [end], [rest] after [end]. *)
Fixpoint mkdir_scan (w : W) (subdir rest : text) : W * bool :=
  match rest with
  | [] => let '(w', rc) := mkdir w subdir in
          (w', match rc with MkdirFailed => false | _ => true end)
  | c :: t =>
    if decide (c = slash) then
      let '(w', rc) := mkdir w subdir in
      match rc with
      | MkdirFailed => (w', false)
      | _ => match t with [] => (w', true) | _ => mkdir_scan w' (subdir ++ [c]) t end
      end
    else mkdir_scan w (subdir ++ [c]) t
  end.

Definition mkdir_all (w : W) (dirname : text) : W * bool :=
  match dirname with
  | [] => (w, true)
  | c :: t =>
    if decide (c = slash)
    then match t with [] => (w, true) | _ => mkdir_scan w [c] t end
    else mkdir_scan w [] dirname
  end.

Definition Dir_create (w : W) (path : text) : W * bool :=
  if Dir_exists w path then (w, true)
  else match stat w path with
       | Some _ => (w, true)
       | None => mkdir_all w path
       end.

Definition FileExists (w : W) (file_path : text) : bool :=
  if bool_decide (file_path = []) then false
  else match stat w file_path with Some RegularFile => true | _ => false end.

End directories.

(** ** Scopes and callbacks *)

Section context_facts.
Context {Callback : Type} `{EqDecision Callback}.
Implicit Types (d : ContextData Callback) (cs : list (ContextCall Callback)) (i e : Callback).

#[global] Instance Fired_eq_dec : EqDecision (Fired Callback).
Proof. solve_decision. Defined.

(** How often a callback is in a list, or a call was made. *)
Definition times {A} `{EqDecision A} (x : A) (l : list A) : nat := length (filter (eq x) l).

Lemma times_app {A} `{EqDecision A} (x : A) l1 l2 : times x (l1 ++ l2) = (times x l1 + times x l2)%nat.
Proof. unfold times. by rewrite filter_app, length_app. Qed.

Lemma times_fmap {A B} `{EqDecision A, EqDecision B} (f : A -> B) (x : A) l :
  Inj eq eq f -> times (f x) (f <$> l) = times x l.
Proof.
  intros Hf. unfold times. induction l as [|y l IH]; [done|]. rewrite fmap_cons, !filter_cons.
  destruct (decide (x = y)) as [->|Hne].
  - rewrite decide_True by done. cbn [length]. by rewrite IH.
  - rewrite decide_False by (intros ?%(inj f); done). done.
Qed.

Lemma times_none {A B} `{EqDecision B} (f : A -> B) (y : B) l :
  (forall x, y <> f x) -> times y (f <$> l) = 0%nat.
Proof.
  intros Hf. unfold times. induction l as [|x l IH]; [done|].
  rewrite fmap_cons, filter_cons, decide_False by done. done.
Qed.

#[local] Instance Initialized_inj : Inj eq eq (@Initialized Callback).
Proof. by intros x y [= ->]. Qed.
#[local] Instance Deinitialized_inj : Inj eq eq (@Deinitialized Callback).
Proof. by intros x y [= ->]. Qed.

(** The scopes that exist after a history. *)
Fixpoint scopes (cs : list (ContextCall Callback)) (n : Z) : Z :=
  match cs with
  | [] => n
  | NewScope :: cs => scopes cs (n + 1)
  | DeleteScope :: cs => scopes cs (n - 1)
  | AddCallbacks _ _ :: cs => scopes cs n
  end.

(** The pair of callbacks is registered once, and was initialised once more than
    deinitialised exactly while a scope exists; [late] counts the rounds in which it was
    registered too late for its initialisation. *)
Definition pair_ok i e (late : Z) d : Prop :=
  times i (initVector d) = 1%nat /\ times e (deinitVector d) = 1%nat /\
  0 <= contextInstanceCounter d <= size_max /\ gDeInitializing d = false /\
  Z.of_nat (times (Initialized i) (fired d)) + late =
    Z.of_nat (times (Deinitialized e) (fired d)) + (if contextInstanceCounter d =? 0 then 0 else 1).

Definition not_of i e (c : ContextCall Callback) : Prop :=
  match c with AddCallbacks i' e' => i' <> i /\ e' <> e | _ => True end.

Lemma pair_ok_call i e late d c d' :
  pair_ok i e late d -> not_of i e c -> context_call d c = Some d' ->
  pair_ok i e late d' /\ contextInstanceCounter d' = scopes [c] (contextInstanceCounter d).
Proof.
  intros (Hi & He & Hn & Hf & Hb) Hc. destruct c as [i' e'| |]; simpl.
  - destruct Hc as [Hi' He']. intros [= <-]. split; [|done]. unfold pair_ok. simpl.
    rewrite !times_app, Hi, He. unfold times at 1 2. rewrite !filter_cons, !decide_False by congruence. done.
  - unfold new_Scope. destruct (Z.eqb_spec (contextInstanceCounter d) size_max); [done|].
    unfold pair_ok. destruct (Z.eqb_spec (contextInstanceCounter d) 0) as [E|E]; intros [= <-]; simpl; (split; [|done]).
    + rewrite !times_app, (times_fmap Initialized i), (times_none _ (Deinitialized e)) by (typeclasses eauto || done).
      rewrite Hi. replace (_ + 1 =? 0) with false by lia. split_and!; [done..|lia|unfold size_max in *; lia|done|lia].
    + replace (_ + 1 =? 0) with false by lia. split_and!; [done..|lia|lia|done|lia].
  - unfold delete_Scope. destruct (Z.eqb_spec (contextInstanceCounter d) 0); [done|].
    unfold pair_ok, deinitialize. simpl. rewrite Hf.
    destruct (Z.eqb_spec (contextInstanceCounter d - 1) 0) as [E|E]; intros [= <-]; simpl; (split; [|done]).
    + rewrite !times_app, (times_fmap Deinitialized e), (times_none _ (Initialized i)) by (typeclasses eauto || done).
      rewrite He. replace (_ - 1 =? 0) with true by lia. split_and!; [done..|lia|lia|done|lia].
    + replace (_ - 1 =? 0) with false by lia. split_and!; [done..|lia|lia|done|lia].
Qed.

(** The pair of callbacks is not registered, and was not called. *)
Definition unregistered i e d : Prop :=
  times i (initVector d) = 0%nat /\ times e (deinitVector d) = 0%nat /\
  0 <= contextInstanceCounter d <= size_max /\ gDeInitializing d = false /\
  times (Initialized i) (fired d) = 0%nat /\ times (Deinitialized e) (fired d) = 0%nat.

Lemma unregistered_call i e d c d' :
  unregistered i e d -> not_of i e c -> context_call d c = Some d' ->
  unregistered i e d' /\ contextInstanceCounter d' = scopes [c] (contextInstanceCounter d).
Proof.
  intros (Hi & He & Hn & Hf & H1 & H2) Hc. unfold unregistered. destruct c as [i' e'| |]; simpl.
  - destruct Hc as [Hi' He']. intros [= <-]. simpl.
    rewrite !times_app, Hi, He. unfold times at 1 2. by rewrite !filter_cons, !decide_False by congruence.
  - unfold new_Scope. destruct (Z.eqb_spec (contextInstanceCounter d) size_max); [done|].
    destruct (_ =? 0); intros [= <-]; simpl; (split; [|done]); split_and!; try done; try lia;
      by rewrite times_app, ?(times_fmap Initialized i), ?(times_none _ (Deinitialized e)), ?Hi, ?H1, ?H2
        by (typeclasses eauto || done).
  - unfold delete_Scope. destruct (Z.eqb_spec (contextInstanceCounter d) 0); [done|].
    unfold deinitialize. simpl. rewrite Hf.
    destruct (_ =? 0); intros [= <-]; simpl; (split; [|done]); split_and!; try done; try lia;
      by rewrite times_app, ?(times_fmap Deinitialized e), ?(times_none _ (Initialized i)), ?He, ?H1, ?H2
        by (typeclasses eauto || done).
Qed.

(** What every call keeps, a history keeps. *)
Lemma calls_keep (P : ContextData Callback -> Prop) (good : ContextCall Callback -> Prop) cs d d' :
  (forall d c d', P d -> good c -> context_call d c = Some d' ->
     P d' /\ contextInstanceCounter d' = scopes [c] (contextInstanceCounter d)) ->
  P d -> Forall good cs -> context_calls d cs = Some d' ->
  P d' /\ contextInstanceCounter d' = scopes cs (contextInstanceCounter d).
Proof.
  intros Hstep Hd Hcs. revert d Hd.
  induction Hcs as [|c cs Hc _ IH]; intros d Hd; simpl; [by intros [= <-]|].
  destruct (context_call d c) as [d1|] eqn:E; simpl; [|done]. intros E'.
  destruct (Hstep _ _ _ Hd Hc E) as [Hd1 Hn].
  destruct (IH _ Hd1 E') as [? ->]. split; [done|]. rewrite Hn. by destruct c.
Qed.

(** The callbacks that are registered with the context alternate.  In every history of
    scopes of the process that fails no assertion, the counter is the number of scopes that
    exist; a pair of callbacks registered while there is none has been initialised exactly once more than
    deinitialised while a scope exists, and equally often when none does; a pair registered
    while a scope exists is short of one initialisation from then on. *)
Theorem context_callbacks_alternate i e cs1 cs2 d :
  Forall (not_of i e) cs1 -> Forall (not_of i e) cs2 ->
  context_calls new_ContextData (cs1 ++ AddCallbacks i e :: cs2) = Some d ->
  contextInstanceCounter d = scopes (cs1 ++ cs2) 0 /\
  Z.of_nat (times (Initialized i) (fired d)) + (if scopes cs1 0 =? 0 then 0 else 1) =
    Z.of_nat (times (Deinitialized e) (fired d)) + (if scopes (cs1 ++ cs2) 0 =? 0 then 0 else 1).
Proof.
  intros H1 H2 E.
  assert (forall cs cs' d, context_calls d (cs ++ cs') = d1 ← context_calls d cs; context_calls d1 cs') as Happ.
  { intros cs cs'. induction cs as [|c cs IH]; intros d0; simpl; [done|].
    destruct (context_call d0 c); simpl; [apply IH|done]. }
  assert (forall cs cs' n, scopes (cs ++ cs') n = scopes cs' (scopes cs n)) as Hscopes.
  { intros cs cs'. induction cs as [|[] cs IH]; intros n; simpl; auto. }
  rewrite Happ in E. destruct (context_calls new_ContextData cs1) as [d1|] eqn:E1; [|done]. simpl in E.
  destruct (calls_keep (unregistered i e) (not_of i e) cs1 new_ContextData d1)
    as [(Hi & He & Hn & Hf & Hf1 & Hf2) Hc]; [apply unregistered_call|done..|].
  destruct (calls_keep (pair_ok i e (if contextInstanceCounter d1 =? 0 then 0 else 1)) (not_of i e) cs2
    (addInitializeCallbacks i e d1) d) as [(_ & _ & _ & _ & Hb) Hcount]; [apply pair_ok_call| |done..|].
  { unfold pair_ok. simpl. rewrite !times_app, Hi, He, Hf1, Hf2. unfold times.
    rewrite !filter_cons, !decide_True by done. done. }
  simpl in Hcount. simpl in Hc. rewrite Hscopes, <- Hc, <- Hcount. done.
Qed.

End context_facts.

Lemma context_callbacks_alternate_witness :
  exists d, context_calls new_ContextData
    ([NewScope; AddCallbacks 1%nat 2%nat; NewScope; DeleteScope] ++
     [AddCallbacks 3%nat 4%nat; DeleteScope; NewScope]) = Some d /\
  fired d = [Deinitialized 2%nat; Deinitialized 4%nat; Initialized 1%nat; Initialized 3%nat] /\
  Z.of_nat (times (Initialized 3%nat) (fired d)) + 1 = Z.of_nat (times (Deinitialized 4%nat) (fired d)) + 1.
Proof.
  eexists. split; [reflexivity|]. split; [reflexivity|].
  refine (proj2 (context_callbacks_alternate 3%nat 4%nat
    [NewScope; AddCallbacks 1%nat 2%nat; NewScope; DeleteScope] [DeleteScope; NewScope] _ _ _ _)).
  - repeat constructor; done.
  - repeat constructor.
  - reflexivity.
Defined.

(** ** What the censoring hides *)

(** An occurrence, character by character. *)
Lemma occurs_at_spec needle s p :
  occurs_at needle s p = true <->
  forall j c, needle !! j = Some c -> s !! (p + j)%nat = Some c.
Proof.
  unfold occurs_at. rewrite bool_decide_eq_true. split.
  - intros E j c Hj. rewrite <- E, lookup_take_Some, lookup_drop in Hj. by destruct Hj.
  - intros Hall. apply list_eq. intros j. destruct (needle !! j) as [c|] eqn:E.
    + apply lookup_take_Some. rewrite lookup_drop. split; [by apply Hall|by apply lookup_lt_Some in E].
    + apply lookup_take_None. right. by apply lookup_ge_None in E.
Qed.

Lemma occurs_at_bound needle s p :
  needle <> [] -> occurs_at needle s p = true -> (p + length needle <= length s)%nat.
Proof.
  intros Hne. rewrite occurs_at_spec. intros Hall.
  destruct (needle !! (length needle - 1)%nat) as [c|] eqn:E.
  - apply Hall, lookup_lt_Some in E as ?. apply lookup_lt_Some in E. lia.
  - apply lookup_ge_None in E. destruct needle; [done|simpl in *; lia].
Qed.

(** [find] gives the first occurrence from the position on. *)
Lemma find_spec needle s pos p :
  needle <> [] ->
  find needle s pos = Some p <->
  (pos <= p)%nat /\ occurs_at needle s p = true /\
  forall q, (pos <= q < p)%nat -> occurs_at needle s q = false.
Proof.
  intros Hne. unfold find. rewrite fmap_Some. split.
  - intros ([k p'] & (Hk & Hp & Hbefore)%list_find_Some & ->). simpl.
    apply lookup_seq in Hk as [-> ?]. split_and!; [lia|done|]. intros q Hq.
    apply not_true_is_false, (Hbefore (q - pos)%nat q); [|lia]. apply lookup_seq. lia.
  - intros (Hpos & Hp & Hbefore). exists ((p - pos)%nat, p). split; [|done].
    apply list_find_Some. pose proof (occurs_at_bound _ _ _ Hne Hp). split_and!; [apply lookup_seq; lia|done|].
    intros j q [-> ?]%lookup_seq ?. rewrite Hbefore by lia. done.
Qed.

Lemma find_none needle s pos :
  needle <> [] ->
  find needle s pos = None <-> forall q, (pos <= q)%nat -> occurs_at needle s q = false.
Proof.
  intros Hne. split.
  - unfold find. intros E%fmap_None%list_find_None q Hq. destruct (occurs_at needle s q) eqn:Eq; [|done].
    pose proof (occurs_at_bound _ _ _ Hne Eq). rewrite Forall_forall in E.
    exfalso. apply (E q); [|done]. apply elem_of_seq. lia.
  - intros Hall. destruct (find needle s pos) as [p|] eqn:E; [|done].
    apply find_spec in E as (? & Hp & _); [|done]. by rewrite Hall in Hp.
Qed.

(** The value of a parameter: it starts at [vs] and ends before the next ampersand, or with the address. *)
Definition value_end (url : text) (vs : nat) : nat := default (length url) (find ampersand url vs).

(** A position is in the value that starts at [vs]: no ampersand is between them. *)
Definition in_value (url : text) (vs x : nat) : Prop :=
  (vs <= x < length url)%nat /\ forall y, (vs <= y <= x)%nat -> url !! y <> Some (char_of 38).

Lemma occurs_ampersand url p : occurs_at ampersand url p = true <-> url !! p = Some (char_of 38).
Proof.
  rewrite occurs_at_spec. split.
  - intros Hall. rewrite <- (Nat.add_0_r p). by apply Hall.
  - intros E [|j] c; [intros [= <-]; by rewrite Nat.add_0_r|by destruct j].
Qed.

Lemma value_end_spec url vs x :
  (vs <= x < value_end url vs)%nat /\ (x < length url)%nat <-> in_value url vs x.
Proof.
  unfold value_end, in_value. destruct (find ampersand url vs) as [e|] eqn:E; simpl.
  - apply find_spec in E as (He & Hamp & Hbefore); [|done]. apply occurs_ampersand in Hamp. split.
    + intros [Hx Hlen]. split; [lia|]. intros y Hy Ey%occurs_ampersand.
      rewrite Hbefore in Ey by lia. done.
    + intros [Hx Hno]. split; [|lia]. split; [lia|]. apply Nat.nle_gt. intros Hle.
      by apply (Hno e); [lia|].
  - rewrite find_none in E by done. split; [|lia].
    intros [Hx Hlen]. split; [lia|]. intros y Hy Ey%occurs_ampersand. rewrite E in Ey by lia. done.
Qed.

Lemma value_end_le url vs : (value_end url vs <= length url)%nat.
Proof.
  unfold value_end. destruct (find ampersand url vs) as [e|] eqn:E; simpl; [|done].
  apply find_spec in E as (_ & Hamp & _); [|done]. apply occurs_at_bound in Hamp; [simpl in Hamp; lia|done].
Qed.

Lemma value_end_ge url vs : (vs <= length url)%nat -> (vs <= value_end url vs)%nat.
Proof.
  unfold value_end. destruct (find ampersand url vs) as [e|] eqn:E; simpl; [|done].
  by apply find_spec in E as (? & _); [|done].
Qed.

(** What one pass does, position by position. *)
Lemma censor_part_lookup url start name x :
  name <> [] ->
  (forall p, find name url start = Some p -> in_value url (p + length name) x ->
     censor_credentials_part url start name !! x = Some star) /\
  ((forall p, find name url start = Some p -> ~ in_value url (p + length name) x) ->
     censor_credentials_part url start name !! x = url !! x).
Proof.
  intros Hne. unfold censor_credentials_part. destruct (find name url start) as [p|] eqn:E; [|by split; [|]].
  apply find_spec in E as (_ & Hp & _); [|done]. apply occurs_at_bound in Hp; [|done].
  set (vs := (p + length name)%nat) in *. fold (value_end url vs).
  pose proof (value_end_le url vs). pose proof (value_end_ge url vs Hp).
  split.
  - intros ? [= <-]. fold vs. intros [Hx Hlen]%value_end_spec.
    rewrite lookup_app_r by (rewrite length_take; lia).
    rewrite lookup_app_l by (rewrite length_replicate, length_take; lia).
    apply lookup_replicate. split; [done|]. rewrite length_take. lia.
  - intros Hno. specialize (Hno p eq_refl). fold vs in Hno. rewrite <- value_end_spec in Hno.
    destruct (decide (x < vs)%nat).
    + rewrite lookup_app_l by (rewrite length_take; lia). by apply lookup_take_lt.
    + rewrite lookup_app_r by (rewrite length_take; lia).
      destruct (decide (x < length url)%nat).
      * rewrite lookup_app_r by (rewrite length_replicate, length_take; lia).
        rewrite lookup_drop, length_replicate, length_take. f_equal. lia.
      * rewrite !lookup_ge_None_2; [done|lia|].
        rewrite !length_app, length_replicate, length_drop, length_take. lia.
Qed.

(** One pass changes characters of values of its parameter into asterisks, and nothing
    else. *)
Definition censored_from (name : text) (start : nat) (url url' : text) : Prop :=
  forall x, url' !! x = url !! x \/
    url' !! x = Some star /\ exists p, find name url start = Some p /\ in_value url (p + length name) x.

Lemma in_value_dec url vs x : in_value url vs x \/ ~ in_value url vs x.
Proof.
  destruct (decide (vs <= x < value_end url vs)%nat), (decide (x < length url)%nat);
    rewrite <- value_end_spec; tauto.
Qed.

Lemma censor_part_changes url start name :
  name <> [] -> censored_from name start url (censor_credentials_part url start name).
Proof.
  intros Hne x. destruct (censor_part_lookup url start name x Hne) as [Hin Hout].
  destruct (find name url start) as [p|] eqn:E; [|left; by apply Hout].
  destruct (in_value_dec url (p + length name) x) as [Hv|Hv].
  - right. split; [by eapply Hin|]. by exists p.
  - left. apply Hout. by intros ? [= <-].
Qed.

Section censored.
Context (url url' name : text) (start : nat) (Hc : censored_from name start url url').

Lemma censored_length : length url' = length url.
Proof.
  apply Nat.le_antisymm; apply Nat.nlt_ge; intros Hlt.
  - destruct (url' !! length url) as [c|] eqn:E; [|apply lookup_ge_None in E; lia].
    destruct (Hc (length url)) as [E'|[_ (p & _ & [? _])]]; [|lia].
    rewrite (lookup_ge_None_2 url) in E' by lia. congruence.
  - destruct (Hc (length url')) as [E'|[E' _]]; rewrite (lookup_ge_None_2 url') in E' by lia; [|done].
    symmetry in E'. apply lookup_ge_None in E'. lia.
Qed.

Lemma censored_ampersand x : url' !! x = Some (char_of 38) <-> url !! x = Some (char_of 38).
Proof.
  destruct (Hc x) as [->|[-> (p & _ & [? Hno])]]; [done|]. split; [done|].
  intros E. exfalso. by apply (Hno x); [lia|].
Qed.

Lemma censored_value vs x : in_value url' vs x <-> in_value url vs x.
Proof.
  unfold in_value. rewrite censored_length.
  split; intros [? Hno]; (split; [done|]); intros y Hy E; by apply (Hno y), censored_ampersand.
Qed.

Lemma censored_occurs needle p :
  star ∉ needle -> occurs_at needle url' p = true -> occurs_at needle url p = true.
Proof.
  rewrite !occurs_at_spec. intros Hs Hall j c Hj.
  destruct (Hc (p + j)%nat) as [<-|[E _]]; [by apply Hall|].
  rewrite (Hall _ _ Hj) in E. injection E as ->. by apply list_elem_of_lookup_2 in Hj.
Qed.

(** A value either keeps its place or was in the value that was censored. *)
Lemma censored_find needle p x :
  needle <> [] -> star ∉ needle -> char_of 38 ∉ needle ->
  find needle url start = Some p -> in_value url (p + length needle) x ->
  find needle url' start = Some p \/
  exists p', find name url start = Some p' /\ in_value url (p' + length name) x.
Proof.
  intros Hne Hs Hamp (Hp & Hocc & Hbefore)%find_spec [Hx Hno]; [|done].
  destruct (occurs_at needle url' p) eqn:E.
  { left. apply find_spec; [done|]. split_and!; [done..|]. intros q Hq.
    apply not_true_is_false. intros ?%censored_occurs; [|done]. by rewrite Hbefore in H. }
  right. assert (exists j, (p <= j < p + length needle)%nat /\ url' !! j <> url !! j) as (j & Hj & Hdiff).
  { apply not_true_iff_false in E.
    destruct (decide (Exists (fun j => url' !! (p + j)%nat <> url !! (p + j)%nat) (seq 0 (length needle)))) as [Hex|Hall].
    - apply Exists_exists in Hex as (j & Hj%elem_of_seq & ?). exists (p + j)%nat. split; [lia|done].
    - exfalso. apply E, occurs_at_spec. intros j c Hj. apply not_Exists_Forall in Hall; [|tc_solve].
      rewrite Forall_forall in Hall. apply lookup_lt_Some in Hj as ?.
      assert (j ∈ seq 0 (length needle)) as Hin by (apply elem_of_seq; lia).
      specialize (Hall j Hin). apply dec_stable in Hall. rewrite Hall.
      by apply (proj1 (occurs_at_spec _ _ _) Hocc). }
  destruct (Hc j) as [?|[_ (p' & Hp' & [Hj' Hno'])]]; [done|].
  exists p'. split; [done|]. split; [lia|]. intros y Hy.
  destruct (decide (y <= j)%nat); [apply Hno'; lia|].
  destruct (decide (y < p + length needle)%nat); [|apply Hno; lia].
  intros Ey. apply Hamp. destruct (needle !! (y - p)%nat) as [c|] eqn:Ec.
  - pose proof (proj1 (occurs_at_spec _ _ _) Hocc _ _ Ec) as Ey'.
    replace (p + (y - p))%nat with y in Ey' by lia. rewrite Ey in Ey'. injection Ey' as <-.
    by apply list_elem_of_lookup_2 in Ec.
  - apply lookup_ge_None in Ec. lia.
Qed.

End censored.

Lemma censored_keeps_star name start url url' x :
  censored_from name start url url' -> url !! x = Some star -> url' !! x = Some star.
Proof. intros Hc E. by destruct (Hc x) as [->|[-> _]]. Qed.

(** The values of the credentials of an address with its first question mark at [q]. *)
Definition is_credential (name : text) : Prop := name = app_id_name \/ name = app_code_name.

Definition has_value (url : text) (q : nat) (name : text) (x : nat) : Prop :=
  exists p, (q <= p)%nat /\ occurs_at name url p = true /\ in_value url (p + length name) x.

(** C39. The address that is logged does not show the first value of [app_id=] nor that of [app_code=] behind
    the first question mark: each of their characters, up to the next ampersand or the
    end, is an asterisk, also where one of them lies in the other.  The length stays the
    same, a character changes only into an asterisk and only in the value of a credential,
    and an address without a question mark is not changed. *)
Theorem credentials_hidden url :
  length (CensorCredentialsInUrl url) = length url /\
  (find (str "?") url 0 = None -> CensorCredentialsInUrl url = url) /\
  (forall q, find (str "?") url 0 = Some q ->
    (forall name p x, is_credential name -> find name url q = Some p ->
       in_value url (p + length name) x -> CensorCredentialsInUrl url !! x = Some star) /\
    (forall x, CensorCredentialsInUrl url !! x = url !! x \/
       CensorCredentialsInUrl url !! x = Some star /\
       exists name, is_credential name /\ has_value url q name x)).
Proof.
  unfold CensorCredentialsInUrl. destruct (find (str "?") url 0) as [q|] eqn:Eq; [|by split_and!].
  set (url1 := censor_credentials_part url q app_id_name).
  set (url2 := censor_credentials_part url1 q app_code_name).
  assert (censored_from app_id_name q url url1) as H1 by by apply censor_part_changes.
  assert (censored_from app_code_name q url1 url2) as H2 by by apply censor_part_changes.
  split; [by rewrite (censored_length _ _ _ _ H2), (censored_length _ _ _ _ H1)|].
  split; [done|]. intros q0 [= <-]. split.
  - intros name p x [-> | ->] Hp Hx.
    + apply (censored_keeps_star _ _ _ _ _ H2). by eapply censor_part_lookup.
    + assert (star ∉ app_code_name /\ char_of 38 ∉ app_code_name) as [Hs Ha]
        by (split; apply (bool_decide_unpack _); done).
      destruct (censored_find _ _ _ _ H1 app_code_name p x) as [Hf|(p' & Hp' & Hv)]; try done.
      * eapply censor_part_lookup; [done|exact Hf|]. by apply (censored_value _ _ _ _ H1).
      * apply (censored_keeps_star _ _ _ _ _ H2). by eapply censor_part_lookup.
  - intros x. destruct (H2 x) as [->|[E (p & Hp & Hv)]].
    + destruct (H1 x) as [->|[E (p & (? & ? & _)%find_spec & ?)]]; [by left|right|done].
      split; [done|]. exists app_id_name. split; [by left|by exists p].
    + right. split; [done|]. exists app_code_name. split; [by right|]. exists p.
      apply find_spec in Hp as (Hp & Ho & _); [|done].
      split_and!; [done| |by apply (censored_value _ _ _ _ H1)].
      eapply (censored_occurs _ _ _ _ H1); [|exact Ho]. apply (bool_decide_unpack _). done.
Qed.

Definition example_url : text := str "http://x?a=1&app_id=secret&app_code=other".

Lemma credentials_hidden_witness :
  CensorCredentialsInUrl example_url = str "http://x?a=1&app_id=******&app_code=*****" /\
  CensorCredentialsInUrl example_url !! 40%nat = Some star.
Proof.
  split; [reflexivity|].
  destruct (credentials_hidden example_url) as (_ & _ & H).
  apply (proj1 (H 8%nat eq_refl) app_code_name 27%nat 40%nat); [by right|reflexivity|].
  apply value_end_spec. vm_compute. lia.
Defined.

(** Only the first occurrence of a name counts, and it may be the end of another name: then
    the credential itself is shown. *)
Example credential_shown_after_longer_name :
  CensorCredentialsInUrl (str "http://x?my_app_id=1&app_id=secret") =
    str "http://x?my_app_id=*&app_id=secret".
Proof. reflexivity. Qed.
Example credential_shown_when_repeated :
  CensorCredentialsInUrl (str "http://x?app_id=a&app_id=secret") = str "http://x?app_id=*&app_id=secret".
Proof. reflexivity. Qed.

(** ** Settings *)

(** A value that was set is found, whatever the environment says, and [SetValue] returns
    the one before; other settings stay. *)
Lemma settings_set getenv key value settings other default_value :
  let '(settings', old) := SetValue key value settings in
  GetEnvString getenv settings' key default_value = value /\
  old = default [] (settings !! key) /\
  (other <> key ->
   GetEnvString getenv settings' other default_value = GetEnvString getenv settings other default_value).
Proof.
  unfold SetValue, GetEnvString. rewrite lookup_insert_eq. split_and!; [done..|].
  intros Hne. by rewrite lookup_insert_ne.
Qed.

(** The default of a number is for a setting that is missing or empty: text that is no
    number is 0. *)
Lemma number_settings getenv settings key n default_value :
  in_range 31 n ->
  (GetEnvString getenv settings key [] = [] -> GetEnvInt getenv settings key default_value = Some default_value) /\
  (GetEnvString getenv settings key [] = print_u64 n -> GetEnvInt getenv settings key default_value = Some n) /\
  (GetEnvString getenv settings key [] = str "off" -> GetEnvInt getenv settings key default_value = Some 0).
Proof.
  intros Hn. unfold GetEnvInt. split_and!; intros ->; [done| |reflexivity].
  assert (in_range 64 n) as Hn64 by (by apply (in_range_mono 31 64); [lia|]).
  assert (atoi (print_u64 n) = Some n) as E.
  { unfold atoi. unfold in_range in Hn. rewrite c_str_print_u64, read_number_print_u64 by (done || lia).
    destruct (Z.leb_spec (- 2 ^ 31) n), (Z.ltb_spec n (2 ^ 31)); done || lia. }
  destruct (dec_digits_head 20 n) as (c & s & Ep & _); [lia|apply Hn|].
  unfold print_u64 in *. by rewrite Ep in *.
Qed.

(** ** Directories *)

Section directories_facts.
Context `{FileSystemLaws W}.
Implicit Types (w : W) (path : text).

(** A step of [mkdir_all] keeps what exists and, unless it fails, leaves its name in use. *)
Lemma mkdir_step w p w' r :
  mkdir w p = (w', r) ->
  (forall q, stat w q <> None -> stat w' q = stat w q) /\
  (r <> MkdirFailed -> stat w' p <> None).
Proof.
  intros E. split; [intros q; by eapply mkdir_keeps|]. intros Hr. destruct r; [| |done].
  - by rewrite (mkdir_made _ _ _ E).
  - by destruct (mkdir_exists _ _ _ E) as [-> ?].
Qed.

(** The names that [mkdir_scan] makes: up to each slash in [rest], and the whole unless it
    ends with a slash. *)
Fixpoint names_of (subdir rest : text) : list text :=
  match rest with
  | [] => [subdir]
  | c :: t => if decide (c = slash)
              then subdir :: match t with [] => [] | _ => names_of (subdir ++ [c]) t end
              else names_of (subdir ++ [c]) t
  end.

Lemma mkdir_scan_spec w subdir rest w' ok :
  mkdir_scan w subdir rest = (w', ok) ->
  (forall q, stat w q <> None -> stat w' q = stat w q) /\
  (ok = true -> Forall (fun p => stat w' p <> None) (names_of subdir rest)).
Proof.
  revert w subdir. induction rest as [|c t IH]; intros w subdir; simpl.
  - destruct (mkdir w subdir) as [w1 r] eqn:E. intros [= <- <-].
    destruct (mkdir_step _ _ _ _ E) as [Hk Hs]. split; [done|]. intros Hok.
    apply Forall_singleton, Hs. by destruct r.
  - destruct (decide (c = slash)); [|apply IH].
    destruct (mkdir w subdir) as [w1 r] eqn:E. destruct (mkdir_step _ _ _ _ E) as [Hk Hs].
    assert (r = MkdirFailed /\ (w1, false) = (w', ok) \/ r <> MkdirFailed /\
      match t with [] => (w1, true) | _ => mkdir_scan w1 (subdir ++ [c]) t end = (w', ok) ->
      (forall q, stat w q <> None -> stat w' q = stat w q) /\
      (ok = true -> Forall (fun p => stat w' p <> None)
        (subdir :: match t with [] => [] | _ => names_of (subdir ++ [c]) t end))) as Hcases.
    { intros [[_ [= <- <-]]|[Hr Es]]; [done|]. specialize (Hs Hr). destruct t as [|c' t].
      - injection Es as <- <-. split; [done|]. intros _. by apply Forall_singleton.
      - apply IH in Es as [Hk' Hall]. split.
        + intros q Hq. by rewrite Hk', Hk by (rewrite ?Hk by done; done).
        + intros Hok. apply Forall_cons. split; [by rewrite Hk'|by apply Hall]. }
    intros E'. apply Hcases. destruct r; [right|right|left]; done.
Qed.

(** When [Dir::create] succeeds for a path that does not end with a slash, something has its
    name; [mkdir_all] made or found every name on the way.  What existed is not changed. *)
Lemma created_paths_exist w path w' :
  Dir_create w path = (w', true) -> path <> [] -> last path <> Some slash ->
  stat w' path <> None /\ (forall q, stat w q <> None -> stat w' q = stat w q).
Proof.
  assert (forall rest subdir, last (subdir ++ rest) <> Some slash -> subdir ++ rest ∈ names_of subdir rest) as Hnames.
  { induction rest as [|c t IH]; intros subdir Hl; simpl; [rewrite app_nil_r; set_solver|].
    destruct (decide (c = slash)) as [->|].
    - destruct t as [|c' t]; [by rewrite last_snoc in Hl|].
      rewrite cons_middle, app_assoc in Hl |- *. apply elem_of_cons. right. by apply IH.
    - rewrite cons_middle, app_assoc in Hl |- *. by apply IH. }
  unfold Dir_create. intros E Hne Hl. destruct (Dir_exists w path) eqn:Ee.
  { injection E as <-. split; [|done]. unfold Dir_exists in Ee. rewrite bool_decide_false in Ee by done.
    simpl in Ee. by destruct (stat w path). }
  destruct (stat w path) eqn:Es; [injection E as <-; split; [by rewrite Es|done]|].
  assert (exists subdir rest, path = subdir ++ rest /\ mkdir_scan w subdir rest = (w', true)) as (s & r & -> & E1).
  { unfold mkdir_all in E. destruct path as [|c t]; [done|]. destruct (decide (c = slash)) as [->|].
    - destruct t as [|c' t]; [done|]. by exists [slash], (c' :: t).
    - by exists [], (c :: t). }
  apply mkdir_scan_spec in E1 as [Hk Hall]. split; [|done].
  specialize (Hall eq_refl). rewrite Forall_forall in Hall. by apply Hall, Hnames.
Qed.

(** A file with the name of the directory is taken for it. *)
Lemma create_takes_a_file w path :
  stat w path = Some RegularFile -> path <> [] -> Dir_create w path = (w, true) /\ Dir_exists w path = false.
Proof.
  intros E Hne. unfold Dir_create, Dir_exists. rewrite E, bool_decide_false by done. done.
Qed.

End directories_facts.

(** A file system in memory fulfils the laws. *)
#[export] Instance memory_FileSystem : FileSystem (gmap text FileKind) := {|
  stat w p := w !! p;
  mkdir w p := match w !! p with
               | Some _ => (w, MkdirExists)
               | None => (<[p := Directory]> w, MkdirDone)
               end |}.

#[export] Instance memory_FileSystemLaws : FileSystemLaws (gmap text FileKind).
Proof.
  split; simpl; intros w p w'; destruct (w !! p) as [k|] eqn:E; try done.
  - intros [= <-]. by rewrite lookup_insert_eq.
  - by intros [= <-].
  - by intros r q [= <- <-].
  - intros r q [= <- <-] Hq. rewrite lookup_insert_ne; congruence.
Qed.

Example directories_are_created :
  let '(w, ok) := Dir_create (∅ : gmap text FileKind) (str "/a//b/c") in
  ok = true /\ stat w (str "/a") = Some Directory /\ Dir_exists w (str "/a//b/c") = true.
Proof. vm_compute. done. Qed.
